(** * Australian Bureau of Statistics demographic analysis: a shallow embedding

    The development follows the two Python programs of the repository:

    - [Project1]: [main], [match_age_to_group] and [parse_area_data]
      (age-bucket matching, SA3 mean and sample standard deviation,
      per-state winning SA3, Pearson correlation of two SA2 rows);
    - [Project2]: [read_area_file], [read_population_file], [clean_data],
      [create_area_lookup], [output_OP1], [calculate_sample_sd],
      [output_OP2], [cosine_similarity], [output_OP3] and [main].

    Modelling conventions.

    - Python [int] is [Z]; Python [str] is [string] over 7-bit ASCII text
      ([strip], [lower], [isdigit] are the ASCII versions of the Python
      methods).
    - Python [float] is idealised as a real number: every float operation
      is the exact operation on [R], [x ** 0.5] is [sqrt x] (its arguments
      are sums of squares here) and [round(x, 4)] is rounding half to even
      at the fourth decimal.  Rounding error and underflow of binary64
      are outside the model.  In Project 1 the operations that raise
      [OverflowError] out of the range of a float are modelled: the
      conversion of an int operand, the division of two ints and the
      square of a float.  The properties that depend on the value of a
      float are stated for counts that a float holds exactly (at most
      2^53 in absolute value), or for smaller ones where the statement
      says so.
    - A Python [dict] keeps insertion order, and several loops iterate over
      dicts, so a dict is an association list with distinct keys in
      insertion order ([dset] overwrites in place or appends).
    - A raised exception is a value [Raise e] of the result type [res];
      a [try]/[except] is a match on it.
    - A file is the list of its lines; a file that cannot be opened or
      decoded is outside the model, and so are arguments of other types
      than the ones above (an age that is not an integer, a code that is
      not a string). *)

From Stdlib Require Import List String Ascii ZArith Bool Lia.
From Stdlib Require Import Permutation Sorted.
From Stdlib Require Import Reals Lra Zfloor.
Import ListNotations.

Local Open Scope Z_scope.

(* ------------------------------------------------------------------ *)
(** ** Exceptions *)

Inductive exn : Type :=
| ValueError
| IndexError
| KeyError
| TypeError
| ZeroDivisionError
| OverflowError.

Inductive res (A : Type) : Type :=
| Ok (a : A)
| Raise (e : exn).

Arguments Ok {A} a.
Arguments Raise {A} e.

Definition bind {A B : Type} (m : res A) (k : A -> res B) : res B :=
  match m with
  | Ok a => k a
  | Raise e => Raise e
  end.

Notation "x <- m ;; k" := (bind m (fun x => k))
  (at level 61, m at next level, right associativity).

Fixpoint mapM {A B : Type} (f : A -> res B) (l : list A) : res (list B) :=
  match l with
  | [] => Ok []
  | a :: l' => b <- f a ;; bs <- mapM f l' ;; Ok (b :: bs)
  end.

(** A loop that threads a state and stops at the first exception. *)
Fixpoint foldM {A B : Type} (f : A -> B -> res A) (l : list B) (a : A) : res A :=
  match l with
  | [] => Ok a
  | b :: l' => a' <- f a b ;; foldM f l' a'
  end.

Definition of_option {A : Type} (e : exn) (o : option A) : res A :=
  match o with
  | Some a => Ok a
  | None => Raise e
  end.

Definition swap {A B : Type} (p : A * B) : B * A := (snd p, fst p).

Definition is_some {A : Type} (o : option A) : bool :=
  match o with Some _ => true | None => false end.

(* ------------------------------------------------------------------ *)
(** ** Python string methods (ASCII) *)

Module PyStr.

Definition code (c : ascii) : N := N_of_ascii c.

(** [str.isspace] on one ASCII character: TAB, LF, VT, FF, CR, the four
    separators FS..US and the space. *)
Definition is_space (c : ascii) : bool :=
  ((9 <=? code c) && (code c <=? 13) ||
   (28 <=? code c) && (code c <=? 32))%N.

Definition is_digit (c : ascii) : bool :=
  ((48 <=? code c) && (code c <=? 57))%N.

Definition lower_char (c : ascii) : ascii :=
  if ((65 <=? code c) && (code c <=? 90))%N
  then ascii_of_N (code c + 32) else c.

Fixpoint lower (s : string) : string :=
  match s with
  | EmptyString => EmptyString
  | String c s' => String (lower_char c) (lower s')
  end.

Fixpoint lstrip (s : string) : string :=
  match s with
  | EmptyString => EmptyString
  | String c s' => if is_space c then lstrip s' else s
  end.

Fixpoint rstrip (s : string) : string :=
  match s with
  | EmptyString => EmptyString
  | String c s' =>
      match rstrip s' with
      | EmptyString => if is_space c then EmptyString else String c EmptyString
      | t => String c t
      end
  end.

Definition strip (s : string) : string := rstrip (lstrip s).

Fixpoint all_chars (p : ascii -> bool) (s : string) : bool :=
  match s with
  | EmptyString => true
  | String c s' => p c && all_chars p s'
  end.

(** [str.isdigit]: non-empty and made of digits only. *)
Definition isdigit (s : string) : bool :=
  match s with
  | EmptyString => false
  | _ => all_chars is_digit s
  end.

(** ["".join(c for c in s if p c)] *)
Fixpoint filter_chars (p : ascii -> bool) (s : string) : string :=
  match s with
  | EmptyString => EmptyString
  | String c s' => if p c then String c (filter_chars p s') else filter_chars p s'
  end.

(** [s.split(sep)] for a one-character separator: never empty. *)
Fixpoint split (sep : ascii) (s : string) : list string :=
  match s with
  | EmptyString => [EmptyString]
  | String c s' =>
      if Ascii.eqb c sep then EmptyString :: split sep s'
      else match split sep s' with
           | [] => [String c EmptyString]
           | w :: ws => String c w :: ws
           end
  end.

(** [sub in s] *)
Fixpoint contains (sub s : string) : bool :=
  String.prefix sub s ||
  match s with
  | EmptyString => false
  | String _ s' => contains sub s'
  end.

Definition digit_value (c : ascii) : Z := Z.of_N (code c) - 48.

(** The body of a decimal literal: digits, single underscores allowed
    between two digits.  [prev] tells whether the previous character was
    a digit; [acc] is the value read so far. *)
Fixpoint int_body (s : string) (prev : bool) (acc : Z) : option Z :=
  match s with
  | EmptyString => if prev then Some acc else None
  | String c s' =>
      if is_digit c then int_body s' true (10 * acc + digit_value c)
      else if Ascii.eqb c "_" then
             if prev then int_body s' false acc else None
           else None
  end.

(** [int(s)] on a string: surrounding whitespace, an optional sign, then
    a decimal literal; anything else raises [ValueError]. *)
Definition int (s : string) : res Z :=
  match strip s with
  | String "-" body =>
      match int_body body false 0 with
      | Some v => Ok (- v)
      | None => Raise ValueError
      end
  | String "+" body => of_option ValueError (int_body body false 0)
  | body => of_option ValueError (int_body body false 0)
  end.

(** [int(x.strip() or 0)]: an empty cell counts as 0. *)
Definition int_or_zero (x : string) : res Z :=
  match strip x with
  | EmptyString => Ok 0
  | t => int t
  end.

Fixpoint len (s : string) : Z :=
  match s with
  | EmptyString => 0
  | String _ s' => 1 + len s'
  end.

(** [s.replace(old, new)] for a non-empty [old]: the occurrences are
    replaced from left to right without overlap.  [skip] counts the
    characters of a replaced occurrence still to be dropped. *)
Fixpoint replace_from (old new : string) (skip : nat) (s : string) : string :=
  match s with
  | EmptyString => EmptyString
  | String c s' =>
      match skip with
      | S k => replace_from old new k s'
      | O =>
          if String.prefix old s
          then (new ++ replace_from old new (String.length old - 1) s')%string
          else String c (replace_from old new O s')
      end
  end.

Definition replace (old new s : string) : string := replace_from old new 0 s.

End PyStr.

(* ------------------------------------------------------------------ *)
(** ** Python dicts with string keys, in insertion order *)

Definition dict (V : Type) : Type := list (string * V).

Section Dict.
Context {V : Type}.

Fixpoint dget (k : string) (d : dict V) : option V :=
  match d with
  | [] => None
  | (k', v) :: d' => if String.eqb k k' then Some v else dget k d'
  end.

(** [d[k] = v] *)
Fixpoint dset (k : string) (v : V) (d : dict V) : dict V :=
  match d with
  | [] => [(k, v)]
  | (k', v') :: d' =>
      if String.eqb k k' then (k', v) :: d' else (k', v') :: dset k v d'
  end.

(** [k in d] *)
Definition dmem (k : string) (d : dict V) : bool :=
  match dget k d with Some _ => true | None => false end.

(** [d.get(k, default)] *)
Definition dget_or (default : V) (k : string) (d : dict V) : V :=
  match dget k d with Some v => v | None => default end.

(** [d[k]] *)
Definition dsub (k : string) (d : dict V) : res V :=
  of_option KeyError (dget k d).

Definition dkeys (d : dict V) : list string := map fst d.
Definition dvalues (d : dict V) : list V := map snd d.

End Dict.

(** [dict(pairs)]: later pairs overwrite earlier ones with the same key. *)
Definition dict_of {V : Type} (pairs : list (string * V)) : dict V :=
  fold_left (fun d kv => dset (fst kv) (snd kv) d) pairs [].

(** [x in l] for a list (or a set) of strings *)
Definition str_in (x : string) (l : list string) : bool :=
  existsb (String.eqb x) l.

(* ------------------------------------------------------------------ *)
(** ** [sorted] / [list.sort] on strings, [set] *)

Fixpoint insert_sorted (x : string) (l : list string) : list string :=
  match l with
  | [] => [x]
  | y :: l' => if String.leb x y then x :: l else y :: insert_sorted x l'
  end.

Definition sort_strings (l : list string) : list string :=
  fold_right insert_sorted [] l.

(** [sorted(set(l))] *)
Definition sorted_set (l : list string) : list string :=
  sort_strings (nodup string_dec l).

(** The orders of [str] comparison, as propositions. *)
Definition lt_str (a b : string) : Prop := String.ltb a b = true.
Definition le_str (a b : string) : Prop := String.leb a b = true.

Definition Zsum (l : list Z) : Z := fold_left Z.add l 0.

(* ------------------------------------------------------------------ *)
(** ** Float operations, idealised on [R] *)

Definition Reqb (x y : R) : bool := if Req_dec_T x y then true else false.
Definition Rltb (x y : R) : bool := if Rlt_dec x y then true else false.

(** [x / y] on floats (or the true division of two ints). *)
Definition truediv (x y : R) : res R :=
  if Reqb y 0 then Raise ZeroDivisionError else Ok (x / y)%R.

(** Nearest integer, ties to the even one. *)
Definition round_half_even (x : R) : Z :=
  let f := Zfloor x in
  let d := (x - IZR f)%R in
  if Rltb d (1 / 2) then f
  else if Rltb (1 / 2) d then f + 1
  else if Z.even f then f else f + 1.

(** [round(x, 4)] *)
Definition round4 (x : R) : R :=
  (IZR (round_half_even (x * 10000)) / 10000)%R.

Definition Rsum (l : list R) : R := fold_left Rplus l 0%R.

(** [a / b] for two ints whose quotient is in the range of a float
    (Project 2 divides a count by a sum that contains it). *)
Definition int_truediv (a b : Z) : res R :=
  if b =? 0 then Raise ZeroDivisionError else Ok (IZR a / IZR b)%R.

(** [x / b] for a float and an int that is a length *)
Definition float_div_int (x : R) (b : Z) : res R :=
  if b =? 0 then Raise ZeroDivisionError else Ok (x / IZR b)%R.

(** *** The range of a float

    An int converts to a float when it rounds to a finite one, that is
    when its absolute value is below 2^1024 - 2^970, half-way between the
    largest float and 2^1024; the quotient of two ints and a square are
    floats under the same condition.  Beyond it Python raises
    [OverflowError]. *)
Definition float_limit : Z := 2 ^ 1024 - 2 ^ 970.

(** The int operand of a float operation, as [x] in [x - mean]:
    "int too large to convert to float". *)
Definition float_of_int (x : Z) : res R :=
  if Z.abs x <? float_limit then Ok (IZR x) else Raise OverflowError.

(** [a / b] for two ints: "integer division result too large for a
    float" when the quotient is out of the range. *)
Definition true_divide (a b : Z) : res R :=
  if b =? 0 then Raise ZeroDivisionError
  else if Z.abs a <? float_limit * Z.abs b then Ok (IZR a / IZR b)%R
  else Raise OverflowError.

(** [d ** 2] for a float: "Numerical result out of range". *)
Definition float_square (d : R) : res R :=
  if Rltb (d * d) (IZR float_limit) then Ok (d ^ 2)%R else Raise OverflowError.

(** [(x - mean) ** 2] for an int and a float *)
Definition squared_deviation (mean : R) (x : Z) : res R :=
  fx <- float_of_int x ;;
  float_square (fx - mean).

(** [(x - mean1) * (y - mean2)] for two ints and two floats *)
Definition centred_product (mean1 mean2 : R) (xy : Z * Z) : res R :=
  fx <- float_of_int (fst xy) ;;
  fy <- float_of_int (snd xy) ;;
  Ok ((fx - mean1) * (fy - mean2))%R.

(** A float holds the count exactly: at most 2^53 in absolute value. *)
Definition float_exact (x : Z) : Prop := Z.abs x <= 2 ^ 53.

Definition float_exactb (x : Z) : bool := Z.abs x <=? 2 ^ 53.

(** A count of at most 10^6 in absolute value.  A float rounds the mean
    of such counts by about 10^-10 at most, so that the deviations from
    it lose nothing that shows in the statistics. *)
Definition small_count (x : Z) : Prop := Z.abs x <= 10 ^ 6.

(** [len(l)] *)
Definition list_len {A : Type} (l : list A) : Z := Z.of_nat (List.length l).

(** [columns[i]] *)
Definition cell (columns : list string) (i : nat) : res string :=
  of_option IndexError (nth_error columns i).

(** [l.index(x)] *)
Fixpoint index_of (x : string) (l : list string) : option nat :=
  match l with
  | [] => None
  | y :: l' => if String.eqb x y then Some O else option_map S (index_of x l')
  end.

(* ------------------------------------------------------------------ *)
(** ** The statistics as the specification words them *)

(** Arithmetic mean of a list of counts. *)
Definition mean (xs : list Z) : R :=
  (IZR (fold_right Z.add 0%Z xs) / IZR (list_len xs))%R.

(** Sum of the squared deviations from the mean. *)
Definition sum_sq_dev (xs : list Z) : R :=
  fold_right (fun (x : Z) (acc : R) =>
                ((IZR x - mean xs) * (IZR x - mean xs) + acc)%R) 0%R xs.

(** Sample standard deviation: divisor n - 1. *)
Definition sample_sd (xs : list Z) : R :=
  sqrt (sum_sq_dev xs / (IZR (list_len xs) - 1))%R.

(** All the entries of a vector are equal (zero variance). *)
Definition constant (l : list Z) : bool :=
  match l with
  | [] => true
  | x :: t => forallb (Z.eqb x) t
  end.

(* ------------------------------------------------------------------ *)
(** ** Sums used to state the properties of the vector operations *)

(** The dot product of two vectors, over the length of the shorter. *)
Definition dot_product (l1 l2 : list R) : R :=
  fold_right (fun p acc => (fst p * snd p + acc)%R) 0%R (combine l1 l2).

(** The sum of the squares of a vector. *)
Definition sum_squares (l : list R) : R :=
  fold_right (fun x acc => (x * x + acc)%R) 0%R l.

(** The three sums of the Cauchy-Schwarz inequality on a list of pairs. *)
Definition sxx (l : list (R * R)) : R :=
  fold_right (fun p acc => (fst p * fst p + acc)%R) 0%R l.

Definition syy (l : list (R * R)) : R :=
  fold_right (fun p acc => (snd p * snd p + acc)%R) 0%R l.

Definition sxy (l : list (R * R)) : R :=
  fold_right (fun p acc => (fst p * snd p + acc)%R) 0%R l.

(** The pairs of deviations from the two means. *)
Definition centred (m1 m2 : R) (d1 d2 : list Z) : list (R * R) :=
  map (fun xy => ((IZR (fst xy) - m1)%R, (IZR (snd xy) - m2)%R)) (combine d1 d2).

(** An entry of a vector whose square, and whose product with another
    such entry, is well inside the range of a float: zero, or from
    10^-100 to 10^100 in absolute value. *)
Definition moderate (x : R) : Prop :=
  x = 0%R \/ (/ 10 ^ 100 <= Rabs x <= 10 ^ 100)%R.

(** The last pair of the key, as [dict(pairs)] keeps it. *)
Definition last_value {V : Type} (k : string) (pairs : list (string * V)) : option V :=
  option_map snd (find (fun kv => String.eqb k (fst kv)) (rev pairs)).

(* ================================================================== *)
(** * Project 1 *)

Module Project1.
Import PyStr.

(** ** [match_age_to_group] *)

Definition keep_range_char (c : ascii) : bool :=
  is_digit c || Ascii.eqb c "-".

(** ["85 and over" in label.lower()] *)
Definition open_ended (label : string) : bool :=
  contains "85 and over" (lower label).

(** The closed range read off a label: the digits and dashes of the
    label, split at the dashes, must be two digit strings. *)
Definition parse_range (label : string) : option (Z * Z) :=
  let range_clean := filter_chars keep_range_char label in
  let bounds := split "-" range_clean in
  match bounds with
  | [b0; b1] =>
      if isdigit b0 && isdigit b1 then
        match int b0, int b1 with
        | Ok low, Ok high => Some (low, high)
        | _, _ => None      (* except: continue *)
        end
      else None
  | _ => None
  end.

(** The test the loop body makes on one label: [Some true] for the
    open-ended match, [Some false] for a closed-range match, [None] when
    the loop goes on to the next label. *)
Definition label_match (age : Z) (label : string) : option bool :=
  if open_ended label then
    if 85 <=? age then Some true else None
  else
    match parse_range label with
    | Some (low, high) =>
        if (low <=? age) && (age <=? high) then Some false else None
    | None => None
    end.

Fixpoint match_age_to_group (age : Z) (age_group_labels : list string)
  : option string * bool :=
  match age_group_labels with
  | [] => (None, false)
  | label :: rest =>
      match label_match age label with
      | Some flag => (Some label, flag)
      | None => match_age_to_group age rest
      end
  end.

(** A label matches an age when the loop body returns at it. *)
Definition matches (age : Z) (label : string) : bool :=
  match label_match age label with Some _ => true | None => false end.

Definition match_count (age : Z) (labels : list string) : nat :=
  List.length (filter (matches age) labels).

(** The labels cover every non-negative age. *)
Definition covers (labels : list string) : Prop :=
  forall a, 0 <= a -> exists l, In l labels /\ matches a l = true.

(** The bucket a label stands for, as the loop reads it. *)
Inductive bucket : Type :=
| OpenFrom (low : Z)
| Closed (low high : Z).

Definition bucket_of (label : string) : option bucket :=
  if open_ended label then Some (OpenFrom 85)
  else match parse_range label with
       | Some (low, high) => Some (Closed low high)
       | None => None
       end.

Definition in_bucket (age : Z) (b : bucket) : bool :=
  match b with
  | OpenFrom low => low <=? age
  | Closed low high => (low <=? age) && (age <=? high)
  end.

Definition overlap (b1 b2 : bucket) : bool :=
  match b1, b2 with
  | OpenFrom _, OpenFrom _ => true
  | OpenFrom l1, Closed l2 h2 => (l2 <=? h2) && (l1 <=? h2)
  | Closed l1 h1, OpenFrom l2 => (l1 <=? h1) && (l2 <=? h1)
  | Closed l1 h1, Closed l2 h2 => Z.max l1 l2 <=? Z.min h1 h2
  end.

Definition labels_overlap (l1 l2 : string) : bool :=
  match bucket_of l1, bucket_of l2 with
  | Some b1, Some b2 => overlap b1 b2
  | _, _ => false
  end.

Fixpoint pairwise_disjoint (labels : list string) : bool :=
  match labels with
  | [] => true
  | l :: rest =>
      forallb (fun l' => negb (labels_overlap l l')) rest && pairwise_disjoint rest
  end.

(** ** [parse_area_data] *)

Record area_maps : Type := {
  sa2_to_sa3 : dict string;
  sa3_to_state : dict string;
  sa3_to_name : dict string;
  state_to_sa3_map : dict (list string)
}.

Definition empty_maps : area_maps :=
  {| sa2_to_sa3 := []; sa3_to_state := []; sa3_to_name := [];
     state_to_sa3_map := [] |}.

(** The four cells an area row contributes (lines 281-287): [None] for a
    row of fewer than five fields. *)
Record area_entry : Type := {
  entry_state : string;     (* fields[1].strip().lower() *)
  entry_sa3 : string;       (* fields[2].strip() *)
  entry_name : string;      (* fields[3].strip().lower() *)
  entry_sa2 : string        (* fields[4].strip() *)
}.

Definition area_fields (line : string) : option area_entry :=
  match split "," line with
  | _ :: f1 :: f2 :: f3 :: f4 :: _ =>
      Some {| entry_state := lower (strip f1);
              entry_sa3 := strip f2;
              entry_name := lower (strip f3);
              entry_sa2 := strip f4 |}
  | _ => None   (* len(fields) < 5 *)
  end.

(** Lines 293-296: the four dict updates. *)
Definition add_entry (m : area_maps) (e : area_entry) : area_maps :=
  {| sa2_to_sa3 := dset (entry_sa2 e) (entry_sa3 e) (sa2_to_sa3 m);
     sa3_to_state := dset (entry_sa3 e) (entry_state e) (sa3_to_state m);
     sa3_to_name := dset (entry_sa3 e) (entry_name e) (sa3_to_name m);
     state_to_sa3_map :=
       dset (entry_state e)
            (dget_or [] (entry_state e) (state_to_sa3_map m) ++ [entry_sa3 e])
            (state_to_sa3_map m) |}.

(** One iteration of the loop over [area_lines[1:]]; the second component
    is [seen_sa2_codes]. *)
Definition parse_area_line (st : area_maps * list string) (line : string)
  : area_maps * list string :=
  match area_fields line with
  | None => st
  | Some e =>
      if str_in (entry_sa2 e) (snd st) then st
      else (add_entry (fst st) e, entry_sa2 e :: snd st)
  end.

(** The loop, before the per-state lists are deduplicated and sorted. *)
Definition parse_area_rows (rows : list string) : area_maps * list string :=
  fold_left parse_area_line rows (empty_maps, []).

Definition sort_state_lists (m : area_maps) : area_maps :=
  {| sa2_to_sa3 := sa2_to_sa3 m;
     sa3_to_state := sa3_to_state m;
     sa3_to_name := sa3_to_name m;
     state_to_sa3_map :=
       map (fun kv => (fst kv, sorted_set (snd kv))) (state_to_sa3_map m) |}.

Definition parse_area_data (area_lines : list string) : area_maps :=
  sort_state_lists (fst (parse_area_rows (tl area_lines))).

(** The rows the loop keeps: the well-formed rows whose SA2 code was not
    seen in an earlier well-formed row. *)
Fixpoint retained_from (seen : list string) (rows : list string) : list area_entry :=
  match rows with
  | [] => []
  | line :: rest =>
      match area_fields line with
      | None => retained_from seen rest
      | Some e =>
          if str_in (entry_sa2 e) seen then retained_from seen rest
          else e :: retained_from (entry_sa2 e :: seen) rest
      end
  end.

Definition retained (area_lines : list string) : list area_entry :=
  retained_from [] (tl area_lines).

(** The retained rows give every SA3 code a single state. *)
Definition one_state_per_sa3 (es : list area_entry) : Prop :=
  forall e1 e2, In e1 es -> In e2 es ->
                entry_sa3 e1 = entry_sa3 e2 -> entry_state e1 = entry_state e2.

(** An area file in which one SA3 code is listed under two states. *)
Definition straddling_area_file : list string :=
  ["S_T code,S_T name,SA3 code,SA3 name,SA2 code,SA2 name";
   "1,New South Wales,10102,Queanbeyan,101021007,Braidwood";
   "8,Australian Capital Territory,10102,Queanbeyan,801011001,Hall"]%string.

(** ** [main], output 1: bounds of the five-year age group *)

Fixpoint age_bounds_loop (target_age : Z) (lowers : list Z)
  : option Z * option Z :=
  match lowers with
  | [] => (None, None)
  | lower :: rest =>
      let upper := lower + 4 in
      if (lower <=? target_age) && (target_age <=? upper)
         || (lower =? 85) && (85 <=? target_age)
      then (Some lower, if lower =? 85 then None else Some upper)
      else age_bounds_loop target_age rest
  end.

(** [range(0, 90, 5)] *)
Definition range_0_90_5 : list Z := map (fun i => 5 * Z.of_nat i) (seq 0 18).

(** ** [main], output 2: SA3 mean and sample standard deviation *)

(** One iteration of the loop that collects [age_group_counts]. *)
Definition count_step (same_sa3_sa2s : list string) (age_group_index : nat)
    (age_group_counts : list Z) (line : string) : list Z :=
  let columns := split "," line in
  let attempt : res (option Z) :=
    c0 <- cell columns 0 ;;
    let sa2 := strip c0 in
    if str_in sa2 same_sa3_sa2s then
      c <- cell columns (age_group_index + 2) ;;
      age_value <- int_or_zero c ;;
      Ok (Some age_value)
    else Ok None in
  match attempt with
  | Ok (Some age_value) => age_group_counts ++ [age_value]
  | Ok None => age_group_counts
  | Raise _ => age_group_counts ++ [0]
  end.

(** Lines 129-138: [(mean_value, std_dev)] before rounding.  No [try]
    protects these lines: an [OverflowError] of the division of line 130
    or of a squared deviation of line 133 leaves [main]. *)
Definition group_statistics (age_group_counts : list Z) : res (R * R) :=
  match age_group_counts with
  | [] => Ok (0%R, 0%R)
  | _ :: _ =>
      let n := list_len age_group_counts in
      mean_value <- true_divide (Zsum age_group_counts) n ;;
      if 1 <? n then
        squares <- mapM (squared_deviation mean_value) age_group_counts ;;
        variance <- float_div_int (Rsum squares) (n - 1) ;;
        Ok (mean_value, sqrt variance)
      else Ok (mean_value, 0%R)
  end.

(** The pair [round(mean_value, 4), round(std_dev, 4)] of line 141. *)
Definition rounded_statistics (age_group_counts : list Z) : res (R * R) :=
  st <- group_statistics age_group_counts ;;
  Ok (round4 (fst st), round4 (snd st)).

Definition sa3_stat (m : area_maps) (data_lines : list string)
    (age_group_index : nat) (sa2_code : string) : res (string * R * R) :=
  match dget sa2_code (sa2_to_sa3 m) with
  | None => Ok (sa2_code, 0%R, 0%R)
  | Some EmptyString => Ok (sa2_code, 0%R, 0%R)
  | Some sa3_code =>
      let same_sa3_sa2s :=
        map fst (filter (fun kv => String.eqb (snd kv) sa3_code) (sa2_to_sa3 m)) in
      let age_group_counts :=
        fold_left (count_step same_sa3_sa2s age_group_index) data_lines [] in
      st <- rounded_statistics age_group_counts ;;
      Ok (sa3_code, fst st, snd st)
  end.

(** ** [main], output 3: the SA3 with the largest target-age count per state *)

(** One iteration of the aggregation loop; the state is
    [(sa3_age_group_total, sa3_population_total)]. *)
Definition aggregate_step (m : area_maps) (age_group_index : nat)
    (st : dict Z * dict Z) (line : string) : dict Z * dict Z :=
  let columns := split "," line in
  let attempt : res (option (string * Z * Z)) :=
    c0 <- cell columns 0 ;;
    let sa2 := strip c0 in
    match dget sa2 (sa2_to_sa3 m) with
    | None => Ok None
    | Some EmptyString => Ok None
    | Some sa3 =>
        c <- cell columns (age_group_index + 2) ;;
        age_count <- int_or_zero c ;;
        cells <- mapM int_or_zero
                   (filter (fun x => isdigit (strip x)) (skipn 2 columns)) ;;
        Ok (Some (sa3, age_count, Zsum cells))
    end in
  match attempt with
  | Ok (Some (sa3, age_count, total_pop)) =>
      (dset sa3 (dget_or 0 sa3 (fst st) + age_count) (fst st),
       dset sa3 (dget_or 0 sa3 (snd st) + total_pop) (snd st))
  | _ => st
  end.

(** One iteration of the search over the SA3s of a state; the state is
    [(max_sa3, max_age_count)].  Comparing a string with [None] raises
    [TypeError]. *)
Definition max_step (sa3_age_group_total : dict Z)
    (st : option string * Z) (sa3 : string) : res (option string * Z) :=
  let '(max_sa3, max_age_count) := st in
  let age_total := dget_or 0 sa3 sa3_age_group_total in
  if max_age_count <? age_total then Ok (Some sa3, age_total)
  else if age_total =? max_age_count then
    match max_sa3 with
    | None => Raise TypeError
    | Some best => if String.ltb sa3 best then Ok (Some sa3, age_total) else Ok st
    end
  else Ok st.

Definition find_state_max (sa3_age_group_total : dict Z) (sa3s : list string)
  : res (option string * Z) :=
  foldM (max_step sa3_age_group_total) sa3s (None, -1).

(** The target-age count of an SA3: [sa3_age_group_total.get(sa3, 0)]. *)
Definition sa3_total (totals : dict Z) (k : string) : Z := dget_or 0 k totals.

(** [b] is in [p], holds the largest count, and is the least code among
    those that hold it. *)
Definition best_of (totals : dict Z) (p : list string) (b : string) : Prop :=
  In b p /\ forall k, In k p ->
    sa3_total totals k <= sa3_total totals b /\
    (sa3_total totals k = sa3_total totals b -> le_str b k).

(** No cell of the data lines is a negative number (the data model's
    population >= 0). *)
Definition cells_nonneg (data_lines : list string) : Prop :=
  forall line c v,
    In line data_lines -> In c (split "," line) -> int_or_zero c = Ok v -> 0 <= v.

(** The integer part of output 3: per state, the winner, its count and
    the total population of the winner. *)
Definition state_winner (m : area_maps) (totals : dict Z * dict Z)
    (state : string) : res (string * option string * Z * Z) :=
  sa3s <- dsub state (state_to_sa3_map m) ;;
  w <- find_state_max (fst totals) sa3s ;;
  let total :=
    match fst w with
    | Some max_sa3 => dget_or 0 max_sa3 (snd totals)
    | None => 0
    end in
  Ok (state, fst w, snd w, total).

Definition state_row (m : area_maps) (w : string * option string * Z * Z)
  : res (string * string * R) :=
  let '(state, max_sa3, max_age_count, total) := w in
  proportion <-
    (if total =? 0 then Ok 0%R else true_divide max_age_count total) ;;
  let name :=
    match max_sa3 with
    | Some s => dget_or EmptyString s (sa3_to_name m)
    | None => EmptyString
    end in
  Ok (state, name, round4 proportion).

Definition sa3_totals (m : area_maps) (data_lines : list string)
    (age_group_index : nat) : dict Z * dict Z :=
  fold_left (aggregate_step m age_group_index) data_lines ([], []).

Definition state_winners (m : area_maps) (data_lines : list string)
    (age_group_index : nat) : res (list (string * option string * Z * Z)) :=
  mapM (state_winner m (sa3_totals m data_lines age_group_index))
       (sort_strings (dkeys (state_to_sa3_map m))).

Definition output3 (m : area_maps) (data_lines : list string)
    (age_group_index : nat) : res (list (string * string * R)) :=
  ws <- state_winners m data_lines age_group_index ;;
  mapM (state_row m) ws.

(** ** [main], output 4: Pearson correlation of the two SA2 rows *)

(** One iteration of the extraction loop; the state is
    [(age_dist_1, age_dist_2)]. *)
Definition extract_step (sa2_code_1 sa2_code_2 : string)
    (st : option (list Z) * option (list Z)) (line : string)
  : res (option (list Z) * option (list Z)) :=
  let columns := split "," line in
  c0 <- cell columns 0 ;;
  let sa2 := strip c0 in
  age_dist_1 <-
    (if String.eqb sa2 sa2_code_1
     then d <- mapM int_or_zero (skipn 2 columns) ;; Ok (Some d)
     else Ok (fst st)) ;;
  age_dist_2 <-
    (if String.eqb sa2 sa2_code_2
     then d <- mapM int_or_zero (skipn 2 columns) ;; Ok (Some d)
     else Ok (snd st)) ;;
  Ok (age_dist_1, age_dist_2).

Definition extract_distributions (data_lines : list string)
    (sa2_code_1 sa2_code_2 : string)
  : res (option (list Z) * option (list Z)) :=
  foldM (extract_step sa2_code_1 sa2_code_2) data_lines (None, None).

(** [not age_dist]: [None] or the empty list. *)
Definition falsy (age_dist : option (list Z)) : bool :=
  match age_dist with
  | None => true
  | Some [] => true
  | Some (_ :: _) => false
  end.

(** The terms of the three sums of lines 213-214 when every count
    converts and no square overflows. *)
Definition centred_products (mean1 mean2 : R) (xs ys : list Z) : list R :=
  map (fun xy => ((IZR (fst xy) - mean1) * (IZR (snd xy) - mean2))%R)
      (combine xs ys).

Definition squared_deviations (mean : R) (xs : list Z) : list R :=
  map (fun x => ((IZR x - mean) ^ 2)%R) xs.

(** Lines 200-215, from the two extracted distributions.  The
    [OverflowError] of a division, of a count that does not convert or
    of a square is caught by the [except] of line 216. *)
Definition correlation_of (age_dist_1 age_dist_2 : option (list Z)) : res R :=
  match age_dist_1, age_dist_2 with
  | Some d1, Some d2 =>
      if falsy age_dist_1 || falsy age_dist_2
         || negb (list_len d1 =? list_len d2)
      then Ok 0%R
      else
        let n := list_len d1 in
        mean1 <- true_divide (Zsum d1) n ;;
        mean2 <- true_divide (Zsum d2) n ;;
        if forallb (fun x => Reqb (IZR x) mean1) d1
           || forallb (fun y => Reqb (IZR y) mean2) d2
        then Ok 0%R
        else
          products <- mapM (centred_product mean1 mean2) (combine d1 d2) ;;
          squares1 <- mapM (squared_deviation mean1) d1 ;;
          squares2 <- mapM (squared_deviation mean2) d2 ;;
          let numerator := Rsum products in
          let denominator := sqrt (Rsum squares1 * Rsum squares2) in
          q <- (if Reqb denominator 0 then Ok 0%R
                else truediv numerator denominator) ;;
          Ok (round4 q)
  | _, _ => Ok 0%R
  end.

Definition output4 (data_lines : list string) (sa2_code_1 sa2_code_2 : string)
  : res R :=
  ds <- extract_distributions data_lines sa2_code_1 sa2_code_2 ;;
  correlation_of (fst ds) (snd ds).

(** ** [main] *)

Record output : Type := {
  age_bounds : option Z * option Z;
  sa3_stats : list (string * R * R);
  state_max_sa3 : list (string * string * R);
  correlation : R
}.

Definition valid_sa2_code (sa2_code : string) : bool :=
  isdigit (strip sa2_code) && (len (strip sa2_code) =? 9).

(** [[line.strip() for line in file if line.strip()]] *)
Definition read_lines (file : list string) : list string :=
  filter (fun l => negb (String.eqb l EmptyString)) (map strip file).

(** What steps 1 to 6 hand to the four outputs. *)
Record prepared : Type := {
  code_1 : string;
  code_2 : string;
  data_lines : list string;          (* population_lines[1:] *)
  age_group_index : nat;
  maps : area_maps
}.

(** Steps 1 to 6; [None] when [main] prints an error and returns [None].
    [target_age] is the value of [int(target_age)]; the two files are
    given by their lines. *)
Definition prepare (area_file population_file : list string)
    (target_age : Z) (sa2_code_1 sa2_code_2 : string) : option prepared :=
  if target_age <? 0 then None
  else if negb (valid_sa2_code sa2_code_1) then None
  else if negb (valid_sa2_code sa2_code_2) then None
  else
    let area_lines := read_lines area_file in
    let population_lines := read_lines population_file in
    if (list_len area_lines <? 2) || (list_len population_lines <? 2) then None
    else
      let header_columns := split "," (hd EmptyString population_lines) in
      let age_group_labels := map strip (skipn 2 header_columns) in
      match match_age_to_group target_age age_group_labels with
      | (None, _) => None
      | (Some age_group_label, _) =>
          match index_of age_group_label age_group_labels with
          | None => None
          | Some i =>
              Some {| code_1 := strip sa2_code_1;
                      code_2 := strip sa2_code_2;
                      data_lines := tl population_lines;
                      age_group_index := i;
                      maps := parse_area_data area_lines |}
          end
      end.

(** [Ok None] is the [return None] after a printed error, [Raise] an
    exception that leaves [main]. *)
Definition main (area_file population_file : list string)
    (target_age : Z) (sa2_code_1 sa2_code_2 : string) : res (option output) :=
  match prepare area_file population_file target_age sa2_code_1 sa2_code_2 with
  | None => Ok None
  | Some p =>
      let bounds := age_bounds_loop target_age range_0_90_5 in
      stats <- mapM (sa3_stat (maps p) (data_lines p) (age_group_index p))
                    [code_1 p; code_2 p] ;;
      match output3 (maps p) (data_lines p) (age_group_index p) with
      | Raise _ => Ok None
      | Ok rows =>
          match output4 (data_lines p) (code_1 p) (code_2 p) with
          | Raise _ => Ok None
          | Ok c =>
              Ok (Some {| age_bounds := bounds; sa3_stats := stats;
                          state_max_sa3 := rows; correlation := c |})
          end
      end
  end.

(** The row of [code] is present among the data lines. *)
Definition row_present (code : string) (data_lines : list string) : bool :=
  existsb (fun line =>
             String.eqb (strip (hd EmptyString (split "," line))) code)
          data_lines.

(** One of the degenerate inputs of the correlation step: a row is
    absent, the lengths differ, or a vector is constant. *)
Definition degenerate (age_dist_1 age_dist_2 : option (list Z)) : bool :=
  match age_dist_1, age_dist_2 with
  | Some d1, Some d2 =>
      negb (list_len d1 =? list_len d2) || constant d1 || constant d2
  | _, _ => true
  end.

(** ** Example labels *)

Definition five_year_labels : list string :=
  ["Age 0-4"; "Age 5-24"; "Age 25-29"; "Age 30-84"; "Age 85 and over"]%string.

(** Labels that cover every age but overlap. *)
Definition overlapping_labels : list string :=
  ["0-50"; "40-84"; "85 and over"]%string.

(** ** Example files *)

Definition area_file_example : list string :=
  ["S_T code,S_T name,SA3 code,SA3 name,SA2 code,SA2 name";
   "4,South Australia,40101,Adelaide City,401011001,Adelaide";
   "4,south australia,40101,adelaide city,401011002,North Adelaide"]%string.

Definition population_file_example : list string :=
  ["Area_Code_Level2,Area_Name_Level2,Age 0-4,Age 5-9,Age 25-29,Age 85 and over";
   "401011001,Adelaide,5,5,5,5";
   "401011002,North Adelaide,1,2,3,4"]%string.

(** ** What the loops of [main] read off a data line *)

(** The age-group labels of the population header (Step 4). *)
Definition header_labels (population_file : list string) : list string :=
  map strip (skipn 2 (split "," (hd EmptyString (read_lines population_file)))).

(** The SA2 code of a data line: [columns[0].strip()]. *)
Definition line_code (line : string) : string :=
  strip (hd EmptyString (split "," line)).

(** [int(columns[age_group_index + 2].strip() or 0)] *)
Definition target_cell (age_group_index : nat) (line : string) : res Z :=
  c <- cell (split "," line) (age_group_index + 2) ;; int_or_zero c.

(** The count Output 2 appends for a line: 0 when the cell is missing or
    is not a number. *)
Definition count_or_zero (age_group_index : nat) (line : string) : Z :=
  match target_cell age_group_index line with
  | Ok v => v
  | Raise _ => 0
  end.

(** [[int(x.strip() or 0) for x in columns[2:]]] *)
Definition row_values (line : string) : res (list Z) :=
  mapM int_or_zero (skipn 2 (split "," line)).

(** The last data line of the given code, if any. *)
Definition last_row (code : string) (data_lines : list string) : option string :=
  find (fun line => String.eqb (line_code line) code) (rev data_lines).

(** [d] is the distribution of the last row of the code, [None] when the
    code has no row. *)
Definition taken_from (code : string) (data_lines : list string)
    (d : option (list Z)) : Prop :=
  match last_row code data_lines with
  | Some line => exists v, row_values line = Ok v /\ d = Some v
  | None => d = None
  end.

(** The SA3 code of an SA2 as Outputs 2 and 3 find it: [None] when
    [sa2_to_sa3.get(sa2)] is falsy. *)
Definition sa3_of (m : area_maps) (sa2_code : string) : option string :=
  match dget sa2_code (sa2_to_sa3 m) with
  | None => None
  | Some EmptyString => None
  | Some sa3_code => Some sa3_code
  end.

(** The SA2 codes of an SA3. *)
Definition sa2s_of (m : area_maps) (sa3_code : string) : list string :=
  map fst (filter (fun kv => String.eqb (snd kv) sa3_code) (sa2_to_sa3 m)).




Definition state_of_row (r : string * string * R) : string := fst (fst r).
Definition code_of_stat (r : string * R * R) : string := fst (fst r).

(** The counts of an extracted distribution are held exactly by a float. *)
Definition exact_counts (age_dist : option (list Z)) : Prop :=
  match age_dist with
  | Some d => Forall float_exact d
  | None => True
  end.

Definition exact_countsb (age_dist : option (list Z)) : bool :=
  match age_dist with
  | Some d => forallb float_exactb d
  | None => true
  end.

(** A test on the integer and string parts of a run that is enough for
    [main] to return its four outputs: steps 1 to 6 pass, the search of
    output 3 raises nothing, the cells of the two rows are integers, and
    a float holds exactly every count of the age column, every winning
    count and every count of the two rows. *)
Definition returns_outputs (area_file population_file : list string)
    (target_age : Z) (sa2_code_1 sa2_code_2 : string) : bool :=
  match prepare area_file population_file target_age sa2_code_1 sa2_code_2 with
  | None => false
  | Some p =>
      match state_winners (maps p) (data_lines p) (age_group_index p),
            extract_distributions (data_lines p) (code_1 p) (code_2 p) with
      | Ok ws, Ok ds =>
          forallb (fun line =>
                     float_exactb (count_or_zero (age_group_index p) line))
                  (data_lines p)
          && forallb (fun w => float_exactb (snd (fst w))) ws
          && exact_countsb (fst ds) && exact_countsb (snd ds)
      | _, _ => false
      end
  end.

(** A population file with two rows of the same SA2 code. *)
Definition population_file_repeated : list string :=
  ["Area_Code_Level2,Area_Name_Level2,Age 0-4,Age 5-9";
   "401011001,Adelaide,1,2";
   "401011002,North Adelaide,7,8";
   "401011001,Adelaide,3,4"]%string.

(** A population file with a cell that is not a number. *)
Definition population_file_malformed : list string :=
  ["Area_Code_Level2,Area_Name_Level2,Age 0-4,Age 5-9,Age 25-29,Age 85 and over";
   "401011001,Adelaide,5,n/a,5,5";
   "401011002,North Adelaide,1,2,3,4"]%string.

(** An area file with one SA2 in its SA3, and a population file whose
    count for the age group 25-29 has 310 digits. *)
Definition area_file_single : list string :=
  ["S_T code,S_T name,SA3 code,SA3 name,SA2 code,SA2 name";
   "4,South Australia,40101,Adelaide City,401011001,Adelaide"]%string.

Definition digits_310 : string :=
  ("1" ++ concat "" (repeat "0000000000" 30) ++ "000000000")%string.

Definition population_file_huge : list string :=
  ["Area_Code_Level2,Area_Name_Level2,Age 0-4,Age 25-29";
   ("401011001,Adelaide,5," ++ digits_310)%string]%string.

(** A population file whose first row holds the same count of 401
    digits in both age groups; the two codes are not in
    [area_file_example]. *)
Definition digits_401 : string :=
  ("1" ++ concat "" (repeat "0000000000" 40))%string.

Definition population_file_out_of_range : list string :=
  ["Area_Code_Level2,Area_Name_Level2,Age 0-4,Age 25-29";
   ("401011008,Adelaide," ++ digits_401 ++ "," ++ digits_401)%string;
   "401011009,North Adelaide,1,2"]%string.

(** An area file with two SA3s in one state, and a population file with
    negative cells in the column of the age group 0-4. *)
Definition area_file_two_sa3 : list string :=
  ["S_T code,S_T name,SA3 code,SA3 name,SA2 code,SA2 name";
   "4,South Australia,40101,Adelaide City,401011001,Adelaide";
   "4,South Australia,40102,Adelaide Hills,401021003,Aldgate"]%string.

Definition population_file_negative : list string :=
  ["Area_Code_Level2,Area_Name_Level2,Age 0-4,Age 5-9";
   "401011001,Adelaide,-2,7";
   "401021003,Aldgate,-2,9"]%string.

End Project1.

(* ================================================================== *)
(** * Project 2 *)

Module Project2.
Import PyStr.

(** A population record: the dict with keys ['sa2 name'], ['sa2 code'],
    ['age'] and ['population'] that [read_population_file] builds. *)
Record pop_record : Type := {
  sa2_name : string;
  sa2_code : string;
  age : string;
  population : Z
}.

(** An area row: the dict from (lower-cased) header names to cells. *)
Definition area_row : Type := dict string.

(** A value of the area lookup. *)
Record area_info : Type := {
  state_name : string;
  sa3_name : string;
  state_code : string;
  sa3_code : string;
  area_sa2_code : string
}.

(** ** [clean_data] *)

Definition index_area (sa2_code_to_area : dict area_row) (row : area_row)
  : res (dict area_row) :=
  c <- dsub "sa2 code" row ;;
  Ok (dset (lower c) row sa2_code_to_area).

(** One iteration over [pop_rows]; the state is
    [(seen, cleaned_areas, cleaned_pops)]. *)
Definition clean_step (sa2_code_to_area : dict area_row)
    (st : list string * list area_row * list pop_record) (record : pop_record)
  : list string * list area_row * list pop_record :=
  let '(seen, cleaned_areas, cleaned_pops) := st in
  let code := sa2_code record in
  match dget code sa2_code_to_area with
  | None => st
  | Some row =>
      let key := (code ++ age record)%string in
      if str_in key seen then st
      else
        let area_row := dset "sa2 name" (sa2_name record) row in
        (key :: seen, cleaned_areas ++ [area_row], cleaned_pops ++ [record])
  end.

Definition clean_data (area_rows : list area_row) (pop_rows : list pop_record)
  : res (list area_row * list pop_record) :=
  sa2_code_to_area <- foldM index_area area_rows [] ;;
  let st := fold_left (clean_step sa2_code_to_area) pop_rows ([], [], []) in
  Ok (snd (fst st), snd st).

(** The key of a record: [code + age]. *)
Definition record_key (r : pop_record) : string := (sa2_code r ++ age r)%string.

(** The area row attached to a kept record. *)
Definition attach (sa2_code_to_area : dict area_row) (r : pop_record) : area_row :=
  match dget (sa2_code r) sa2_code_to_area with
  | Some row => dset "sa2 name" (sa2_name r) row
  | None => []
  end.

(** What a pass over some records adds to the three accumulators. *)
Definition pass_adds (idx : dict area_row) (added : list pop_record)
    (seen : list string) : Prop :=
  (forall r, In r added -> dget (sa2_code r) idx <> None) /\
  NoDup (map record_key added) /\
  (forall r, In r added -> ~ In (record_key r) seen).

(** ** [create_area_lookup] *)

Definition lookup_step (lookup : dict area_info) (area : area_row)
  : res (dict area_info) :=
  name <- dsub "sa2 name" area ;;
  st_name <- dsub "state name" area ;;
  s3_name <- dsub "sa3 name" area ;;
  st_code <- dsub "state code" area ;;
  s3_code <- dsub "sa3 code" area ;;
  s2_code <- dsub "sa2 code" area ;;
  Ok (dset (lower name)
           {| state_name := lower st_name; sa3_name := lower s3_name;
              state_code := lower st_code; sa3_code := lower s3_code;
              area_sa2_code := lower s2_code |}
           lookup).

Definition create_area_lookup (area_rows : list area_row) : res (dict area_info) :=
  foldM lookup_step area_rows [].

(** ** [output_OP1] *)

Record level_totals : Type := {
  by_state : dict Z;
  by_sa3 : dict Z;
  by_sa2 : dict Z
}.

Definition no_totals : level_totals :=
  {| by_state := []; by_sa3 := []; by_sa2 := [] |}.

(** [if name not in d: d[name] = 0] then [d[name] += pop] *)
Definition add_pop (name : string) (pop : Z) (d : dict Z) : dict Z :=
  dset name (dget_or 0 name d + pop) d.

Definition op1_step (area_lookup : dict area_info)
    (results : dict level_totals) (record : pop_record) : dict level_totals :=
  let sa2 := lower (sa2_name record) in
  match dget sa2 area_lookup with
  | None => results
  | Some info =>
      let pop := population record in
      let cur := dget_or no_totals (age record) results in
      dset (age record)
           {| by_state := add_pop (state_name info) pop (by_state cur);
              by_sa3 := add_pop (sa3_name info) pop (by_sa3 cur);
              by_sa2 := add_pop sa2 pop (by_sa2 cur) |}
           results
  end.

Definition op1_results (pop_rows : list pop_record) (area_lookup : dict area_info)
  : dict level_totals :=
  fold_left (op1_step area_lookup) pop_rows [].

(** Every level of an age group has a candidate. *)
Definition levels_nonempty (lv : level_totals) : Prop :=
  by_state lv <> [] /\ by_sa3 lv <> [] /\ by_sa2 lv <> [].

Definition well_formed (results : dict level_totals) : Prop :=
  NoDup (dkeys results) /\ forall a lv, In (a, lv) results -> levels_nonempty lv.

(** One iteration of a maximum search; the state is
    [(max_value, max_keys)]. *)
Definition max_keys_step (st : option Z * list string) (kv : string * Z)
  : option Z * list string :=
  match fst st with
  | None => (Some (snd kv), [fst kv])
  | Some m =>
      if m <? snd kv then (Some (snd kv), [fst kv])
      else if snd kv =? m then (Some m, snd st ++ [fst kv])
      else st
  end.

Definition max_keys (d : dict Z) : list string :=
  snd (fold_left max_keys_step d (None, [])).

(** The search, [max_keys.sort()] and [max_keys[0]]. *)
Definition winner (d : dict Z) : res string :=
  of_option IndexError (hd_error (sort_strings (max_keys d))).

(** [m] is the largest value of the dict. *)
Definition is_max (d : dict Z) (m : Z) : Prop :=
  (exists k, In (k, m) d) /\ forall k v, In (k, v) d -> v <= m.

(** The keys whose value is [m], in dict order. *)
Definition tied_at (m : Z) (d : dict Z) : list string :=
  map fst (filter (fun kv => snd kv =? m) d).

(** The winner holds the maximum and is the least of the tied keys. *)
Definition smallest_tied (d : dict Z) (k : string) : Prop :=
  exists m, In (k, m) d /\ (forall k' v, In (k', v) d -> v <= m) /\
            forall k', In (k', m) d -> le_str k k'.

(** The three searches of one age group. *)
Definition op1_winners (lv : level_totals) : res (string * string * string) :=
  max_state <- winner (by_state lv) ;;
  max_sa3 <- winner (by_sa3 lv) ;;
  max_sa2 <- winner (by_sa2 lv) ;;
  Ok (max_state, max_sa3, max_sa2).

Definition op1_entry (op1 : dict (string * string * string))
    (kv : string * level_totals) : res (dict (string * string * string)) :=
  t <- op1_winners (snd kv) ;;
  Ok (dset (fst kv) t op1).

Definition output_OP1 (pop_rows : list pop_record) (area_lookup : dict area_info)
  : res (dict (string * string * string)) :=
  foldM op1_entry (op1_results pop_rows area_lookup) [].

(** ** [calculate_sample_sd] *)

(** The definition covers counts that convert to a float, those below
    [float_limit] in absolute value: for a larger count [total += x]
    raises [OverflowError]. *)
Definition calculate_sample_sd (numbers : list Z) : res R :=
  let n := list_len numbers in
  if n <? 2 then Ok 0%R
  else
    let total := fold_left (fun t x => (t + IZR x)%R) numbers 0%R in
    mean <- float_div_int total n ;;
    let squared_diff_sum :=
      fold_left (fun s x => (s + (IZR x - mean) * (IZR x - mean))%R) numbers 0%R in
    variance <- float_div_int squared_diff_sum (n - 1) ;;
    let std := sqrt variance in
    Ok (round4 std).

(** The counts of the records convert to a float. *)
Definition records_convert (pop_rows : list pop_record) : Prop :=
  Forall (fun r => Z.abs (population r) < float_limit) pop_rows.

(** ** [cosine_similarity] *)

(** [list[i]] *)
Definition item (l : list R) (i : nat) : res R :=
  of_option IndexError (nth_error l i).

Definition cosine_similarity (list1 list2 : list R) : res R :=
  dot <- foldM (fun dot i => a <- item list1 i ;; b <- item list2 i ;;
                             Ok (dot + a * b)%R)
               (seq 0 (List.length list1)) 0%R ;;
  let norm1 := sqrt (fold_left (fun s x => (s + x * x)%R) list1 0%R) in
  let norm2 := sqrt (fold_left (fun s x => (s + x * x)%R) list2 0%R) in
  if Reqb norm1 0 || Reqb norm2 0 then Ok 0%R
  else q <- truediv dot (norm1 * norm2) ;; Ok (round4 q).

(** ** [output_OP3] *)

(** The SA2s of one SA3: SA2 name -> age -> population. *)
Definition members : Type := dict (dict Z).

Definition scored_pair : Type := (string * string * R)%type.

Definition op3_add (area_lookup : dict area_info)
    (sa3_to_sa2 : dict members) (record : pop_record) : dict members :=
  let sa2 := lower (sa2_name record) in
  match dget sa2 area_lookup with
  | None => sa3_to_sa2
  | Some info =>
      let sa3 := sa3_name info in
      let group := dget_or [] sa3 sa3_to_sa2 in
      let ages := dget_or [] sa2 group in
      dset sa3 (dset sa2 (dset (age record) (population record) ages) group)
           sa3_to_sa2
  end.

Definition build_sa3_to_sa2 (pop_rows : list pop_record)
    (area_lookup : dict area_info) : dict members :=
  fold_left (op3_add area_lookup) pop_rows [].

(** [all_ages]: the ages of both SA2s, sorted. *)
Definition all_ages_of (ages_a ages_b : dict Z) : list string :=
  let mark := fun (s : dict bool) (a : string) => dset a true s in
  sort_strings
    (dkeys (fold_left mark (dkeys ages_b) (fold_left mark (dkeys ages_a) []))).

Definition pop_vector (ages : dict Z) (all_ages : list string) : list Z :=
  map (fun a => dget_or 0 a ages) all_ages.

(** The body of the inner loop: [None] when the pair is skipped. *)
Definition pair_score (group : members) (sa2a sa2b : string)
  : res (option scored_pair) :=
  ages_a <- dsub sa2a group ;;
  ages_b <- dsub sa2b group ;;
  let all_ages := all_ages_of ages_a ages_b in
  let pop_a := pop_vector ages_a all_ages in
  let pop_b := pop_vector ages_b all_ages in
  let sum_a := Zsum pop_a in
  let sum_b := Zsum pop_b in
  if (sum_a =? 0) || (sum_b =? 0) then Ok None
  else
    norm_a <- mapM (fun x => int_truediv x sum_a) pop_a ;;
    norm_b <- mapM (fun y => int_truediv y sum_b) pop_b ;;
    similarity_score <- cosine_similarity norm_a norm_b ;;
    Ok (Some (sa2a, sa2b, similarity_score)).

(** The inner loop, [j] from [i+1]: [sa2a] against the SA2s after it. *)
Fixpoint pairs_with (group : members) (sa2a : string) (rest : list string)
  : res (list scored_pair) :=
  match rest with
  | [] => Ok []
  | sa2b :: rest' =>
      p <- pair_score group sa2a sa2b ;;
      ps <- pairs_with group sa2a rest' ;;
      Ok (match p with Some t => t :: ps | None => ps end)
  end.

(** The two nested loops over [sa2_list]. *)
Fixpoint all_pairs (group : members) (sa2_list : list string)
  : res (list scored_pair) :=
  match sa2_list with
  | [] => Ok []
  | sa2a :: rest =>
      row <- pairs_with group sa2a rest ;;
      more <- all_pairs group rest ;;
      Ok (row ++ more)
  end.

Definition score (p : scored_pair) : R := snd p.

Definition max_similarity (pairs : list scored_pair) : option R :=
  fold_left (fun m p =>
               match m with
               | None => Some (score p)
               | Some x => if Rltb x (score p) then Some (score p) else m
               end) pairs None.

Definition top_pairs_of (pairs : list scored_pair) : list scored_pair :=
  match max_similarity pairs with
  | Some m => filter (fun p => Reqb (score p) m) pairs
  | None => []
  end.

Definition sort_key : Type := (Z * string * string)%type.

Definition pair_sort_key (group : members) (pair : scored_pair) : res sort_key :=
  ages_a <- dsub (fst (fst pair)) group ;;
  ages_b <- dsub (snd (fst pair)) group ;;
  let pop_a := Zsum (dvalues ages_a) in
  let pop_b := Zsum (dvalues ages_b) in
  let '(first, second) :=
    if String.ltb (fst (fst pair)) (snd (fst pair))
    then (fst (fst pair), snd (fst pair))
    else (snd (fst pair), fst (fst pair)) in
  Ok (- (pop_a + pop_b), first, second).

(** [key < best_key] on tuples *)
Definition key_lt (k1 k2 : sort_key) : bool :=
  let '(n1, a1, b1) := k1 in
  let '(n2, a2, b2) := k2 in
  if n1 <? n2 then true
  else if n1 =? n2 then
    if String.ltb a1 a2 then true
    else if String.eqb a1 a2 then String.ltb b1 b2 else false
  else false.

Definition best_step (group : members) (best : scored_pair * sort_key)
    (p : scored_pair) : res (scored_pair * sort_key) :=
  key <- pair_sort_key group p ;;
  if key_lt key (snd best) then Ok (p, key) else Ok best.

Definition top_pair_of (group : members) (top_pairs : list scored_pair)
  : res scored_pair :=
  match top_pairs with
  | [] => Raise IndexError
  | p0 :: rest =>
      best_key <- pair_sort_key group p0 ;;
      b <- foldM (best_step group) rest (p0, best_key) ;;
      Ok (fst b)
  end.

Definition ordered (p : scored_pair) : scored_pair :=
  if String.ltb (fst (fst p)) (snd (fst p)) then p
  else (snd (fst p), fst (fst p), snd p).

(** The body of the loop over the SA3s: [None] when the SA3 is skipped. *)
Definition op3_group (group : members) : res (option scored_pair) :=
  if list_len group <? 15 then Ok None
  else
    let sa2_list := sort_strings (dkeys group) in
    pairs <- all_pairs group sa2_list ;;
    match pairs with
    | [] => Ok None
    | _ :: _ =>
        top_pair <- top_pair_of group (top_pairs_of pairs) ;;
        Ok (Some (ordered top_pair))
    end.

Definition op3_entry (results : dict scored_pair) (kv : string * members)
  : res (dict scored_pair) :=
  r <- op3_group (snd kv) ;;
  Ok (match r with
      | Some t => dset (fst kv) t results
      | None => results
      end).

Definition op3_results (sa3_to_sa2 : dict members) : res (dict scored_pair) :=
  foldM op3_entry sa3_to_sa2 [].

(** The final loop: the results in alphabetical order of SA3 name. *)
Definition sorted_output (results : dict scored_pair) : res (dict scored_pair) :=
  foldM (fun output name => v <- dsub name results ;; Ok (dset name v output))
        (sort_strings (dkeys results)) [].

Definition output_OP3 (pop_rows : list pop_record) (area_lookup : dict area_info)
  : res (dict scored_pair) :=
  results <- op3_results (build_sa3_to_sa2 pop_rows area_lookup) ;;
  sorted_output results.

(** ** [output_OP3] in the words of its docstring *)

(** The total population of an SA2: the sum of its age counts. *)
Definition total_population (ages : dict Z) : Z := Zsum (dvalues ages).

(** The normalised age distribution of an SA2 over a list of ages. *)
Definition proportions (ages : dict Z) (all_ages : list string) : list R :=
  map (fun x => (IZR x / IZR (Zsum (pop_vector ages all_ages)))%R)
      (pop_vector ages all_ages).

(** [s] is the similarity of the SA2s [a] and [b] of a group, both with a
    nonzero total population. *)
Definition scored (group : members) (a b : string) (s : R) : Prop :=
  exists ages_a ages_b,
    dget a group = Some ages_a /\ dget b group = Some ages_b /\
    total_population ages_a <> 0 /\ total_population ages_b <> 0 /\
    cosine_similarity (proportions ages_a (all_ages_of ages_a ages_b))
                      (proportions ages_b (all_ages_of ages_a ages_b)) = Ok s.

(** Two different SA2s of the group have a nonzero total population. *)
Definition two_populated (group : members) : Prop :=
  exists a b ages_a ages_b,
    a <> b /\ dget a group = Some ages_a /\ dget b group = Some ages_b /\
    total_population ages_a <> 0 /\ total_population ages_b <> 0.

(** The dicts of a group have distinct keys. *)
Definition group_ok (group : members) : Prop :=
  NoDup (dkeys group) /\ forall n ages, In (n, ages) group -> NoDup (dkeys ages).

(** The two names of a pair are SA2s of the group. *)
Definition names_known (group : members) (p : scored_pair) : Prop :=
  In (fst (fst p)) (dkeys group) /\ In (snd (fst p)) (dkeys group).

(** The invariant of [sa3_to_sa2]. *)
Definition well_built (d : dict members) : Prop :=
  NoDup (dkeys d) /\ forall sa3 group, In (sa3, group) d -> group_ok group.

(** ** Example data *)

Definition example_area_row (st s3 s2c s2n : string) : area_row :=
  [("s_t code", st); ("s_t name", "State " ++ st);
   ("sa3 code", s3); ("sa3 name", "Region " ++ s3);
   ("sa2 code", s2c); ("sa2 name", s2n);
   ("state code", st); ("state name", "State " ++ st)]%string.

Definition example_record (n c : string) (p : Z) : pop_record :=
  {| sa2_name := n; sa2_code := c; age := "0-4"; population := p |}.

(** Three states: state 1 holds two SA3s of 8 people each, state 2 one
    SA3 of 10, state 3 one SA3 with a single SA2 of 9. *)
Definition nesting_areas : list area_row :=
  [example_area_row "1" "101" "10101" "P1"; example_area_row "1" "101" "10102" "P2";
   example_area_row "1" "102" "10201" "Q1"; example_area_row "1" "102" "10202" "Q2";
   example_area_row "2" "201" "20101" "R1"; example_area_row "2" "201" "20102" "R2";
   example_area_row "3" "301" "30101" "T1"]%string.

Definition nesting_pops : list pop_record :=
  [example_record "p1" "10101" 4; example_record "p2" "10102" 4;
   example_record "q1" "10201" 4; example_record "q2" "10202" 4;
   example_record "r1" "20101" 5; example_record "r2" "20102" 5;
   example_record "t1" "30101" 9]%string.

Definition fifteen_names : list string :=
  ["a01"; "a02"; "a03"; "a04"; "a05"; "a06"; "a07"; "a08"; "a09"; "a10";
   "a11"; "a12"; "a13"; "a14"; "a15"]%string.

(** Fifteen SA2s in one SA3. *)
Definition fifteen_areas : list area_row :=
  map (fun n => example_area_row "1" "101" ("c" ++ n) n) fifteen_names.

(** Every one of them with a population of 0. *)
Definition fifteen_empty_pops : list pop_record :=
  map (fun n => example_record n ("c" ++ n) 0) fifteen_names.

(** Two of them populated, thirteen with a population of 0. *)
Definition fifteen_pops : list pop_record :=
  map (fun n => example_record n ("c" ++ n)
                  (if str_in n ["a03"; "a07"]%string then 5 else 0))
      fifteen_names.

(** ** [read_area_file] and [read_population_file]

    The files are given by their lines; an unreadable file is outside the
    model. *)

(** [[line.strip() for line in file if line.strip()]] *)
Definition nonempty_lines (file : list string) : list string :=
  filter (fun l => negb (String.eqb l EmptyString)) (map strip file).

(** Lines 39-42: the alternate spellings of the state columns. *)
Definition normalise_row (row : area_row) : area_row :=
  let row1 := match dget "s_t code" row with
              | Some v => dset "state code" v row
              | None => row
              end in
  match dget "s_t name" row1 with
  | Some v => dset "state name" v row1
  | None => row1
  end.

Definition area_row_of (header : list string) (line : string) : area_row :=
  let values := map strip (split "," line) in
  normalise_row (dict_of (combine header values)).

Definition read_area_file (file : list string) : list area_row :=
  match nonempty_lines file with
  | [] => []
  | first :: rest =>
      let header := map lower (split "," first) in
      map (area_row_of header) rest
  end.

(** [col.lower().replace("age ", "").replace(" and over", "-None")] *)
Definition age_label_of (col : string) : string :=
  replace " and over" "-None" (replace "age " "" (lower col)).

(** The record of one age column of one row, if the column yields one. *)
Definition age_record (row : dict string) (name code col : string)
  : option pop_record :=
  let age_label := age_label_of col in
  if negb (contains "-" age_label) then None
  else
    match dget_or EmptyString col row with
    | EmptyString => None
    | pop_val =>
        match int pop_val with
        | Ok count =>
            if count <? 0 then None
            else Some {| sa2_name := name; sa2_code := code;
                         age := age_label; population := count |}
        | Raise _ => None      (* except ValueError: continue *)
        end
    end.

Fixpoint keep_some {A : Type} (l : list (option A)) : list A :=
  match l with
  | [] => []
  | Some a :: l' => a :: keep_some l'
  | None :: l' => keep_some l'
  end.

Definition records_of_line (header : list string) (line : string) : list pop_record :=
  let row := dict_of (combine header (map strip (split "," line))) in
  let name := lower (dget_or EmptyString "Area_Name_Level2" row) in
  let code := lower (dget_or EmptyString "Area_Code_Level2" row) in
  keep_some (map (age_record row name code) (skipn 2 header)).

Definition read_population_file (file : list string) : list pop_record :=
  match nonempty_lines file with
  | [] => []
  | first :: rest =>
      let header := map strip (split "," first) in
      flat_map (records_of_line header) rest
  end.

(** ** [output_OP2] *)

(** state code -> SA3 code -> SA2 code -> age -> population *)
Definition structure_t : Type := dict (dict members).

Definition op2_entry : Type := (string * Z * R)%type.

Definition op2_add (area_lookup : dict area_info)
    (structure : structure_t) (record : pop_record) : structure_t :=
  let sa2 := lower (sa2_name record) in
  match dget sa2 area_lookup with
  | None => structure
  | Some info =>
      let state := dget_or [] (state_code info) structure in
      let group := dget_or [] (sa3_code info) state in
      let ages := dget_or [] (area_sa2_code info) group in
      dset (state_code info)
           (dset (sa3_code info)
                 (dset (area_sa2_code info)
                       (dset (age record) (population record) ages) group)
                 state)
           structure
  end.

Definition build_structure (pop_rows : list pop_record)
    (area_lookup : dict area_info) : structure_t :=
  fold_left (op2_add area_lookup) pop_rows [].

(** The population of each SA2 of an SA3. *)
Definition sa2_totals (group : members) : dict Z :=
  map (fun kv => (fst kv, total_population (snd kv))) group.

(** [total_pop] of lines 304-310. *)
Definition sa3_population (group : members) : Z := Zsum (dvalues (sa2_totals group)).

(** The body of the loop over the SA3s of a state: [None] below the floor
    of 150,000.  The search of lines 315-328 is the maximum search of
    [output_OP1], on the SA2 totals. *)
Definition op2_sa3 (group : members) : res (option op2_entry) :=
  if sa3_population group <? 150000 then Ok None
  else
    biggest_sa2 <- winner (sa2_totals group) ;;
    ages <- dsub biggest_sa2 group ;;
    let biggest_pop := Zsum (dvalues ages) in
    let age_counts := dvalues ages in
    sd <- calculate_sample_sd age_counts ;;
    Ok (Some (biggest_sa2, biggest_pop, sd)).

Definition op2_sa3_entry (inner : dict op2_entry) (kv : string * members)
  : res (dict op2_entry) :=
  r <- op2_sa3 (snd kv) ;;
  Ok (match r with
      | Some t => dset (fst kv) t inner
      | None => inner
      end).

Definition op2_state (structure : structure_t) (op2 : dict (dict op2_entry))
    (state : string) : res (dict (dict op2_entry)) :=
  sa3s <- dsub state structure ;;
  inner <- foldM op2_sa3_entry sa3s [] ;;
  Ok (dset state inner op2).

Definition output_OP2 (pop_rows : list pop_record) (area_lookup : dict area_info)
  : res (dict (dict op2_entry)) :=
  let structure := build_structure pop_rows area_lookup in
  foldM (op2_state structure) (sort_strings (dkeys structure)) [].

(** ** [main] *)

Definition outputs : Type :=
  (dict (string * string * string) * dict (dict op2_entry) * dict scored_pair)%type.

Definition main (csvfile_1 csvfile_2 : list string) : res outputs :=
  let area_rows := read_area_file csvfile_1 in
  let pop_rows := read_population_file csvfile_2 in
  cleaned <- clean_data area_rows pop_rows ;;
  area_lookup <- create_area_lookup (fst cleaned) ;;
  op1 <- output_OP1 (snd cleaned) area_lookup ;;
  op2 <- output_OP2 (snd cleaned) area_lookup ;;
  op3 <- output_OP3 (snd cleaned) area_lookup ;;
  Ok (op1, op2, op3).

(** ** Example files *)

Definition area_csv_example : list string :=
  ["S_T code,S_T name,SA3 code,SA3 name,SA2 code,SA2 name";
   "";
   "4,South Australia,40101,Adelaide City,401011001,Adelaide";
   "4,South Australia,40101,Adelaide City,401011002,North Adelaide";
   "5,Western Australia,50302,Perth City,503021041,Perth City"]%string.

Definition population_csv_example : list string :=
  ["Area_Code_Level2,Area_Name_Level2,Age 0-4,Age 5-9,Age 85 and over,Total";
   "401011001,Adelaide,120000,40000,,160000";
   "401011002,North Adelaide,100,x,-3,97";
   "999999999,Nowhere,1,2,3,6"]%string.

(** An area file whose last row stops before the SA2 code. *)
Definition short_area_csv : list string :=
  ["S_T code,S_T name,SA3 code,SA3 name,SA2 code,SA2 name";
   "4,South Australia,40101,Adelaide City,401011001,Adelaide";
   "4,South Australia,40101,Adelaide City"]%string.

(** ** Predicates used to state the properties of the pipeline *)

(** The code is the lower-cased ['sa2 code'] of the area row. *)
Definition row_of_code (row : area_row) (code : string) : Prop :=
  exists c, dget "sa2 code" row = Some c /\ lower c = code.

(** Some area row has the code. *)
Definition known (area_rows : list area_row) (code : string) : Prop :=
  exists row, In row area_rows /\ row_of_code row code.

(** [row] is an area row of the record's code, with the record's name. *)
Definition joined (area_rows : list area_row) (row : area_row) (r : pop_record) : Prop :=
  dget "sa2 name" row = Some (sa2_name r) /\
  exists row0, In row0 area_rows /\ row_of_code row0 (sa2_code r) /\
               forall k, k <> "sa2 name"%string -> dget k row = dget k row0.

(** [r] is the first record of [pop_rows] with its key and a known code. *)
Definition first_of_key (area_rows : list area_row) (pop_rows : list pop_record)
    (r : pop_record) : Prop :=
  exists before after,
    pop_rows = before ++ r :: after /\
    forall r', In r' before -> record_key r' = record_key r ->
               ~ known area_rows (sa2_code r').

(** The five cells of an area row that [create_area_lookup] stores,
    lower-cased. *)
Definition described (row : area_row) (info : area_info) : Prop :=
  option_map lower (dget "state name" row) = Some (state_name info) /\
  option_map lower (dget "sa3 name" row) = Some (sa3_name info) /\
  option_map lower (dget "state code" row) = Some (state_code info) /\
  option_map lower (dget "sa3 code" row) = Some (sa3_code info) /\
  option_map lower (dget "sa2 code" row) = Some (area_sa2_code info).

(** The row has the five columns that the lookup reads (the SA2 name
    comes from the population file). *)
Definition has_columns (row : area_row) : Prop :=
  dget "state name" row <> None /\ dget "sa3 name" row <> None /\
  dget "state code" row <> None /\ dget "sa3 code" row <> None /\
  dget "sa2 code" row <> None.

(** The population of the records of an age group whose SA2 name is in
    the lookup. *)
Definition counted (area_lookup : dict area_info) (a : string)
    (pop_rows : list pop_record) : Z :=
  Zsum (map population
            (filter (fun r => String.eqb (age r) a
                              && dmem (lower (sa2_name r)) area_lookup)
                    pop_rows)).

(** The sum of the totals of one level. *)
Definition level_sum (totals : dict Z) : Z := Zsum (dvalues totals).

(** The invariant of [structure]: distinct keys at the three levels. *)
Definition structure_ok (structure : structure_t) : Prop :=
  NoDup (dkeys structure) /\
  forall state sa3s, In (state, sa3s) structure ->
    NoDup (dkeys sa3s) /\
    forall sa3 group, In (sa3, group) sa3s -> NoDup (dkeys group).

(** [sa2] is the largest SA2 of the group: no SA2 has a larger total, and
    among those with the same total it has the least code. *)
Definition largest_sa2 (group : members) (sa2 : string) (ages : dict Z) : Prop :=
  dget sa2 group = Some ages /\
  forall sa2' ages', dget sa2' group = Some ages' ->
    total_population ages' <= total_population ages /\
    (total_population ages' = total_population ages -> le_str sa2 sa2').

(** The combined population of two SA2s of a group. *)
Definition pair_population (group : members) (a b : string) : Z :=
  total_population (dget_or [] a group) + total_population (dget_or [] b group).

(** Every count stored in [sa3_to_sa2] is the population of a record. *)
Definition counts_from (pop_rows : list pop_record) (d : dict members) : Prop :=
  forall sa3 group sa2 ages a v,
    In (sa3, group) d -> In (sa2, ages) group -> In (a, v) ages ->
    exists r, In r pop_rows /\ population r = v.

End Project2.

(* ================================================================== *)
(** * Properties of the shared definitions *)

(** ** The error monad *)

Lemma bind_Ok {A B : Type} (m : res A) (k : A -> res B) (b : B) :
  bind m k = Ok b -> exists a, m = Ok a /\ k a = Ok b.
Proof.
  destruct m as [a|e]; simpl; intros H; [exists a; auto | discriminate].
Qed.

Lemma mapM_Ok {A B : Type} (f : A -> res B) (l : list A) :
  (forall a, In a l -> exists b, f a = Ok b) ->
  exists bs, mapM f l = Ok bs /\ List.length bs = List.length l.
Proof.
  induction l as [|a l IH]; intros H; simpl.
  - exists []; auto.
  - destruct (H a (or_introl eq_refl)) as [b Hb]. rewrite Hb. simpl.
    destruct IH as [bs [Hbs Hlen]]; [intros; apply H; right; assumption|].
    rewrite Hbs. simpl. exists (b :: bs). simpl. auto.
Qed.

Lemma foldM_Ok {A B : Type} (P : A -> Prop) (f : A -> B -> res A) (l : list B) :
  (forall a b, P a -> In b l -> exists a', f a b = Ok a' /\ P a') ->
  forall a, P a -> exists r, foldM f l a = Ok r /\ P r.
Proof.
  induction l as [|b l IH]; intros H a Ha; simpl.
  - exists a; auto.
  - destruct (H a b Ha (or_introl eq_refl)) as [a' [Ha' HP]]. rewrite Ha'. simpl.
    apply IH; [|assumption]. intros; apply H; [assumption | right; assumption].
Qed.

Lemma foldM_app {A B : Type} (f : A -> B -> res A) (l1 l2 : list B) (a : A) :
  foldM f (l1 ++ l2) a = (r <- foldM f l1 a ;; foldM f l2 r).
Proof.
  revert a; induction l1 as [|b l1 IH]; intros a; simpl; [reflexivity|].
  destruct (f a b); simpl; [apply IH | reflexivity].
Qed.

(** ** The order on strings *)

Lemma ascii_compare_refl (c : ascii) : Ascii.compare c c = Eq.
Proof. unfold Ascii.compare. apply N.compare_refl. Qed.

Lemma string_compare_refl (s : string) : String.compare s s = Eq.
Proof.
  induction s as [|c s IH]; simpl; [reflexivity|].
  rewrite ascii_compare_refl. exact IH.
Qed.

Lemma ascii_compare_trans (a b c : ascii) :
  Ascii.compare a b = Lt -> Ascii.compare b c = Lt -> Ascii.compare a c = Lt.
Proof.
  unfold Ascii.compare. rewrite !N.compare_lt_iff. apply N.lt_trans.
Qed.

Lemma string_compare_trans (s1 : string) :
  forall s2 s3, String.compare s1 s2 = Lt -> String.compare s2 s3 = Lt ->
                String.compare s1 s3 = Lt.
Proof.
  induction s1 as [|c1 s1 IH]; intros [|c2 s2] [|c3 s3]; simpl; try congruence.
  destruct (Ascii.compare c1 c2) eqn:E12; try discriminate;
    destruct (Ascii.compare c2 c3) eqn:E23; try discriminate; intros H1 H2.
  - apply Ascii.compare_eq_iff in E12, E23. subst.
    rewrite ascii_compare_refl. eapply IH; eassumption.
  - apply Ascii.compare_eq_iff in E12. subst. rewrite E23. reflexivity.
  - apply Ascii.compare_eq_iff in E23. subst. rewrite E12. reflexivity.
  - rewrite (ascii_compare_trans _ _ _ E12 E23). reflexivity.
Qed.

Lemma ltb_irrefl (s : string) : String.ltb s s = false.
Proof. unfold String.ltb. rewrite string_compare_refl. reflexivity. Qed.

Lemma ltb_neq (a b : string) : String.ltb a b = true -> a <> b.
Proof. intros H E. subst. rewrite ltb_irrefl in H. discriminate. Qed.

Lemma ltb_leb (a b : string) : String.ltb a b = true -> String.leb a b = true.
Proof.
  unfold String.ltb, String.leb. destruct (String.compare a b); congruence.
Qed.

Lemma leb_refl (a : string) : String.leb a a = true.
Proof. unfold String.leb. rewrite string_compare_refl. reflexivity. Qed.

Lemma leb_false_ltb (a b : string) : String.leb a b = false -> String.ltb b a = true.
Proof.
  unfold String.ltb, String.leb. rewrite (String.compare_antisym a b).
  destruct (String.compare b a); simpl; congruence.
Qed.

Lemma leb_neq_ltb (a b : string) :
  String.leb a b = true -> a <> b -> String.ltb a b = true.
Proof.
  unfold String.ltb, String.leb. destruct (String.compare a b) eqn:E; try congruence.
  apply String.compare_eq_iff in E. congruence.
Qed.

Lemma ltb_asym (a b : string) : String.ltb a b = true -> String.ltb b a = false.
Proof.
  unfold String.ltb. rewrite (String.compare_antisym a b).
  destruct (String.compare b a); simpl; congruence.
Qed.

Lemma ltb_trans (a b c : string) :
  String.ltb a b = true -> String.ltb b c = true -> String.ltb a c = true.
Proof.
  unfold String.ltb.
  destruct (String.compare a b) eqn:E1; try discriminate.
  destruct (String.compare b c) eqn:E2; try discriminate.
  rewrite (string_compare_trans _ _ _ E1 E2). reflexivity.
Qed.

Lemma leb_trans (a b c : string) :
  String.leb a b = true -> String.leb b c = true -> String.leb a c = true.
Proof.
  intros H1 H2.
  destruct (string_dec a b) as [->|Hab]; [assumption|].
  destruct (string_dec b c) as [->|Hbc]; [assumption|].
  apply ltb_leb. eapply ltb_trans; apply leb_neq_ltb; eassumption.
Qed.

Lemma str_in_In (x : string) (l : list string) : str_in x l = true <-> In x l.
Proof.
  unfold str_in. rewrite existsb_exists. split.
  - intros [y [Hy E]]. apply String.eqb_eq in E. subst. assumption.
  - intros H. exists x. split; [assumption | apply String.eqb_refl].
Qed.

Lemma str_in_false (x : string) (l : list string) : str_in x l = false <-> ~ In x l.
Proof.
  rewrite <- str_in_In. destruct (str_in x l); split; congruence.
Qed.

(** ** Sorting *)

Lemma insert_sorted_perm (x : string) (l : list string) :
  Permutation (x :: l) (insert_sorted x l).
Proof.
  induction l as [|y l IH]; simpl; [reflexivity|].
  destruct (String.leb x y); [reflexivity|].
  rewrite perm_swap. apply perm_skip. exact IH.
Qed.

Lemma sort_strings_perm (l : list string) : Permutation l (sort_strings l).
Proof.
  induction l as [|x l IH]; simpl; [reflexivity|].
  rewrite <- insert_sorted_perm. apply perm_skip. exact IH.
Qed.

Lemma sort_strings_In (x : string) (l : list string) :
  In x (sort_strings l) <-> In x l.
Proof.
  split; apply Permutation_in;
    [apply Permutation_sym|]; apply sort_strings_perm.
Qed.

Lemma insert_sorted_sorted (x : string) (l : list string) :
  StronglySorted le_str l -> StronglySorted le_str (insert_sorted x l).
Proof.
  induction 1 as [|y l Hs IH Hall]; simpl.
  - constructor; constructor.
  - destruct (String.leb x y) eqn:E.
    + constructor; [constructor; assumption|].
      constructor; [exact E|].
      eapply Forall_impl; [|exact Hall]. intros z Hz. eapply leb_trans; eassumption.
    + constructor; [exact IH|].
      apply (Permutation_Forall (insert_sorted_perm x l)).
      constructor; [|assumption].
      apply ltb_leb, leb_false_ltb, E.
Qed.

Lemma sort_strings_sorted (l : list string) : StronglySorted le_str (sort_strings l).
Proof.
  induction l as [|x l IH]; simpl; [constructor|].
  apply insert_sorted_sorted, IH.
Qed.

Lemma sorted_nodup_strict (l : list string) :
  StronglySorted le_str l -> NoDup l -> StronglySorted lt_str l.
Proof.
  induction 1 as [|y l Hs IH Hall]; intros Hnd; [constructor|].
  inversion Hnd; subst. constructor; [auto|].
  rewrite Forall_forall in *. intros z Hz.
  apply leb_neq_ltb; [apply Hall, Hz|]. intros ->. contradiction.
Qed.

Lemma sort_strings_NoDup (l : list string) : NoDup l -> NoDup (sort_strings l).
Proof. apply Permutation_NoDup, sort_strings_perm. Qed.

(** The head of the sorted list is the least element. *)
Lemma sort_strings_hd (l : list string) (x : string) :
  hd_error (sort_strings l) = Some x ->
  In x l /\ forall y, In y l -> le_str x y.
Proof.
  intros H. pose proof (sort_strings_sorted l) as Hs.
  destruct (sort_strings l) as [|z t] eqn:E; [discriminate|].
  simpl in H. injection H as ->.
  split.
  - apply sort_strings_In. rewrite E. left; reflexivity.
  - intros y Hy. apply sort_strings_In in Hy. rewrite E in Hy.
    inversion Hs as [|? ? _ Hall]; subst.
    destruct Hy as [<-|Hy]; [apply leb_refl|].
    rewrite Forall_forall in Hall. apply Hall, Hy.
Qed.

Lemma sort_strings_nonempty (l : list string) :
  l <> [] -> exists x, hd_error (sort_strings l) = Some x.
Proof.
  intros H. destruct (sort_strings l) as [|z t] eqn:E.
  - exfalso. apply H. apply Permutation_nil.
    rewrite <- E. apply Permutation_sym, sort_strings_perm.
  - exists z; reflexivity.
Qed.

(** A least element is unique. *)
Lemma least_unique (l : list string) (x y : string) :
  In x l -> (forall z, In z l -> le_str x z) ->
  In y l -> (forall z, In z l -> le_str y z) -> x = y.
Proof.
  intros Hx Hminx Hy Hminy. apply String.leb_antisym; [apply Hminx | apply Hminy]; assumption.
Qed.

Lemma sorted_set_spec (l : list string) :
  StronglySorted lt_str (sorted_set l) /\ NoDup (sorted_set l) /\
  forall x, In x (sorted_set l) <-> In x l.
Proof.
  unfold sorted_set. split; [|split].
  - apply sorted_nodup_strict; [apply sort_strings_sorted|].
    apply sort_strings_NoDup, NoDup_nodup.
  - apply sort_strings_NoDup, NoDup_nodup.
  - intros x. rewrite sort_strings_In. apply nodup_In.
Qed.

(* ================================================================== *)
(** * Project 1: the age-bucket matcher *)

Module AgeMatch.
Import PyStr Project1.

Lemma label_match_open (age : Z) (label : string) :
  label_match age label = Some true <-> open_ended label = true /\ 85 <= age.
Proof.
  unfold label_match. destruct (open_ended label).
  - destruct (85 <=? age) eqn:E.
    + apply Z.leb_le in E. tauto.
    + apply Z.leb_gt in E. split; [discriminate | intros [_ Hge]; lia].
  - split; [|intros [Hopen _]; discriminate].
    destruct (parse_range label) as [[low high]|]; [|discriminate].
    destruct ((low <=? age) && (age <=? high)); discriminate.
Qed.

Lemma label_match_closed (age : Z) (label : string) :
  label_match age label = Some false <->
  open_ended label = false /\
  exists low high, parse_range label = Some (low, high) /\ low <= age <= high.
Proof.
  unfold label_match. destruct (open_ended label).
  - split; [|intros [Hopen _]; discriminate].
    destruct (85 <=? age); discriminate.
  - destruct (parse_range label) as [[low high]|].
    + destruct ((low <=? age) && (age <=? high)) eqn:E.
      * apply andb_true_iff in E. rewrite !Z.leb_le in E.
        split; [intros _|reflexivity].
        split; [reflexivity|]. exists low, high. split; [reflexivity | lia].
      * split; [discriminate|].
        intros [_ [l [h [Hr Hb]]]]. injection Hr as <- <-.
        apply andb_false_iff in E. rewrite !Z.leb_gt in E. lia.
    + split; [discriminate|]. intros [_ [l [h [Hr _]]]]. discriminate.
Qed.

Lemma matches_in_bucket (age : Z) (label : string) :
  matches age label = true <->
  exists b, bucket_of label = Some b /\ in_bucket age b = true.
Proof.
  unfold matches, label_match, bucket_of. destruct (open_ended label).
  - destruct (85 <=? age) eqn:E; split; intros H; try discriminate; try reflexivity.
    + exists (OpenFrom 85). split; [reflexivity | exact E].
    + destruct H as [b [Hb Hin]]. injection Hb as <-. simpl in Hin. congruence.
  - destruct (parse_range label) as [[low high]|].
    + destruct ((low <=? age) && (age <=? high)) eqn:E; split; intros H;
        try discriminate; try reflexivity.
      * exists (Closed low high). split; [reflexivity | exact E].
      * destruct H as [b [Hb Hin]]. injection Hb as <-. simpl in Hin. congruence.
    + split; [discriminate|]. intros [b [Hb _]]. discriminate.
Qed.

Lemma in_bucket_overlap (age : Z) (b1 b2 : bucket) :
  in_bucket age b1 = true -> in_bucket age b2 = true -> overlap b1 b2 = true.
Proof.
  destruct b1, b2; simpl; rewrite ?andb_true_iff, ?Z.leb_le; intros; lia.
Qed.

Lemma match_none (age : Z) (labels : list string) :
  match_age_to_group age labels = (None, false) <->
  forall l, In l labels -> matches age l = false.
Proof.
  unfold matches. induction labels as [|label rest IH]; simpl.
  - split; [intros _ l [] | reflexivity].
  - destruct (label_match age label) as [flag|] eqn:E.
    + split; [discriminate|]. intros H.
      specialize (H label (or_introl eq_refl)). rewrite E in H. discriminate.
    + rewrite IH. split.
      * intros H l [<-|Hl]; [rewrite E; reflexivity | apply H, Hl].
      * intros H l Hl. apply H. right; assumption.
Qed.

Lemma match_first (age : Z) (labels : list string) (l : string) (flag : bool) :
  match_age_to_group age labels = (Some l, flag) ->
  exists before after,
    labels = before ++ l :: after /\
    (forall l', In l' before -> matches age l' = false) /\
    label_match age l = Some flag.
Proof.
  unfold matches. induction labels as [|label rest IH]; simpl; [discriminate|].
  destruct (label_match age label) as [f|] eqn:E.
  - intros H. injection H as <- <-. exists [], rest.
    split; [reflexivity|]. split; [intros l' []|exact E].
  - intros H. destruct (IH H) as [before [after [-> [Hb Hl]]]].
    exists (label :: before), after. split; [reflexivity|]. split; [|exact Hl].
    intros l' [<-|Hl']; [rewrite E; reflexivity | apply Hb, Hl'].
Qed.

Lemma match_total (age : Z) (labels : list string) :
  existsb (matches age) labels = true ->
  exists l flag, match_age_to_group age labels = (Some l, flag).
Proof.
  unfold matches. induction labels as [|label rest IH]; simpl; [discriminate|].
  destruct (label_match age label) as [f|] eqn:E; simpl.
  - intros _. exists label, f. reflexivity.
  - exact IH.
Qed.

Lemma disjoint_no_other (age : Z) (label : string) (rest : list string) :
  matches age label = true ->
  forallb (fun l' => negb (labels_overlap label l')) rest = true ->
  filter (matches age) rest = [].
Proof.
  intros Hm. induction rest as [|l' rest IH]; simpl; [reflexivity|].
  rewrite andb_true_iff. intros [Hno Hrest].
  destruct (matches age l') eqn:E; [|apply IH, Hrest].
  exfalso. apply matches_in_bucket in Hm, E.
  destruct Hm as [b1 [Hb1 Hin1]]. destruct E as [b2 [Hb2 Hin2]].
  unfold labels_overlap in Hno. rewrite Hb1, Hb2 in Hno.
  rewrite (in_bucket_overlap _ _ _ Hin1 Hin2) in Hno. discriminate.
Qed.

Lemma match_unique (age : Z) (labels : list string) :
  pairwise_disjoint labels = true ->
  existsb (matches age) labels = true ->
  match_count age labels = 1%nat.
Proof.
  unfold match_count. induction labels as [|label rest IH]; simpl; [discriminate|].
  rewrite andb_true_iff. intros [Hno Hd].
  destruct (matches age label) eqn:E; simpl.
  - intros _. rewrite (disjoint_no_other _ _ _ E Hno). reflexivity.
  - apply IH, Hd.
Qed.

(** C5 (as amended): for a non-negative age, [match_age_to_group] returns
    the first label whose bucket holds the age.  The open-ended bucket is
    the label that contains "85 and over" and it matches from 85 on (flag
    [true]); a closed range low-high matches when low <= age <= high
    (flag [false]); other labels are skipped; [(None, false)] is returned
    exactly when no label matches; and when the buckets the labels stand
    for are pairwise disjoint, a matched age is matched by exactly one
    label -- so exactly one bucket matches every non-negative age when
    the labels cover the ages without gaps and without overlaps. *)
Theorem match_age_to_group_first_match (age : Z) (labels : list string) :
  0 <= age ->
  (forall label,
      label_match age label = Some true <-> open_ended label = true /\ 85 <= age) /\
  (forall label,
      label_match age label = Some false <->
      open_ended label = false /\
      exists low high, parse_range label = Some (low, high) /\ low <= age <= high) /\
  (match_age_to_group age labels = (None, false) <->
   forall l, In l labels -> matches age l = false) /\
  (forall l flag,
      match_age_to_group age labels = (Some l, flag) ->
      exists before after,
        labels = before ++ l :: after /\
        (forall l', In l' before -> matches age l' = false) /\
        label_match age l = Some flag) /\
  (existsb (matches age) labels = true ->
   exists l flag, match_age_to_group age labels = (Some l, flag)) /\
  (pairwise_disjoint labels = true ->
   existsb (matches age) labels = true ->
   match_count age labels = 1%nat) /\
  (covers labels -> pairwise_disjoint labels = true ->
   match_count age labels = 1%nat /\
   exists l flag, match_age_to_group age labels = (Some l, flag)).
Proof.
  intros Hage.
  split; [intros label; apply label_match_open|].
  split; [intros label; apply label_match_closed|].
  split; [apply match_none|].
  split; [apply match_first|].
  split; [apply match_total|].
  split; [apply match_unique|].
  intros Hcov Hdis. destruct (Hcov age Hage) as [l [Hin Hm]].
  assert (E : existsb (matches age) labels = true)
    by (apply existsb_exists; exists l; auto).
  split; [apply match_unique; assumption | apply match_total, E].
Qed.

Lemma match_age_to_group_first_match_witness :
  match_age_to_group 25 five_year_labels = (Some "Age 25-29"%string, false) /\
  match_count 25 five_year_labels = 1%nat.
Proof.
  pose proof (match_age_to_group_first_match 25 five_year_labels
                ltac:(lia)) as [_ [_ [_ [_ [_ [Hu _]]]]]].
  split; [reflexivity|].
  apply Hu; reflexivity.
Defined.

(** C5 (as stated) fails: these labels cover every non-negative age with
    no gap, yet two of them match the age 45 (the first one is returned). *)
Lemma match_age_overlapping_buckets :
  covers overlapping_labels /\
  match_count 45 overlapping_labels = 2%nat /\
  match_age_to_group 45 overlapping_labels = (Some "0-50"%string, false).
Proof.
  split; [|split; reflexivity].
  intros a Ha.
  destruct (Z_le_gt_dec a 50); [|destruct (Z_le_gt_dec a 84)].
  - exists "0-50"%string. split; [simpl; auto|].
    apply matches_in_bucket. exists (Closed 0 50). split; [reflexivity|].
    simpl. apply andb_true_iff. rewrite !Z.leb_le. lia.
  - exists "40-84"%string. split; [simpl; auto|].
    apply matches_in_bucket. exists (Closed 40 84). split; [reflexivity|].
    simpl. apply andb_true_iff. rewrite !Z.leb_le. lia.
  - exists "85 and over"%string. split; [simpl; auto|].
    apply matches_in_bucket. exists (OpenFrom 85). split; [reflexivity|].
    simpl. apply Z.leb_le. lia.
Qed.

(** The open-ended bucket is recognised by the phrase "85 and over" only:
    another open-ended label is skipped as malformed. *)
Example other_open_ended_label_skipped :
  match_age_to_group 95 ["0-89"; "90 and over"]%string = (None, false).
Proof. reflexivity. Qed.

End AgeMatch.

(* ================================================================== *)
(** * Real-number helpers *)

Lemma Reqb_true_iff (x y : R) : Reqb x y = true <-> x = y.
Proof. unfold Reqb. destruct (Req_dec_T x y); split; congruence. Qed.

Lemma Reqb_false_iff (x y : R) : Reqb x y = false <-> x <> y.
Proof. unfold Reqb. destruct (Req_dec_T x y); split; congruence. Qed.

Lemma Rltb_true_iff (x y : R) : Rltb x y = true <-> (x < y)%R.
Proof. unfold Rltb. destruct (Rlt_dec x y); split; congruence. Qed.

Lemma Rltb_false_iff (x y : R) : Rltb x y = false <-> (y <= x)%R.
Proof.
  unfold Rltb. destruct (Rlt_dec x y); split; try congruence; intros; lra.
Qed.

Lemma round_half_even_IZR (z : Z) : round_half_even (IZR z) = z.
Proof.
  unfold round_half_even. rewrite ZfloorZ.
  replace (IZR z - IZR z)%R with 0%R by lra.
  assert (H : Rltb 0 (1 / 2) = true) by (apply Rltb_true_iff; lra).
  rewrite H. reflexivity.
Qed.

Lemma round4_0 : round4 0 = 0%R.
Proof.
  unfold round4. replace (0 * 10000)%R with (IZR 0) by lra.
  rewrite round_half_even_IZR. lra.
Qed.

Lemma round4_1 : round4 1 = 1%R.
Proof.
  unfold round4. replace (1 * 10000)%R with (IZR 10000) by lra.
  rewrite round_half_even_IZR. lra.
Qed.

Lemma round_half_even_close (y : R) :
  (Rabs (IZR (round_half_even y) - y) <= 1 / 2)%R.
Proof.
  unfold round_half_even. pose proof (Zfloor_bound y) as B.
  destruct (Rltb (y - IZR (Zfloor y)) (1 / 2)) eqn:E1.
  - apply Rltb_true_iff in E1. apply Rabs_le. lra.
  - apply Rltb_false_iff in E1.
    destruct (Rltb (1 / 2) (y - IZR (Zfloor y))) eqn:E2.
    + rewrite plus_IZR. apply Rabs_le. lra.
    + apply Rltb_false_iff in E2.
      destruct (Z.even (Zfloor y)); [|rewrite plus_IZR]; apply Rabs_le; lra.
Qed.

(** A value rounded to four places is within a unit of the fourth place
    (within half a unit, in fact). *)
Lemma round4_close (x : R) : (Rabs (round4 x - x) <= / 10000)%R.
Proof.
  unfold round4. pose proof (round_half_even_close (x * 10000)) as H.
  apply Rabs_le.
  assert (H' : (- (1 / 2) <= IZR (round_half_even (x * 10000)) - x * 10000
                <= 1 / 2)%R).
  { revert H. unfold Rabs. destruct (Rcase_abs _); intros; lra. }
  lra.
Qed.

Lemma fold_left_Rplus (l : list R) (a : R) :
  fold_left Rplus l a = (a + fold_right Rplus 0 l)%R.
Proof.
  revert a; induction l as [|x l IH]; intros a; simpl; [lra|].
  rewrite IH. lra.
Qed.

Lemma Rsum_eq (l : list R) : Rsum l = fold_right Rplus 0%R l.
Proof. unfold Rsum. rewrite fold_left_Rplus. lra. Qed.

Lemma fold_left_Zadd (l : list Z) (a : Z) :
  fold_left Z.add l a = a + fold_right Z.add 0 l.
Proof.
  revert a; induction l as [|x l IH]; intros a; simpl; [lia|].
  rewrite IH. lia.
Qed.

Lemma Zsum_eq (l : list Z) : Zsum l = fold_right Z.add 0 l.
Proof. unfold Zsum. rewrite fold_left_Zadd. lia. Qed.

Lemma Zsum_cons (x : Z) (l : list Z) : Zsum (x :: l) = x + Zsum l.
Proof. rewrite !Zsum_eq. reflexivity. Qed.

Lemma Zsum_app (l1 l2 : list Z) : Zsum (l1 ++ l2) = Zsum l1 + Zsum l2.
Proof.
  induction l1 as [|x l1 IH]; simpl; [reflexivity|].
  rewrite !Zsum_cons, IH. lia.
Qed.

(* ================================================================== *)
(** * Mean and sample standard deviation *)

Module Statistics.
Import Project1 Project2.

Lemma list_len_cons {A : Type} (x : A) (l : list A) : list_len (x :: l) = 1 + list_len l.
Proof. unfold list_len. simpl List.length. lia. Qed.

Lemma list_len_nonneg {A : Type} (l : list A) : 0 <= list_len l.
Proof. unfold list_len. lia. Qed.

Lemma int_truediv_Ok (a b : Z) : b <> 0 -> int_truediv a b = Ok (IZR a / IZR b)%R.
Proof. unfold int_truediv. intros H. apply Z.eqb_neq in H. rewrite H. reflexivity. Qed.

Lemma float_div_int_Ok (x : R) (b : Z) : b <> 0 -> float_div_int x b = Ok (x / IZR b)%R.
Proof. unfold float_div_int. intros H. apply Z.eqb_neq in H. rewrite H. reflexivity. Qed.

Lemma sum_of_squares (m : R) (xs : list Z) :
  Rsum (map (fun x => ((IZR x - m) ^ 2)%R) xs) =
  fold_right (fun (x : Z) (acc : R) => ((IZR x - m) * (IZR x - m) + acc)%R) 0%R xs.
Proof.
  rewrite Rsum_eq. induction xs as [|x xs IH]; cbn [map fold_right]; [reflexivity|].
  rewrite IH. simpl. ring.
Qed.

Lemma running_total (xs : list Z) (a : R) :
  fold_left (fun t x => (t + IZR x)%R) xs a = (a + IZR (fold_right Z.add 0%Z xs))%R.
Proof.
  revert a; induction xs as [|x xs IH]; intros a; simpl; [lra|].
  rewrite IH, plus_IZR. lra.
Qed.

Lemma running_squares (m : R) (xs : list Z) (a : R) :
  fold_left (fun s x => (s + (IZR x - m) * (IZR x - m))%R) xs a =
  (a + fold_right (fun (x : Z) (acc : R) => ((IZR x - m) * (IZR x - m) + acc)%R) 0%R xs)%R.
Proof.
  revert a; induction xs as [|x xs IH]; intros a; simpl; [lra|].
  rewrite IH. lra.
Qed.

(** *** The float range: when the operations return *)

Lemma float_limit_exact : 2 ^ 53 < float_limit.
Proof. vm_compute. reflexivity. Qed.

Lemma float_limit_squares : 4 * (2 ^ 53 * 2 ^ 53) < float_limit.
Proof. vm_compute. reflexivity. Qed.

Lemma float_exactb_iff (x : Z) : float_exactb x = true <-> float_exact x.
Proof. unfold float_exactb, float_exact. apply Z.leb_le. Qed.

Lemma exact_countsb_iff (d : option (list Z)) :
  exact_countsb d = true <-> exact_counts d.
Proof.
  destruct d as [v|]; cbn; [|tauto].
  rewrite forallb_forall, Forall_forall.
  split; intros H x Hx; apply float_exactb_iff, H, Hx.
Qed.

Lemma float_of_int_Ok (x : Z) :
  Z.abs x < float_limit -> float_of_int x = Ok (IZR x).
Proof. unfold float_of_int. intros H. apply Z.ltb_lt in H. now rewrite H. Qed.

Lemma float_of_int_cases (x : Z) :
  float_of_int x = Ok (IZR x) \/ float_of_int x = Raise OverflowError.
Proof. unfold float_of_int. destruct (_ <? _); auto. Qed.

Lemma true_divide_Ok (a b : Z) :
  b <> 0 -> Z.abs a < float_limit * Z.abs b ->
  true_divide a b = Ok (IZR a / IZR b)%R.
Proof.
  unfold true_divide. intros Hb H. apply Z.eqb_neq in Hb. apply Z.ltb_lt in H.
  now rewrite Hb, H.
Qed.

Lemma true_divide_cases (a b : Z) :
  b <> 0 ->
  true_divide a b = Ok (IZR a / IZR b)%R \/ true_divide a b = Raise OverflowError.
Proof.
  unfold true_divide. intros Hb. apply Z.eqb_neq in Hb. rewrite Hb.
  destruct (_ <? _); auto.
Qed.

Lemma float_square_Ok (d : R) :
  (d * d < IZR float_limit)%R -> float_square d = Ok (d ^ 2)%R.
Proof. unfold float_square. intros H. apply Rltb_true_iff in H. now rewrite H. Qed.

Lemma float_square_cases (d : R) :
  float_square d = Ok (d ^ 2)%R \/ float_square d = Raise OverflowError.
Proof. unfold float_square. destruct (Rltb _ _); auto. Qed.

Lemma squared_deviation_cases (m : R) (x : Z) :
  squared_deviation m x = Ok ((IZR x - m) ^ 2)%R \/
  squared_deviation m x = Raise OverflowError.
Proof.
  unfold squared_deviation.
  destruct (float_of_int_cases x) as [-> | ->]; cbn [bind]; [|auto].
  apply float_square_cases.
Qed.

Lemma centred_product_cases (m1 m2 : R) (xy : Z * Z) :
  centred_product m1 m2 xy
  = Ok ((IZR (fst xy) - m1) * (IZR (snd xy) - m2))%R \/
  centred_product m1 m2 xy = Raise OverflowError.
Proof.
  unfold centred_product.
  destruct (float_of_int_cases (fst xy)) as [-> | ->]; cbn [bind]; [|auto].
  destruct (float_of_int_cases (snd xy)) as [-> | ->]; cbn [bind]; auto.
Qed.

Lemma mapM_pure {A B : Type} (f : A -> res B) (g : A -> B) (l : list A) :
  (forall a, In a l -> f a = Ok (g a)) -> mapM f l = Ok (map g l).
Proof.
  induction l as [|a l IH]; intros H; cbn [mapM map]; [reflexivity|].
  rewrite (H a (or_introl eq_refl)). cbn [bind].
  rewrite IH by (intros b Hb; apply H; right; exact Hb). reflexivity.
Qed.

Lemma mapM_cases {A B : Type} (f : A -> res B) (g : A -> B) (l : list A) :
  (forall a, f a = Ok (g a) \/ f a = Raise OverflowError) ->
  mapM f l = Ok (map g l) \/ mapM f l = Raise OverflowError.
Proof.
  intros H. induction l as [|a l IH]; cbn [mapM map]; [auto|].
  destruct (H a) as [-> | ->]; cbn [bind]; [|auto].
  destruct IH as [-> | ->]; cbn [bind]; auto.
Qed.

Lemma Zsum_abs_le (B : Z) (l : list Z) :
  Forall (fun x => Z.abs x <= B) l -> Z.abs (Zsum l) <= list_len l * B.
Proof.
  induction 1 as [|x l Hx Hl IH].
  - unfold list_len. cbn. lia.
  - rewrite Zsum_cons, list_len_cons. lia.
Qed.

Lemma list_len_pos {A : Type} (l : list A) : l <> [] -> 1 <= list_len l.
Proof.
  destruct l; [congruence|]. intros _. rewrite list_len_cons.
  pose proof (list_len_nonneg l). lia.
Qed.

(** The mean of counts that a float holds exactly is computed without
    overflow and is at most 2^53 in absolute value. *)
Lemma exact_mean (l : list Z) :
  l <> [] -> Forall float_exact l ->
  true_divide (Zsum l) (list_len l) = Ok (mean l) /\
  (Rabs (mean l) <= IZR (2 ^ 53))%R.
Proof.
  intros Hne Hl. pose proof (list_len_pos l Hne) as Hn.
  pose proof (Zsum_abs_le (2 ^ 53) l Hl) as Hs.
  pose proof float_limit_exact as HL.
  assert (Hm : mean l = (IZR (Zsum l) / IZR (list_len l))%R)
    by (unfold mean; rewrite Zsum_eq; reflexivity).
  split.
  - rewrite true_divide_Ok, Hm; [reflexivity|lia|].
    rewrite (Z.abs_eq (list_len l)) by lia. nia.
  - rewrite Hm. unfold Rdiv. rewrite Rabs_mult, Rabs_inv.
    assert (Hp : (0 < IZR (list_len l))%R) by (apply IZR_lt; lia).
    rewrite (Rabs_pos_eq (IZR (list_len l))) by lra.
    rewrite <- abs_IZR.
    apply Rmult_le_reg_r with (IZR (list_len l)); [exact Hp|].
    rewrite Rmult_assoc, Rinv_l, Rmult_1_r by lra.
    rewrite <- mult_IZR. apply IZR_le. lia.
Qed.

Lemma exact_deviation (m : R) (x : Z) :
  float_exact x -> (Rabs m <= IZR (2 ^ 53))%R ->
  ((IZR x - m) * (IZR x - m) < IZR float_limit)%R.
Proof.
  intros Hx Hm. unfold float_exact in Hx.
  assert (Hx' : (Rabs (IZR x) <= IZR (2 ^ 53))%R)
    by (rewrite <- abs_IZR; apply IZR_le; exact Hx).
  pose proof (IZR_lt _ _ float_limit_squares) as HL.
  rewrite !mult_IZR in HL.
  set (B := IZR (2 ^ 53)) in *. clearbody B.
  assert (HB : (0 <= B)%R) by (pose proof (Rabs_pos m); lra).
  assert (Hx2 : (- B <= IZR x <= B)%R)
    by (revert Hx'; unfold Rabs; destruct (Rcase_abs (IZR x)); intros; lra).
  assert (Hm2 : (- B <= m <= B)%R)
    by (revert Hm; unfold Rabs; destruct (Rcase_abs m); intros; lra).
  assert (H1 : (- (2 * B) <= IZR x - m <= 2 * B)%R) by lra.
  assert (H2 : ((IZR x - m) * (IZR x - m) <= (2 * B) * (2 * B))%R) by nra.
  eapply Rle_lt_trans; [exact H2|].
  replace (2 * B * (2 * B))%R with (IZR 4 * (B * B))%R by (simpl; ring).
  exact HL.
Qed.

Lemma exact_squared_deviation (m : R) (x : Z) :
  float_exact x -> (Rabs m <= IZR (2 ^ 53))%R ->
  squared_deviation m x = Ok ((IZR x - m) ^ 2)%R.
Proof.
  intros Hx Hm. unfold squared_deviation.
  rewrite float_of_int_Ok
    by (pose proof float_limit_exact; unfold float_exact in Hx; lia).
  cbn [bind]. apply float_square_Ok, exact_deviation; assumption.
Qed.

Lemma exact_centred_product (m1 m2 : R) (xy : Z * Z) :
  float_exact (fst xy) -> float_exact (snd xy) ->
  centred_product m1 m2 xy
  = Ok ((IZR (fst xy) - m1) * (IZR (snd xy) - m2))%R.
Proof.
  intros Hx Hy. unfold centred_product. pose proof float_limit_exact.
  unfold float_exact in *.
  rewrite !float_of_int_Ok by lia. reflexivity.
Qed.

Lemma group_statistics_empty : group_statistics [] = Ok (0%R, 0%R).
Proof. reflexivity. Qed.

(** The statistics of Output 2 raise nothing but [OverflowError]; when
    they return, the mean is the mean and the deviation is 0.0 for one
    count and the sample standard deviation for more. *)
Lemma group_statistics_cases (counts : list Z) :
  counts <> [] ->
  group_statistics counts = Raise OverflowError \/
  exists sd, group_statistics counts = Ok (mean counts, sd) /\
             (list_len counts = 1 -> sd = 0%R) /\
             (2 <= list_len counts -> sd = sample_sd counts).
Proof.
  intros Hne. pose proof (list_len_pos counts Hne) as Hn.
  destruct counts as [|x xs]; [congruence|].
  unfold group_statistics.
  set (counts := x :: xs) in *.
  destruct (true_divide_cases (Zsum counts) (list_len counts)) as [-> | ->];
    [lia| |left; reflexivity].
  cbn [bind].
  replace (IZR (Zsum counts) / IZR (list_len counts))%R with (mean counts)
    by (unfold mean; rewrite Zsum_eq; reflexivity).
  destruct (1 <? list_len counts) eqn:E.
  - apply Z.ltb_lt in E.
    destruct (mapM_cases (squared_deviation (mean counts))
                (fun x => ((IZR x - mean counts) ^ 2)%R) counts
                (squared_deviation_cases (mean counts))) as [-> | ->];
      [|left; reflexivity].
    cbn [bind]. rewrite float_div_int_Ok by lia. cbn [bind].
    right. eexists. split; [reflexivity|]. split; [lia|]. intros _.
    unfold sample_sd, sum_sq_dev. rewrite sum_of_squares, minus_IZR. reflexivity.
  - apply Z.ltb_ge in E. right. eexists.
    split; [reflexivity|]. split; [reflexivity | lia].
Qed.

Lemma group_statistics_raises (counts : list Z) (e : exn) :
  group_statistics counts = Raise e -> e = OverflowError.
Proof.
  destruct counts as [|x xs]; [discriminate|].
  destruct (group_statistics_cases (x :: xs)) as [-> | [sd [-> _]]];
    [discriminate| |discriminate].
  intros H. injection H as <-. reflexivity.
Qed.

Lemma group_statistics_mean (counts : list Z) :
  counts <> [] -> Forall float_exact counts ->
  exists sd, group_statistics counts = Ok (mean counts, sd) /\
             (list_len counts = 1 -> sd = 0%R) /\
             (2 <= list_len counts -> sd = sample_sd counts).
Proof.
  intros Hne Hex.
  destruct (group_statistics_cases counts Hne) as [H|H]; [|exact H].
  exfalso. pose proof (list_len_pos counts Hne) as Hn.
  destruct (exact_mean counts Hne Hex) as [Hm Hb].
  destruct counts as [|x xs]; [congruence|].
  unfold group_statistics in H. rewrite Hm in H. cbn [bind] in H.
  destruct (1 <? list_len (x :: xs)) eqn:E; [|discriminate].
  apply Z.ltb_lt in E.
  rewrite (mapM_pure (squared_deviation (mean (x :: xs)))
             (fun y => ((IZR y - mean (x :: xs)) ^ 2)%R)) in H.
  - cbn [bind] in H. rewrite float_div_int_Ok in H by lia. discriminate.
  - intros y Hy. apply exact_squared_deviation; [|exact Hb].
    rewrite Forall_forall in Hex. apply Hex, Hy.
Qed.

Lemma calculate_sample_sd_small (numbers : list Z) :
  list_len numbers < 2 -> calculate_sample_sd numbers = Ok 0%R.
Proof.
  intros H. unfold calculate_sample_sd. apply Z.ltb_lt in H. rewrite H. reflexivity.
Qed.

Lemma calculate_sample_sd_large (numbers : list Z) :
  2 <= list_len numbers ->
  calculate_sample_sd numbers = Ok (round4 (sample_sd numbers)).
Proof.
  intros H. unfold calculate_sample_sd.
  assert (E : (list_len numbers <? 2) = false) by (apply Z.ltb_ge; lia).
  rewrite E. rewrite float_div_int_Ok by lia. cbn [bind].
  rewrite float_div_int_Ok by lia. cbn [bind].
  rewrite running_total, Rplus_0_l.
  rewrite running_squares, Rplus_0_l.
  unfold sample_sd, sum_sq_dev, mean. rewrite minus_IZR. reflexivity.
Qed.
End Statistics.

(* ================================================================== *)
(** * Project 1: the Pearson correlation step *)

Module Correlation.
Import Project1 Statistics.

Lemma constant_cons (x : Z) (t : list Z) :
  constant (x :: t) = true <-> forall y, In y t -> y = x.
Proof.
  simpl. rewrite forallb_forall. split; intros H y Hy.
  - symmetry. apply Z.eqb_eq, H, Hy.
  - apply Z.eqb_eq. symmetry. apply H, Hy.
Qed.

Lemma constant_total (x : Z) (t : list Z) :
  (forall y, In y t -> y = x) ->
  fold_right Z.add 0 (x :: t) = list_len (x :: t) * x.
Proof.
  induction t as [|y t IH]; intros H.
  - unfold list_len. cbn [fold_right List.length]. lia.
  - assert (IH' := IH (fun z Hz => H z (or_intror Hz))).
    rewrite (H y (or_introl eq_refl)).
    rewrite !list_len_cons in *. cbn [fold_right] in *. lia.
Qed.

Lemma constant_mean (x : Z) (t : list Z) :
  constant (x :: t) = true -> mean (x :: t) = IZR x.
Proof.
  intros H0. pose proof (proj1 (constant_cons x t) H0) as H. unfold mean.
  rewrite (constant_total x t H), mult_IZR.
  assert (Hn : IZR (list_len (x :: t)) <> 0%R).
  { apply not_0_IZR. rewrite list_len_cons. pose proof (list_len_nonneg t). lia. }
  field. exact Hn.
Qed.

(** The zero-variance test of line 209 is the test that the vector is
    constant. *)
Lemma all_equal_mean (l : list Z) :
  l <> [] ->
  forallb (fun x => Reqb (IZR x) (mean l)) l = constant l.
Proof.
  intros Hne. destruct l as [|x t]; [congruence|].
  destruct (constant (x :: t)) eqn:E.
  - rewrite (constant_mean x t E).
    pose proof (proj1 (constant_cons x t) E) as E'. clear E. rename E' into E.
    apply forallb_forall. intros y [<-|Hy]; apply Reqb_true_iff; [reflexivity|].
    rewrite (E y Hy). reflexivity.
  - destruct (forallb (fun y => Reqb (IZR y) (mean (x :: t))) (x :: t)) eqn:F;
      [|reflexivity].
    rewrite forallb_forall in F.
    assert (C : constant (x :: t) = true).
    { apply constant_cons. intros y Hy. apply eq_IZR.
      assert (Hx := F x (or_introl eq_refl)). assert (Hy' := F y (or_intror Hy)).
      apply Reqb_true_iff in Hx, Hy'. congruence. }
    congruence.
Qed.

Lemma squares_total (m : R) (l : list Z) :
  Rsum (squared_deviations m l) =
  fold_right (fun (x : Z) (acc : R) => ((IZR x - m) * (IZR x - m) + acc)%R) 0%R l.
Proof. apply sum_of_squares. Qed.

Lemma squares_nonneg (m : R) (l : list Z) :
  (0 <= Rsum (squared_deviations m l))%R.
Proof.
  rewrite squares_total. induction l as [|x l IH]; simpl; [lra|].
  pose proof (Rle_0_sqr (IZR x - m)) as H. unfold Rsqr in H. lra.
Qed.

Lemma squares_zero (m : R) (l : list Z) :
  Rsum (squared_deviations m l) = 0%R -> forall x, In x l -> IZR x = m.
Proof.
  rewrite squares_total. induction l as [|x l IH]; simpl; [intros _ y []|].
  intros H.
  pose proof (Rle_0_sqr (IZR x - m)) as Hx. unfold Rsqr in Hx.
  pose proof (squares_nonneg m l) as Hl. rewrite squares_total in Hl.
  assert (Hx0 : ((IZR x - m) * (IZR x - m) = 0)%R) by lra.
  intros y [<-|Hy].
  - apply Rmult_integral in Hx0. lra.
  - apply IH; [lra | exact Hy].
Qed.

Lemma squares_positive (l : list Z) :
  constant l = false -> (0 < Rsum (squared_deviations (mean l) l))%R.
Proof.
  intros H.
  destruct (Req_dec_T (Rsum (squared_deviations (mean l) l)) 0) as [E|NE].
  - exfalso. assert (Hne : l <> []) by (intros ->; discriminate).
    rewrite <- (all_equal_mean l Hne) in H.
    assert (T : forallb (fun x => Reqb (IZR x) (mean l)) l = true).
    { apply forallb_forall. intros x Hx. apply Reqb_true_iff.
      eapply squares_zero; eassumption. }
    congruence.
  - pose proof (squares_nonneg (mean l) l). lra.
Qed.

Lemma products_total (m1 m2 : R) (l1 l2 : list Z) :
  Rsum (centred_products m1 m2 l1 l2) =
  fold_right (fun (xy : Z * Z) (acc : R) =>
                ((IZR (fst xy) - m1) * (IZR (snd xy) - m2) + acc)%R)
             0%R (combine l1 l2).
Proof.
  rewrite Rsum_eq. unfold centred_products.
  induction (combine l1 l2) as [|xy l IH]; simpl; [reflexivity|].
  rewrite IH. reflexivity.
Qed.

Lemma products_sym (m1 m2 : R) (l1 : list Z) :
  forall l2, Rsum (centred_products m1 m2 l1 l2) = Rsum (centred_products m2 m1 l2 l1).
Proof.
  intros l2. rewrite !products_total. revert l2.
  induction l1 as [|x l1 IH]; intros [|y l2]; simpl; try reflexivity.
  rewrite IH. ring.
Qed.

Lemma products_self (m : R) (l : list Z) :
  Rsum (centred_products m m l l) = Rsum (squared_deviations m l).
Proof.
  rewrite products_total, squares_total.
  induction l as [|x l IH]; simpl; [reflexivity|]. rewrite IH. reflexivity.
Qed.

Lemma falsy_Some (d : list Z) : falsy (Some d) = false <-> d <> [].
Proof. destruct d; simpl; split; congruence. Qed.

Lemma vectors_len (d1 d2 : list Z) :
  d2 <> [] -> list_len d1 = list_len d2 -> list_len d2 <> 0.
Proof. intros H _. pose proof (list_len_pos d2 H). lia. Qed.

(** The correlation step once the guards of line 201 are passed: it
    raises [OverflowError] or returns the rounded quotient. *)
Lemma correlation_of_cases (d1 d2 : list Z) :
  d1 <> [] -> d2 <> [] -> list_len d1 = list_len d2 ->
  correlation_of (Some d1) (Some d2) = Raise OverflowError \/
  correlation_of (Some d1) (Some d2) =
  if constant d1 || constant d2 then Ok 0%R
  else
    let numerator := Rsum (centred_products (mean d1) (mean d2) d1 d2) in
    let denominator :=
      sqrt (Rsum (squared_deviations (mean d1) d1)
            * Rsum (squared_deviations (mean d2) d2)) in
    Ok (round4 (if Reqb denominator 0 then 0 else numerator / denominator)%R).
Proof.
  intros H1 H2 Hlen. unfold correlation_of.
  apply falsy_Some in H1 as F1. apply falsy_Some in H2 as F2. rewrite F1, F2.
  rewrite Hlen, Z.eqb_refl. cbn [orb negb].
  pose proof (vectors_len d1 d2 H2 Hlen) as Hn.
  destruct (true_divide_cases (Zsum d1) (list_len d2) Hn) as [-> | ->];
    [|left; reflexivity].
  cbn [bind].
  destruct (true_divide_cases (Zsum d2) (list_len d2) Hn) as [-> | ->];
    [|left; reflexivity].
  cbn [bind].
  replace (IZR (Zsum d1) / IZR (list_len d2))%R with (mean d1)
    by (unfold mean; rewrite Zsum_eq, Hlen; reflexivity).
  replace (IZR (Zsum d2) / IZR (list_len d2))%R with (mean d2)
    by (unfold mean; rewrite Zsum_eq; reflexivity).
  rewrite (all_equal_mean d1 H1), (all_equal_mean d2 H2).
  destruct (constant d1 || constant d2); [right; reflexivity|].
  destruct (mapM_cases (centred_product (mean d1) (mean d2))
              (fun xy => ((IZR (fst xy) - mean d1) * (IZR (snd xy) - mean d2))%R)
              (combine d1 d2) (centred_product_cases _ _)) as [-> | ->];
    [|left; reflexivity].
  cbn [bind].
  destruct (mapM_cases (squared_deviation (mean d1))
              (fun x => ((IZR x - mean d1) ^ 2)%R) d1
              (squared_deviation_cases _)) as [-> | ->];
    [|left; reflexivity].
  cbn [bind].
  destruct (mapM_cases (squared_deviation (mean d2))
              (fun x => ((IZR x - mean d2) ^ 2)%R) d2
              (squared_deviation_cases _)) as [-> | ->];
    [|left; reflexivity].
  cbn [bind]. right.
  fold (centred_products (mean d1) (mean d2) d1 d2).
  fold (squared_deviations (mean d1) d1). fold (squared_deviations (mean d2) d2).
  cbv zeta. unfold truediv.
  destruct (Reqb _ 0); reflexivity.
Qed.

(** On counts that a float holds exactly nothing overflows. *)
Lemma correlation_of_vectors (d1 d2 : list Z) :
  d1 <> [] -> d2 <> [] -> list_len d1 = list_len d2 ->
  Forall float_exact d1 -> Forall float_exact d2 ->
  correlation_of (Some d1) (Some d2) =
  if constant d1 || constant d2 then Ok 0%R
  else
    let numerator := Rsum (centred_products (mean d1) (mean d2) d1 d2) in
    let denominator :=
      sqrt (Rsum (squared_deviations (mean d1) d1)
            * Rsum (squared_deviations (mean d2) d2)) in
    Ok (round4 (if Reqb denominator 0 then 0 else numerator / denominator)%R).
Proof.
  intros H1 H2 Hlen E1 E2. unfold correlation_of.
  apply falsy_Some in H1 as F1. apply falsy_Some in H2 as F2. rewrite F1, F2.
  rewrite Hlen, Z.eqb_refl. cbn [orb negb].
  destruct (exact_mean d1 H1 E1) as [M1 B1]. rewrite Hlen in M1.
  destruct (exact_mean d2 H2 E2) as [M2 B2].
  rewrite M1, M2. cbn [bind].
  rewrite (all_equal_mean d1 H1), (all_equal_mean d2 H2).
  destruct (constant d1 || constant d2); [reflexivity|].
  rewrite Forall_forall in E1, E2.
  rewrite (mapM_pure (centred_product (mean d1) (mean d2))
             (fun xy => ((IZR (fst xy) - mean d1) * (IZR (snd xy) - mean d2))%R)).
  2:{ intros [x y] Hxy. apply exact_centred_product; cbn [fst snd].
      - apply E1. eapply in_combine_l, Hxy.
      - apply E2. eapply in_combine_r, Hxy. }
  cbn [bind].
  rewrite (mapM_pure (squared_deviation (mean d1))
             (fun x => ((IZR x - mean d1) ^ 2)%R))
    by (intros x Hx; apply exact_squared_deviation; [apply E1, Hx|exact B1]).
  cbn [bind].
  rewrite (mapM_pure (squared_deviation (mean d2))
             (fun x => ((IZR x - mean d2) ^ 2)%R))
    by (intros x Hx; apply exact_squared_deviation; [apply E2, Hx|exact B2]).
  cbn [bind].
  fold (centred_products (mean d1) (mean d2) d1 d2).
  fold (squared_deviations (mean d1) d1). fold (squared_deviations (mean d2) d2).
  cbv zeta. unfold truediv.
  destruct (Reqb _ 0); reflexivity.
Qed.

(** The correlation step raises nothing but [OverflowError]. *)
Lemma correlation_of_raises (d1 d2 : option (list Z)) (e : exn) :
  correlation_of d1 d2 = Raise e -> e = OverflowError.
Proof.
  destruct d1 as [d1|]; [|discriminate].
  destruct d2 as [d2|]; [|discriminate].
  destruct d1 as [|x1 t1]; [discriminate|].
  destruct d2 as [|x2 t2]; [discriminate|].
  destruct (Z.eq_dec (list_len (x1 :: t1)) (list_len (x2 :: t2))) as [E|NE].
  - destruct (correlation_of_cases (x1 :: t1) (x2 :: t2)) as [-> | ->];
      try congruence.
    destruct (constant _ || constant _); discriminate.
  - unfold correlation_of. apply Z.eqb_neq in NE. rewrite NE. discriminate.
Qed.

Lemma correlation_of_returns (d1 d2 : option (list Z)) :
  exact_counts d1 -> exact_counts d2 -> exists r, correlation_of d1 d2 = Ok r.
Proof.
  destruct d1 as [d1|]; [|exists 0%R; reflexivity].
  destruct d2 as [d2|]; [|exists 0%R; reflexivity].
  destruct d1 as [|x1 t1]; [exists 0%R; reflexivity|].
  destruct d2 as [|x2 t2]; [exists 0%R; reflexivity|].
  cbn [exact_counts]. intros E1 E2.
  destruct (Z.eq_dec (list_len (x1 :: t1)) (list_len (x2 :: t2))) as [E|NE].
  - rewrite correlation_of_vectors by (congruence || assumption).
    destruct (constant _ || constant _); eexists; reflexivity.
  - exists 0%R. unfold correlation_of. apply Z.eqb_neq in NE. rewrite NE.
    reflexivity.
Qed.

(** On a degenerate input the step returns 0.0 unless a mean overflows. *)
Lemma correlation_of_degenerate_cases (d1 d2 : option (list Z)) :
  degenerate d1 d2 = true ->
  correlation_of d1 d2 = Ok 0%R \/ correlation_of d1 d2 = Raise OverflowError.
Proof.
  destruct d1 as [d1|]; [|left; reflexivity].
  destruct d2 as [d2|]; [|left; reflexivity].
  destruct d1 as [|x1 t1]; [left; reflexivity|].
  destruct d2 as [|x2 t2]; [left; reflexivity|].
  unfold degenerate.
  destruct (Z.eq_dec (list_len (x1 :: t1)) (list_len (x2 :: t2))) as [E|NE].
  - destruct (correlation_of_cases (x1 :: t1) (x2 :: t2)) as [-> | ->];
      try congruence; [right; reflexivity|].
    rewrite E, Z.eqb_refl. cbn [negb orb]. intros ->. left. reflexivity.
  - intros _. left. unfold correlation_of. apply Z.eqb_neq in NE. rewrite NE.
    reflexivity.
Qed.

Lemma correlation_of_degenerate (d1 d2 : option (list Z)) :
  degenerate d1 d2 = true -> exact_counts d1 -> exact_counts d2 ->
  correlation_of d1 d2 = Ok 0%R.
Proof.
  intros D E1 E2.
  destruct (correlation_of_degenerate_cases d1 d2 D) as [H|H]; [exact H|].
  destruct (correlation_of_returns d1 d2 E1 E2) as [r Hr]. congruence.
Qed.

Lemma correlation_of_self (v : list Z) :
  constant v = false -> Forall float_exact v ->
  correlation_of (Some v) (Some v) = Ok 1%R.
Proof.
  intros H Hex. assert (Hne : v <> []) by (intros ->; discriminate).
  rewrite correlation_of_vectors by (assumption || reflexivity).
  rewrite H. cbn [orb]. cbv zeta.
  pose proof (squares_positive v H) as Hpos.
  rewrite products_self, sqrt_square by lra.
  assert (E : Reqb (Rsum (squared_deviations (mean v) v)) 0 = false)
    by (apply Reqb_false_iff; lra).
  rewrite E. f_equal.
  replace (_ / _)%R with 1%R by (field; lra).
  apply round4_1.
Qed.

Lemma centred_product_swap (m1 m2 : R) (x y : Z) :
  centred_product m2 m1 (y, x) = centred_product m1 m2 (x, y).
Proof.
  unfold centred_product. cbn [fst snd].
  destruct (float_of_int_cases x) as [-> | ->],
           (float_of_int_cases y) as [-> | ->]; cbn [bind]; try reflexivity.
  f_equal. ring.
Qed.

Lemma products_swap (m1 m2 : R) (d1 : list Z) :
  forall d2,
    mapM (centred_product m2 m1) (combine d2 d1)
    = mapM (centred_product m1 m2) (combine d1 d2).
Proof.
  induction d1 as [|x d1 IH]; intros [|y d2]; cbn [combine mapM]; try reflexivity.
  rewrite centred_product_swap, IH. reflexivity.
Qed.

Lemma correlation_of_sym (d1 d2 : option (list Z)) :
  correlation_of d1 d2 = correlation_of d2 d1.
Proof.
  destruct d1 as [d1|], d2 as [d2|]; try reflexivity.
  destruct d1 as [|x1 t1]; [destruct d2; reflexivity|].
  destruct d2 as [|x2 t2]; [reflexivity|].
  destruct (Z.eq_dec (list_len (x1 :: t1)) (list_len (x2 :: t2))) as [E|NE].
  - set (v1 := x1 :: t1) in *. set (v2 := x2 :: t2) in *.
    assert (H1 : v1 <> []) by discriminate.
    assert (H2 : v2 <> []) by discriminate.
    unfold correlation_of.
    apply falsy_Some in H1 as F1. apply falsy_Some in H2 as F2. rewrite F1, F2.
    rewrite <- E, Z.eqb_refl. cbn [orb negb].
    pose proof (list_len_pos v1 H1) as Hn.
    destruct (true_divide_cases (Zsum v1) (list_len v1)) as [-> | ->]; [lia| |];
      destruct (true_divide_cases (Zsum v2) (list_len v1)) as [-> | ->];
      try lia; cbn [bind]; try reflexivity.
    set (m1 := (IZR (Zsum v1) / IZR (list_len v1))%R).
    set (m2 := (IZR (Zsum v2) / IZR (list_len v1))%R).
    rewrite (orb_comm (forallb _ v2)).
    destruct (forallb _ v1 || forallb _ v2); [reflexivity|].
    rewrite (products_swap m1 m2 v1 v2).
    destruct (mapM (centred_product m1 m2) (combine v1 v2)) as [ps|];
      cbn [bind]; [|reflexivity].
    destruct (mapM_cases (squared_deviation m1)
                (fun x => ((IZR x - m1) ^ 2)%R) v1
                (squared_deviation_cases _)) as [-> | ->];
      destruct (mapM_cases (squared_deviation m2)
                  (fun x => ((IZR x - m2) ^ 2)%R) v2
                  (squared_deviation_cases _)) as [-> | ->];
      cbn [bind]; try reflexivity.
    rewrite (Rmult_comm (Rsum (map _ v2))). reflexivity.
  - unfold correlation_of. rewrite (Z.eqb_sym (list_len (x2 :: t2))).
    apply Z.eqb_neq in NE. rewrite NE. reflexivity.
Qed.
End Correlation.

Module Output4.
Import PyStr Project1 Statistics Correlation.

Lemma split_nonempty (sep : ascii) (s : string) : split sep s <> [].
Proof.
  induction s as [|c s IH]; simpl; [discriminate|].
  destruct (Ascii.eqb c sep); [discriminate|].
  destruct (split sep s); discriminate.
Qed.

Lemma cell_first (line : string) :
  cell (split "," line) 0 = Ok (hd EmptyString (split "," line)).
Proof.
  pose proof (split_nonempty "," line) as H.
  destruct (split "," line); [congruence | reflexivity].
Qed.

Lemma int_raises (s : string) (e : exn) : int s = Raise e -> e = ValueError.
Proof.
  unfold int.
  destruct (strip s) as [|c body];
    [simpl; congruence|].
  destruct c as [[] [] [] [] [] [] [] []];
    try (destruct (int_body _ _ _); simpl; congruence).
Qed.

Lemma int_or_zero_raises (s : string) (e : exn) :
  int_or_zero s = Raise e -> e = ValueError.
Proof.
  unfold int_or_zero. destruct (strip s); [discriminate|]. apply int_raises.
Qed.

Lemma mapM_raises {A B : Type} (f : A -> res B) (l : list A) (e : exn) :
  mapM f l = Raise e -> exists a, In a l /\ f a = Raise e.
Proof.
  induction l as [|a l IH]; simpl; [discriminate|].
  destruct (f a) as [b|e'] eqn:E; simpl.
  - destruct (mapM f l) as [bs|e'']; simpl; [discriminate|].
    intros H. injection H as ->. destruct IH as [a' [Hin Ha']]; [reflexivity|].
    exists a'. auto.
  - intros H. injection H as ->. exists a. auto.
Qed.

Lemma row_raises (cells : list string) (e : exn) :
  mapM int_or_zero cells = Raise e -> e = ValueError.
Proof.
  intros H. apply mapM_raises in H as [a [_ Ha]]. eapply int_or_zero_raises, Ha.
Qed.

Lemma extract_step_raises c1 c2 st line e :
  extract_step c1 c2 st line = Raise e -> e = ValueError.
Proof.
  unfold extract_step. rewrite cell_first. cbn [bind].
  remember (mapM int_or_zero (skipn 2 (split "," line))) as row eqn:E.
  symmetry in E.
  destruct (String.eqb _ c1), (String.eqb _ c2), row; cbn [bind];
    try discriminate; intros H; injection H as <-; eapply row_raises, E.
Qed.

Lemma foldM_raises {A B : Type} (f : A -> B -> res A) (l : list B) (e : exn) :
  forall a, foldM f l a = Raise e -> exists a' b, f a' b = Raise e.
Proof.
  induction l as [|b l IH]; intros a; simpl; [discriminate|].
  destruct (f a b) as [a'|e'] eqn:E; simpl.
  - apply IH.
  - intros H. injection H as ->. exists a, b. exact E.
Qed.

(** The correlation step raises nothing but the [ValueError] of a cell
    that is not an integer and the [OverflowError] of a count out of the
    range of a float: in particular no [ZeroDivisionError]. *)
Lemma output4_raises lines c1 c2 e :
  output4 lines c1 c2 = Raise e -> e = ValueError \/ e = OverflowError.
Proof.
  unfold output4, extract_distributions.
  destruct (foldM _ lines (None, None)) as [ds|e'] eqn:E; cbn [bind].
  - intros H. right. eapply correlation_of_raises, H.
  - intros H. injection H as ->. apply foldM_raises in E as [a [b Hab]].
    left. eapply extract_step_raises, Hab.
Qed.

Lemma extract_step_swap c1 c2 a b line :
  extract_step c2 c1 (b, a) line =
  (r <- extract_step c1 c2 (a, b) line ;; Ok (swap r)).
Proof.
  unfold extract_step. rewrite cell_first. cbn [bind fst snd].
  destruct (String.eqb _ c1), (String.eqb _ c2),
    (mapM int_or_zero (skipn 2 (split "," line))); reflexivity.
Qed.

Lemma extract_fold_swap c1 c2 lines :
  forall a b,
    foldM (extract_step c2 c1) lines (b, a) =
    (r <- foldM (extract_step c1 c2) lines (a, b) ;; Ok (swap r)).
Proof.
  induction lines as [|line lines IH]; intros a b; simpl; [reflexivity|].
  rewrite extract_step_swap.
  destruct (extract_step c1 c2 (a, b) line) as [[a' b']|e]; simpl; [|reflexivity].
  apply IH.
Qed.

Lemma output4_sym lines c1 c2 : output4 lines c1 c2 = output4 lines c2 c1.
Proof.
  unfold output4, extract_distributions.
  rewrite (extract_fold_swap c2 c1 lines None None).
  destruct (foldM (extract_step c2 c1) lines (None, None)) as [[a b]|e];
    simpl; [|reflexivity].
  apply correlation_of_sym.
Qed.

Lemma extract_same_code c lines d1 d2 :
  extract_distributions lines c c = Ok (d1, d2) -> d1 = d2.
Proof.
  unfold extract_distributions. intros H.
  pose proof (extract_fold_swap c c lines None None) as S.
  rewrite H in S. simpl in S. unfold swap in S. simpl in S. congruence.
Qed.

Lemma extract_present c1 c2 lines :
  forall a b d1 d2,
    foldM (extract_step c1 c2) lines (a, b) = Ok (d1, d2) ->
    is_some a || row_present c1 lines = true -> is_some d1 = true.
Proof.
  induction lines as [|line lines IH]; intros a b d1 d2; simpl.
  - intros H. injection H as <- <-. rewrite orb_false_r. auto.
  - unfold extract_step at 1. rewrite cell_first. cbn [bind fst snd].
    destruct (String.eqb _ c1) eqn:E1.
    + destruct (mapM int_or_zero _) as [row|]; cbn [bind]; [|discriminate].
      destruct (String.eqb _ c2); cbn [bind]; intros H _;
        apply (IH _ _ _ _ H); reflexivity.
    + cbn [bind orb].
      destruct (String.eqb _ c2); cbn [bind].
      * destruct (mapM int_or_zero _) as [row|]; cbn [bind]; [|discriminate].
        intros H Hp. apply (IH _ _ _ _ H). exact Hp.
      * intros H Hp. apply (IH _ _ _ _ H). exact Hp.
Qed.
End Output4.

Module MainRun.
Import PyStr Project1 Statistics Correlation Output4.

Lemma float_exact_0 : float_exact 0.
Proof. vm_compute. discriminate. Qed.

Lemma rounded_statistics_returns (counts : list Z) :
  Forall float_exact counts -> exists r, rounded_statistics counts = Ok r.
Proof.
  intros Hex. unfold rounded_statistics. destruct counts as [|x t].
  - eexists; reflexivity.
  - destruct (group_statistics_mean (x :: t)) as [sd [H _]];
      [discriminate|exact Hex|].
    rewrite H. eexists; reflexivity.
Qed.

Lemma rounded_statistics_raises (counts : list Z) (e : exn) :
  rounded_statistics counts = Raise e -> e = OverflowError.
Proof.
  unfold rounded_statistics.
  destruct (group_statistics counts) as [st|e'] eqn:E; cbn [bind]; [discriminate|].
  intros H. injection H as <-. eapply group_statistics_raises, E.
Qed.

Lemma count_step_exact same i counts line :
  Forall float_exact counts -> float_exact (count_or_zero i line) ->
  Forall float_exact (count_step same i counts line).
Proof.
  intros Hc Hl. unfold count_step. unfold count_or_zero, target_cell in Hl.
  rewrite cell_first. cbn [bind].
  destruct (str_in _ same); [|exact Hc].
  destruct (cell (split "," line) (i + 2)) as [c|]; cbn [bind] in *.
  - destruct (int_or_zero c) as [v|]; cbn [bind];
      apply Forall_app; split; auto.
  - apply Forall_app; split; auto.
Qed.

Lemma counts_exact same i lines :
  (forall line, In line lines -> float_exact (count_or_zero i line)) ->
  forall counts,
    Forall float_exact counts ->
    Forall float_exact (fold_left (count_step same i) lines counts).
Proof.
  induction lines as [|line lines IH]; intros H counts Hc; cbn [fold_left];
    [exact Hc|].
  apply IH; [intros l Hl; apply H; right; exact Hl|].
  apply count_step_exact; [exact Hc|apply H; left; reflexivity].
Qed.

Lemma sa3_stat_returns m lines i c :
  (forall line, In line lines -> float_exact (count_or_zero i line)) ->
  exists r, sa3_stat m lines i c = Ok r.
Proof.
  intros Hex.
  unfold sa3_stat. destruct (dget c (sa2_to_sa3 m)) as [[|ch s]|];
    try (eexists; reflexivity).
  destruct (rounded_statistics_returns
              (fold_left
                 (count_step
                    (map fst (filter (fun kv => String.eqb (snd kv) (String ch s))
                                     (sa2_to_sa3 m))) i) lines [])) as [r Hr].
  { apply counts_exact; [exact Hex|constructor]. }
  rewrite Hr. eexists; reflexivity.
Qed.

Lemma sa3_stat_raises m lines i c e :
  sa3_stat m lines i c = Raise e -> e = OverflowError.
Proof.
  unfold sa3_stat. destruct (dget c (sa2_to_sa3 m)) as [[|ch s]|];
    try discriminate.
  destruct (rounded_statistics _) as [st|e'] eqn:E; cbn [bind]; [discriminate|].
  intros H. injection H as <-. eapply rounded_statistics_raises, E.
Qed.

Lemma state_row_returns m w :
  float_exact (snd (fst w)) -> exists r, state_row m w = Ok r.
Proof.
  destruct w as [[[state max_sa3] max_age_count] total]. cbn [fst snd].
  intros Hex. unfold state_row.
  destruct (total =? 0) eqn:E; cbn [bind]; [eexists; reflexivity|].
  apply Z.eqb_neq in E. rewrite true_divide_Ok; [eexists; reflexivity|exact E|].
  pose proof float_limit_exact. unfold float_exact in Hex. nia.
Qed.

Lemma prepare_fields af pf age c1 c2 p :
  prepare af pf age c1 c2 = Some p ->
  code_1 p = strip c1 /\ code_2 p = strip c2 /\ data_lines p = tl (read_lines pf).
Proof.
  unfold prepare.
  destruct (age <? 0); [discriminate|].
  destruct (negb (valid_sa2_code c1)); [discriminate|].
  destruct (negb (valid_sa2_code c2)); [discriminate|].
  destruct (_ || _); [discriminate|].
  destruct (match_age_to_group _ _) as [[label|] flag]; [|discriminate].
  destruct (index_of _ _); [|discriminate].
  intros H. injection H as <-. auto.
Qed.

Lemma main_inversion af pf age c1 c2 out :
  main af pf age c1 c2 = Ok (Some out) ->
  exists p, prepare af pf age c1 c2 = Some p /\
            output4 (data_lines p) (code_1 p) (code_2 p) = Ok (correlation out).
Proof.
  unfold main. destruct (prepare af pf age c1 c2) as [p|]; [|discriminate].
  destruct (mapM _ _) as [stats|e]; cbn [bind]; [|discriminate].
  destruct (output3 _ _ _) as [rows|e]; [|discriminate].
  destruct (output4 (data_lines p) (code_1 p) (code_2 p)) as [c|e] eqn:H4;
    [|discriminate].
  intros H. injection H as <-. exists p. split; [reflexivity | exact H4].
Qed.

(** The only exception that leaves [main] is the [OverflowError] of the
    statistics of Output 2. *)
Lemma main_raises af pf age c1 c2 e :
  main af pf age c1 c2 = Raise e -> e = OverflowError.
Proof.
  unfold main. destruct (prepare af pf age c1 c2) as [p|]; [|discriminate].
  destruct (mapM _ _) as [stats|e'] eqn:Hs; cbn [bind].
  - destruct (output3 _ _ _); [|discriminate].
    destruct (output4 _ _ _); discriminate.
  - intros H. injection H as <-.
    apply mapM_raises in Hs as [c [_ Hc]]. eapply sa3_stat_raises, Hc.
Qed.

(** It raises nothing when a float holds exactly the counts of the data
    lines. *)
Lemma main_exact af pf age c1 c2 :
  (forall line i, In line (tl (read_lines pf)) ->
                  float_exact (count_or_zero i line)) ->
  exists r, main af pf age c1 c2 = Ok r.
Proof.
  intros Hex. unfold main.
  destruct (prepare af pf age c1 c2) as [p|] eqn:P; [|eexists; reflexivity].
  destruct (prepare_fields _ _ _ _ _ _ P) as [_ [_ E3]].
  destruct (mapM_Ok (sa3_stat (maps p) (data_lines p) (age_group_index p))
                    [code_1 p; code_2 p]) as [stats [Hs _]].
  { intros c _. apply sa3_stat_returns. rewrite E3. intros line Hl.
    apply Hex, Hl. }
  rewrite Hs. cbn [bind].
  destruct (output3 _ _ _); [|eexists; reflexivity].
  destruct (output4 _ _ _); eexists; reflexivity.
Qed.

Lemma main_returns af pf age c1 c2 :
  returns_outputs af pf age c1 c2 = true ->
  exists out, main af pf age c1 c2 = Ok (Some out).
Proof.
  unfold returns_outputs, main.
  destruct (prepare af pf age c1 c2) as [p|]; [|discriminate].
  destruct (state_winners _ _ _) as [ws|] eqn:W; [|discriminate].
  destruct (extract_distributions _ _ _) as [ds|] eqn:X; [|discriminate].
  intros H. apply andb_true_iff in H as [H E2].
  apply andb_true_iff in H as [H E1]. apply andb_true_iff in H as [Hc Hw].
  rewrite forallb_forall in Hc, Hw.
  apply exact_countsb_iff in E1, E2.
  destruct (mapM_Ok (sa3_stat (maps p) (data_lines p) (age_group_index p))
                    [code_1 p; code_2 p]) as [stats [Hs _]].
  { intros c _. apply sa3_stat_returns. intros line Hl.
    apply float_exactb_iff, Hc, Hl. }
  rewrite Hs. cbn [bind].
  unfold output3. rewrite W. cbn [bind].
  destruct (mapM_Ok (state_row (maps p)) ws) as [rows [Hr _]].
  { intros w Hin. apply state_row_returns, float_exactb_iff, Hw, Hin. }
  rewrite Hr.
  unfold output4. rewrite X. cbn [bind].
  destruct (correlation_of_returns (fst ds) (snd ds) E1 E2) as [c Hc']. rewrite Hc'.
  eexists; reflexivity.
Qed.

Lemma same_code_correlation af pf age c out :
  row_present (strip c) (tl (read_lines pf)) = true ->
  main af pf age c c = Ok (Some out) ->
  exists v,
    extract_distributions (tl (read_lines pf)) (strip c) (strip c)
    = Ok (Some v, Some v) /\
    (constant v = false -> Forall float_exact v -> correlation out = 1%R) /\
    (constant v = true -> correlation out = 0%R).
Proof.
  intros Hrow Hmain.
  apply main_inversion in Hmain as [p [Hp H4]].
  apply prepare_fields in Hp as [E1 [E2 E3]]. rewrite E1, E2, E3 in H4.
  unfold output4 in H4.
  destruct (extract_distributions _ _ _) as [[d1 d2]|e] eqn:X; [|discriminate].
  cbn [bind fst snd] in H4.
  pose proof (extract_same_code _ _ _ _ X) as <-.
  pose proof (extract_present _ _ _ _ _ _ _ X) as Hsome.
  cbn [is_some orb] in Hsome. specialize (Hsome Hrow).
  destruct d1 as [v|]; [|discriminate].
  exists v. split; [reflexivity|]. split.
  - intros Hc Hex. rewrite (correlation_of_self v Hc Hex) in H4. congruence.
  - intros Hc.
    destruct (correlation_of_degenerate_cases (Some v) (Some v)) as [H|H];
      [unfold degenerate; rewrite Hc; apply orb_true_r| |]; congruence.
Qed.

Lemma main_degenerate af pf age c1 c2 out d1 d2 :
  main af pf age c1 c2 = Ok (Some out) ->
  extract_distributions (tl (read_lines pf)) (strip c1) (strip c2) = Ok (d1, d2) ->
  degenerate d1 d2 = true ->
  correlation out = 0%R.
Proof.
  intros Hmain X Hd.
  apply main_inversion in Hmain as [p [Hp H4]].
  apply prepare_fields in Hp as [E1 [E2 E3]]. rewrite E1, E2, E3 in H4.
  unfold output4 in H4. rewrite X in H4. cbn [bind fst snd] in H4.
  destruct (correlation_of_degenerate_cases _ _ Hd) as [H|H]; congruence.
Qed.

(** A mean out of the range of a float: the division of line 204 raises
    [OverflowError]. *)
Lemma correlation_of_mean_overflow (d1 d2 : list Z) :
  d1 <> [] -> d2 <> [] -> list_len d1 = list_len d2 ->
  float_limit * list_len d1 <= Z.abs (Zsum d1) ->
  correlation_of (Some d1) (Some d2) = Raise OverflowError.
Proof.
  intros H1 H2 Hlen Hbig. unfold correlation_of.
  apply falsy_Some in H1 as F1. apply falsy_Some in H2 as F2. rewrite F1, F2.
  rewrite Hlen, Z.eqb_refl. cbn [orb negb].
  pose proof (list_len_pos d2 H2) as Hn.
  unfold true_divide at 1.
  destruct (Z.eqb_spec (list_len d2) 0) as [E|_]; [lia|].
  destruct (Z.ltb_spec (Z.abs (Zsum d1)) (float_limit * Z.abs (list_len d2)))
    as [Hlt|_]; [|reflexivity].
  rewrite (Z.abs_eq (list_len d2)) in Hlt by lia. lia.
Qed.

(** C1 (as amended): in a run of [main] that is given the same valid SA2
    code twice, whose row is present, and that returns its outputs, the
    two extracted distributions are the same vector; the correlation is
    1.0 when that vector is not constant and a float holds its counts
    exactly (they are at most 2^53 in absolute value), and 0.0 when the
    vector is constant (or empty).  The correlation step never raises a
    division error (only the [ValueError] of a malformed cell and the
    [OverflowError] of a count out of the range of a float, which make
    [main] return [None]), it is symmetric in the two codes, and the
    correlation of any non-constant vector of such counts with itself is
    1.0. *)
Theorem self_correlation af pf age c out :
  valid_sa2_code c = true ->
  row_present (strip c) (tl (read_lines pf)) = true ->
  main af pf age c c = Ok (Some out) ->
  (exists v,
      extract_distributions (tl (read_lines pf)) (strip c) (strip c)
      = Ok (Some v, Some v) /\
      (constant v = false -> Forall float_exact v -> correlation out = 1%R) /\
      (constant v = true -> correlation out = 0%R)) /\
  (forall lines c1 c2,
      output4 lines c1 c2 <> Raise ZeroDivisionError /\
      output4 lines c1 c2 = output4 lines c2 c1) /\
  (forall w, constant w = false -> Forall float_exact w ->
             correlation_of (Some w) (Some w) = Ok 1%R).
Proof.
  intros _ Hrow Hmain.
  split; [|split].
  - eapply same_code_correlation; eassumption.
  - intros lines c1 c2. split; [|apply output4_sym].
    intros H. apply output4_raises in H as [H|H]; discriminate.
  - apply correlation_of_self.
Qed.

Lemma self_correlation_witness :
  exists out,
    main area_file_example population_file_example 25 "401011002" "401011002"
    = Ok (Some out) /\
    correlation out = 1%R.
Proof.
  destruct (main_returns area_file_example population_file_example 25
              "401011002" "401011002" eq_refl) as [out Hout].
  exists out. split; [exact Hout|].
  destruct (self_correlation area_file_example population_file_example 25
              "401011002" out eq_refl eq_refl Hout)
    as [[v [Hv [H1 _]]] _].
  vm_compute in Hv. injection Hv as <-.
  apply H1; [reflexivity|].
  repeat constructor; vm_compute; discriminate.
Defined.

(** C1 (as stated) fails: the row of SA2 401011001 is present and holds
    5 in every age group; with that code given twice [main] returns the
    correlation 0.0, not 1.0. *)
Lemma same_code_constant_row :
  valid_sa2_code "401011001" = true /\
  row_present "401011001" (tl (read_lines population_file_example)) = true /\
  exists out,
    main area_file_example population_file_example 25 "401011001" "401011001"
    = Ok (Some out) /\
    correlation out = 0%R /\ correlation out <> 1%R.
Proof.
  split; [reflexivity|]. split; [reflexivity|].
  destruct (main_returns area_file_example population_file_example 25
              "401011001" "401011001" eq_refl) as [out Hout].
  exists out. split; [exact Hout|].
  destruct (same_code_correlation area_file_example population_file_example 25
              "401011001" out eq_refl Hout) as [v [Hv [_ H0]]].
  assert (E : correlation out = 0%R).
  { apply H0. vm_compute in Hv. injection Hv as <-. reflexivity. }
  split; [exact E|]. rewrite E. lra.
Qed.

(** C7 (as amended): when a row is absent, the two vectors differ in
    length, or one of them is constant, and a float holds the counts of
    the two vectors exactly (they are at most 2^53 in absolute value),
    the correlation step returns 0.0, and so does a run of [main] that
    returns its outputs.  On such counts the step returns a value for
    every pair of distributions; on any counts it never raises a
    division error. *)
Theorem degenerate_correlation_is_zero (d1 d2 : option (list Z)) :
  degenerate d1 d2 = true ->
  exact_counts d1 -> exact_counts d2 ->
  correlation_of d1 d2 = Ok 0%R /\
  (forall af pf age c1 c2 out,
      main af pf age c1 c2 = Ok (Some out) ->
      extract_distributions (tl (read_lines pf)) (strip c1) (strip c2)
      = Ok (d1, d2) ->
      correlation out = 0%R) /\
  (forall e1 e2, exact_counts e1 -> exact_counts e2 ->
                 exists r, correlation_of e1 e2 = Ok r) /\
  (forall e1 e2, correlation_of e1 e2 <> Raise ZeroDivisionError) /\
  (forall lines c1 c2, output4 lines c1 c2 <> Raise ZeroDivisionError).
Proof.
  intros Hd E1 E2. split; [apply correlation_of_degenerate; assumption|].
  split; [|split; [|split]].
  - intros af pf age c1 c2 out Hmain X. eapply main_degenerate; eassumption.
  - apply correlation_of_returns.
  - intros e1 e2 H. apply correlation_of_raises in H. discriminate.
  - intros lines c1 c2 H. apply output4_raises in H as [H|H]; discriminate.
Qed.

Lemma degenerate_correlation_is_zero_witness :
  correlation_of (Some [5; 5; 5]) (Some [1; 2; 3]) = Ok 0%R /\
  correlation_of None (Some [1; 2; 3]) = Ok 0%R /\
  correlation_of (Some [1; 2]) (Some [1; 2; 3]) = Ok 0%R.
Proof.
  assert (E : forall l, forallb float_exactb l = true ->
                        exact_counts (Some l)).
  { intros l H. apply (proj1 (exact_countsb_iff (Some l))). exact H. }
  split; [|split].
  - apply (degenerate_correlation_is_zero (Some [5; 5; 5]) (Some [1; 2; 3]));
      [reflexivity|apply E; reflexivity|apply E; reflexivity].
  - apply (degenerate_correlation_is_zero None (Some [1; 2; 3]));
      [reflexivity|exact I|apply E; reflexivity].
  - apply (degenerate_correlation_is_zero (Some [1; 2]) (Some [1; 2; 3]));
      [reflexivity|apply E; reflexivity|apply E; reflexivity].
Defined.

(** C7 (as stated) fails: the vector of the first code is constant, with
    a count of 401 digits in both age groups; the division of line 204
    raises [OverflowError], the step returns no correlation and [main]
    returns [None]. *)
Lemma constant_row_out_of_range :
  degenerate (Some [10 ^ 400; 10 ^ 400]) (Some [1; 2]) = true /\
  extract_distributions (tl (read_lines population_file_out_of_range))
                        "401011008" "401011009"
  = Ok (Some [10 ^ 400; 10 ^ 400], Some [1; 2]) /\
  correlation_of (Some [10 ^ 400; 10 ^ 400]) (Some [1; 2])
  = Raise OverflowError /\
  main area_file_example population_file_out_of_range 25
       "401011008" "401011009" = Ok None.
Proof.
  assert (C : correlation_of (Some [10 ^ 400; 10 ^ 400]) (Some [1; 2])
              = Raise OverflowError).
  { apply correlation_of_mean_overflow.
    - discriminate.
    - discriminate.
    - reflexivity.
    - vm_compute. discriminate. }
  assert (X : extract_distributions (tl (read_lines population_file_out_of_range))
                "401011008" "401011009"
              = Ok (Some [10 ^ 400; 10 ^ 400], Some [1; 2]))
    by (vm_compute; reflexivity).
  split; [reflexivity|]. split; [exact X|]. split; [exact C|].
  unfold main.
  destruct (prepare area_file_example population_file_out_of_range 25
              "401011008" "401011009") as [p|] eqn:P; [|reflexivity].
  destruct (prepare_fields _ _ _ _ _ _ P) as [E1 [E2 E3]].
  destruct (mapM_Ok (sa3_stat (maps p) (data_lines p) (age_group_index p))
                    [code_1 p; code_2 p]) as [stats [Hs _]].
  { intros c Hc. unfold sa3_stat.
    assert (G : dget c (sa2_to_sa3 (maps p)) = None).
    { rewrite E1, E2 in Hc. vm_compute in P. injection P as <-.
      destruct Hc as [<-|[<-|[]]]; reflexivity. }
    rewrite G. eexists; reflexivity. }
  rewrite Hs. cbn [bind].
  destruct (output3 _ _ _); [|reflexivity].
  unfold output4. rewrite E1, E2, E3.
  change (strip "401011008") with "401011008"%string.
  change (strip "401011009") with "401011009"%string.
  rewrite X. cbn [bind fst snd]. rewrite C. reflexivity.
Qed.

Lemma small_counts_exact (counts : list Z) :
  Forall small_count counts -> Forall float_exact counts.
Proof.
  apply Forall_impl. intros x Hx. unfold small_count in Hx. unfold float_exact.
  assert (H : 10 ^ 6 <= 2 ^ 53) by (vm_compute; discriminate). lia.
Qed.

(** C6 (as amended): the statistics of a group of at most 1,000 counts,
    each at most 1,000,000 in absolute value.  With no data point the
    mean and the standard deviation are both 0.0; with one data point
    the standard deviation is 0.0; with two or more it is the sample
    standard deviation (divisor n - 1) -- in the inline statistics of
    Project 1 and in [calculate_sample_sd] of Project 2, which returns
    it to four places (within a unit of the fourth place). *)
Theorem sample_standard_deviation_policy (counts : list Z) :
  list_len counts <= 1000 ->
  Forall small_count counts ->
  (list_len counts = 0 ->
   group_statistics counts = Ok (0%R, 0%R) /\
   rounded_statistics counts = Ok (0%R, 0%R) /\
   Project2.calculate_sample_sd counts = Ok 0%R) /\
  (list_len counts = 1 ->
   group_statistics counts = Ok (mean counts, 0%R) /\
   rounded_statistics counts = Ok (round4 (mean counts), 0%R) /\
   Project2.calculate_sample_sd counts = Ok 0%R) /\
  (2 <= list_len counts ->
   group_statistics counts = Ok (mean counts, sample_sd counts) /\
   exists sd,
     Project2.calculate_sample_sd counts = Ok sd /\
     (Rabs (sd - sample_sd counts) <= / 10000)%R).
Proof.
  intros _ Hsmall. pose proof (small_counts_exact counts Hsmall) as Hex.
  split; [|split]; intros Hn.
  - destruct counts as [|x t];
      [|rewrite list_len_cons in Hn; pose proof (list_len_nonneg t); lia].
    unfold rounded_statistics. cbn [group_statistics bind fst snd].
    rewrite round4_0. repeat split; reflexivity.
  - assert (Hne : counts <> [])
      by (intros ->; unfold list_len in Hn; simpl in Hn; lia).
    destruct (group_statistics_mean counts Hne Hex) as [sd [H [H1 _]]].
    rewrite (H1 Hn) in H. unfold rounded_statistics. rewrite H.
    cbn [bind fst snd]. rewrite round4_0.
    repeat split; try reflexivity.
    apply calculate_sample_sd_small. lia.
  - assert (Hne : counts <> [])
      by (intros ->; unfold list_len in Hn; simpl in Hn; lia).
    destruct (group_statistics_mean counts Hne Hex) as [sd [H [_ H2]]].
    rewrite (H2 Hn) in H. split; [exact H|].
    exists (round4 (sample_sd counts)).
    split; [apply calculate_sample_sd_large, Hn|apply round4_close].
Qed.

Lemma sample_standard_deviation_policy_witness :
  group_statistics [7] = Ok (mean [7], 0%R) /\
  group_statistics [1; 2; 3] = Ok (mean [1; 2; 3], sample_sd [1; 2; 3]).
Proof.
  assert (E : forall l, forallb (fun x => Z.abs x <=? 10 ^ 6) l = true ->
                        Forall small_count l).
  { intros l H. rewrite forallb_forall in H. apply Forall_forall.
    intros x Hx. apply Z.leb_le, H, Hx. }
  assert (L1 : list_len [7] <= 1000) by (vm_compute; discriminate).
  assert (L3 : list_len [1; 2; 3] <= 1000) by (vm_compute; discriminate).
  split.
  - apply (sample_standard_deviation_policy [7] L1 (E [7] eq_refl)). reflexivity.
  - apply (sample_standard_deviation_policy [1; 2; 3] L3 (E [1; 2; 3] eq_refl)).
    vm_compute. discriminate.
Defined.

Lemma huge_count_statistics :
  group_statistics [10 ^ 309] = Raise OverflowError.
Proof.
  unfold group_statistics.
  assert (T : true_divide (Zsum [10 ^ 309]) (list_len [10 ^ 309])
              = Raise OverflowError) by (vm_compute; reflexivity).
  rewrite T. reflexivity.
Qed.

Lemma huge_count_leaves_main :
  main area_file_single population_file_huge 25 "401011001" "401011001"
  = Raise OverflowError.
Proof.
  unfold main.
  destruct (prepare area_file_single population_file_huge 25
              "401011001" "401011001") as [p|] eqn:P;
    [|vm_compute in P; discriminate].
  assert (S : sa3_stat (maps p) (data_lines p) (age_group_index p) (code_1 p)
              = Raise OverflowError).
  { unfold sa3_stat.
    assert (D : dget (code_1 p) (sa2_to_sa3 (maps p)) = Some "40101"%string)
      by (vm_compute in P; injection P as <-; reflexivity).
    rewrite D. cbv iota beta.
    assert (F : fold_left
                  (count_step
                     (map fst (filter (fun kv => String.eqb (snd kv) "40101")
                                      (sa2_to_sa3 (maps p))))
                     (age_group_index p))
                  (data_lines p) [] = [10 ^ 309])
      by (vm_compute in P; injection P as <-; vm_compute; reflexivity).
    rewrite F. unfold rounded_statistics. rewrite huge_count_statistics.
    reflexivity. }
  cbn [mapM]. rewrite S. reflexivity.
Qed.

(** C6 (as stated) fails: the SA3 of SA2 401011001 has one data point
    for the age group 25-29, a count of 310 digits; the division of
    line 130 raises [OverflowError], which leaves [main], where the
    claim gives a standard deviation of 0.0. *)
Lemma single_count_out_of_range :
  list_len [10 ^ 309] = 1 /\
  group_statistics [10 ^ 309] = Raise OverflowError /\
  main area_file_single population_file_huge 25 "401011001" "401011001"
  = Raise OverflowError.
Proof.
  split; [reflexivity|].
  split; [exact huge_count_statistics|exact huge_count_leaves_main].
Qed.

End MainRun.

(* ================================================================== *)
(** * Dicts *)

Section DictFacts.
Context {V : Type}.
Implicit Types (d : dict V) (k : string) (v : V).

Lemma dget_dset_same k v d : dget k (dset k v d) = Some v.
Proof.
  induction d as [|[k' v'] d IH]; simpl.
  - rewrite String.eqb_refl. reflexivity.
  - destruct (String.eqb k k') eqn:E; simpl; rewrite E; [reflexivity | exact IH].
Qed.

Lemma dget_dset_other k k' v d : k <> k' -> dget k' (dset k v d) = dget k' d.
Proof.
  intros Hne. induction d as [|[k0 v0] d IH]; simpl.
  - apply String.eqb_neq in Hne. rewrite String.eqb_sym, Hne. reflexivity.
  - destruct (String.eqb k k0) eqn:E; simpl.
    + apply String.eqb_eq in E. subst k0.
      apply String.eqb_neq in Hne. rewrite String.eqb_sym, Hne. reflexivity.
    + destruct (String.eqb k' k0); [reflexivity | exact IH].
Qed.

Lemma dget_None k d : dget k d = None <-> ~ In k (dkeys d).
Proof.
  induction d as [|[k' v'] d IH]; simpl; [tauto|].
  destruct (String.eqb k k') eqn:E.
  - apply String.eqb_eq in E. subst. split; [discriminate | intros H; exfalso; auto].
  - apply String.eqb_neq in E. rewrite IH. split; [intros H [?|?]; auto | auto].
Qed.

Lemma dget_Some_In k v d : dget k d = Some v -> In (k, v) d.
Proof.
  induction d as [|[k' v'] d IH]; simpl; [discriminate|].
  destruct (String.eqb k k') eqn:E.
  - apply String.eqb_eq in E. subst. intros H; injection H as ->. auto.
  - auto.
Qed.

Lemma In_dget k v d : NoDup (dkeys d) -> In (k, v) d -> dget k d = Some v.
Proof.
  induction d as [|[k' v'] d IH]; simpl; [tauto|].
  intros Hnd [H|H].
  - injection H as -> ->. rewrite String.eqb_refl. reflexivity.
  - inversion Hnd as [|? ? Hnot Hnd']; subst.
    destruct (String.eqb k k') eqn:E; [|apply IH; assumption].
    apply String.eqb_eq in E. subst. exfalso. apply Hnot.
    apply (in_map fst) in H. exact H.
Qed.

Lemma dset_fresh k v d : dget k d = None -> dset k v d = d ++ [(k, v)].
Proof.
  induction d as [|[k' v'] d IH]; simpl; [reflexivity|].
  destruct (String.eqb k k'); [discriminate|]. intros H. rewrite IH by exact H.
  reflexivity.
Qed.

Lemma dkeys_dset_present k v d : dget k d <> None -> dkeys (dset k v d) = dkeys d.
Proof.
  induction d as [|[k' v'] d IH]; simpl; [congruence|].
  destruct (String.eqb k k'); simpl; [reflexivity|].
  intros H. rewrite IH by exact H. reflexivity.
Qed.

Lemma In_dkeys_dset k k' v d :
  In k' (dkeys (dset k v d)) <-> k' = k \/ In k' (dkeys d).
Proof.
  destruct (dget k d) eqn:E.
  - rewrite dkeys_dset_present by congruence. split; [auto|].
    intros [->|H]; [|exact H].
    destruct (in_dec string_dec k (dkeys d)) as [Hin|Hnot]; [exact Hin|].
    apply dget_None in Hnot. congruence.
  - rewrite (dset_fresh _ _ _ E). unfold dkeys. rewrite map_app, in_app_iff.
    simpl. intuition.
Qed.

Lemma NoDup_dkeys_dset k v d : NoDup (dkeys d) -> NoDup (dkeys (dset k v d)).
Proof.
  intros H. destruct (dget k d) eqn:E.
  - rewrite dkeys_dset_present by congruence. exact H.
  - rewrite (dset_fresh _ _ _ E). unfold dkeys. rewrite map_app. simpl.
    apply NoDup_app_remove_l with (l := []). simpl.
    apply Permutation_NoDup with (l := k :: map fst d).
    + apply Permutation_cons_append.
    + constructor; [apply dget_None, E | exact H].
Qed.

Lemma dmem_true k d : dmem k d = true <-> In k (dkeys d).
Proof.
  unfold dmem. destruct (dget k d) eqn:E.
  - split; [intros _|reflexivity].
    destruct (in_dec string_dec k (dkeys d)) as [Hin|Hnot]; [exact Hin|].
    apply dget_None in Hnot. congruence.
  - apply dget_None in E. split; [discriminate | contradiction].
Qed.

Lemma In_dkeys_dget k d : In k (dkeys d) -> exists v, dget k d = Some v.
Proof.
  intros H. destruct (dget k d) eqn:E; [eexists; reflexivity|].
  apply dget_None in E. contradiction.
Qed.

Lemma dset_nonempty k v d : dset k v d <> [].
Proof. destruct d as [|[k' v'] d]; simpl; [|destruct (String.eqb k k')]; discriminate. Qed.
End DictFacts.

Module CleanData.
Import PyStr Project2.

Section Pass.
Variable idx : dict area_row.

Lemma first_pass (pops : list pop_record) :
  forall seen ca cp,
  exists added,
    fold_left (clean_step idx) pops (seen, ca, cp)
    = (rev (map record_key added) ++ seen, ca ++ map (attach idx) added, cp ++ added)
    /\ pass_adds idx added seen.
Proof.
  induction pops as [|r pops IH]; intros seen ca cp.
  - exists []. simpl. rewrite !app_nil_r. split; [reflexivity|].
    repeat split; [intros ? [] | constructor | intros ? []].
  - cbn [fold_left]. unfold clean_step at 2.
    destruct (dget (sa2_code r) idx) as [row|] eqn:Hrow; [|apply IH].
    destruct (str_in (sa2_code r ++ age r) seen) eqn:Hseen; [apply IH|].
    destruct (IH ((sa2_code r ++ age r)%string :: seen)
                 (ca ++ [dset "sa2 name" (sa2_name r) row]) (cp ++ [r]))
      as [added [Hfold [Hidx [Hnd Hfresh]]]].
    exists (r :: added). split.
    + rewrite Hfold. cbn [map rev]. unfold attach at 2. rewrite Hrow.
      rewrite <- !app_assoc. reflexivity.
    + apply str_in_false in Hseen. repeat split.
      * intros r' [<-|Hr']; [congruence | apply Hidx, Hr'].
      * cbn [map]. constructor; [|exact Hnd].
        intros Hin. apply in_map_iff in Hin as [r' [Hk Hr']].
        apply (Hfresh r' Hr'). left. symmetry. exact Hk.
      * intros r' [<-|Hr']; [exact Hseen|].
        intros Hin. apply (Hfresh r' Hr'). right. exact Hin.
Qed.

Lemma second_pass (added : list pop_record) :
  forall seen ca cp,
    pass_adds idx added seen ->
    fold_left (clean_step idx) added (seen, ca, cp)
    = (rev (map record_key added) ++ seen, ca ++ map (attach idx) added, cp ++ added).
Proof.
  induction added as [|r added IH]; intros seen ca cp [Hidx [Hnd Hfresh]].
  - simpl. rewrite !app_nil_r. reflexivity.
  - cbn [fold_left]. unfold clean_step at 2.
    destruct (dget (sa2_code r) idx) as [row|] eqn:Hrow;
      [|exfalso; apply (Hidx r); [left; reflexivity | exact Hrow]].
    assert (Hseen : str_in (sa2_code r ++ age r) seen = false)
      by (apply str_in_false, (Hfresh r); left; reflexivity).
    rewrite Hseen. rewrite IH.
    + cbn [map rev]. unfold attach at 2. rewrite Hrow.
      rewrite <- !app_assoc. reflexivity.
    + cbn [map] in Hnd. inversion Hnd as [|? ? Hnot Hnd']; subst.
      repeat split.
      * intros r' Hr'. apply Hidx. right; exact Hr'.
      * exact Hnd'.
      * intros r' Hr' [Hk|Hin].
        -- apply Hnot. apply in_map_iff. exists r'. split; [symmetry; exact Hk | exact Hr'].
        -- apply (Hfresh r'); [right; exact Hr' | exact Hin].
Qed.
End Pass.

Lemma clean_data_twice area pops ca cp :
  clean_data area pops = Ok (ca, cp) -> clean_data area cp = Ok (ca, cp).
Proof.
  unfold clean_data.
  destruct (foldM index_area area []) as [idx|e]; cbn [bind]; [|discriminate].
  destruct (first_pass idx pops [] [] []) as [added [Hfold Hadds]].
  rewrite Hfold. cbn [fst snd app]. intros H. injection H as <- <-.
  rewrite (second_pass idx added [] [] [] Hadds). reflexivity.
Qed.

Lemma clean_data_returns area pops :
  (forall row, In row area -> dmem "sa2 code" row = true) ->
  exists r, clean_data area pops = Ok r.
Proof.
  intros H. unfold clean_data.
  destruct (foldM_Ok (fun _ => True) index_area area) with (a := @nil (string * area_row))
    as [idx [Hidx _]]; [|exact I|].
  - intros a row _ Hin. unfold index_area, dsub.
    specialize (H row Hin). unfold dmem in H.
    destruct (dget "sa2 code" row); [|discriminate].
    eexists. split; [reflexivity | exact I].
  - rewrite Hidx. eexists. reflexivity.
Qed.
(** The key is the concatenation [code + age], not the pair: two records
    with different codes and ages can share it, and then the later one
    is dropped as a duplicate. *)
Example concatenated_key_collision :
  record_key {| sa2_name := "a"; sa2_code := "12"; age := "3-4"; population := 1 |}
  = record_key {| sa2_name := "b"; sa2_code := "1"; age := "23-4"; population := 2 |}.
Proof. reflexivity. Qed.

(** C8: reconciliation is idempotent.  When [clean_data] returns, feeding
    its cleaned population records back with the same area rows returns
    the same cleaned records (and the same cleaned area rows): the join
    on the SA2 code and the first-occurrence-wins deduplication remove
    nothing on the second pass.  It returns whenever every area row has
    an ['sa2 code'] cell. *)
Theorem clean_data_idempotent (area : list area_row) (pops : list pop_record) :
  (forall ca cp,
      clean_data area pops = Ok (ca, cp) -> clean_data area cp = Ok (ca, cp)) /\
  ((forall row, In row area -> dmem "sa2 code" row = true) ->
   exists ca cp,
     clean_data area pops = Ok (ca, cp) /\ clean_data area cp = Ok (ca, cp)).
Proof.
  split; [intros ca cp; apply clean_data_twice|].
  intros H. destruct (clean_data_returns area pops H) as [[ca cp] Hr].
  exists ca, cp. split; [exact Hr | exact (clean_data_twice _ _ _ _ Hr)].
Qed.

End CleanData.

(* ================================================================== *)
(** * Maximum searches with ties *)

Module MaxSearch.
Import PyStr Project1 Project2.

(** *** Project 2: collect the keys tied at the maximum, sort, take the first *)

Lemma In_tied_at m d k : In k (tied_at m d) <-> In (k, m) d.
Proof.
  unfold tied_at. rewrite in_map_iff. split.
  - intros [[k' v] [<- H]]. apply filter_In in H as [H E]. simpl in *.
    apply Z.eqb_eq in E. subst. exact H.
  - intros H. exists (k, m). split; [reflexivity|]. apply filter_In.
    split; [exact H | apply Z.eqb_refl].
Qed.

Lemma tied_at_above m v d :
  (forall k v', In (k, v') d -> v' <= m) -> m < v -> tied_at v d = [].
Proof.
  intros H Hlt. unfold tied_at. induction d as [|[k v'] d IH]; simpl; [reflexivity|].
  assert (Hv : v' <= m) by (apply (H k); left; reflexivity).
  destruct (Z.eqb_spec v' v); [lia|].
  apply IH. intros k0 v0 Hin. apply (H k0). right; exact Hin.
Qed.

Lemma max_keys_from (s : dict Z) :
  forall p m, is_max p m ->
    exists m', fold_left Project2.max_keys_step s (Some m, tied_at m p)
               = (Some m', tied_at m' (p ++ s)) /\ is_max (p ++ s) m'.
Proof.
  induction s as [|[k v] s IH]; intros p m Hmax.
  - exists m. rewrite app_nil_r. split; [reflexivity | exact Hmax].
  - cbn [fold_left]. unfold Project2.max_keys_step at 2. cbn [fst snd].
    replace (p ++ (k, v) :: s) with ((p ++ [(k, v)]) ++ s)
      by (rewrite <- app_assoc; reflexivity).
    destruct Hmax as [[k0 Hk0] Hle].
    destruct (Z.ltb_spec m v) as [Hlt|Hge].
    + replace [k] with (tied_at v (p ++ [(k, v)])).
      * apply IH. split.
        -- exists k. apply in_or_app. right. left. reflexivity.
        -- intros k' v' Hin. apply in_app_or in Hin as [Hin|[Heq|[]]].
           ++ specialize (Hle k' v' Hin). lia.
           ++ injection Heq as _ <-. lia.
      * unfold tied_at. rewrite filter_app, map_app.
        fold (tied_at v p). rewrite (tied_at_above m v p Hle Hlt).
        simpl. rewrite Z.eqb_refl. reflexivity.
    + destruct (Z.eqb_spec v m) as [->|Hne].
      * replace (tied_at m p ++ [k]) with (tied_at m (p ++ [(k, m)])).
        -- apply IH. split.
           ++ exists k0. apply in_or_app. left. exact Hk0.
           ++ intros k' v' Hin. apply in_app_or in Hin as [Hin|[Heq|[]]].
              ** apply (Hle k' v' Hin).
              ** injection Heq as _ <-. lia.
        -- unfold tied_at. rewrite filter_app, map_app. simpl.
           rewrite Z.eqb_refl. reflexivity.
      * replace (tied_at m p) with (tied_at m (p ++ [(k, v)])).
        -- apply IH. split.
           ++ exists k0. apply in_or_app. left. exact Hk0.
           ++ intros k' v' Hin. apply in_app_or in Hin as [Hin|[Heq|[]]].
              ** apply (Hle k' v' Hin).
              ** injection Heq as _ <-. lia.
        -- unfold tied_at. rewrite filter_app, map_app. simpl.
           destruct (Z.eqb_spec v m); [contradiction|]. simpl.
           rewrite app_nil_r. reflexivity.
Qed.

Lemma max_keys_tied (d : dict Z) :
  d <> [] -> exists m, Project2.max_keys d = tied_at m d /\ is_max d m.
Proof.
  destruct d as [|[k v] s]; [congruence|]. intros _.
  unfold Project2.max_keys. cbn [fold_left].
  unfold Project2.max_keys_step at 2. cbn [fst snd].
  destruct (max_keys_from s [(k, v)] v) as [m' [Hfold Hmax]].
  - split; [exists k; left; reflexivity|].
    intros k' v' [Heq|[]]. injection Heq as _ <-. lia.
  - exists m'. unfold tied_at at 1 in Hfold. simpl in Hfold.
    rewrite Z.eqb_refl in Hfold. simpl in Hfold. rewrite Hfold. split; [reflexivity|exact Hmax].
Qed.

Lemma winner_smallest_tied (d : dict Z) :
  d <> [] -> exists k, Project2.winner d = Ok k /\ smallest_tied d k.
Proof.
  intros Hne. destruct (max_keys_tied d Hne) as [m [Hkeys [[k0 Hk0] Hle]]].
  unfold Project2.winner. rewrite Hkeys.
  destruct (sort_strings_nonempty (tied_at m d)) as [k Hk].
  - intros E. assert (Hin : In k0 (tied_at m d)) by (apply In_tied_at, Hk0).
    rewrite E in Hin. destruct Hin.
  - rewrite Hk. exists k. split; [reflexivity|].
    apply sort_strings_hd in Hk as [Hin Hmin].
    exists m. split; [apply In_tied_at, Hin|]. split; [exact Hle|].
    intros k' Hk'. apply Hmin, In_tied_at, Hk'.
Qed.

Lemma smallest_tied_unique (d d' : dict Z) (k k' : string) :
  (forall kv, In kv d <-> In kv d') ->
  smallest_tied d k -> smallest_tied d' k' -> k = k'.
Proof.
  intros Hsame [m [Hin [Hle Hmin]]] [m' [Hin' [Hle' Hmin']]].
  apply Hsame in Hin as Hin2. apply Hsame in Hin' as Hin2'.
  assert (m = m').
  { apply Z.le_antisymm; [apply (Hle' k m Hin2) | apply (Hle k' m' Hin2')]. }
  subst m'. apply String.leb_antisym; [apply Hmin, Hin2' | apply Hmin', Hin2].
Qed.

Lemma winner_order_independent (d d' : dict Z) (k : string) :
  Permutation d d' -> Project2.winner d = Ok k -> Project2.winner d' = Ok k.
Proof.
  intros Hp Hw.
  assert (Hne : d <> []).
  { intros ->. discriminate. }
  assert (Hne' : d' <> []).
  { intros ->. apply Permutation_sym, Permutation_nil in Hp. contradiction. }
  destruct (winner_smallest_tied d Hne) as [k1 [H1 S1]].
  destruct (winner_smallest_tied d' Hne') as [k2 [H2 S2]].
  rewrite H2. f_equal. rewrite Hw in H1. injection H1 as <-.
  symmetry. eapply smallest_tied_unique; [|exact S1|exact S2].
  intros kv. split; apply Permutation_in; [exact Hp | apply Permutation_sym, Hp].
Qed.

(** *** Project 1: keep the best SA3 seen so far *)

Section StateMax.
Variable totals : dict Z.
Local Abbreviation total := (sa3_total totals).

Lemma ltb_false_leb (a b : string) : String.ltb a b = false -> le_str b a.
Proof.
  unfold le_str, String.ltb, String.leb. rewrite (String.compare_antisym a b).
  destruct (String.compare b a); simpl; congruence.
Qed.

Lemma max_step_eq (b k : string) :
  Project1.max_step totals (Some b, total b) k =
  if total b <? total k then Ok (Some k, total k)
  else if total k =? total b then
         if String.ltb k b then Ok (Some k, total k) else Ok (Some b, total b)
       else Ok (Some b, total b).
Proof. reflexivity. Qed.

Lemma find_from (s : list string) :
  forall p b, best_of totals p b ->
    exists b', foldM (Project1.max_step totals) s (Some b, total b)
               = Ok (Some b', total b') /\ best_of totals (p ++ s) b'.
Proof.
  induction s as [|k s IH]; intros p b Hb.
  - exists b. rewrite app_nil_r. split; [reflexivity | exact Hb].
  - cbn [foldM]. rewrite max_step_eq.
    replace (p ++ k :: s) with ((p ++ [k]) ++ s)
      by (rewrite <- app_assoc; reflexivity).
    destruct Hb as [Hin Hbest].
    assert (Hkeep : total k <= total b -> (total k = total b -> le_str b k) ->
                    best_of totals (p ++ [k]) b).
    { intros H1 H2. split; [apply in_or_app; left; exact Hin|].
      intros k' Hk'. apply in_app_or in Hk' as [Hk'|[<-|[]]];
        [apply Hbest, Hk' | split; assumption]. }
    destruct (Z.ltb_spec (total b) (total k)) as [Hlt|Hge].
    + cbn [bind]. apply IH. split; [apply in_or_app; right; left; reflexivity|].
      intros k' Hk'. apply in_app_or in Hk' as [Hk'|[<-|[]]].
      * destruct (Hbest k' Hk') as [Hle _]. split; [lia | intros; lia].
      * split; [lia | intros _; apply leb_refl].
    + destruct (Z.eqb_spec (total k) (total b)) as [Heq|Hne].
      * destruct (String.ltb k b) eqn:Hkb; cbn [bind].
        -- apply IH. split; [apply in_or_app; right; left; reflexivity|].
           intros k' Hk'. apply in_app_or in Hk' as [Hk'|[<-|[]]].
           ++ destruct (Hbest k' Hk') as [Hle Htie]. split; [lia|].
              intros E. eapply leb_trans; [apply ltb_leb, Hkb|].
              apply Htie. lia.
           ++ split; [lia | intros _; apply leb_refl].
        -- apply IH. apply Hkeep; [lia|]. intros _. apply ltb_false_leb, Hkb.
      * cbn [bind]. apply IH. apply Hkeep; [lia|]. intros E. lia.
Qed.

Lemma find_state_max_best (sa3s : list string) :
  sa3s <> [] -> (forall s, In s sa3s -> 0 <= total s) ->
  exists b, Project1.find_state_max totals sa3s = Ok (Some b, total b) /\
            best_of totals sa3s b.
Proof.
  destruct sa3s as [|k s]; [congruence|]. intros _ Hpos.
  unfold Project1.find_state_max. cbn [foldM].
  assert (H0 : 0 <= total k) by (apply Hpos; left; reflexivity).
  assert (E : Project1.max_step totals (None, -1) k = Ok (Some k, total k)).
  { unfold Project1.max_step. fold (total k).
    destruct (Z.ltb_spec (-1) (total k)) as [_|Hbad]; [reflexivity | lia]. }
  rewrite E. cbn [bind]. apply (find_from s [k] k).
  split; [left; reflexivity|]. intros k' [<-|[]].
  split; [lia | intros _; apply leb_refl].
Qed.

Lemma best_of_unique (p p' : list string) (b b' : string) :
  (forall k, In k p <-> In k p') -> best_of totals p b -> best_of totals p' b' -> b = b'.
Proof.
  intros Hsame [Hin Hbest] [Hin' Hbest'].
  apply Hsame in Hin as Hin2. apply Hsame in Hin' as Hin2'.
  destruct (Hbest b' Hin2') as [H1 T1]. destruct (Hbest' b Hin2) as [H2 T2].
  apply String.leb_antisym; [apply T1 | apply T2]; lia.
Qed.
End StateMax.
End MaxSearch.


(* ================================================================== *)
(** * Project 2: the winners of [output_OP1] *)

Lemma In_dset {V : Type} (k k' : string) (v v' : V) (d : dict V) :
  In (k', v') (dset k v d) -> (k', v') = (k, v) \/ In (k', v') d.
Proof.
induction d as [|[k0 v0] d IH]; simpl.
- intros [H|[]]; left; symmetry; exact H.
- destruct (String.eqb k k0) eqn:E; simpl.
  + apply String.eqb_eq in E. subst. intros [H|H]; [left; symmetry; exact H | right; right; exact H].
  + intros [H|H]; [right; left; exact H|]. destruct (IH H); auto.
Qed.

Module OP1.
Import PyStr Project2 MaxSearch.

Lemma op1_step_well_formed lookup results record :
  well_formed results -> well_formed (op1_step lookup results record).
Proof.
intros [Hnd Hlv]. unfold op1_step.
destruct (dget (lower (sa2_name record)) lookup) as [info|]; [|split; assumption].
split; [apply NoDup_dkeys_dset, Hnd|].
intros a lv Hin. apply In_dset in Hin as [Heq|Hin]; [|eapply Hlv, Hin].
injection Heq as _ ->. unfold levels_nonempty, add_pop. cbn [by_state by_sa3 by_sa2].
repeat split; apply dset_nonempty.
Qed.

Lemma op1_results_well_formed pop_rows lookup :
  well_formed (op1_results pop_rows lookup).
Proof.
unfold op1_results.
assert (H : well_formed (@nil (string * level_totals)))
  by (split; [constructor | intros ? ? []]).
revert H. generalize (@nil (string * level_totals)).
induction pop_rows as [|r rows IH]; intros acc H; simpl; [exact H|].
apply IH, op1_step_well_formed, H.
Qed.

Lemma op1_winners_returns lv :
  levels_nonempty lv -> exists t, op1_winners lv = Ok t.
Proof.
intros [H1 [H2 H3]]. unfold op1_winners.
destruct (winner_smallest_tied _ H1) as [k1 [E1 _]].
destruct (winner_smallest_tied _ H2) as [k2 [E2 _]].
destruct (winner_smallest_tied _ H3) as [k3 [E3 _]].
rewrite E1, E2, E3. eexists. reflexivity.
Qed.

Lemma op1_fold (s : dict level_totals) :
  forall acc,
    NoDup (dkeys s) ->
    (forall a lv, In (a, lv) s -> levels_nonempty lv) ->
    exists op1,
      foldM op1_entry s acc = Ok op1 /\
      forall a t,
        dget a op1 = Some t <->
        (exists lv, dget a s = Some lv /\ op1_winners lv = Ok t) \/
        (dget a s = None /\ dget a acc = Some t).
Proof.
induction s as [|[k lv] s IH]; intros acc Hnd Hlv.
- exists acc. split; [reflexivity|]. intros a t. simpl. split.
  + intros H. right. auto.
  + intros [[lv [H _]]|[_ H]]; [discriminate | exact H].
- cbn [foldM].
  destruct (op1_winners_returns lv) as [t0 Ht0];
    [apply (Hlv k); left; reflexivity|].
  assert (Hstep : op1_entry acc (k, lv) = Ok (dset k t0 acc))
    by (unfold op1_entry; cbn [fst snd]; rewrite Ht0; reflexivity).
  rewrite Hstep. cbn [bind].
  cbn [dkeys map fst] in Hnd. inversion Hnd as [|? ? Hnot Hnd']; subst.
  destruct (IH (dset k t0 acc) Hnd') as [op1 [Hfold Hspec]];
    [intros a lv' Hin; apply (Hlv a); right; exact Hin|].
  exists op1. split; [exact Hfold|].
  intros a t. rewrite Hspec. cbn [dget].
  destruct (String.eqb a k) eqn:E.
  + apply String.eqb_eq in E. subst a.
    assert (Hk : dget k s = None) by (apply dget_None; exact Hnot).
    rewrite Hk, dget_dset_same. split.
    * intros [[lv' [H _]]|[_ H]]; [discriminate|]. injection H as <-.
      left. exists lv. auto.
    * intros [[lv' [H Hw]]|[H _]]; [|discriminate]. injection H as <-.
      right. split; [reflexivity|]. congruence.
  + apply String.eqb_neq in E. rewrite dget_dset_other by congruence. reflexivity.
Qed.

Lemma output_OP1_entries pop_rows lookup :
  exists op1,
    output_OP1 pop_rows lookup = Ok op1 /\
    forall a st s3 s2,
      dget a op1 = Some (st, s3, s2) <->
      exists lv,
        dget a (op1_results pop_rows lookup) = Some lv /\
        winner (by_state lv) = Ok st /\
        winner (by_sa3 lv) = Ok s3 /\
        winner (by_sa2 lv) = Ok s2.
Proof.
destruct (op1_results_well_formed pop_rows lookup) as [Hnd Hlv].
destruct (op1_fold (op1_results pop_rows lookup) [] Hnd Hlv) as [op1 [Hfold Hspec]].
exists op1. split; [exact Hfold|].
intros a st s3 s2. rewrite Hspec. split.
- intros [[lv [Hg Hw]]|[_ H]]; [|discriminate].
  exists lv. split; [exact Hg|]. unfold op1_winners in Hw.
  destruct (winner (by_state lv)) as [k1|]; [|discriminate].
  destruct (winner (by_sa3 lv)) as [k2|]; [|discriminate].
  destruct (winner (by_sa2 lv)) as [k3|]; [|discriminate].
  cbn [bind] in Hw. injection Hw as -> -> ->. auto.
- intros [lv [Hg [H1 [H2 H3]]]]. left. exists lv. split; [exact Hg|].
  unfold op1_winners. rewrite H1, H2, H3. reflexivity.
Qed.

(** C10: the three winners of an age group are three separate maximum
    searches, each over its own level's totals, and they need not be
    nested.  In the example the winning state is state 1 (16 people), the
    winning SA3 is region 201 (10 people) of state 2, and the winning SA2
    is t1 (9 people) of region 301. *)
Theorem op1_winners_chosen_independently :
  (forall pop_rows area_lookup,
      exists op1,
        output_OP1 pop_rows area_lookup = Ok op1 /\
        forall a st s3 s2,
          dget a op1 = Some (st, s3, s2) <->
          exists lv,
            dget a (op1_results pop_rows area_lookup) = Some lv /\
            winner (by_state lv) = Ok st /\
            winner (by_sa3 lv) = Ok s3 /\
            winner (by_sa2 lv) = Ok s2) /\
  (exists ca cp lk,
      clean_data nesting_areas nesting_pops = Ok (ca, cp) /\
      create_area_lookup ca = Ok lk /\
      output_OP1 cp lk = Ok [("0-4", ("state 1", "region 201", "t1"))]%string /\
      option_map sa3_name (dget "t1" lk) = Some "region 301"%string /\
      map state_name
          (filter (fun i => String.eqb (sa3_name i) "region 201") (dvalues lk))
      = ["state 2"; "state 2"]%string).
Proof.
split; [apply output_OP1_entries|].
destruct (clean_data nesting_areas nesting_pops) as [[ca cp]|] eqn:Hc;
  [|vm_compute in Hc; discriminate].
destruct (create_area_lookup ca) as [lk|] eqn:Hl;
  [|vm_compute in Hc; injection Hc as <- <-; vm_compute in Hl; discriminate].
exists ca, cp, lk. split; [reflexivity|]. split; [exact Hl|].
vm_compute in Hc. injection Hc as <- <-.
vm_compute in Hl. injection Hl as <-.
repeat split; reflexivity.
Qed.
End OP1.

(* ================================================================== *)
(** * Project 1: the hierarchy index *)

Lemma dget_map_values {V W : Type} (f : V -> W) (k : string) (d : dict V) :
  dget k (map (fun kv => (fst kv, f (snd kv))) d) = option_map f (dget k d).
Proof.
induction d as [|[k' v] d IH]; simpl; [reflexivity|].
destruct (String.eqb k k'); [reflexivity | exact IH].
Qed.

Lemma dkeys_map_values {V W : Type} (f : V -> W) (d : dict V) :
  dkeys (map (fun kv => (fst kv, f (snd kv))) d) = dkeys d.
Proof. unfold dkeys. rewrite map_map. reflexivity. Qed.

Module AreaIndex.
Import PyStr Project1.

Lemma loop_retained (rows : list string) :
  forall m seen,
    fold_left parse_area_line rows (m, seen)
    = (fold_left add_entry (retained_from seen rows) m,
       rev (map entry_sa2 (retained_from seen rows)) ++ seen).
Proof.
induction rows as [|line rows IH]; intros m seen; [reflexivity|].
cbn [fold_left retained_from]. unfold parse_area_line at 2. cbn [fst snd].
destruct (area_fields line) as [e|]; [|apply IH].
destruct (str_in (entry_sa2 e) seen); [apply IH|].
rewrite IH. cbn [fold_left map rev]. rewrite <- app_assoc. reflexivity.
Qed.

Lemma retained_fresh (rows : list string) :
  forall seen e, In e (retained_from seen rows) -> ~ In (entry_sa2 e) seen.
Proof.
induction rows as [|line rows IH]; intros seen e; simpl; [tauto|].
destruct (area_fields line) as [e0|]; [|apply IH].
destruct (str_in (entry_sa2 e0) seen) eqn:S; [apply IH|].
intros [<-|Hin]; [apply str_in_false, S|].
intros Hs. apply (IH _ _ Hin). right. exact Hs.
Qed.

Lemma retained_NoDup (rows : list string) :
  forall seen, NoDup (map entry_sa2 (retained_from seen rows)).
Proof.
induction rows as [|line rows IH]; intros seen; simpl; [constructor|].
destruct (area_fields line) as [e0|]; [|apply IH].
destruct (str_in (entry_sa2 e0) seen); [apply IH|].
cbn [map]. constructor; [|apply IH].
intros Hin. apply in_map_iff in Hin as [e [Hk Hin]].
apply (retained_fresh _ _ _ Hin). left. symmetry. exact Hk.
Qed.

Lemma retained_first (before : list string) :
  forall seen line after e,
    area_fields line = Some e ->
    ~ In (entry_sa2 e) seen ->
    (forall l' e', In l' before -> area_fields l' = Some e' ->
                   entry_sa2 e' <> entry_sa2 e) ->
    In e (retained_from seen (before ++ line :: after)).
Proof.
induction before as [|l0 before IH]; intros seen line after e He Hs Hb.
- cbn [app retained_from]. rewrite He.
  apply str_in_false in Hs. rewrite Hs. left. reflexivity.
- cbn [app retained_from].
  assert (Hb' : forall l' e', In l' before -> area_fields l' = Some e' ->
                              entry_sa2 e' <> entry_sa2 e)
    by (intros l' e' Hl'; apply Hb; right; exact Hl').
  destruct (area_fields l0) as [e0|] eqn:E0; [|apply IH; assumption].
  destruct (str_in (entry_sa2 e0) seen); [apply IH; assumption|].
  right. apply IH; [assumption| |assumption].
  intros [Heq|Hin]; [|contradiction].
  apply (Hb l0 e0); [left; reflexivity | exact E0 | exact Heq].
Qed.

(** *** The dicts after the retained rows are added *)

Lemma sa2_kept (es : list area_entry) :
  forall m c,
    (forall e, In e es -> entry_sa2 e <> c) ->
    dget c (sa2_to_sa3 (fold_left add_entry es m)) = dget c (sa2_to_sa3 m).
Proof.
induction es as [|e es IH]; intros m c H; [reflexivity|].
cbn [fold_left]. rewrite IH by (intros e' He'; apply H; right; exact He').
cbn [add_entry sa2_to_sa3]. apply dget_dset_other. apply H. left. reflexivity.
Qed.

Lemma sa2_of_retained (es : list area_entry) :
  forall m e,
    NoDup (map entry_sa2 es) -> In e es ->
    dget (entry_sa2 e) (sa2_to_sa3 (fold_left add_entry es m)) = Some (entry_sa3 e).
Proof.
induction es as [|e0 es IH]; intros m e Hnd Hin; [destruct Hin|].
cbn [map] in Hnd. inversion Hnd as [|? ? Hnot Hnd']; subst.
cbn [fold_left]. destruct Hin as [<-|Hin]; [|apply IH; assumption].
rewrite sa2_kept.
- cbn [add_entry sa2_to_sa3]. apply dget_dset_same.
- intros e' He' Heq. apply Hnot. rewrite <- Heq. apply in_map, He'.
Qed.

Lemma sa2_from_retained (es : list area_entry) :
  forall m c s3,
    dget c (sa2_to_sa3 (fold_left add_entry es m)) = Some s3 ->
    dget c (sa2_to_sa3 m) = Some s3 \/
    exists e, In e es /\ entry_sa2 e = c /\ entry_sa3 e = s3.
Proof.
induction es as [|e0 es IH]; intros m c s3 H; [left; exact H|].
cbn [fold_left] in H. apply IH in H as [H|[e [Hin [H1 H2]]]].
- cbn [add_entry sa2_to_sa3] in H.
  destruct (string_dec (entry_sa2 e0) c) as [<-|Hne].
  + rewrite dget_dset_same in H. injection H as <-.
    right. exists e0. split; [left; reflexivity | auto].
  + rewrite dget_dset_other in H by exact Hne. left. exact H.
- right. exists e. split; [right; exact Hin | auto].
Qed.

Lemma state_from_retained (es : list area_entry) :
  forall m s3 st,
    dget s3 (sa3_to_state (fold_left add_entry es m)) = Some st ->
    dget s3 (sa3_to_state m) = Some st \/
    exists e, In e es /\ entry_sa3 e = s3 /\ entry_state e = st.
Proof.
induction es as [|e0 es IH]; intros m s3 st H; [left; exact H|].
cbn [fold_left] in H. apply IH in H as [H|[e [Hin [H1 H2]]]].
- cbn [add_entry sa3_to_state] in H.
  destruct (string_dec (entry_sa3 e0) s3) as [<-|Hne].
  + rewrite dget_dset_same in H. injection H as <-.
    right. exists e0. split; [left; reflexivity | auto].
  + rewrite dget_dset_other in H by exact Hne. left. exact H.
- right. exists e. split; [right; exact Hin | auto].
Qed.

Lemma state_list_members (es : list area_entry) :
  forall m st s3,
    In s3 (dget_or [] st (state_to_sa3_map (fold_left add_entry es m))) <->
    In s3 (dget_or [] st (state_to_sa3_map m)) \/
    exists e, In e es /\ entry_state e = st /\ entry_sa3 e = s3.
Proof.
induction es as [|e0 es IH]; intros m st s3.
- simpl. split; [auto | intros [H|[e [[] _]]]; exact H].
- cbn [fold_left]. rewrite IH. cbn [add_entry state_to_sa3_map].
  unfold dget_or at 1.
  destruct (string_dec (entry_state e0) st) as [<-|Hne].
  + rewrite dget_dset_same. rewrite in_app_iff. simpl. split.
    * intros [[H|[<-|[]]]|[e [Hin He]]].
      -- left. exact H.
      -- right. exists e0. split; [left; reflexivity | auto].
      -- right. exists e. split; [right; exact Hin | exact He].
    * intros [H|[e [[<-|Hin] [H1 H2]]]].
      -- left. left. exact H.
      -- left. right. left. exact H2.
      -- right. exists e. auto.
  + rewrite dget_dset_other by exact Hne. fold (dget_or [] st (state_to_sa3_map m)).
    split.
    * intros [H|[e [Hin He]]]; [left; exact H|].
      right. exists e. split; [right; exact Hin | exact He].
    * intros [H|[e [[<-|Hin] [H1 H2]]]]; [left; exact H | contradiction |].
      right. exists e. auto.
Qed.

Lemma maps_NoDup (es : list area_entry) :
  forall m,
    NoDup (dkeys (sa2_to_sa3 m)) -> NoDup (dkeys (sa3_to_state m)) ->
    NoDup (dkeys (state_to_sa3_map m)) ->
    NoDup (dkeys (sa2_to_sa3 (fold_left add_entry es m))) /\
    NoDup (dkeys (sa3_to_state (fold_left add_entry es m))) /\
    NoDup (dkeys (state_to_sa3_map (fold_left add_entry es m))).
Proof.
induction es as [|e es IH]; intros m H1 H2 H3; [auto|].
cbn [fold_left]. apply IH; cbn [add_entry sa2_to_sa3 sa3_to_state state_to_sa3_map];
  apply NoDup_dkeys_dset; assumption.
Qed.

Lemma parse_area_data_retained (area_lines : list string) :
  parse_area_data area_lines
  = sort_state_lists (fold_left add_entry (retained area_lines) empty_maps).
Proof.
unfold parse_area_data, parse_area_rows, retained. rewrite loop_retained. reflexivity.
Qed.
(** C4 (as amended): the hierarchy index of [parse_area_data].  The three
    dicts have one value per key (one SA3 per SA2 code, one state per SA3
    code); the rows with an already-seen SA2 code are ignored, so an SA2
    code maps to the SA3 code of its first well-formed row; the state of
    an SA3 code is the state of a retained row; every per-state SA3 list
    is strictly ascending, without duplicates, and lists exactly the SA3
    codes of the retained rows of that state; and no SA3 code is in the
    lists of two states when the retained rows give it a single state. *)
Theorem parse_area_data_hierarchy (area_lines : list string) :
  let m := parse_area_data area_lines in
  let kept := retained area_lines in
  NoDup (dkeys (sa2_to_sa3 m)) /\
  NoDup (dkeys (sa3_to_state m)) /\
  NoDup (dkeys (state_to_sa3_map m)) /\
  (forall e, In e kept -> dget (entry_sa2 e) (sa2_to_sa3 m) = Some (entry_sa3 e)) /\
  (forall before line after e,
      tl area_lines = before ++ line :: after ->
      area_fields line = Some e ->
      (forall l' e', In l' before -> area_fields l' = Some e' ->
                     entry_sa2 e' <> entry_sa2 e) ->
      In e kept) /\
  (forall c s3,
      dget c (sa2_to_sa3 m) = Some s3 ->
      exists e, In e kept /\ entry_sa2 e = c /\ entry_sa3 e = s3) /\
  (forall s3 st,
      dget s3 (sa3_to_state m) = Some st ->
      exists e, In e kept /\ entry_sa3 e = s3 /\ entry_state e = st) /\
  (forall st l,
      dget st (state_to_sa3_map m) = Some l ->
      StronglySorted lt_str l /\ NoDup l /\
      forall s3, In s3 l <->
                 exists e, In e kept /\ entry_state e = st /\ entry_sa3 e = s3) /\
  (one_state_per_sa3 kept ->
   forall st1 st2 l1 l2 s3,
     dget st1 (state_to_sa3_map m) = Some l1 ->
     dget st2 (state_to_sa3_map m) = Some l2 ->
     In s3 l1 -> In s3 l2 -> st1 = st2).
Proof.
cbv zeta. rewrite parse_area_data_retained.
set (kept := retained area_lines).
set (raw := fold_left add_entry kept empty_maps).
destruct (maps_NoDup kept empty_maps ltac:(constructor) ltac:(constructor)
                     ltac:(constructor)) as [N1 [N2 N3]].
fold raw in N1, N2, N3.
assert (Hlist : forall st l,
           dget st (state_to_sa3_map (sort_state_lists raw)) = Some l ->
           StronglySorted lt_str l /\ NoDup l /\
           forall s3, In s3 l <->
                      exists e, In e kept /\ entry_state e = st /\ entry_sa3 e = s3).
{ intros st l. cbn [sort_state_lists state_to_sa3_map].
  rewrite (dget_map_values sorted_set).
  destruct (dget st (state_to_sa3_map raw)) as [l0|] eqn:E; [|discriminate].
  cbn [option_map]. intros H. injection H as <-.
  destruct (sorted_set_spec l0) as [S1 [S2 S3]].
  split; [exact S1|]. split; [exact S2|].
  intros s3. rewrite S3.
  pose proof (state_list_members kept empty_maps st s3) as M.
  fold raw in M. unfold dget_or in M at 1. rewrite E in M. rewrite M.
  cbn. split; [intros [[]|H]; exact H | intros H; right; exact H]. }
cbn [sort_state_lists sa2_to_sa3 sa3_to_state state_to_sa3_map].
rewrite (dkeys_map_values sorted_set).
split; [exact N1|]. split; [exact N2|]. split; [exact N3|].
split.
{ intros e He. apply sa2_of_retained; [apply retained_NoDup | exact He]. }
split.
{ intros before line after e Hrows He Hb. unfold kept, retained. rewrite Hrows.
  apply retained_first; [exact He | intros [] | exact Hb]. }
split.
{ intros c s3 H. apply sa2_from_retained in H as [H|H]; [discriminate | exact H]. }
split.
{ intros s3 st H. apply state_from_retained in H as [H|H]; [discriminate | exact H]. }
split; [exact Hlist|].
intros Hone st1 st2 l1 l2 s3 H1 H2 I1 I2.
destruct (Hlist st1 l1 H1) as [_ [_ M1]]. destruct (Hlist st2 l2 H2) as [_ [_ M2]].
apply M1 in I1 as [e1 [K1 [S1 T1]]]. apply M2 in I2 as [e2 [K2 [S2 T2]]].
rewrite <- S1, <- S2. apply Hone; [exact K1 | exact K2 | congruence].
Qed.

(** C4 (as stated) fails: the SA3 code 10102 is listed under New South
    Wales and under the Australian Capital Territory (with two different
    SA2 codes), so it is in the SA3 lists of both states, while
    [sa3_to_state] keeps the state of the later row. *)
Lemma sa3_listed_under_two_states :
  state_to_sa3_map (parse_area_data straddling_area_file)
  = [("new south wales", ["10102"]);
     ("australian capital territory", ["10102"])]%string /\
  sa3_to_state (parse_area_data straddling_area_file)
  = [("10102", "australian capital territory")]%string /\
  sa2_to_sa3 (parse_area_data straddling_area_file)
  = [("101021007", "10102"); ("801011001", "10102")]%string.
Proof. repeat split; reflexivity. Qed.
End AreaIndex.

(* ================================================================== *)
(** * Project 2: the similarity ranking of [output_OP3] *)

Module Similarity.
Import PyStr Project2 Statistics.

(** *** The population vector over the unioned ages *)

Lemma Zsum_map_cons {A : Type} (f : A -> Z) (a : A) (l : list A) :
  Zsum (map f (a :: l)) = f a + Zsum (map f l).
Proof. cbn [map]. apply Zsum_cons. Qed.

Lemma sum_without (f : string -> Z) (k : string) (v : Z) (l : list string) :
  ~ In k l ->
  Zsum (map (fun a => if String.eqb a k then v else f a) l) = Zsum (map f l).
Proof.
induction l as [|a l IH]; intros H; [reflexivity|].
rewrite !Zsum_map_cons, IH by (intros Hin; apply H; right; exact Hin).
destruct (String.eqb_spec a k) as [->|_]; [|reflexivity].
exfalso. apply H. left. reflexivity.
Qed.

Lemma sum_with (f : string -> Z) (k : string) (v : Z) (l : list string) :
  NoDup l -> In k l ->
  Zsum (map (fun a => if String.eqb a k then v else f a) l)
  = v + Zsum (map f l) - f k.
Proof.
induction l as [|a l IH]; intros Hnd Hin; [destruct Hin|].
inversion Hnd as [|? ? Hnot Hnd']; subst.
rewrite !Zsum_map_cons.
destruct (String.eqb_spec a k) as [->|Hne].
- rewrite sum_without by exact Hnot. lia.
- destruct Hin as [->|Hin]; [congruence|]. rewrite IH by assumption. lia.
Qed.

Lemma pop_vector_total (ages : dict Z) :
  forall all_ages,
    NoDup (dkeys ages) -> NoDup all_ages ->
    (forall k, In k (dkeys ages) -> In k all_ages) ->
    Zsum (pop_vector ages all_ages) = total_population ages.
Proof.
unfold pop_vector, total_population.
induction ages as [|[k v] ages IH]; intros all_ages Hnd Hall Hsub.
- cbn [dvalues map snd]. induction all_ages as [|a l IHl]; [reflexivity|].
  inversion Hall; subst. rewrite Zsum_map_cons, IHl; [reflexivity|assumption|].
  intros k [].
- cbn [dkeys map fst] in Hnd. inversion Hnd as [|? ? Hnot Hnd']; subst.
  cbn [dvalues map snd]. rewrite Zsum_cons.
  transitivity (Zsum (map (fun a => if String.eqb a k then v
                                    else dget_or 0 a ages) all_ages)).
  { f_equal. apply map_ext. intros a. unfold dget_or. cbn [dget].
    destruct (String.eqb a k); reflexivity. }
  rewrite sum_with; [|exact Hall | apply Hsub; left; reflexivity].
  rewrite (IH all_ages Hnd' Hall)
    by (intros k' Hk'; apply Hsub; right; exact Hk').
  assert (E : dget_or 0 k ages = 0).
  { unfold dget_or. apply dget_None in Hnot. rewrite Hnot. reflexivity. }
  rewrite E. unfold dvalues. lia.
Qed.

Lemma marked_keys (l : list string) :
  forall s : dict bool,
    NoDup (dkeys s) ->
    NoDup (dkeys (fold_left (fun s a => dset a true s) l s)) /\
    forall x, In x (dkeys (fold_left (fun s a => dset a true s) l s)) <->
              In x (dkeys s) \/ In x l.
Proof.
induction l as [|a l IH]; intros s Hnd.
- split; [exact Hnd|]. intros x. simpl. tauto.
- cbn [fold_left].
  destruct (IH (dset a true s) (NoDup_dkeys_dset a true s Hnd)) as [H1 H2].
  split; [exact H1|]. intros x. rewrite H2, In_dkeys_dset. simpl.
  split; [intros [[->|H]|H] | intros [H|[->|H]]]; auto.
Qed.

Lemma all_ages_of_spec (ages_a ages_b : dict Z) :
  NoDup (all_ages_of ages_a ages_b) /\
  forall x, In x (all_ages_of ages_a ages_b) <->
            In x (dkeys ages_a) \/ In x (dkeys ages_b).
Proof.
unfold all_ages_of.
destruct (marked_keys (dkeys ages_a) [] ltac:(constructor)) as [N1 M1].
destruct (marked_keys (dkeys ages_b) _ N1) as [N2 M2].
split; [apply sort_strings_NoDup, N2|].
intros x. rewrite sort_strings_In, M2, M1. simpl. tauto.
Qed.

Lemma union_totals (ages_a ages_b : dict Z) :
  NoDup (dkeys ages_a) -> NoDup (dkeys ages_b) ->
  Zsum (pop_vector ages_a (all_ages_of ages_a ages_b)) = total_population ages_a /\
  Zsum (pop_vector ages_b (all_ages_of ages_a ages_b)) = total_population ages_b.
Proof.
intros Ha Hb. destruct (all_ages_of_spec ages_a ages_b) as [Hnd Hin].
split; apply pop_vector_total; try assumption; intros k Hk; apply Hin; auto.
Qed.

(** *** [cosine_similarity] *)

Lemma dot_returns (list1 list2 : list R) (n : nat) :
  forall start acc,
    (start + n <= List.length list1)%nat ->
    (start + n <= List.length list2)%nat ->
    exists r,
      foldM (fun dot i => a <- item list1 i ;; b <- item list2 i ;;
                          Ok (dot + a * b)%R)
            (seq start n) acc = Ok r.
Proof.
induction n as [|n IH]; intros start acc H1 H2; [exists acc; reflexivity|].
cbn [seq foldM]. unfold item at 1 2.
destruct (nth_error list1 start) as [a|] eqn:E1;
  [|apply nth_error_None in E1; lia].
destruct (nth_error list2 start) as [b|] eqn:E2;
  [|apply nth_error_None in E2; lia].
cbn [of_option bind]. apply IH; lia.
Qed.

Lemma cosine_similarity_returns (list1 list2 : list R) :
  List.length list1 = List.length list2 ->
  exists s, cosine_similarity list1 list2 = Ok s.
Proof.
intros Hlen. unfold cosine_similarity.
destruct (dot_returns list1 list2 (List.length list1) 0 0%R) as [dot Hdot];
  [lia | lia |].
rewrite Hdot. cbn [bind].
destruct (Reqb _ 0) eqn:E1; [eexists; reflexivity|].
destruct (Reqb (sqrt (fold_left _ list2 _)) 0) eqn:E2; [eexists; reflexivity|].
cbn [orb]. unfold truediv.
apply Reqb_false_iff in E1, E2.
assert (E : Reqb (sqrt (fold_left (fun s x => (s + x * x)%R) list1 0%R)
                  * sqrt (fold_left (fun s x => (s + x * x)%R) list2 0%R)) 0 = false).
{ apply Reqb_false_iff. intros H. apply Rmult_integral in H. tauto. }
rewrite E. eexists. reflexivity.
Qed.

Lemma squares_of_zeros (l : list R) :
  (forall x, In x l -> x = 0%R) ->
  fold_left (fun s x => (s + x * x)%R) l 0%R = 0%R.
Proof.
induction l as [|x l IH]; intros H; [reflexivity|].
cbn [fold_left]. rewrite (H x (or_introl eq_refl)).
replace (0 + 0 * 0)%R with 0%R by lra. apply IH. intros y Hy. apply H. right. exact Hy.
Qed.

(** The fallback of [cosine_similarity]: a zero vector has similarity 0.0. *)
Lemma cosine_similarity_zero (list1 list2 : list R) :
  List.length list1 = List.length list2 ->
  (forall x, In x list1 -> x = 0%R) ->
  cosine_similarity list1 list2 = Ok 0%R.
Proof.
intros Hlen Hz. unfold cosine_similarity.
destruct (dot_returns list1 list2 (List.length list1) 0 0%R) as [dot Hdot];
  [lia | lia |].
rewrite Hdot. cbn [bind]. rewrite (squares_of_zeros list1 Hz), sqrt_0.
assert (E : Reqb 0 0 = true) by (apply Reqb_true_iff; reflexivity).
rewrite E. reflexivity.
Qed.

Lemma normalised (pop : list Z) (total : Z) :
  total <> 0 ->
  mapM (fun x => int_truediv x total) pop
  = Ok (map (fun x => (IZR x / IZR total)%R) pop).
Proof.
intros H. induction pop as [|x pop IH]; [reflexivity|].
cbn [mapM map]. rewrite int_truediv_Ok by exact H. cbn [bind]. rewrite IH.
reflexivity.
Qed.
End Similarity.

Module Pairs.
Import PyStr Project2 Statistics Similarity.

Lemma group_ok_ages (group : members) (a : string) (ages : dict Z) :
  group_ok group -> dget a group = Some ages -> NoDup (dkeys ages).
Proof. intros [_ H] Hg. apply (H a), dget_Some_In, Hg. Qed.

Lemma proportions_length (ages : dict Z) (all_ages : list string) :
  List.length (proportions ages all_ages) = List.length all_ages.
Proof. unfold proportions, pop_vector. rewrite !length_map. reflexivity. Qed.

(** The body of the inner loop, with the totals of the two SA2s. *)
Lemma pair_score_eq (group : members) (a b : string) (ages_a ages_b : dict Z) :
  group_ok group ->
  dget a group = Some ages_a -> dget b group = Some ages_b ->
  pair_score group a b =
  if (total_population ages_a =? 0) || (total_population ages_b =? 0)
  then Ok None
  else s <- cosine_similarity
              (proportions ages_a (all_ages_of ages_a ages_b))
              (proportions ages_b (all_ages_of ages_a ages_b)) ;;
       Ok (Some (a, b, s)).
Proof.
intros Hok Ha Hb. unfold pair_score, dsub. rewrite Ha, Hb. cbn [of_option bind].
destruct (union_totals ages_a ages_b (group_ok_ages _ _ _ Hok Ha)
                       (group_ok_ages _ _ _ Hok Hb)) as [Ta Tb].
rewrite <- Ta, <- Tb. cbv zeta.
destruct (Z.eqb_spec (Zsum (pop_vector ages_a (all_ages_of ages_a ages_b))) 0)
  as [Za|Za]; [reflexivity|].
destruct (Z.eqb_spec (Zsum (pop_vector ages_b (all_ages_of ages_a ages_b))) 0)
  as [Zb|Zb]; [reflexivity|].
cbn [orb]. rewrite !normalised by assumption. reflexivity.
Qed.

Lemma pair_score_returns (group : members) (a b : string) :
  group_ok group -> In a (dkeys group) -> In b (dkeys group) ->
  exists r, pair_score group a b = Ok r.
Proof.
intros Hok Ha Hb.
apply In_dkeys_dget in Ha as [ages_a Ha]. apply In_dkeys_dget in Hb as [ages_b Hb].
rewrite (pair_score_eq _ _ _ _ _ Hok Ha Hb).
destruct (_ || _); [eexists; reflexivity|].
destruct (cosine_similarity_returns
            (proportions ages_a (all_ages_of ages_a ages_b))
            (proportions ages_b (all_ages_of ages_a ages_b))) as [s Hs];
  [rewrite !proportions_length; reflexivity|].
rewrite Hs. eexists. reflexivity.
Qed.

Lemma pair_score_scored (group : members) (a b : string) (p : scored_pair) :
  group_ok group -> In a (dkeys group) -> In b (dkeys group) ->
  pair_score group a b = Ok (Some p) ->
  exists s, p = (a, b, s) /\ scored group a b s.
Proof.
intros Hok Ha Hb.
apply In_dkeys_dget in Ha as [ages_a Ha]. apply In_dkeys_dget in Hb as [ages_b Hb].
rewrite (pair_score_eq _ _ _ _ _ Hok Ha Hb).
destruct (Z.eqb_spec (total_population ages_a) 0) as [|Za]; [discriminate|].
destruct (Z.eqb_spec (total_population ages_b) 0) as [|Zb]; [discriminate|].
cbn [orb].
destruct (cosine_similarity _ _) as [s|e] eqn:Hs; cbn [bind]; [|discriminate].
intros H. injection H as <-. exists s. split; [reflexivity|].
exists ages_a, ages_b. auto.
Qed.

Lemma pair_score_populated (group : members) (a b : string) (ages_a ages_b : dict Z) :
  group_ok group ->
  dget a group = Some ages_a -> dget b group = Some ages_b ->
  total_population ages_a <> 0 -> total_population ages_b <> 0 ->
  exists s, pair_score group a b = Ok (Some (a, b, s)).
Proof.
intros Hok Ha Hb Za Zb. rewrite (pair_score_eq _ _ _ _ _ Hok Ha Hb).
apply Z.eqb_neq in Za, Zb. rewrite Za, Zb. cbn [orb].
destruct (cosine_similarity_returns
            (proportions ages_a (all_ages_of ages_a ages_b))
            (proportions ages_b (all_ages_of ages_a ages_b))) as [s Hs];
  [rewrite !proportions_length; reflexivity|].
rewrite Hs. exists s. reflexivity.
Qed.

Lemma pair_score_skipped (group : members) (a b : string) (ages_a ages_b : dict Z) :
  group_ok group ->
  dget a group = Some ages_a -> dget b group = Some ages_b ->
  total_population ages_a = 0 \/ total_population ages_b = 0 ->
  pair_score group a b = Ok None.
Proof.
intros Hok Ha Hb Hz. rewrite (pair_score_eq _ _ _ _ _ Hok Ha Hb).
destruct Hz as [->| ->]; [reflexivity | rewrite orb_true_r; reflexivity].
Qed.

Lemma pairs_with_spec (group : members) (a : string) (rest : list string) :
  group_ok group -> In a (dkeys group) ->
  (forall b, In b rest -> In b (dkeys group)) ->
  exists ps,
    pairs_with group a rest = Ok ps /\
    forall p, In p ps <->
              exists b, In b rest /\ pair_score group a b = Ok (Some p).
Proof.
intros Hok Ha. induction rest as [|b rest IH]; intros Hrest.
- exists []. split; [reflexivity|]. intros p. split; [intros [] | intros [b [[] _]]].
- cbn [pairs_with].
  destruct (pair_score_returns group a b Hok Ha (Hrest b (or_introl eq_refl)))
    as [r Hr].
  destruct IH as [ps [Hps Hspec]]; [intros b' Hb'; apply Hrest; right; exact Hb'|].
  rewrite Hr, Hps. cbn [bind]. eexists. split; [reflexivity|].
  intros p. destruct r as [t|].
  + cbn [In]. rewrite Hspec. split.
    * intros [<-|[b' [Hb' Hp]]].
      -- exists b. split; [left; reflexivity | exact Hr].
      -- exists b'. split; [right; exact Hb' | exact Hp].
    * intros [b' [[<-|Hb'] Hp]].
      -- left. congruence.
      -- right. exists b'. split; assumption.
  + rewrite Hspec. split.
    * intros [b' [Hb' Hp]]. exists b'. split; [right; exact Hb' | exact Hp].
    * intros [b' [[<-|Hb'] Hp]]; [congruence|].
      exists b'. split; assumption.
Qed.

Lemma all_pairs_spec (group : members) (l : list string) :
  group_ok group ->
  (forall x, In x l -> In x (dkeys group)) ->
  StronglySorted lt_str l ->
  exists ps,
    all_pairs group l = Ok ps /\
    forall p, In p ps <->
              exists a b, In a l /\ In b l /\ lt_str a b /\
                          pair_score group a b = Ok (Some p).
Proof.
intros Hok. induction l as [|a rest IH]; intros Hin Hs.
- exists []. split; [reflexivity|].
  intros p. split; [intros [] | intros [a [b [[] _]]]].
- inversion Hs as [|? ? Hs' Hall]; subst. rewrite Forall_forall in Hall.
  cbn [all_pairs].
  destruct (pairs_with_spec group a rest Hok (Hin a (or_introl eq_refl)))
    as [row [Hrow Rspec]]; [intros b Hb; apply Hin; right; exact Hb|].
  destruct IH as [more [Hmore Mspec]];
    [intros x Hx; apply Hin; right; exact Hx | exact Hs'|].
  rewrite Hrow, Hmore. cbn [bind]. eexists. split; [reflexivity|].
  intros p. rewrite in_app_iff, Rspec, Mspec. split.
  + intros [[b [Hb Hp]]|[a' [b [Ha' [Hb [Hlt Hp]]]]]].
    * exists a, b. split; [left; reflexivity|]. split; [right; exact Hb|].
      split; [apply Hall, Hb | exact Hp].
    * exists a', b. split; [right; exact Ha'|]. split; [right; exact Hb|].
      split; assumption.
  + intros [a' [b [Ha' [Hb [Hlt Hp]]]]].
    destruct Ha' as [<-|Ha'].
    * destruct Hb as [<-|Hb].
      -- unfold lt_str in Hlt. rewrite ltb_irrefl in Hlt. discriminate.
      -- left. exists b. split; assumption.
    * destruct Hb as [<-|Hb].
      -- exfalso. specialize (Hall a' Ha'). unfold lt_str in *.
         rewrite (ltb_asym _ _ Hall) in Hlt. discriminate.
      -- right. exists a', b. repeat split; assumption.
Qed.
End Pairs.

Module BestPair.
Import PyStr Project2 Statistics Similarity Pairs.

Lemma max_similarity_from (ps : list scored_pair) :
  forall m0,
    exists m,
      fold_left (fun m p =>
                   match m with
                   | None => Some (score p)
                   | Some x => if Rltb x (score p) then Some (score p) else m
                   end) ps (Some m0) = Some m /\
      (m = m0 \/ exists p, In p ps /\ score p = m).
Proof.
induction ps as [|p ps IH]; intros m0.
- exists m0. split; [reflexivity | left; reflexivity].
- cbn [fold_left]. destruct (Rltb m0 (score p)).
  + destruct (IH (score p)) as [m [Hm Hor]]. exists m. split; [exact Hm|].
    right. destruct Hor as [->|[q [Hq Hs]]].
    * exists p. split; [left; reflexivity | reflexivity].
    * exists q. split; [right; exact Hq | exact Hs].
  + destruct (IH m0) as [m [Hm Hor]]. exists m. split; [exact Hm|].
    destruct Hor as [->|[q [Hq Hs]]]; [left; reflexivity|].
    right. exists q. split; [right; exact Hq | exact Hs].
Qed.

Lemma max_similarity_attained (ps : list scored_pair) :
  ps <> [] ->
  exists m p, max_similarity ps = Some m /\ In p ps /\ score p = m.
Proof.
destruct ps as [|p0 ps]; [congruence|]. intros _.
unfold max_similarity. cbn [fold_left].
destruct (max_similarity_from ps (score p0)) as [m [Hm Hor]].
exists m. destruct Hor as [->|[q [Hq Hs]]].
- exists p0. split; [exact Hm|]. split; [left; reflexivity | reflexivity].
- exists q. split; [exact Hm|]. split; [right; exact Hq | exact Hs].
Qed.

Lemma top_pairs_subset (ps : list scored_pair) (p : scored_pair) :
  In p (top_pairs_of ps) -> In p ps.
Proof.
unfold top_pairs_of. destruct (max_similarity ps); [|intros []].
intros H. apply filter_In in H. tauto.
Qed.

Lemma top_pairs_nonempty (ps : list scored_pair) :
  ps <> [] -> top_pairs_of ps <> [].
Proof.
intros Hne. destruct (max_similarity_attained ps Hne) as [m [p [Hm [Hin Hs]]]].
unfold top_pairs_of. rewrite Hm. intros E.
assert (H : In p (filter (fun q => Reqb (score q) m) ps)).
{ apply filter_In. split; [exact Hin | apply Reqb_true_iff, Hs]. }
rewrite E in H. destruct H.
Qed.

Lemma pair_sort_key_returns (group : members) (p : scored_pair) :
  names_known group p -> exists k, pair_sort_key group p = Ok k.
Proof.
intros [Ha Hb]. unfold pair_sort_key, dsub.
apply In_dkeys_dget in Ha as [ages_a Ha]. apply In_dkeys_dget in Hb as [ages_b Hb].
rewrite Ha, Hb. cbn [of_option bind].
destruct (String.ltb _ _); eexists; reflexivity.
Qed.

Lemma top_pair_of_member (group : members) (tps : list scored_pair) :
  tps <> [] -> (forall p, In p tps -> names_known group p) ->
  exists p, top_pair_of group tps = Ok p /\ In p tps.
Proof.
destruct tps as [|p0 rest]; [congruence|]. intros _ Hk.
unfold top_pair_of.
destruct (pair_sort_key_returns group p0 (Hk p0 (or_introl eq_refl))) as [k0 Hk0].
rewrite Hk0. cbn [bind].
destruct (foldM_Ok (fun b : scored_pair * sort_key => In (fst b) (p0 :: rest))
                   (best_step group) rest) with (a := (p0, k0))
  as [b [Hb Pb]].
- intros best p Hbest Hp. unfold best_step.
  destruct (pair_sort_key_returns group p (Hk p (or_intror Hp))) as [k Hkey].
  rewrite Hkey. cbn [bind]. destruct (key_lt k (snd best)).
  + eexists. split; [reflexivity|]. right. exact Hp.
  + eexists. split; [reflexivity | exact Hbest].
- left. reflexivity.
- rewrite Hb. cbn [bind]. exists (fst b). split; [reflexivity | exact Pb].
Qed.

Lemma ordered_sorted (a b : string) (s : R) :
  lt_str a b -> ordered (a, b, s) = (a, b, s).
Proof. intros H. unfold ordered. cbn [fst snd]. rewrite H. reflexivity. Qed.

Lemma str_trichotomy (a b : string) : a <> b -> lt_str a b \/ lt_str b a.
Proof.
intros Hne. destruct (String.leb_total a b) as [H|H].
- left. apply leb_neq_ltb; assumption.
- right. apply leb_neq_ltb; [assumption | congruence].
Qed.

Lemma two_populated_sym_pair (group : members) :
  two_populated group ->
  exists a b ages_a ages_b,
    lt_str a b /\ dget a group = Some ages_a /\ dget b group = Some ages_b /\
    total_population ages_a <> 0 /\ total_population ages_b <> 0.
Proof.
intros [a [b [ages_a [ages_b [Hne [Ha [Hb [Za Zb]]]]]]]].
destruct (str_trichotomy a b Hne) as [H|H].
- exists a, b, ages_a, ages_b. auto.
- exists b, a, ages_b, ages_a. auto.
Qed.

(** What the loop body of [output_OP3] does with one SA3. *)
Lemma op3_group_spec (group : members) :
  group_ok group ->
  exists r,
    op3_group group = Ok r /\
    (list_len group < 15 -> r = None) /\
    (forall a b s, r = Some (a, b, s) ->
                   15 <= list_len group /\ lt_str a b /\ scored group a b s) /\
    (15 <= list_len group -> two_populated group -> exists t, r = Some t) /\
    (~ two_populated group -> r = None).
Proof.
intros Hok. unfold op3_group.
destruct (Z.ltb_spec (list_len group) 15) as [Hsmall|Hbig].
{ exists None. split; [reflexivity|]. split; [reflexivity|].
  split; [discriminate|]. split; [lia | reflexivity]. }
destruct Hok as [Hnd Hages]. assert (Hok : group_ok group) by (split; assumption).
assert (Hsorted : StronglySorted lt_str (sort_strings (dkeys group)))
  by (apply sorted_nodup_strict;
      [apply sort_strings_sorted | apply sort_strings_NoDup, Hnd]).
destruct (all_pairs_spec group (sort_strings (dkeys group)) Hok) as [ps [Hps Pspec]];
  [intros x Hx; apply (proj1 (sort_strings_In x _)), Hx | exact Hsorted|].
rewrite Hps. cbn [bind].
assert (Hpair : forall p, In p ps ->
          exists a b s, p = (a, b, s) /\ In a (dkeys group) /\ In b (dkeys group) /\
                        lt_str a b /\ scored group a b s).
{ intros p Hp. apply Pspec in Hp as [a [b [Ha [Hb [Hlt Hsc]]]]].
  apply (proj1 (sort_strings_In _ _)) in Ha.
  apply (proj1 (sort_strings_In _ _)) in Hb.
  destruct (pair_score_scored _ _ _ _ Hok Ha Hb Hsc) as [s [-> Hs]].
  exists a, b, s. auto. }
assert (Hpop : two_populated group -> ps <> []).
{ intros Htwo E.
  destruct (two_populated_sym_pair group Htwo)
    as [a [b [ages_a [ages_b [Hlt [Ha [Hb [Za Zb]]]]]]]].
  destruct (pair_score_populated _ _ _ _ _ Hok Ha Hb Za Zb) as [s Hs].
  assert (Hin : In (a, b, s) ps).
  { apply Pspec. exists a, b.
    split; [apply (proj2 (sort_strings_In _ _)), (proj1 (dmem_true _ _));
            unfold dmem; rewrite Ha; reflexivity|].
    split; [apply (proj2 (sort_strings_In _ _)), (proj1 (dmem_true _ _));
            unfold dmem; rewrite Hb; reflexivity|].
    split; assumption. }
  rewrite E in Hin. destruct Hin. }
destruct ps as [|p0 ps'].
{ exists None. split; [reflexivity|]. split; [reflexivity|].
  split; [discriminate|]. split; [|reflexivity].
  intros _ Htwo. exfalso. apply (Hpop Htwo). reflexivity. }
set (ps := p0 :: ps') in *.
destruct (top_pair_of_member group (top_pairs_of ps)) as [p [Htop Hin]].
- apply top_pairs_nonempty. discriminate.
- intros q Hq. apply top_pairs_subset in Hq.
  destruct (Hpair q Hq) as [a [b [s [-> [Ha [Hb _]]]]]]. split; assumption.
- rewrite Htop. cbn [bind]. apply top_pairs_subset in Hin.
  destruct (Hpair p Hin) as [a [b [s [-> [Ha [Hb [Hlt Hsc]]]]]]].
  rewrite (ordered_sorted a b s Hlt).
  exists (Some (a, b, s)). split; [reflexivity|]. split; [lia|].
  split.
  + intros a' b' s' H. injection H as <- <- <-. auto.
  + split; [intros _ _; eexists; reflexivity|].
    intros Hno. exfalso. apply Hno.
    destruct Hsc as [ages_a [ages_b [Ga [Gb [Za [Zb _]]]]]].
    exists a, b, ages_a, ages_b. split; [apply ltb_neq, Hlt | auto].
Qed.
End BestPair.

Module OP3.
Import PyStr Project2 Statistics Similarity Pairs BestPair.

Lemma group_ok_nil : group_ok [].
Proof. split; [constructor | intros ? ? []]. Qed.

Lemma group_ok_get (d : dict members) (sa3 : string) :
  well_built d -> group_ok (dget_or [] sa3 d).
Proof.
intros [_ H]. unfold dget_or. destruct (dget _ _) as [group|] eqn:E.
- apply (H sa3), dget_Some_In, E.
- apply group_ok_nil.
Qed.

Lemma ages_ok_get (group : members) (sa2 : string) :
  group_ok group -> NoDup (dkeys (dget_or [] sa2 group)).
Proof.
intros [_ H]. unfold dget_or. destruct (dget _ _) as [ages|] eqn:E.
- apply (H sa2), dget_Some_In, E.
- constructor.
Qed.

Lemma op3_add_well_built lookup d record :
  well_built d -> well_built (op3_add lookup d record).
Proof.
intros Hd. unfold op3_add.
destruct (dget (lower (sa2_name record)) lookup) as [info|]; [|exact Hd].
pose proof (group_ok_get d (sa3_name info) Hd) as [Gnd Gages].
set (grp := dget_or [] (sa3_name info) d) in *.
destruct Hd as [Hnd Hgroups].
split; [apply NoDup_dkeys_dset, Hnd|].
intros sa3 group Hin. apply In_dset in Hin as [Heq|Hin]; [|eapply Hgroups, Hin].
injection Heq as _ ->. split; [apply NoDup_dkeys_dset, Gnd|].
intros n ages Hin. apply In_dset in Hin as [Heq|Hin]; [|eapply Gages, Hin].
injection Heq as _ ->. apply NoDup_dkeys_dset.
apply ages_ok_get. split; assumption.
Qed.

Lemma build_well_built pop_rows lookup :
  well_built (build_sa3_to_sa2 pop_rows lookup).
Proof.
unfold build_sa3_to_sa2.
assert (H : well_built (@nil (string * members)))
  by (split; [constructor | intros ? ? []]).
revert H. generalize (@nil (string * members)).
induction pop_rows as [|r rows IH]; intros acc H; simpl; [exact H|].
apply IH, op3_add_well_built, H.
Qed.

Lemma op3_results_from (s : dict members) :
  forall acc,
    NoDup (dkeys s) ->
    (forall sa3 group, In (sa3, group) s -> group_ok group) ->
    NoDup (dkeys acc) ->
    (forall k, In k (dkeys s) -> dget k acc = None) ->
    exists results,
      foldM op3_entry s acc = Ok results /\
      NoDup (dkeys results) /\
      forall k t,
        dget k results = Some t <->
        (exists group, dget k s = Some group /\ op3_group group = Ok (Some t)) \/
        dget k acc = Some t.
Proof.
induction s as [|[k0 g] s IH]; intros acc Hnd Hok Hacc Hfresh.
- exists acc. split; [reflexivity|]. split; [exact Hacc|].
  intros k t. simpl. split; [auto | intros [[group [H _]]|H]; [discriminate | exact H]].
- cbn [dkeys map fst] in Hnd. inversion Hnd as [|? ? Hnot Hnd']; subst.
  destruct (op3_group_spec g) as [r [Hr _]]; [apply (Hok k0); left; reflexivity|].
  cbn [foldM].
  assert (Hstep : op3_entry acc (k0, g)
                  = Ok (match r with Some t => dset k0 t acc | None => acc end))
    by (unfold op3_entry; cbn [fst snd]; rewrite Hr; reflexivity).
  rewrite Hstep. cbn [bind].
  assert (Hk0 : dget k0 s = None) by (apply dget_None; exact Hnot).
  assert (Hk0acc : dget k0 acc = None) by (apply Hfresh; left; reflexivity).
  destruct (IH (match r with Some t => dset k0 t acc | None => acc end))
    as [results [Hfold [Hres Hspec]]].
  + exact Hnd'.
  + intros sa3 group Hin. apply (Hok sa3). right. exact Hin.
  + destruct r; [apply NoDup_dkeys_dset|]; exact Hacc.
  + intros k Hk. assert (Hne : k0 <> k) by (intros ->; contradiction).
    destruct r; [rewrite dget_dset_other by exact Hne|];
      apply Hfresh; right; exact Hk.
  + exists results. split; [exact Hfold|]. split; [exact Hres|].
    intros k t. rewrite Hspec. cbn [dget].
    destruct (String.eqb_spec k k0) as [->|Hne].
    * rewrite Hk0. destruct r as [t0|].
      -- rewrite dget_dset_same. split.
         ++ intros [[group [H _]]|H]; [discriminate|]. injection H as <-.
            left. exists g. split; [reflexivity | exact Hr].
         ++ intros [[group [H Hg]]|H]; [|congruence].
            injection H as <-. right. congruence.
      -- split.
         ++ intros [[group [H _]]|H]; [discriminate | congruence].
         ++ intros [[group [H Hg]]|H]; [|congruence].
            injection H as <-. congruence.
    * destruct r as [t0|]; [rewrite dget_dset_other by congruence|]; reflexivity.
Qed.

Lemma sorted_output_from (results : dict scored_pair) (l : list string) :
  forall acc,
    (forall k, In k l -> In k (dkeys results)) ->
    exists out,
      foldM (fun output name => v <- dsub name results ;; Ok (dset name v output))
            l acc = Ok out /\
      forall k, (In k l -> dget k out = dget k results) /\
                (~ In k l -> dget k out = dget k acc).
Proof.
induction l as [|k0 l IH]; intros acc Hin.
- exists acc. split; [reflexivity|]. intros k. split; [intros [] | reflexivity].
- cbn [foldM]. unfold dsub at 1.
  destruct (In_dkeys_dget k0 results (Hin k0 (or_introl eq_refl))) as [v Hv].
  rewrite Hv. cbn [of_option bind].
  destruct (IH (dset k0 v acc)) as [out [Hout Hspec]];
    [intros k Hk; apply Hin; right; exact Hk|].
  exists out. split; [exact Hout|].
  intros k. destruct (Hspec k) as [H1 H2]. split.
  + intros [<-|Hk]; [|apply H1, Hk].
    destruct (in_dec string_dec k0 l) as [Hl|Hl]; [apply H1, Hl|].
    rewrite (H2 Hl), dget_dset_same. symmetry. exact Hv.
  + intros Hk. rewrite H2 by (intros Hl; apply Hk; right; exact Hl).
    apply dget_dset_other. intros ->. apply Hk. left. reflexivity.
Qed.

Lemma sorted_output_same (results : dict scored_pair) :
  exists out,
    sorted_output results = Ok out /\ forall k, dget k out = dget k results.
Proof.
unfold sorted_output.
destruct (sorted_output_from results (sort_strings (dkeys results)) [])
  as [out [Hout Hspec]];
  [intros k Hk; apply (proj1 (sort_strings_In k _)), Hk|].
exists out. split; [exact Hout|].
intros k. destruct (Hspec k) as [H1 H2].
destruct (in_dec string_dec k (dkeys results)) as [Hk|Hk].
- apply H1, (proj2 (sort_strings_In k _)), Hk.
- rewrite H2 by (intros Hl; apply Hk, (proj1 (sort_strings_In k _)), Hl).
  apply dget_None in Hk. rewrite Hk. reflexivity.
Qed.

(** [output_OP3] returns, and an SA3 is in the output exactly with the
    pair its group yields. *)
Lemma output_OP3_entries pop_rows lookup :
  exists out,
    output_OP3 pop_rows lookup = Ok out /\
    forall sa3 t,
      dget sa3 out = Some t <->
      exists group,
        dget sa3 (build_sa3_to_sa2 pop_rows lookup) = Some group /\
        op3_group group = Ok (Some t).
Proof.
destruct (build_well_built pop_rows lookup) as [Hnd Hok].
destruct (op3_results_from (build_sa3_to_sa2 pop_rows lookup) [] Hnd Hok)
  as [results [Hres [_ Hspec]]]; [constructor | reflexivity|].
destruct (sorted_output_same results) as [out [Hout Hsame]].
exists out. split.
- unfold output_OP3, op3_results. rewrite Hres. cbn [bind]. exact Hout.
- intros sa3 t. rewrite Hsame, Hspec. split; [|auto].
  intros [H|H]; [exact H | discriminate].
Qed.

Lemma output_OP3_group pop_rows lookup sa3 group :
  dget sa3 (build_sa3_to_sa2 pop_rows lookup) = Some group -> group_ok group.
Proof.
intros H. destruct (build_well_built pop_rows lookup) as [_ Hok].
apply (Hok sa3), dget_Some_In, H.
Qed.

Lemma absent_unless (out : dict scored_pair) (sa3 : string) :
  (forall t, dget sa3 out <> Some t) -> dget sa3 out = None.
Proof. destruct (dget sa3 out) as [t|]; [intros H; exfalso; apply (H t); reflexivity | reflexivity]. Qed.
Lemma ranked_pair_scored pop_rows lookup out sa3 a b s :
  output_OP3 pop_rows lookup = Ok out ->
  dget sa3 out = Some (a, b, s) ->
  exists group,
    dget sa3 (build_sa3_to_sa2 pop_rows lookup) = Some group /\
    15 <= list_len group /\ lt_str a b /\ scored group a b s.
Proof.
intros Hout Hget.
destruct (output_OP3_entries pop_rows lookup) as [out' [Hout' Hspec]].
rewrite Hout in Hout'. injection Hout' as <-.
apply Hspec in Hget as [group [Hg Hr]].
destruct (op3_group_spec group (output_OP3_group _ _ _ _ Hg))
  as [r [Hr' [_ [Hsome _]]]].
rewrite Hr in Hr'. injection Hr' as <-.
exists group. split; [exact Hg|]. apply Hsome. reflexivity.
Qed.

Lemma ranked_or_absent pop_rows lookup out sa3 group :
  output_OP3 pop_rows lookup = Ok out ->
  dget sa3 (build_sa3_to_sa2 pop_rows lookup) = Some group ->
  (list_len group < 15 -> dget sa3 out = None) /\
  (15 <= list_len group -> two_populated group ->
   exists a b s,
     dget sa3 out = Some (a, b, s) /\
     lt_str a b /\ In a (dkeys group) /\ In b (dkeys group) /\
     scored group a b s) /\
  (~ two_populated group -> dget sa3 out = None).
Proof.
intros Hout Hg.
destruct (output_OP3_entries pop_rows lookup) as [out' [Hout' Hspec]].
rewrite Hout in Hout'. injection Hout' as <-.
destruct (op3_group_spec group (output_OP3_group _ _ _ _ Hg))
  as [r [Hr [Hsmall [Hsome [Hbig Hnone]]]]].
assert (Habsent : r = None -> dget sa3 out = None).
{ intros ->. apply absent_unless. intros t Ht.
  apply Hspec in Ht as [group' [Hg' Hr']]. congruence. }
split; [intros H; apply Habsent, Hsmall, H|].
split; [|intros H; apply Habsent, Hnone, H].
intros H15 Htwo. destruct (Hbig H15 Htwo) as [[[a b] s] ->].
destruct (Hsome a b s eq_refl) as [_ [Hlt Hsc]].
exists a, b, s. split; [apply Hspec; exists group; auto|].
split; [exact Hlt|].
destruct Hsc as [ages_a [ages_b [Ga [Gb Hrest]]]].
split; [apply dmem_true; unfold dmem; rewrite Ga; reflexivity|].
split; [apply dmem_true; unfold dmem; rewrite Gb; reflexivity|].
exists ages_a, ages_b. auto.
Qed.

(** C2 (as amended): [output_OP3] returns a ranking for every input.  An
    SA3 that has no record, or fewer than 15 member SA2s, is absent from
    it.  An SA3 with 15 or more member SA2s, two of which have a nonzero
    total population, is present with a legal pair: two different members
    in ascending order, both with a nonzero total, and the cosine
    similarity of their normalised age distributions.  An SA3 without two
    populated members is absent, whatever its size. *)
Theorem similarity_ranking_member_floor
    (pop_rows : list pop_record) (area_lookup : dict area_info) :
  exists out,
    output_OP3 pop_rows area_lookup = Ok out /\
    (forall sa3,
        dget sa3 (build_sa3_to_sa2 pop_rows area_lookup) = None ->
        dget sa3 out = None) /\
    (forall sa3 group,
        dget sa3 (build_sa3_to_sa2 pop_rows area_lookup) = Some group ->
        (list_len group < 15 -> dget sa3 out = None) /\
        (15 <= list_len group -> two_populated group ->
         exists a b s,
           dget sa3 out = Some (a, b, s) /\
           lt_str a b /\ In a (dkeys group) /\ In b (dkeys group) /\
           scored group a b s) /\
        (~ two_populated group -> dget sa3 out = None)).
Proof.
destruct (output_OP3_entries pop_rows area_lookup) as [out [Hout Hspec]].
exists out. split; [exact Hout|]. split.
- intros sa3 Hnone. apply absent_unless. intros t Ht.
  apply Hspec in Ht as [group [Hg _]]. congruence.
- intros sa3 group Hg. eapply ranked_or_absent; eassumption.
Qed.

(** C2 (as stated) fails: an SA3 with 15 member SA2s, every one of them
    with a population of 0, is absent from the ranking. *)
Lemma fifteen_empty_members_absent :
  exists ca cp lk group,
    clean_data fifteen_areas fifteen_empty_pops = Ok (ca, cp) /\
    create_area_lookup ca = Ok lk /\
    dget "region 101" (build_sa3_to_sa2 cp lk) = Some group /\
    list_len group = 15 /\
    output_OP3 cp lk = Ok [].
Proof.
destruct (clean_data fifteen_areas fifteen_empty_pops) as [[ca cp]|] eqn:Hc;
  [|vm_compute in Hc; discriminate].
destruct (create_area_lookup ca) as [lk|] eqn:Hl;
  [|vm_compute in Hc; injection Hc as <- <-; vm_compute in Hl; discriminate].
destruct (dget "region 101" (build_sa3_to_sa2 cp lk)) as [group|] eqn:Hg;
  [|vm_compute in Hc; injection Hc as <- <-; vm_compute in Hl;
    injection Hl as <-; vm_compute in Hg; discriminate].
exists ca, cp, lk, group. split; [reflexivity|]. split; [exact Hl|].
split; [exact Hg|].
vm_compute in Hc. injection Hc as <- <-.
vm_compute in Hl. injection Hl as <-.
vm_compute in Hg. injection Hg as <-.
split; vm_compute; reflexivity.
Qed.

(** With two populated members out of the 15 the SA3 is ranked. *)
Example fifteen_members_ranked :
  exists ca cp lk out a b s,
    clean_data fifteen_areas fifteen_pops = Ok (ca, cp) /\
    create_area_lookup ca = Ok lk /\
    output_OP3 cp lk = Ok out /\
    dget "region 101" out = Some (a, b, s).
Proof.
destruct (clean_data fifteen_areas fifteen_pops) as [[ca cp]|] eqn:Hc;
  [|vm_compute in Hc; discriminate].
destruct (create_area_lookup ca) as [lk|] eqn:Hl;
  [|vm_compute in Hc; injection Hc as <- <-; vm_compute in Hl; discriminate].
destruct (output_OP3_entries cp lk) as [out [Hout _]].
destruct (dget "region 101" (build_sa3_to_sa2 cp lk)) as [group|] eqn:Hg;
  [|vm_compute in Hc; injection Hc as <- <-; vm_compute in Hl;
    injection Hl as <-; vm_compute in Hg; discriminate].
destruct (ranked_or_absent cp lk out "region 101" group Hout Hg) as [_ [Hbig _]].
destruct Hbig as [a [b [s [Hs _]]]].
- vm_compute in Hc. injection Hc as <- <-. vm_compute in Hl. injection Hl as <-.
  vm_compute in Hg. injection Hg as <-. vm_compute. discriminate.
- vm_compute in Hc. injection Hc as <- <-. vm_compute in Hl. injection Hl as <-.
  vm_compute in Hg. injection Hg as <-.
  exists "a03"%string, "a07"%string, [("0-4"%string, 5)], [("0-4"%string, 5)].
  repeat split; try reflexivity; discriminate.
- exists ca, cp, lk, out, a, b, s. split; [reflexivity|]. split; [exact Hl|].
  split; [exact Hout | exact Hs].
Qed.

(** C9: a candidate pair in which either SA2 has a zero total population
    over the unioned age buckets is skipped before its similarity is
    computed.  Every pair [output_OP3] reports has two nonzero totals;
    the loop body yields no scored pair when a total is zero; every pair
    the nested loops collect has two nonzero totals; and
    [cosine_similarity] itself returns 0.0 for a zero vector, a value the
    ranking therefore never sees for such a pair. *)
Theorem zero_population_pairs_skipped
    (pop_rows : list pop_record) (area_lookup : dict area_info) :
  (exists out,
      output_OP3 pop_rows area_lookup = Ok out /\
      forall sa3 a b s,
        dget sa3 out = Some (a, b, s) ->
        exists group ages_a ages_b,
          dget sa3 (build_sa3_to_sa2 pop_rows area_lookup) = Some group /\
          dget a group = Some ages_a /\ dget b group = Some ages_b /\
          Zsum (pop_vector ages_a (all_ages_of ages_a ages_b)) <> 0 /\
          Zsum (pop_vector ages_b (all_ages_of ages_a ages_b)) <> 0) /\
  (forall group a b ages_a ages_b,
      dget a group = Some ages_a -> dget b group = Some ages_b ->
      Zsum (pop_vector ages_a (all_ages_of ages_a ages_b)) = 0 \/
      Zsum (pop_vector ages_b (all_ages_of ages_a ages_b)) = 0 ->
      pair_score group a b = Ok None) /\
  (forall sa3 group pairs,
      dget sa3 (build_sa3_to_sa2 pop_rows area_lookup) = Some group ->
      all_pairs group (sort_strings (dkeys group)) = Ok pairs ->
      forall p, In p pairs ->
                exists ages_a ages_b,
                  dget (fst (fst p)) group = Some ages_a /\
                  dget (snd (fst p)) group = Some ages_b /\
                  Zsum (pop_vector ages_a (all_ages_of ages_a ages_b)) <> 0 /\
                  Zsum (pop_vector ages_b (all_ages_of ages_a ages_b)) <> 0) /\
  (forall list1 list2 : list R,
      List.length list1 = List.length list2 ->
      (forall x, In x list1 -> x = 0%R) ->
      cosine_similarity list1 list2 = Ok 0%R).
Proof.
assert (Hnz : forall group a b s,
          group_ok group -> scored group a b s ->
          exists ages_a ages_b,
            dget a group = Some ages_a /\ dget b group = Some ages_b /\
            Zsum (pop_vector ages_a (all_ages_of ages_a ages_b)) <> 0 /\
            Zsum (pop_vector ages_b (all_ages_of ages_a ages_b)) <> 0).
{ intros group a b s Hok [ages_a [ages_b [Ga [Gb [Za [Zb _]]]]]].
  exists ages_a, ages_b.
  destruct (union_totals ages_a ages_b (group_ok_ages _ _ _ Hok Ga)
                         (group_ok_ages _ _ _ Hok Gb)) as [Ta Tb].
  rewrite Ta, Tb. auto. }
split; [|split; [|split]].
- destruct (output_OP3_entries pop_rows area_lookup) as [out [Hout Hspec]].
  exists out. split; [exact Hout|]. intros sa3 a b s Hget.
  destruct (ranked_pair_scored _ _ _ _ _ _ _ Hout Hget) as [group [Hg [_ [_ Hsc]]]].
  destruct (Hnz group a b s (output_OP3_group _ _ _ _ Hg) Hsc)
    as [ages_a [ages_b H]].
  exists group, ages_a, ages_b. split; [exact Hg | exact H].
- intros group a b ages_a ages_b Ga Gb Hz.
  unfold pair_score, dsub. rewrite Ga, Gb. cbn [of_option bind]. cbv zeta.
  destruct Hz as [-> | ->]; [reflexivity | rewrite orb_true_r; reflexivity].
- intros sa3 group pairs Hg Hpairs p Hp.
  pose proof (output_OP3_group _ _ _ _ Hg) as Hok.
  destruct (all_pairs_spec group (sort_strings (dkeys group)) Hok)
    as [ps [Hps Pspec]].
  + intros x Hx. apply (proj1 (sort_strings_In x _)), Hx.
  + apply sorted_nodup_strict;
      [apply sort_strings_sorted | apply sort_strings_NoDup, Hok].
  + rewrite Hpairs in Hps. injection Hps as <-.
    apply Pspec in Hp as [a [b [Ha [Hb [_ Hsc]]]]].
    apply (proj1 (sort_strings_In _ _)) in Ha.
    apply (proj1 (sort_strings_In _ _)) in Hb.
    destruct (pair_score_scored _ _ _ _ Hok Ha Hb Hsc) as [s [-> Hs]].
    cbn [fst snd]. apply (Hnz group a b s Hok Hs).
- apply cosine_similarity_zero.
Qed.
End OP3.

(* ================================================================== *)
(** * Maximum searches: output 3 of Project 1 and the tie-break *)

Module StateWinners.
Import PyStr Project1 MaxSearch AreaIndex.

Lemma dget_or_dset (k k' : string) (v : Z) (d : dict Z) :
  dget_or 0 k' (dset k v d) = if String.eqb k' k then v else dget_or 0 k' d.
Proof.
unfold dget_or. destruct (String.eqb_spec k' k) as [->|Hne].
- rewrite dget_dset_same. reflexivity.
- rewrite dget_dset_other by congruence. reflexivity.
Qed.

Lemma aggregate_step_nonneg m idx st line :
  (forall c v, In c (split "," line) -> int_or_zero c = Ok v -> 0 <= v) ->
  (forall k, 0 <= dget_or 0 k (fst st)) ->
  forall k, 0 <= dget_or 0 k (fst (aggregate_step m idx st line)).
Proof.
intros Hcells Hst k. unfold aggregate_step. rewrite Output4.cell_first. cbn [bind].
destruct (dget _ (sa2_to_sa3 m)) as [[|ch sa3]|]; try apply Hst.
unfold cell.
destruct (nth_error (split "," line) (idx + 2)) as [c|] eqn:Hc;
  cbn [of_option bind]; [|apply Hst].
destruct (int_or_zero c) as [v|] eqn:Hv; cbn [bind]; [|apply Hst].
destruct (mapM int_or_zero _) as [cells|]; cbn [bind]; [|apply Hst].
cbn [fst]. rewrite dget_or_dset.
destruct (String.eqb k (String ch sa3)); [|apply Hst].
assert (0 <= v) by (apply (Hcells c); [eapply nth_error_In, Hc | exact Hv]).
specialize (Hst (String ch sa3)). lia.
Qed.

Lemma sa3_totals_nonneg m lines idx :
  cells_nonneg lines ->
  forall k, 0 <= dget_or 0 k (fst (sa3_totals m lines idx)).
Proof.
unfold sa3_totals, cells_nonneg. intros Hcells.
assert (H0 : forall k, 0 <= dget_or 0 k (fst (@nil (string * Z), @nil (string * Z))))
  by (intros k; cbn; lia).
revert H0. generalize (@nil (string * Z), @nil (string * Z)).
induction lines as [|line lines IH]; intros st Hst k; [apply Hst|].
cbn [fold_left]. apply IH.
- intros l c v Hl. apply Hcells. right. exact Hl.
- apply aggregate_step_nonneg; [|exact Hst].
  intros c v. apply Hcells. left. reflexivity.
Qed.

Lemma state_lists_nonempty (es : list area_entry) :
  forall m,
    (forall st l, In (st, l) (state_to_sa3_map m) -> l <> []) ->
    forall st l, In (st, l) (state_to_sa3_map (fold_left add_entry es m)) -> l <> [].
Proof.
induction es as [|e es IH]; intros m H; [exact H|].
cbn [fold_left]. apply IH. cbn [add_entry state_to_sa3_map].
intros st l Hin. apply In_dset in Hin as [Heq|Hin]; [|eapply H, Hin].
injection Heq as _ ->. intros E. apply app_eq_nil in E as [_ E]. discriminate.
Qed.

Lemma parse_area_data_lists (area_lines : list string) (state : string) :
  In state (dkeys (state_to_sa3_map (parse_area_data area_lines))) ->
  exists sa3s,
    dget state (state_to_sa3_map (parse_area_data area_lines)) = Some sa3s /\
    sa3s <> [].
Proof.
intros Hin. apply In_dkeys_dget in Hin as [sa3s Hget]. exists sa3s.
split; [exact Hget|].
rewrite parse_area_data_retained in Hget.
cbn [sort_state_lists state_to_sa3_map] in Hget.
rewrite (dget_map_values sorted_set) in Hget.
destruct (dget state _) as [l0|] eqn:E; [|discriminate].
cbn [option_map] in Hget. injection Hget as <-.
assert (Hl0 : l0 <> []).
{ apply (state_lists_nonempty (retained area_lines) empty_maps) with (st := state).
  - intros st l [].
  - apply dget_Some_In, E. }
destruct l0 as [|x l0]; [congruence|].
intros Hnil.
assert (Hx : In x (sorted_set (x :: l0)))
  by (apply sorted_set_spec; left; reflexivity).
rewrite Hnil in Hx. destruct Hx.
Qed.

(** Output 3 on a population file without negative cells: the search of
    every state returns the SA3 with the largest count, the least code
    first among ties. *)
Lemma state_winners_best (area_lines data_lines : list string) (idx : nat) :
  cells_nonneg data_lines ->
  let m := parse_area_data area_lines in
  let totals := fst (sa3_totals m data_lines idx) in
  exists ws,
    state_winners m data_lines idx = Ok ws /\
    forall w, In w ws ->
      exists sa3s k,
        dget (fst (fst (fst w))) (state_to_sa3_map m) = Some sa3s /\
        snd (fst (fst w)) = Some k /\
        snd (fst w) = sa3_total totals k /\
        best_of totals sa3s k.
Proof.
intros Hcells m totals. unfold state_winners.
set (P := fun w : string * option string * Z * Z =>
            exists sa3s k,
              dget (fst (fst (fst w))) (state_to_sa3_map m) = Some sa3s /\
              snd (fst (fst w)) = Some k /\
              snd (fst w) = sa3_total totals k /\
              best_of totals sa3s k).
assert (Hstep : forall state,
          In state (sort_strings (dkeys (state_to_sa3_map m))) ->
          exists w, state_winner m (sa3_totals m data_lines idx) state = Ok w /\ P w).
{ intros state Hin. apply (proj1 (sort_strings_In _ _)) in Hin.
  destruct (parse_area_data_lists area_lines state Hin) as [sa3s [Hget Hne]].
  unfold state_winner, dsub. fold m in Hget. rewrite Hget. cbn [of_option bind].
  destruct (find_state_max_best totals sa3s Hne) as [k [Hf Hbest]].
  { intros s _. apply sa3_totals_nonneg, Hcells. }
  fold totals. rewrite Hf. cbn [bind fst snd].
  eexists. split; [reflexivity|]. exists sa3s, k. cbn [fst snd]. auto. }
revert Hstep. generalize (sort_strings (dkeys (state_to_sa3_map m))).
induction l as [|state l IH]; intros Hstep.
- exists []. split; [reflexivity | intros w []].
- cbn [mapM].
  destruct (Hstep state (or_introl eq_refl)) as [w [Hw Pw]]. rewrite Hw. cbn [bind].
  destruct IH as [ws [Hws Pws]]; [intros s Hs; apply Hstep; right; exact Hs|].
  rewrite Hws. cbn [bind]. exists (w :: ws). split; [reflexivity|].
  intros w' [<-|Hw']; [exact Pw | apply Pws, Hw'].
Qed.
End StateWinners.


(* ================================================================== *)
(** * Further properties of the two programs *)

(** ** Loops and dicts *)

Lemma mapM_Forall2 {A B : Type} (f : A -> res B) (l : list A) :
  forall bs, mapM f l = Ok bs -> Forall2 (fun a b => f a = Ok b) l bs.
Proof.
  induction l as [|a l IH]; intros bs H; simpl in H.
  - inversion H. constructor.
  - destruct (f a) as [b|] eqn:E; [|discriminate]. cbn [bind] in H.
    destruct (mapM f l) as [bs'|] eqn:E'; [|discriminate]. cbn [bind] in H.
    inversion H; subst. constructor; auto.
Qed.

Lemma Forall2_map_eq {A B C : Type} (f : A -> C) (g : B -> C) (R : A -> B -> Prop)
    (l : list A) (l' : list B) :
  (forall a b, R a b -> f a = g b) -> Forall2 R l l' -> map f l = map g l'.
Proof.
  intros H F; induction F; simpl; [reflexivity|]. f_equal; auto.
Qed.

Lemma Forall2_In_l {A B : Type} (R : A -> B -> Prop) l l' a :
  Forall2 R l l' -> In a l -> exists b, In b l' /\ R a b.
Proof.
  induction 1; intros []; subst; [eexists; split; [left; reflexivity|auto]|].
  destruct (IHForall2 H1) as [b [Hb Hr]]. exists b; split; [right|]; auto.
Qed.

Lemma Forall2_In_r {A B : Type} (R : A -> B -> Prop) l l' b :
  Forall2 R l l' -> In b l' -> exists a, In a l /\ R a b.
Proof.
  induction 1; intros []; subst; [eexists; split; [left; reflexivity|auto]|].
  destruct (IHForall2 H1) as [a [Ha Hr]]. exists a; split; [right|]; auto.
Qed.

Lemma foldM_ext {A B : Type} (f g : A -> B -> res A) (l : list B) :
  (forall a b, f a b = g a b) -> forall a, foldM f l a = foldM g l a.
Proof.
  intros H. induction l as [|b l IH]; intros a; cbn [foldM]; [reflexivity|].
  rewrite H. destruct (g a b); cbn [bind]; auto.
Qed.

Lemma dget_cons {V : Type} (k k0 : string) (v0 : V) (d : dict V) :
  dget k ((k0, v0) :: d) = if String.eqb k k0 then Some v0 else dget k d.
Proof. reflexivity. Qed.

Lemma dget_or_ind {V : Type} (P : V -> Prop) (default : V) (k : string) (d : dict V) :
  P default -> (forall v, In (k, v) d -> P v) -> P (dget_or default k d).
Proof.
  intros H0 H. unfold dget_or. destruct (dget k d) as [v|] eqn:E; [|exact H0].
  apply H, dget_Some_In, E.
Qed.

Lemma dget_or_Some {V : Type} (default : V) (k : string) (v : V) (d : dict V) :
  dget k d = Some v -> dget_or default k d = v.
Proof. intros H. unfold dget_or. now rewrite H. Qed.

Lemma dget_or_dset_same {V : Type} (default : V) k v d :
  dget_or default k (dset k v d) = v.
Proof. unfold dget_or. now rewrite dget_dset_same. Qed.

Lemma dget_or_dset_other {V : Type} (default : V) k k' v d :
  k <> k' -> dget_or default k' (dset k v d) = dget_or default k' d.
Proof. intros H. unfold dget_or. now rewrite dget_dset_other. Qed.

Lemma dkeys_dset_both {V W : Type} (k : string) (v : V) (w : W) (d : dict V) :
  forall d' : dict W,
    dkeys d = dkeys d' -> dkeys (dset k v d) = dkeys (dset k w d').
Proof.
  induction d as [|[k1 x] d IH]; intros [|[k2 y] d'] H; cbn [dkeys map fst] in H;
    try discriminate.
  - reflexivity.
  - injection H as -> H. cbn [dset].
    destruct (String.eqb k k2); cbn [dkeys map fst].
    + f_equal. exact H.
    + f_equal. apply IH, H.
Qed.

(** A loop that stores an entry for the keys whose body returns one. *)
Lemma foldM_optional {V T : Type} (f : V -> res (option T)) (s : dict V) :
  forall acc,
    NoDup (dkeys s) ->
    (forall k v, In (k, v) s -> exists r, f v = Ok r) ->
    exists out,
      foldM (fun acc kv =>
               r <- f (snd kv) ;;
               Ok (match r with
                   | Some t => dset (fst kv) t acc
                   | None => acc
                   end)) s acc = Ok out /\
      forall k,
        dget k out = match dget k s with
                     | Some v => match f v with
                                 | Ok (Some t) => Some t
                                 | _ => dget k acc
                                 end
                     | None => dget k acc
                     end.
Proof.
  induction s as [|[k0 v0] s IH]; intros acc Hnd Hf.
  - exists acc. split; reflexivity.
  - cbn [foldM fst snd]. destruct (Hf k0 v0 (or_introl eq_refl)) as [r Hr].
    rewrite Hr. cbn [bind].
    cbn [dkeys map fst] in Hnd. inversion Hnd as [|? ? Hnot Hnd']; subst.
    destruct (IH (match r with Some t => dset k0 t acc | None => acc end) Hnd')
      as [out [Ho Hget]].
    { intros k v Hin. apply (Hf k v). right; exact Hin. }
    exists out. split; [exact Ho|].
    intros k. rewrite Hget, dget_cons.
    destruct (String.eqb_spec k k0) as [->|Hne].
    + apply dget_None in Hnot. unfold dkeys in Hnot. rewrite Hnot, Hr.
      destruct r; [apply dget_dset_same|reflexivity].
    + destruct r as [t|].
      * rewrite dget_dset_other by congruence. reflexivity.
      * reflexivity.
Qed.

(** A loop that stores one entry per key of a list. *)
Lemma foldM_keyed {V : Type} (g : string -> res V) (l : list string) :
  forall acc,
    NoDup l ->
    (forall k, In k l -> ~ In k (dkeys acc)) ->
    (forall k, In k l -> exists v, g k = Ok v) ->
    exists out,
      foldM (fun out k => v <- g k ;; Ok (dset k v out)) l acc = Ok out /\
      dkeys out = dkeys acc ++ l /\
      (forall k v, In k l -> (dget k out = Some v <-> g k = Ok v)) /\
      (forall k, ~ In k l -> dget k out = dget k acc).
Proof.
  induction l as [|k0 l IH]; intros acc Hnd Hfresh Hg.
  - exists acc. cbn [foldM]. rewrite app_nil_r.
    split; [reflexivity|]. split; [reflexivity|].
    split; [intros k v []|reflexivity].
  - cbn [foldM]. destruct (Hg k0 (or_introl eq_refl)) as [v0 Hv0].
    rewrite Hv0. cbn [bind].
    inversion Hnd as [|? ? Hnot Hnd']; subst.
    assert (Hk0 : dget k0 acc = None)
      by (apply dget_None, Hfresh; left; reflexivity).
    destruct (IH (dset k0 v0 acc) Hnd') as [out [Ho [Hkeys [Hin Hout]]]].
    { intros k Hk Hin. apply In_dkeys_dset in Hin as [->|Hin]; [auto|].
      apply (Hfresh k); [right; exact Hk|exact Hin]. }
    { intros k Hk. apply Hg. right; exact Hk. }
    exists out. split; [exact Ho|]. split; [|split].
    + rewrite Hkeys, (dset_fresh _ _ _ Hk0). unfold dkeys.
      rewrite map_app, <- app_assoc. reflexivity.
    + intros k v [<-|Hk]; [|apply Hin, Hk].
      rewrite (Hout k0 Hnot), dget_dset_same, Hv0.
      split; intros E; inversion E; reflexivity.
    + intros k Hk. rewrite Hout by (intros H; apply Hk; right; exact H).
      apply dget_dset_other. intros ->. apply Hk. left; reflexivity.
Qed.

Lemma dict_of_from {V : Type} (pairs : list (string * V)) :
  forall (d : dict V) k,
    dget k (fold_left (fun d kv => dset (fst kv) (snd kv) d) pairs d)
    = match last_value k pairs with Some v => Some v | None => dget k d end.
Proof.
  unfold last_value.
  induction pairs as [|[k' v'] pairs IH] using rev_ind; intros d k.
  - reflexivity.
  - rewrite fold_left_app, rev_app_distr. cbn [fold_left rev app find fst snd].
    destruct (String.eqb_spec k k') as [->|Hne].
    + cbn [option_map snd]. apply dget_dset_same.
    + rewrite dget_dset_other by congruence. apply IH.
Qed.

Lemma dget_dict_of {V : Type} (pairs : list (string * V)) (k : string) :
  dget k (dict_of pairs) = last_value k pairs.
Proof.
  unfold dict_of. rewrite dict_of_from. destruct (last_value k pairs); reflexivity.
Qed.

Lemma In_keep_some {A : Type} (a : A) (l : list (option A)) :
  In a (Project2.keep_some l) <-> In (Some a) l.
Proof.
  induction l as [|[x|] l IH]; cbn [Project2.keep_some In].
  - tauto.
  - rewrite IH. split; intros [H|H]; auto; left; congruence.
  - rewrite IH. split; [auto|]. intros [H|H]; [discriminate|auto].
Qed.

Lemma Zsum_nonneg (l : list Z) : (forall x, In x l -> 0 <= x) -> 0 <= Zsum l.
Proof.
  induction l as [|x l IH]; intros H; [unfold Zsum; cbn; lia|].
  rewrite Zsum_cons.
  assert (0 <= x) by (apply H; left; reflexivity).
  assert (0 <= Zsum l) by (apply IH; intros; apply H; right; assumption). lia.
Qed.

(** ** Strings *)

Module StrFacts.
Import PyStr.

Lemma lower_char_idem (c : ascii) : lower_char (lower_char c) = lower_char c.
Proof. destruct c as [[] [] [] [] [] [] [] []]; reflexivity. Qed.

Lemma lower_idem (s : string) : lower (lower s) = lower s.
Proof.
  induction s as [|c s IH]; cbn [lower]; [reflexivity|].
  now rewrite lower_char_idem, IH.
Qed.








End StrFacts.

(* ================================================================== *)
(** * Project 1: the steps and outputs of [main] *)

Module AgeBounds.
Import PyStr Project1.

Lemma age_bounds_loop_closed_form (target_age : Z) :
  age_bounds_loop target_age range_0_90_5 =
  if target_age <? 0 then (None, None)
  else if target_age <? 85
       then (Some (5 * (target_age / 5)), Some (5 * (target_age / 5) + 4))
       else (Some 85, None).
Proof.
  assert (Hr : range_0_90_5
               = [0; 5; 10; 15; 20; 25; 30; 35; 40; 45; 50; 55; 60; 65; 70; 75; 80; 85])
    by reflexivity.
  rewrite Hr. cbn [age_bounds_loop].
  repeat match goal with
         | |- context [(?x =? 85)] =>
             let b := eval vm_compute in (x =? 85) in change (x =? 85) with b
         end.
  cbn [andb orb].
  repeat match goal with
         | |- context [?x <=? ?y] => destruct (Z.leb_spec x y); cbn [andb orb]; try lia
         | |- context [?x <? ?y] => destruct (Z.ltb_spec x y); cbn [andb orb]; try lia
         end;
  repeat f_equal; Z.to_euclidean_division_equations; lia.
Qed.

Lemma index_of_first (age : Z) (labels : list string) :
  forall l flag,
    match_age_to_group age labels = (Some l, flag) ->
    exists i,
      index_of l labels = Some i /\
      nth_error labels i = Some l /\
      label_match age l = Some flag /\
      forall j l', (j < i)%nat -> nth_error labels j = Some l' ->
                   matches age l' = false.
Proof.
  induction labels as [|x rest IH]; intros l flag H; simpl in H.
  - discriminate.
  - destruct (label_match age x) as [f|] eqn:E.
    + inversion H; subst. exists 0%nat. simpl. rewrite String.eqb_refl.
      repeat split; auto. intros j l' Hj. lia.
    + destruct (IH _ _ H) as [i [Hi [Hn [Hm Hb]]]].
      simpl. destruct (String.eqb l x) eqn:Ex.
      * apply String.eqb_eq in Ex. subst. congruence.
      * rewrite Hi. exists (S i). simpl. repeat split; auto.
        intros j l' Hj Hnth. destruct j as [|j]; simpl in Hnth.
        -- inversion Hnth; subst. unfold matches. now rewrite E.
        -- apply (Hb j); auto. lia.
Qed.

Lemma main_bounds af pf age c1 c2 out :
  main af pf age c1 c2 = Ok (Some out) ->
  0 <= age /\ age_bounds out = age_bounds_loop age range_0_90_5.
Proof.
  unfold main. destruct (prepare af pf age c1 c2) as [p|] eqn:P; [|discriminate].
  assert (Ha : 0 <= age).
  { unfold prepare in P. destruct (Z.ltb_spec age 0); [discriminate|assumption]. }
  destruct (mapM _ _) as [stats|]; cbn [bind]; [|discriminate].
  destruct (output3 _ _ _); [|discriminate].
  destruct (output4 _ _ _); [|discriminate].
  intros H. inversion H; subst; cbn. auto.
Qed.

(** X1: Output 1 is the five-year group of the age.  The loop over
    [range(0, 90, 5)] returns [[5*(age//5), 5*(age//5) + 4]] for an age
    from 0 to 84 and [[85, None]] for an age of 85 or more (it would
    return [[None, None]] for a negative age, which [main] rejects
    before); this is the value of [age_bounds] in every result of
    [main]. *)
Theorem age_bounds_five_year_group :
  (forall target_age,
      age_bounds_loop target_age range_0_90_5 =
      if target_age <? 0 then (None, None)
      else if target_age <? 85
           then (Some (5 * (target_age / 5)), Some (5 * (target_age / 5) + 4))
           else (Some 85, None)) /\
  (forall af pf age c1 c2 out,
      main af pf age c1 c2 = Ok (Some out) ->
      age_bounds out =
      if age <? 85 then (Some (5 * (age / 5)), Some (5 * (age / 5) + 4))
      else (Some 85, None)).
Proof.
  split; [apply age_bounds_loop_closed_form|].
  intros af pf age c1 c2 out H. apply main_bounds in H as [Ha ->].
  rewrite age_bounds_loop_closed_form.
  destruct (Z.ltb_spec age 0); [lia|reflexivity].
Qed.

End AgeBounds.

Module MainEdges.
Import PyStr Project1.

(** X2: the exceptions that leave [main].  For an age that is an
    integer and codes that are strings, whatever the lines of the two
    files are, the only exception that leaves [main] is the
    [OverflowError] of the statistics of Output 2, which no [try]
    protects: they never divide by zero, and the errors of Outputs 3 and
    4 are caught.  When a float holds exactly every count that Output 2
    can read off a data line (it is at most 2^53 in absolute value),
    [main] returns its four outputs or [None].  A count of 310 digits in
    the column of the age group does make [main] raise. *)
Theorem main_raises_overflow_only af pf age c1 c2 :
  (forall e, main af pf age c1 c2 = Raise e -> e = OverflowError) /\
  ((forall line i, In line (tl (read_lines pf)) ->
                   float_exact (count_or_zero i line)) ->
   exists r, main af pf age c1 c2 = Ok r) /\
  main area_file_single population_file_huge 25 "401011001" "401011001"
  = Raise OverflowError.
Proof.
  split; [apply MainRun.main_raises|].
  split; [apply MainRun.main_exact|apply MainRun.huge_count_leaves_main].
Qed.

(** X3: Steps 1 to 6 of [main], on an integer age, two strings and two
    files that can be read, fail exactly when the age is negative, a
    code is not nine digits after stripping, a file has fewer than two
    non-blank lines, or no header label matches the age.  When they pass,
    the column that the outputs read is that of the first label that
    matches the age: the lookup of the matched label by [list.index]
    cannot fail and cannot land on another column. *)
Theorem steps_1_to_6 af pf age c1 c2 :
  (prepare af pf age c1 c2 = None <->
   age < 0 \/ valid_sa2_code c1 = false \/ valid_sa2_code c2 = false \/
   list_len (read_lines af) < 2 \/ list_len (read_lines pf) < 2 \/
   forall l, In l (header_labels pf) -> matches age l = false) /\
  (forall p,
      prepare af pf age c1 c2 = Some p ->
      code_1 p = strip c1 /\ code_2 p = strip c2 /\
      data_lines p = tl (read_lines pf) /\
      maps p = parse_area_data (read_lines af) /\
      exists l,
        nth_error (header_labels pf) (age_group_index p) = Some l /\
        matches age l = true /\
        forall j l', (j < age_group_index p)%nat ->
                     nth_error (header_labels pf) j = Some l' ->
                     matches age l' = false).
Proof.
  unfold prepare. fold (header_labels pf).
  destruct (Z.ltb_spec age 0) as [Ha|Ha].
  { split; [split; auto|discriminate]. }
  destruct (valid_sa2_code c1) eqn:V1; cbn [negb].
  2:{ split; [split; auto|discriminate]. }
  destruct (valid_sa2_code c2) eqn:V2; cbn [negb].
  2:{ split; [split; auto|discriminate]. }
  destruct (Z.ltb_spec (list_len (read_lines af)) 2) as [La|La]; cbn [orb].
  { split; [split; auto|discriminate]. }
  destruct (Z.ltb_spec (list_len (read_lines pf)) 2) as [Lp|Lp]; cbn [orb].
  { split; [split; auto 6|discriminate]. }
  destruct (match_age_to_group age (header_labels pf)) as [[l|] flag] eqn:M.
  - destruct (AgeBounds.index_of_first _ _ _ _ M) as [i [Hi [Hn [Hm Hb]]]].
    rewrite Hi. split.
    + split; [discriminate|].
      intros [H|[H|[H|[H|[H|H]]]]]; try lia; try discriminate.
      apply nth_error_In in Hn. apply H in Hn. unfold matches in Hn.
      rewrite Hm in Hn. discriminate.
    + intros p Hp. inversion Hp; subst; cbn.
      repeat split; auto. exists l. repeat split; auto.
      unfold matches. now rewrite Hm.
  - split; [|discriminate]. split; auto. intros _.
    do 5 right.
    assert (flag = false).
    { clear -M. induction (header_labels pf) as [|x r IH]; simpl in M.
      - now inversion M.
      - destruct (label_match age x); [discriminate|auto]. }
    subst. now apply AgeMatch.match_none.
Qed.

End MainEdges.

Module Shape.
Import PyStr Project1.

Lemma sa3_stat_code m lines i c r :
  sa3_stat m lines i c = Ok r ->
  code_of_stat r = match sa3_of m c with Some s3 => s3 | None => c end /\
  (sa3_of m c = None -> r = (c, 0%R, 0%R)).
Proof.
  unfold sa3_stat, sa3_of, code_of_stat.
  destruct (dget c (sa2_to_sa3 m)) as [[|ch s]|].
  - intros H; inversion H; auto.
  - destruct (rounded_statistics _) as [st|]; cbn [bind]; [|discriminate].
    intros H; inversion H; subst; cbn. split; [reflexivity|discriminate].
  - intros H; inversion H; auto.
Qed.

Lemma state_winner_state m totals st w :
  state_winner m totals st = Ok w -> fst (fst (fst w)) = st.
Proof.
  unfold state_winner. destruct (dsub st _); cbn [bind]; [|discriminate].
  destruct (find_state_max _ _); cbn [bind]; [|discriminate].
  intros H; inversion H; reflexivity.
Qed.

Lemma state_row_state m w r :
  state_row m w = Ok r -> state_of_row r = fst (fst (fst w)).
Proof.
  unfold state_row. destruct w as [[[st ms] c] t].
  destruct (if t =? 0 then _ else _); cbn [bind]; [|discriminate].
  intros H; inversion H; reflexivity.
Qed.

Lemma output3_states m lines i rows :
  output3 m lines i = Ok rows ->
  map state_of_row rows = sort_strings (dkeys (state_to_sa3_map m)).
Proof.
  unfold output3, state_winners. intros H.
  apply bind_Ok in H. destruct H as [ws [Hw Hr]].
  apply mapM_Forall2 in Hw. apply mapM_Forall2 in Hr.
  pose proof (Forall2_map_eq (fun s => s) (fun w => fst (fst (fst w))) _ _ _
                (fun a b H => eq_sym (state_winner_state _ _ _ _ H)) Hw) as E1.
  pose proof (Forall2_map_eq (fun w => fst (fst (fst w))) state_of_row _ _ _
                (fun a b H => eq_sym (state_row_state _ _ _ H)) Hr) as E2.
  rewrite map_id in E1. congruence.
Qed.

Lemma main_outputs af pf age c1 c2 out :
  main af pf age c1 c2 = Ok (Some out) ->
  exists p,
    prepare af pf age c1 c2 = Some p /\
    mapM (sa3_stat (maps p) (data_lines p) (age_group_index p))
         [code_1 p; code_2 p] = Ok (sa3_stats out) /\
    output3 (maps p) (data_lines p) (age_group_index p) = Ok (state_max_sa3 out).
Proof.
  unfold main. destruct (prepare af pf age c1 c2) as [p|]; [|discriminate].
  destruct (mapM _ _) as [stats|] eqn:Hs; cbn [bind]; [|discriminate].
  destruct (output3 _ _ _) as [rows|] eqn:Hr; [|discriminate].
  destruct (output4 _ _ _); [|discriminate].
  intros H. inversion H; subst; cbn. exists p.
  split; [reflexivity|]. split; [exact Hs|exact Hr].
Qed.

Lemma prepare_maps af pf age c1 c2 p :
  prepare af pf age c1 c2 = Some p -> maps p = parse_area_data (read_lines af).
Proof.
  unfold prepare.
  destruct (age <? 0); [discriminate|].
  destruct (valid_sa2_code c1); cbn [negb]; [|discriminate].
  destruct (valid_sa2_code c2); cbn [negb]; [|discriminate].
  destruct (_ || _); [discriminate|].
  destruct (match_age_to_group _ _) as [[l|] flag]; [|discriminate].
  destruct (index_of _ _); [|discriminate].
  intros H. inversion H. reflexivity.
Qed.

Lemma state_keys_NoDup (area_lines : list string) :
  NoDup (dkeys (state_to_sa3_map (parse_area_data area_lines))).
Proof.
  rewrite AreaIndex.parse_area_data_retained.
  cbn [sort_state_lists state_to_sa3_map].
  rewrite (dkeys_map_values sorted_set).
  apply (AreaIndex.maps_NoDup (retained area_lines) empty_maps); constructor.
Qed.

(** X4: the shape of Outputs 2 and 3.  When [main] returns its outputs,
    [sa3_stats] has one entry for each of the two codes, in the order
    given, headed by the SA3 code of the SA2 or, when the area file does
    not know the SA2, by the SA2 code itself with a mean and a standard
    deviation of 0.0; [state_max_sa3] has one row for every state of the
    area file, in strictly ascending order of the (lower-cased) state
    name. *)
Theorem main_output_shape af pf age c1 c2 out :
  main af pf age c1 c2 = Ok (Some out) ->
  let m := parse_area_data (read_lines af) in
  Forall2 (fun c r =>
             code_of_stat r = match sa3_of m c with Some s3 => s3 | None => c end /\
             (sa3_of m c = None -> r = (c, 0%R, 0%R)))
          [strip c1; strip c2] (sa3_stats out) /\
  map state_of_row (state_max_sa3 out) = sort_strings (dkeys (state_to_sa3_map m)) /\
  StronglySorted lt_str (map state_of_row (state_max_sa3 out)).
Proof.
  intros H m. apply main_outputs in H as [p [Hp [Hs Hr]]].
  destruct (MainRun.prepare_fields _ _ _ _ _ _ Hp) as [E1 [E2 _]].
  pose proof (prepare_maps _ _ _ _ _ _ Hp) as Em.
  rewrite E1, E2, Em in *. fold m in Hs, Hr.
  split; [|split].
  - apply mapM_Forall2 in Hs.
    eapply Forall2_impl; [|exact Hs]. intros c r Hc. cbv beta in Hc.
    apply (sa3_stat_code _ _ _ _ _ Hc).
  - apply (output3_states _ _ _ _ Hr).
  - rewrite (output3_states _ _ _ _ Hr).
    apply sorted_nodup_strict; [apply sort_strings_sorted|].
    apply sort_strings_NoDup, state_keys_NoDup.
Qed.

Lemma main_output_shape_witness :
  exists out,
    main area_file_example population_file_example 25 "401011001" "999999999"
    = Ok (Some out) /\
    map code_of_stat (sa3_stats out) = ["40101"; "999999999"]%string /\
    map state_of_row (state_max_sa3 out) = ["south australia"]%string.
Proof.
  destruct (MainRun.main_returns area_file_example population_file_example 25
              "401011001" "999999999" eq_refl) as [out Hout].
  exists out. split; [exact Hout|].
  destruct (main_output_shape area_file_example population_file_example 25
              "401011001" "999999999" out Hout) as [Hs [Hr _]].
  split; [|rewrite Hr; reflexivity].
  remember (sa3_stats out) as st eqn:Est. clear Est.
  inversion Hs as [|c1 r1 l1 l1' [H1 _] Hs1]; subst.
  inversion Hs1 as [|c2 r2 l2 l2' [H2 _] Hs2]; subst.
  inversion Hs2; subst. cbn [map]. rewrite H1, H2. reflexivity.
Defined.

End Shape.

Module TieBreak.
Import PyStr MaxSearch StateWinners.

Lemma winner_chosen (d : dict Z) :
  d <> [] ->
  exists k,
    Project2.winner d = Ok k /\ Project2.smallest_tied d k /\
    forall d', Permutation d d' -> Project2.winner d' = Ok k.
Proof.
  intros Hne. destruct (winner_smallest_tied d Hne) as [k [Hw Hs]].
  exists k. split; [exact Hw|]. split; [exact Hs|].
  intros d' Hp. eapply winner_order_independent; eassumption.
Qed.

Lemma state_winners_states m lines idx ws :
  Project1.state_winners m lines idx = Ok ws ->
  map (fun w => fst (fst (fst w))) ws
  = sort_strings (dkeys (Project1.state_to_sa3_map m)).
Proof.
  unfold Project1.state_winners. intros H. apply mapM_Forall2 in H.
  pose proof (Forall2_map_eq (fun s => s) (fun w => fst (fst (fst w))) _ _ _
                (fun a b E => eq_sym (Shape.state_winner_state _ _ _ _ E)) H) as E.
  rewrite map_id in E. symmetry. exact E.
Qed.

(** C3 (as amended): every maximum search picks, among the candidates
    tied at the maximum, the lexicographically smallest key, whatever the
    order in which the candidates are visited -- in Project 1 for counts
    that are not negative.  [output_OP1] reports, for every age group
    that has a record of a known SA2, the state, the SA3 and the SA2 that
    are the smallest keys among those with the largest total of their
    level, and the search gives the same winner on every reordering of
    the level's totals.  On a population file without negative cells,
    output 3 of Project 1 has one row for every state, and the row holds
    the SA3 of the state with the largest count, the least code first
    among ties, in whatever order the SA3s of the state are visited. *)
Theorem extremal_search_smallest_tied_key
    (pop_rows : list Project2.pop_record) (area_lookup : dict Project2.area_info)
    (area_lines data_lines : list string) (idx : nat) :
  Project1.cells_nonneg data_lines ->
  (exists op1,
      Project2.output_OP1 pop_rows area_lookup = Ok op1 /\
      forall a lv,
        dget a (Project2.op1_results pop_rows area_lookup) = Some lv ->
        exists st s3 s2,
          dget a op1 = Some (st, s3, s2) /\
          Project2.smallest_tied (Project2.by_state lv) st /\
          Project2.smallest_tied (Project2.by_sa3 lv) s3 /\
          Project2.smallest_tied (Project2.by_sa2 lv) s2 /\
          (forall d, Permutation (Project2.by_state lv) d ->
                     Project2.winner d = Ok st) /\
          (forall d, Permutation (Project2.by_sa3 lv) d ->
                     Project2.winner d = Ok s3) /\
          (forall d, Permutation (Project2.by_sa2 lv) d ->
                     Project2.winner d = Ok s2)) /\
  (let m := Project1.parse_area_data area_lines in
   let counts := fst (Project1.sa3_totals m data_lines idx) in
   exists ws,
     Project1.state_winners m data_lines idx = Ok ws /\
     map (fun w => fst (fst (fst w))) ws
     = sort_strings (dkeys (Project1.state_to_sa3_map m)) /\
     forall w, In w ws ->
       exists state_sa3s k,
         dget (fst (fst (fst w))) (Project1.state_to_sa3_map m)
         = Some state_sa3s /\
         snd (fst (fst w)) = Some k /\
         snd (fst w) = Project1.sa3_total counts k /\
         Project1.best_of counts state_sa3s k /\
         forall l', Permutation state_sa3s l' ->
                    Project1.find_state_max counts l'
                    = Ok (Some k, Project1.sa3_total counts k)).
Proof.
  intros Hcells. split.
  - destruct (OP1.output_OP1_entries pop_rows area_lookup) as [op1 [Ho Hent]].
    exists op1. split; [exact Ho|]. intros a lv Hlv.
    destruct (OP1.op1_results_well_formed pop_rows area_lookup) as [_ Hne].
    destruct (Hne a lv (dget_Some_In _ _ _ Hlv)) as [N1 [N2 N3]].
    destruct (winner_chosen _ N1) as [st [W1 [S1 P1]]].
    destruct (winner_chosen _ N2) as [s3 [W2 [S2 P2]]].
    destruct (winner_chosen _ N3) as [s2 [W3 [S3 P3]]].
    exists st, s3, s2. split; [|auto 10].
    apply Hent. exists lv. auto.
  - intros m counts.
    destruct (state_winners_best area_lines data_lines idx Hcells)
      as [ws [Hws Hbest]].
    fold m in Hws, Hbest. fold counts in Hbest.
    exists ws. split; [exact Hws|].
    split; [apply (state_winners_states _ _ _ _ Hws)|].
    intros w Hw. destruct (Hbest w Hw) as [sa3s [k [Hget [Hk [Hc Hb]]]]].
    exists sa3s, k. split; [exact Hget|]. split; [exact Hk|].
    split; [exact Hc|]. split; [exact Hb|].
    intros l' Hp.
    assert (Hs' : l' <> []).
    { intros ->. apply Permutation_sym, Permutation_nil in Hp. subst sa3s.
      destruct Hb as [[] _]. }
    assert (Hpos' : forall s, In s l' -> 0 <= Project1.sa3_total counts s).
    { intros s _. apply sa3_totals_nonneg, Hcells. }
    destruct (find_state_max_best counts l' Hs' Hpos') as [k2 [Hf2 Hb2]].
    rewrite Hf2.
    assert (k2 = k) as ->; [|reflexivity].
    eapply best_of_unique; [|exact Hb2|exact Hb].
    intros x. split; apply Permutation_in; [apply Permutation_sym, Hp | exact Hp].
Qed.

Lemma example_cells_nonneg :
  Project1.cells_nonneg
    (tl (Project1.read_lines Project1.population_file_example)).
Proof.
  intros line c v Hl Hc Hv. vm_compute in Hl.
  destruct Hl as [<-|[<-|[]]]; vm_compute in Hc;
    repeat (destruct Hc as [<-|Hc];
            [vm_compute in Hv;
             first [discriminate Hv | injection Hv as <-; lia]|]);
    destruct Hc.
Qed.

Lemma extremal_search_smallest_tied_key_witness :
  (exists ws,
      Project1.state_winners
        (Project1.parse_area_data
           (Project1.read_lines Project1.area_file_example))
        (tl (Project1.read_lines Project1.population_file_example)) 2 = Ok ws /\
      map (fun w => fst (fst (fst w))) ws = ["south australia"%string]) /\
  (exists lk op1 t,
      Project2.create_area_lookup Project2.nesting_areas = Ok lk /\
      Project2.output_OP1 Project2.nesting_pops lk = Ok op1 /\
      dget "0-4" op1 = Some t).
Proof.
  destruct (Project2.create_area_lookup Project2.nesting_areas) as [lk|] eqn:Hl;
    [|vm_compute in Hl; discriminate].
  destruct (extremal_search_smallest_tied_key Project2.nesting_pops lk
              (Project1.read_lines Project1.area_file_example)
              (tl (Project1.read_lines Project1.population_file_example)) 2
              example_cells_nonneg) as [[op1 [Ho He]] [ws [Hw [Hs _]]]].
  split.
  - exists ws. split; [exact Hw|]. rewrite Hs. reflexivity.
  - destruct (dget "0-4" (Project2.op1_results Project2.nesting_pops lk))
      as [lv|] eqn:Hlv;
      [|vm_compute in Hl; injection Hl as <-; vm_compute in Hlv; discriminate].
    destruct (He _ _ Hlv) as [st [s3 [s2 [Hd _]]]].
    exists lk, op1, (st, s3, s2). auto.
Defined.

(** C3 (as stated) fails in Project 1 on negative counts.  The search
    starts from [(None, -1)]: the two SA3s of South Australia are tied at
    the largest count, -2, and the search selects neither of them, so
    the row of the state has no winner. *)
Lemma negative_counts_select_no_winner :
  let m := Project1.parse_area_data
             (Project1.read_lines Project1.area_file_two_sa3) in
  let lines := tl (Project1.read_lines Project1.population_file_negative) in
  dget "south australia" (Project1.state_to_sa3_map m)
  = Some ["40101"; "40102"]%string /\
  fst (Project1.sa3_totals m lines 0) = [("40101", -2); ("40102", -2)]%string /\
  Project1.state_winners m lines 0
  = Ok [("south australia", None, -1, 0)]%string.
Proof. vm_compute. repeat split. Qed.

(** A count of -1 is compared as a tie with the starting value and the
    comparison of the code with [None] raises [TypeError]; counts below
    -1 leave the state without a winner. *)
Example negative_count_tie_with_sentinel :
  Project1.find_state_max [("40101", -1)]%string ["40101"]%string = Raise TypeError.
Proof. reflexivity. Qed.

Example negative_counts_leave_no_winner :
  Project1.find_state_max [("40101", -2); ("40102", -2)]%string
                          ["40101"; "40102"]%string
  = Ok (None, -1).
Proof. reflexivity. Qed.

End TieBreak.

Module Counts.
Import PyStr Project1.

Lemma count_step_eq same i counts line :
  count_step same i counts line =
  if str_in (line_code line) same then counts ++ [count_or_zero i line] else counts.
Proof.
  unfold count_step, count_or_zero, target_cell, line_code.
  rewrite Output4.cell_first. cbn [bind].
  destruct (str_in _ same); [|reflexivity].
  destruct (cell (split "," line) (i + 2)) as [c|]; cbn [bind]; [|reflexivity].
  destruct (int_or_zero c); reflexivity.
Qed.

Lemma counts_collected same i lines :
  forall counts,
    fold_left (count_step same i) lines counts
    = counts ++ map (count_or_zero i)
                    (filter (fun line => str_in (line_code line) same) lines).
Proof.
  induction lines as [|line lines IH]; intros counts; simpl.
  - now rewrite app_nil_r.
  - rewrite IH, count_step_eq.
    destruct (str_in _ same); simpl; [now rewrite <- app_assoc|reflexivity].
Qed.

(** X5: the counts behind Output 2.  For an SA2 whose SA3 is known, the
    mean and the standard deviation are those of one count per data line
    whose first cell is an SA2 of that SA3, in file order, read from the
    column of the age group; a line on which that cell is missing or is
    not a number is not skipped: it contributes a count of 0. *)
Theorem output2_counts m lines i :
  (forall c s3,
      sa3_of m c = Some s3 ->
      sa3_stat m lines i c =
      (st <- rounded_statistics
               (map (count_or_zero i)
                    (filter (fun line => str_in (line_code line) (sa2s_of m s3))
                            lines)) ;;
       Ok (s3, fst st, snd st))) /\
  (forall line, nth_error (split "," line) (i + 2) = None ->
                count_or_zero i line = 0) /\
  (forall line c e, nth_error (split "," line) (i + 2) = Some c ->
                    int_or_zero c = Raise e -> count_or_zero i line = 0) /\
  (forall line c v, nth_error (split "," line) (i + 2) = Some c ->
                    int_or_zero c = Ok v -> count_or_zero i line = v).
Proof.
  split; [|split; [|split]].
  - intros c s3 H. unfold sa3_stat, sa3_of in *.
    destruct (dget c (sa2_to_sa3 m)) as [[|ch s]|]; try discriminate.
    inversion H; subst s3. fold (sa2s_of m (String ch s)).
    rewrite counts_collected. reflexivity.
  - intros line H. unfold count_or_zero, target_cell, cell. now rewrite H.
  - intros line c e H1 H2. unfold count_or_zero, target_cell, cell.
    rewrite H1. cbn [of_option bind]. now rewrite H2.
  - intros line c v H1 H2. unfold count_or_zero, target_cell, cell.
    rewrite H1. cbn [of_option bind]. now rewrite H2.
Qed.

End Counts.

Module Aggregation.
Import PyStr Project1 StrFacts.








End Aggregation.

Module Extraction.
Import PyStr Project1.

Lemma extract_step_eq c1 c2 st line :
  extract_step c1 c2 st line =
  (d1 <- (if String.eqb (line_code line) c1
          then d <- row_values line ;; Ok (Some d) else Ok (fst st)) ;;
   d2 <- (if String.eqb (line_code line) c2
          then d <- row_values line ;; Ok (Some d) else Ok (snd st)) ;;
   Ok (d1, d2)).
Proof.
  unfold extract_step. rewrite Output4.cell_first. reflexivity.
Qed.

Lemma extract_malformed c1 c2 lines :
  forall st line e,
    In line lines ->
    (line_code line = c1 \/ line_code line = c2) ->
    row_values line = Raise e ->
    exists e', foldM (extract_step c1 c2) lines st = Raise e'.
Proof.
  induction lines as [|x lines IH]; intros st line e Hin Hc Hr; [destruct Hin|].
  simpl. destruct (extract_step c1 c2 st x) as [st'|e'] eqn:E; cbn [bind].
  - destruct Hin as [->|Hin].
    + exfalso. rewrite extract_step_eq in E.
      destruct Hc as [Hc|Hc]; rewrite Hc, String.eqb_refl, Hr in E.
      * discriminate.
      * destruct (if String.eqb c2 c1 then _ else _); discriminate.
    + eapply IH; eauto.
  - eexists; reflexivity.
Qed.

Lemma find_app_last {A : Type} (f : A -> bool) (l : list A) (x : A) :
  find f (rev (l ++ [x])) = if f x then Some x else find f (rev l).
Proof. rewrite rev_app_distr. reflexivity. Qed.

Lemma extract_last c1 c2 lines :
  forall d1 d2,
    extract_distributions lines c1 c2 = Ok (d1, d2) ->
    taken_from c1 lines d1 /\ taken_from c2 lines d2.
Proof.
  unfold extract_distributions, taken_from, last_row.
  induction lines as [|x lines IH] using rev_ind; intros d1 d2 H.
  - inversion H; subst. cbn. auto.
  - rewrite foldM_app in H. apply bind_Ok in H. destruct H as [[a b] [H1 H2]].
    destruct (IH _ _ H1) as [Ha Hb]. clear IH H1.
    simpl in H2. apply bind_Ok in H2. destruct H2 as [[e1 e2] [H2 H3]].
    inversion H3; subst e1 e2; clear H3.
    rewrite extract_step_eq in H2. cbn [fst snd] in H2.
    rewrite !find_app_last.
    destruct (String.eqb (line_code x) c1) eqn:E1;
      destruct (String.eqb (line_code x) c2) eqn:E2;
      destruct (row_values x) as [d|]; cbn [bind] in H2; try discriminate;
      inversion H2; subst;
      (split; [try (exists d; split; reflexivity); assumption
              |try (exists d; split; reflexivity); assumption]).
Qed.

(** X7: in Output 4 the last row of a code wins.  The extraction loop
    does not stop at the first row of a code: when it ends without an
    error, each of the two distributions is that of the last data line
    whose first cell is the code, and it is [None] exactly when no data
    line has the code. *)
Theorem last_row_wins lines c1 c2 d1 d2 :
  extract_distributions lines c1 c2 = Ok (d1, d2) ->
  taken_from c1 lines d1 /\ taken_from c2 lines d2 /\
  (d1 = None <-> last_row c1 lines = None) /\
  (d2 = None <-> last_row c2 lines = None).
Proof.
  intros H. destruct (extract_last _ _ _ _ _ H) as [T1 T2].
  split; [exact T1|]. split; [exact T2|].
  unfold taken_from in *.
  split.
  - clear T2. destruct (last_row c1 lines).
    + destruct T1 as [v [_ ->]]. split; intros E; discriminate E.
    + split; auto.
  - clear T1. destruct (last_row c2 lines).
    + destruct T2 as [v [_ ->]]. split; intros E; discriminate E.
    + split; auto.
Qed.

Lemma last_row_wins_witness :
  extract_distributions (tl (read_lines population_file_repeated))
                        "401011001" "401011003"
  = Ok (Some [3; 4], None) /\
  last_row "401011001" (tl (read_lines population_file_repeated))
  = Some "401011001,Adelaide,3,4"%string /\
  last_row "401011003" (tl (read_lines population_file_repeated)) = None.
Proof.
  pose proof (last_row_wins (tl (read_lines population_file_repeated))
                "401011001" "401011003" (Some [3; 4]) None eq_refl) as H.
  split; [reflexivity|]. split; [reflexivity|].
  apply (proj1 (proj2 (proj2 (proj2 H)))). reflexivity.
Defined.

Lemma malformed_output4 af pf age c1 c2 line e p stats :
  prepare af pf age c1 c2 = Some p ->
  In line (tl (read_lines pf)) ->
  line_code line = strip c1 \/ line_code line = strip c2 ->
  row_values line = Raise e ->
  match output3 (maps p) (data_lines p) (age_group_index p) with
  | Raise _ => Ok None
  | Ok rows =>
      match output4 (data_lines p) (code_1 p) (code_2 p) with
      | Raise _ => Ok None
      | Ok c =>
          Ok (Some {| age_bounds := age_bounds_loop age range_0_90_5;
                      sa3_stats := stats;
                      state_max_sa3 := rows; correlation := c |})
      end
  end = Ok None.
Proof.
  intros P Hin Hc Hr.
  destruct (MainRun.prepare_fields _ _ _ _ _ _ P) as [E1 [E2 E3]].
  destruct (output3 _ _ _); [|reflexivity].
  unfold output4, extract_distributions. rewrite E1, E2, E3.
  destruct (extract_malformed (strip c1) (strip c2) (tl (read_lines pf))
              (None, None) line e Hin Hc Hr) as [e' He].
  rewrite He. reflexivity.
Qed.

(** X8: a cell that is not a number in a compared row keeps [main] from
    returning its outputs.  When Steps 1 to 6 pass and some data line
    whose first cell is one of the two codes has, from the third column
    on, a cell that [int] rejects, the error of Output 4 is caught and
    [main] returns [None], also when a later row of the same code is
    well formed -- unless the statistics of Output 2, which run first,
    raise [OverflowError]; they do not when a float holds exactly every
    count that Output 2 can read off a data line. *)
Theorem malformed_compared_row af pf age c1 c2 line e :
  prepare af pf age c1 c2 <> None ->
  In line (tl (read_lines pf)) ->
  line_code line = strip c1 \/ line_code line = strip c2 ->
  row_values line = Raise e ->
  (main af pf age c1 c2 = Ok None \/
   main af pf age c1 c2 = Raise OverflowError) /\
  ((forall l i, In l (tl (read_lines pf)) -> float_exact (count_or_zero i l)) ->
   main af pf age c1 c2 = Ok None).
Proof.
  intros Hp Hin Hc Hr.
  destruct (prepare af pf age c1 c2) as [p|] eqn:P; [|congruence].
  assert (M : forall stats,
            mapM (sa3_stat (maps p) (data_lines p) (age_group_index p))
                 [code_1 p; code_2 p] = Ok stats ->
            main af pf age c1 c2 = Ok None).
  { intros stats Hs. unfold main. rewrite P, Hs. cbn [bind].
    eapply malformed_output4; eassumption. }
  split.
  - destruct (mapM (sa3_stat (maps p) (data_lines p) (age_group_index p))
                   [code_1 p; code_2 p]) as [stats|e'] eqn:Hs.
    + left. apply (M stats eq_refl).
    + right. unfold main. rewrite P, Hs. cbn [bind]. f_equal.
      apply Output4.mapM_raises in Hs as [c [_ Hs]].
      apply (MainRun.sa3_stat_raises _ _ _ _ _ Hs).
  - intros Hex.
    destruct (MainRun.prepare_fields _ _ _ _ _ _ P) as [_ [_ E3]].
    destruct (mapM_Ok (sa3_stat (maps p) (data_lines p) (age_group_index p))
                      [code_1 p; code_2 p]) as [stats [Hs _]].
    { intros c _. apply MainRun.sa3_stat_returns. rewrite E3.
      intros l Hl. apply Hex, Hl. }
    apply (M stats Hs).
Qed.

Lemma malformed_compared_row_witness :
  main area_file_example population_file_malformed 25 "401011001" "401011002"
  = Ok None.
Proof.
  apply (malformed_compared_row area_file_example population_file_malformed 25
           "401011001" "401011002" "401011001,Adelaide,5,n/a,5,5" ValueError).
  - vm_compute. discriminate.
  - vm_compute. left. reflexivity.
  - left. reflexivity.
  - reflexivity.
  - intros l i Hl. vm_compute in Hl.
    assert (H : forall l' : string,
              forallb (fun j => float_exactb (count_or_zero j l')) (seq 0 8) = true ->
              (forall j, (8 <= j)%nat -> count_or_zero j l' = 0) ->
              float_exact (count_or_zero i l')).
    { intros l' Hsmall Hlarge. destruct (le_lt_dec 8 i) as [Hi|Hi].
      - rewrite (Hlarge i Hi). apply MainRun.float_exact_0.
      - rewrite forallb_forall in Hsmall.
        apply Statistics.float_exactb_iff, Hsmall.
        apply in_seq. lia. }
    assert (N : forall l' : string,
              (List.length (split "," l') <= 8)%nat ->
              forall j, (8 <= j)%nat -> count_or_zero j l' = 0).
    { intros l' Hlen j Hj. unfold count_or_zero, target_cell, cell.
      assert (E : nth_error (split "," l') (j + 2) = None)
        by (apply nth_error_None; lia).
      rewrite E. reflexivity. }
    destruct Hl as [<-|[<-|[]]]; apply H; try reflexivity; apply N;
      vm_compute; lia.
Defined.

End Extraction.

Module AreaConsistency.
Import PyStr Project1 AreaIndex StrFacts.

Lemma area_fields_lower line e :
  area_fields line = Some e ->
  lower (entry_state e) = entry_state e /\ lower (entry_name e) = entry_name e.
Proof.
  unfold area_fields.
  destruct (split "," line) as [|f0 [|f1 [|f2 [|f3 [|f4 rest]]]]]; try discriminate.
  intros H; inversion H; subst; cbn. split; apply lower_idem.
Qed.

Lemma retained_from_fields rows :
  forall seen e, In e (retained_from seen rows) ->
                 exists line, In line rows /\ area_fields line = Some e.
Proof.
  induction rows as [|line rows IH]; intros seen e H; cbn [retained_from] in H.
  - destruct H.
  - destruct (area_fields line) as [e0|] eqn:E.
    + destruct (str_in (entry_sa2 e0) seen).
      * destruct (IH _ _ H) as [l [Hl He]]. exists l. split; [right|]; auto.
      * destruct H as [<-|H]; [exists line; split; [left|]; auto|].
        destruct (IH _ _ H) as [l [Hl He]]. exists l. split; [right|]; auto.
    + destruct (IH _ _ H) as [l [Hl He]]. exists l. split; [right|]; auto.
Qed.

Lemma name_keys (es : list area_entry) :
  forall m,
    dkeys (sa3_to_name m) = dkeys (sa3_to_state m) ->
    dkeys (sa3_to_name (fold_left add_entry es m))
    = dkeys (sa3_to_state (fold_left add_entry es m)).
Proof.
  induction es as [|e es IH]; intros m H; cbn [fold_left]; [exact H|].
  apply IH. cbn [add_entry sa3_to_name sa3_to_state].
  apply dkeys_dset_both, H.
Qed.

Lemma sa3_keys (es : list area_entry) :
  forall m s3,
    In s3 (dkeys (sa3_to_state (fold_left add_entry es m))) <->
    In s3 (dkeys (sa3_to_state m)) \/ exists e, In e es /\ entry_sa3 e = s3.
Proof.
  induction es as [|e es IH]; intros m s3; cbn [fold_left].
  - split; [auto|]. intros [H|[e [[] _]]]; exact H.
  - rewrite IH. cbn [add_entry sa3_to_state]. rewrite In_dkeys_dset. split.
    + intros [[->|H]|[e' [H1 H2]]]; auto.
      * right. exists e. split; [left|]; auto.
      * right. exists e'. split; [right|]; auto.
    + intros [H|[e' [[<-|H1] H2]]]; auto.
      right. exists e'. auto.
Qed.

Lemma state_keys_lower (es : list area_entry) :
  forall m,
    (forall e, In e es -> lower (entry_state e) = entry_state e) ->
    (forall st, In st (dkeys (state_to_sa3_map m)) -> lower st = st) ->
    forall st, In st (dkeys (state_to_sa3_map (fold_left add_entry es m))) ->
               lower st = st.
Proof.
  induction es as [|e es IH]; intros m He Hm st; cbn [fold_left]; [apply Hm|].
  apply IH.
  - intros e' H. apply He. right; exact H.
  - intros st'. cbn [add_entry state_to_sa3_map]. rewrite In_dkeys_dset.
    intros [->|H]; [apply He; left; reflexivity|apply Hm, H].
Qed.

(** X9: the four indexes of [parse_area_data] refer to each other
    consistently.  The name index and the state index have the same SA3
    codes as keys; the SA3 of every indexed SA2 has a state and a name;
    the state of every indexed SA3 has a list, which contains the SA3;
    every SA3 in the list of a state is the SA3 of some indexed SA2 and
    has a name; and every state key is in lower case. *)
Theorem parse_area_data_consistent (area_lines : list string) :
  let m := parse_area_data area_lines in
  dkeys (sa3_to_name m) = dkeys (sa3_to_state m) /\
  (forall c s3, dget c (sa2_to_sa3 m) = Some s3 ->
                exists st name, dget s3 (sa3_to_state m) = Some st /\
                                dget s3 (sa3_to_name m) = Some name) /\
  (forall s3 st, dget s3 (sa3_to_state m) = Some st ->
                 exists l, dget st (state_to_sa3_map m) = Some l /\ In s3 l) /\
  (forall st l s3, dget st (state_to_sa3_map m) = Some l -> In s3 l ->
                   (exists c, dget c (sa2_to_sa3 m) = Some s3) /\
                   exists name, dget s3 (sa3_to_name m) = Some name) /\
  (forall st, In st (dkeys (state_to_sa3_map m)) -> lower st = st).
Proof.
  intros m. unfold m. rewrite parse_area_data_retained.
  set (kept := retained area_lines).
  set (raw := fold_left add_entry kept empty_maps).
  cbn [sort_state_lists sa2_to_sa3 sa3_to_state sa3_to_name state_to_sa3_map].
  rewrite (dkeys_map_values sorted_set).
  assert (Hkeys : dkeys (sa3_to_name raw) = dkeys (sa3_to_state raw))
    by (apply name_keys; reflexivity).
  assert (Hname : forall s3, In s3 (dkeys (sa3_to_state raw)) ->
                             exists name, dget s3 (sa3_to_name raw) = Some name).
  { intros s3 H. rewrite <- Hkeys in H. apply In_dkeys_dget, H. }
  assert (Hstate : forall e, In e kept ->
                     exists st, dget (entry_sa3 e) (sa3_to_state raw) = Some st).
  { intros e He. apply In_dkeys_dget. apply sa3_keys. right. eauto. }
  assert (Hlist : forall st s3,
            (exists e, In e kept /\ entry_state e = st /\ entry_sa3 e = s3) ->
            exists l, dget st (map (fun kv => (fst kv, sorted_set (snd kv)))
                                   (state_to_sa3_map raw)) = Some l /\ In s3 l).
  { intros st s3 H.
    pose proof (proj2 (state_list_members kept empty_maps st s3) (or_intror H)) as M.
    fold raw in M. rewrite (dget_map_values sorted_set).
    unfold dget_or in M. destruct (dget st (state_to_sa3_map raw)) as [l0|]; [|destruct M].
    exists (sorted_set l0). split; [reflexivity|].
    destruct (sorted_set_spec l0) as [_ [_ S3]]. apply (proj2 (S3 s3)), M. }
  assert (Hmem : forall st l s3,
            dget st (map (fun kv => (fst kv, sorted_set (snd kv)))
                         (state_to_sa3_map raw)) = Some l -> In s3 l ->
            exists e, In e kept /\ entry_state e = st /\ entry_sa3 e = s3).
  { intros st l s3. rewrite (dget_map_values sorted_set).
    destruct (dget st (state_to_sa3_map raw)) as [l0|] eqn:E; [|discriminate].
    cbn [option_map]. intros H Hin. injection H as <-.
    destruct (sorted_set_spec l0) as [_ [_ S3]]. apply (proj1 (S3 s3)) in Hin.
    pose proof (proj1 (state_list_members kept empty_maps st s3)) as M.
    fold raw in M. unfold dget_or in M. rewrite E in M.
    destruct (M Hin) as [[]|H]. exact H. }
  split; [exact Hkeys|]. split; [|split; [|split]].
  - intros c s3 H. apply sa2_from_retained in H as [H|[e [He [_ <-]]]]; [discriminate|].
    destruct (Hstate e He) as [st Hst]. exists st.
    destruct (Hname (entry_sa3 e)) as [name Hn].
    { apply dmem_true. unfold dmem. now rewrite Hst. }
    eauto.
  - intros s3 st H. apply state_from_retained in H as [H|[e [He [<- <-]]]]; [discriminate|].
    apply Hlist. eauto.
  - intros st l s3 H Hin. destruct (Hmem _ _ _ H Hin) as [e [He [_ <-]]]. split.
    + exists (entry_sa2 e). apply sa2_of_retained; [apply retained_NoDup|exact He].
    + destruct (Hstate e He) as [st' Hst]. apply Hname.
      apply dmem_true. unfold dmem. now rewrite Hst.
  - intros st. apply (state_keys_lower kept empty_maps); [|intros ? []].
    intros e He. apply retained_from_fields in He as [line [_ Hf]].
    apply (area_fields_lower _ _ Hf).
Qed.

End AreaConsistency.

(* ================================================================== *)
(** * Ranges of the rounded results *)

Module Bounds.

Lemma round_half_even_mono (x y : R) :
  (x <= y)%R -> round_half_even x <= round_half_even y.
Proof.
  intros H. unfold round_half_even.
  pose proof (Zfloor_le x y H) as Hf.
  pose proof (Zfloor_bound x) as Bx. pose proof (Zfloor_bound y) as By.
  destruct (Z.eq_dec (Zfloor x) (Zfloor y)) as [E|N].
  - rewrite E in *.
    destruct (Rltb (x - IZR (Zfloor y)) (1 / 2)) eqn:X1;
      destruct (Rltb (y - IZR (Zfloor y)) (1 / 2)) eqn:Y1;
      destruct (Rltb (1 / 2) (x - IZR (Zfloor y))) eqn:X2;
      destruct (Rltb (1 / 2) (y - IZR (Zfloor y))) eqn:Y2;
      rewrite ?Rltb_true_iff, ?Rltb_false_iff in *;
      destruct (Z.even (Zfloor y)); try lia; try lra.
  - assert (Zfloor x + 1 <= Zfloor y) by lia.
    destruct (Rltb (x - IZR (Zfloor x)) (1 / 2));
      destruct (Rltb (y - IZR (Zfloor y)) (1 / 2));
      destruct (Rltb (1 / 2) (x - IZR (Zfloor x)));
      destruct (Rltb (1 / 2) (y - IZR (Zfloor y)));
      destruct (Z.even (Zfloor x)); destruct (Z.even (Zfloor y)); lia.
Qed.

Lemma round4_mono (x y : R) : (x <= y)%R -> (round4 x <= round4 y)%R.
Proof.
  intros H. unfold round4.
  assert (Hr : round_half_even (x * 10000) <= round_half_even (y * 10000))
    by (apply round_half_even_mono; lra).
  apply IZR_le in Hr. lra.
Qed.

Lemma round4_m1 : round4 (-1) = (-1)%R.
Proof.
  unfold round4. replace (-1 * 10000)%R with (IZR (-10000)) by lra.
  rewrite round_half_even_IZR. lra.
Qed.

Lemma round4_unit (x : R) : (-1 <= x <= 1)%R -> (-1 <= round4 x <= 1)%R.
Proof.
  intros [H1 H2].
  pose proof (round4_mono _ _ H1) as L. pose proof (round4_mono _ _ H2) as U.
  rewrite round4_m1 in L. rewrite round4_1 in U. lra.
Qed.

Lemma round4_nonneg (x : R) : (0 <= x)%R -> (0 <= round4 x)%R.
Proof.
  intros H. pose proof (round4_mono _ _ H) as L. rewrite round4_0 in L. exact L.
Qed.

Lemma sxx_cons x y l : sxx ((x, y) :: l) = (x * x + sxx l)%R.
Proof. reflexivity. Qed.

Lemma syy_cons x y l : syy ((x, y) :: l) = (y * y + syy l)%R.
Proof. reflexivity. Qed.

Lemma sxy_cons x y l : sxy ((x, y) :: l) = (x * y + sxy l)%R.
Proof. reflexivity. Qed.

Lemma sxx_nonneg l : (0 <= sxx l)%R.
Proof.
  induction l as [|[x y] l IH]; [cbn; lra|]. rewrite sxx_cons.
  pose proof (Rle_0_sqr x) as H. unfold Rsqr in H. lra.
Qed.

Lemma syy_nonneg l : (0 <= syy l)%R.
Proof.
  induction l as [|[x y] l IH]; [cbn; lra|]. rewrite syy_cons.
  pose proof (Rle_0_sqr y) as H. unfold Rsqr in H. lra.
Qed.

Lemma quadratic l (t : R) :
  (0 <= sxx l * (t * t) + 2 * sxy l * t + syy l)%R.
Proof.
  induction l as [|[x y] l IH]; [cbn; lra|].
  rewrite sxx_cons, sxy_cons, syy_cons.
  pose proof (Rle_0_sqr (x * t + y)) as H. unfold Rsqr in H.
  replace ((x * x + sxx l) * (t * t) + 2 * (x * y + sxy l) * t + (y * y + syy l))%R
    with ((x * t + y) * (x * t + y)
          + (sxx l * (t * t) + 2 * sxy l * t + syy l))%R by ring.
  lra.
Qed.

(** The Cauchy-Schwarz inequality. *)
Lemma cauchy_schwarz l : (sxy l * sxy l <= sxx l * syy l)%R.
Proof.
  pose proof (sxx_nonneg l) as HA. pose proof (syy_nonneg l) as HB.
  destruct (Req_dec (sxx l) 0) as [E|N].
  - destruct (Req_dec (sxy l) 0) as [D|D]; [rewrite D, E; lra|].
    exfalso. pose proof (quadratic l (- (syy l + 1) / (2 * sxy l))) as Q.
    rewrite E in Q.
    replace (0 * (- (syy l + 1) / (2 * sxy l) * (- (syy l + 1) / (2 * sxy l)))
             + 2 * sxy l * (- (syy l + 1) / (2 * sxy l)) + syy l)%R
      with (-1)%R in Q by (field; exact D). lra.
  - pose proof (quadratic l (- sxy l / sxx l)) as Q.
    replace (sxx l * (- sxy l / sxx l * (- sxy l / sxx l))
             + 2 * sxy l * (- sxy l / sxx l) + syy l)%R
      with ((sxx l * syy l - sxy l * sxy l) / sxx l)%R in Q by (field; exact N).
    assert (Hpos : (0 < sxx l)%R) by lra.
    assert (Hq : (0 <= (sxx l * syy l - sxy l * sxy l) / sxx l * sxx l)%R) by nra.
    replace ((sxx l * syy l - sxy l * sxy l) / sxx l * sxx l)%R
      with (sxx l * syy l - sxy l * sxy l)%R in Hq by (field; exact N).
    lra.
Qed.

Lemma ratio_unit (d a b : R) :
  (0 <= a)%R -> (0 <= b)%R -> (d * d <= a * b)%R -> (sqrt a * sqrt b <> 0)%R ->
  (-1 <= d / (sqrt a * sqrt b) <= 1)%R.
Proof.
  intros Ha Hb Hd Hn.
  pose proof (sqrt_pos a) as Pa. pose proof (sqrt_pos b) as Pb.
  assert (Hpos : (0 < sqrt a * sqrt b)%R) by nra.
  assert (Hsq : ((sqrt a * sqrt b) * (sqrt a * sqrt b) = a * b)%R).
  { replace ((sqrt a * sqrt b) * (sqrt a * sqrt b))%R
      with ((sqrt a * sqrt a) * (sqrt b * sqrt b))%R by ring.
    now rewrite !sqrt_sqrt. }
  assert (Habs : (- (sqrt a * sqrt b) <= d <= sqrt a * sqrt b)%R) by nra.
  set (q := (sqrt a * sqrt b)%R) in *.
  assert (E : (d / q * q = d)%R) by (field; exact Hn).
  split; apply Rmult_le_reg_r with q; try exact Hpos; rewrite E; lra.
Qed.

End Bounds.

Module CorrelationBounds.
Import PyStr Project1 Bounds Correlation.

Lemma centred_sxy m1 m2 d1 d2 :
  sxy (centred m1 m2 d1 d2) = Rsum (centred_products m1 m2 d1 d2).
Proof.
  rewrite products_total. unfold centred.
  induction (combine d1 d2) as [|[x y] l IH]; [reflexivity|].
  cbn [map fold_right fst snd]. rewrite sxy_cons, IH. reflexivity.
Qed.

Lemma centred_sxx m1 m2 (d1 : list Z) :
  forall d2, List.length d1 = List.length d2 ->
    sxx (centred m1 m2 d1 d2) = Rsum (squared_deviations m1 d1).
Proof.
  rewrite squares_total. unfold centred.
  induction d1 as [|x d1 IH]; intros [|y d2] H; try discriminate; [reflexivity|].
  cbn [combine map fold_right fst snd]. rewrite sxx_cons, IH by (cbn in H; lia).
  reflexivity.
Qed.

Lemma centred_syy m1 m2 (d1 : list Z) :
  forall d2, List.length d1 = List.length d2 ->
    syy (centred m1 m2 d1 d2) = Rsum (squared_deviations m2 d2).
Proof.
  intros d2 H. rewrite squares_total. revert d2 H. unfold centred.
  induction d1 as [|x d1 IH]; intros [|y d2] H; try discriminate; [reflexivity|].
  cbn [combine map fold_right fst snd]. rewrite syy_cons, IH by (cbn in H; lia).
  reflexivity.
Qed.

Lemma correlation_of_bounds (d1 d2 : option (list Z)) (r : R) :
  correlation_of d1 d2 = Ok r -> (-1 <= r <= 1)%R.
Proof.
  intros H. destruct (degenerate d1 d2) eqn:D.
  { destruct (correlation_of_degenerate_cases _ _ D) as [E|E]; rewrite E in H;
      inversion H; lra. }
  unfold degenerate in D.
  destruct d1 as [v1|]; [|discriminate]. destruct d2 as [v2|]; [|discriminate].
  apply orb_false_iff in D as [D C2]. apply orb_false_iff in D as [L C1].
  apply negb_false_iff, Z.eqb_eq in L.
  assert (N1 : v1 <> []) by (intros ->; discriminate).
  assert (N2 : v2 <> []) by (intros ->; discriminate).
  destruct (correlation_of_cases v1 v2 N1 N2 L) as [E|E]; rewrite E in H;
    [discriminate|].
  rewrite C1, C2 in H. cbn [orb] in H. cbv zeta in H. inversion H; subst r; clear H.
  apply round4_unit.
  destruct (Reqb _ 0) eqn:E0; [lra|]. apply Reqb_false_iff in E0.
  assert (Hlen : List.length v1 = List.length v2) by (unfold list_len in L; lia).
  rewrite <- (centred_sxy (mean v1) (mean v2) v1 v2) in *.
  rewrite <- (centred_sxx (mean v1) (mean v2) v1 v2 Hlen) in *.
  rewrite <- (centred_syy (mean v1) (mean v2) v1 v2 Hlen) in *.
  set (l := centred (mean v1) (mean v2) v1 v2) in *.
  rewrite sqrt_mult in * by (apply sxx_nonneg || apply syy_nonneg).
  apply ratio_unit; [apply sxx_nonneg|apply syy_nonneg|apply cauchy_schwarz|exact E0].
Qed.

(** X10: the correlation of Output 4 lies between -1 and 1.  On two
    distributions whose counts a float holds exactly (they are at most
    2^53 in absolute value) the correlation step returns a number from
    -1 to 1 inclusive (0.0 on its fallbacks, otherwise the rounded
    quotient, which the Cauchy-Schwarz inequality bounds); so does the
    [correlation] of a result of [main] when the rows of the two codes
    hold such counts. *)
Theorem correlation_in_range :
  (forall d1 d2,
      exact_counts d1 -> exact_counts d2 ->
      exists r, correlation_of d1 d2 = Ok r /\ (-1 <= r <= 1)%R) /\
  (forall af pf age c1 c2 out d1 d2,
      main af pf age c1 c2 = Ok (Some out) ->
      extract_distributions (tl (read_lines pf)) (strip c1) (strip c2)
      = Ok (d1, d2) ->
      exact_counts d1 -> exact_counts d2 ->
      (-1 <= correlation out <= 1)%R).
Proof.
  split.
  - intros d1 d2 E1 E2. destruct (correlation_of_returns d1 d2 E1 E2) as [r Hr].
    exists r. split; [exact Hr|apply (correlation_of_bounds _ _ _ Hr)].
  - intros af pf age c1 c2 out d1 d2 H X _ _.
    apply MainRun.main_inversion in H as [p [_ H]].
    unfold output4 in H. apply bind_Ok in H as [ds [_ H]].
    apply (correlation_of_bounds _ _ _ H).
Qed.

End CorrelationBounds.

(* ================================================================== *)
(** * Project 2: the readers, the reconciliation and the outputs *)

Module Readers.
Import PyStr Project2 StrFacts.

Lemma age_record_spec row name code col r :
  age_record row name code col = Some r ->
  sa2_name r = name /\ sa2_code r = code /\ age r = age_label_of col /\
  contains "-" (age r) = true /\
  int (dget_or EmptyString col row) = Ok (population r) /\
  0 <= population r.
Proof.
  unfold age_record.
  destruct (contains "-" (age_label_of col)) eqn:C; cbn [negb]; [|discriminate].
  destruct (dget_or EmptyString col row) as [|ch s] eqn:E; [discriminate|].
  destruct (int (String ch s)) as [count|] eqn:I; [|discriminate].
  destruct (Z.ltb_spec count 0) as [Hneg|Hpos]; [discriminate|].
  intros Hr; inversion Hr; subst; cbn. auto 10.
Qed.

Lemma records_of_line_spec header line r :
  In r (records_of_line header line) ->
  lower (sa2_name r) = sa2_name r /\ lower (sa2_code r) = sa2_code r /\
  0 <= population r /\ contains "-" (age r) = true /\
  exists col, In col (skipn 2 header) /\ age r = age_label_of col.
Proof.
  unfold records_of_line. intros H. apply In_keep_some in H.
  apply in_map_iff in H as [col [H Hcol]].
  apply age_record_spec in H as [H1 [H2 [H3 [H4 [_ H5]]]]].
  rewrite H1, H2. rewrite !lower_idem. repeat split; auto. eauto.
Qed.

(** X11: what [read_population_file] lets through.  Every record it
    returns has a population that is not negative, an age label that
    contains a dash (the label of some column after the second, lower-
    cased, without ["age "] and with [" and over"] turned into
    ["-None"]), and an SA2 name and code in lower case; columns without
    a dash, empty cells, cells that are not integers and negative counts
    give no record, and a file without a data line gives none at all. *)
Theorem read_population_file_records file :
  Forall (fun r =>
            0 <= population r /\
            contains "-" (age r) = true /\
            lower (sa2_name r) = sa2_name r /\
            lower (sa2_code r) = sa2_code r /\
            exists first col,
              hd_error (nonempty_lines file) = Some first /\
              In col (skipn 2 (map strip (split "," first))) /\
              age r = age_label_of col)
         (read_population_file file) /\
  ((List.length (nonempty_lines file) <= 1)%nat -> read_population_file file = []).
Proof.
  unfold read_population_file.
  destruct (nonempty_lines file) as [|first rest]; [split; [constructor|reflexivity]|].
  split.
  - apply Forall_forall. intros r H. apply in_flat_map in H as [line [_ H]].
    apply records_of_line_spec in H as [H1 [H2 [H3 [H4 [col [Hc Ha]]]]]].
    repeat split; auto. exists first, col. auto.
  - intros H. destruct rest; [reflexivity|cbn in H; lia].
Qed.

Example age_labels :
  map age_label_of ["Age 0-4"; "Age 85 and over"; "Total"; "5-9 "]%string
  = ["0-4"; "85-None"; "total"; "5-9 "]%string.
Proof. reflexivity. Qed.

Lemma normalise_row_spec (row : area_row) :
  (forall v, dget "s_t code" row = Some v ->
             dget "state code" (normalise_row row) = Some v) /\
  (forall v, dget "s_t name" row = Some v ->
             dget "state name" (normalise_row row) = Some v) /\
  (forall k, k <> "state code"%string -> k <> "state name"%string ->
             dget k (normalise_row row) = dget k row).
Proof.
  unfold normalise_row.
  assert (N1 : "state code"%string <> "s_t name"%string) by discriminate.
  assert (N3 : "state name"%string <> "state code"%string) by discriminate.
  destruct (dget "s_t code" row) as [c|] eqn:C.
  - rewrite (dget_dset_other "state code" "s_t name") by exact N1.
    destruct (dget "s_t name" row) as [n|] eqn:N.
    + split; [|split].
      * intros v H; inversion H; subst.
        rewrite dget_dset_other by exact N3. apply dget_dset_same.
      * intros v H; inversion H; subst. apply dget_dset_same.
      * intros k H1 H2. rewrite !dget_dset_other by congruence. reflexivity.
    + split; [|split].
      * intros v H; inversion H; subst. apply dget_dset_same.
      * discriminate.
      * intros k H1 H2. rewrite !dget_dset_other by congruence. reflexivity.
  - destruct (dget "s_t name" row) as [n|] eqn:N.
    + split; [|split].
      * discriminate.
      * intros v H; inversion H; subst. apply dget_dset_same.
      * intros k H1 H2. rewrite !dget_dset_other by congruence. reflexivity.
    + split; [|split]; try discriminate; auto.
Qed.

Lemma area_row_of_spec header line :
  let row := area_row_of header line in
  (forall v, dget "s_t code" row = Some v -> dget "state code" row = Some v) /\
  (forall v, dget "s_t name" row = Some v -> dget "state name" row = Some v) /\
  (forall k, k <> "state code"%string -> k <> "state name"%string ->
             dget k row = last_value k (combine header (map strip (split "," line)))).
Proof.
  cbv zeta. unfold area_row_of.
  set (row0 := dict_of (combine header (map strip (split "," line)))).
  destruct (normalise_row_spec row0) as [H1 [H2 H3]].
  split; [|split].
  - intros v H. apply H1. rewrite <- H3 by discriminate. exact H.
  - intros v H. apply H2. rewrite <- H3 by discriminate. exact H.
  - intros k K1 K2. rewrite H3 by assumption. apply dget_dict_of.
Qed.

(** X12: the rows of [read_area_file].  The file gives one row for each
    non-blank line after the first.  A row maps the lower-cased header
    cells to the stripped cells of its line (the last one, should a
    header cell repeat; columns beyond the shorter of the two are
    dropped), and the value under ["s_t code"] and ["s_t name"], when
    present, is copied under ["state code"] and ["state name"]. *)
Theorem read_area_file_rows file :
  List.length (read_area_file file) = Nat.pred (List.length (nonempty_lines file)) /\
  forall first rest,
    nonempty_lines file = first :: rest ->
    Forall2 (fun line row =>
               (forall v, dget "s_t code" row = Some v ->
                          dget "state code" row = Some v) /\
               (forall v, dget "s_t name" row = Some v ->
                          dget "state name" row = Some v) /\
               (forall k, k <> "state code"%string -> k <> "state name"%string ->
                          dget k row
                          = last_value k (combine (map lower (split "," first))
                                                  (map strip (split "," line)))))
            rest (read_area_file file).
Proof.
  unfold read_area_file. destruct (nonempty_lines file) as [|first rest].
  - split; [reflexivity|discriminate].
  - split; [cbn; now rewrite length_map|].
    intros f r H. injection H as <- <-.
    induction rest as [|line rest IH]; cbn [map]; constructor; [|exact IH].
    apply area_row_of_spec.
Qed.

End Readers.

Module Reconcile.
Import PyStr Project2.

Lemma index_from area :
  forall acc idx,
    foldM index_area area acc = Ok idx ->
    (forall k, In k (dkeys idx) <-> In k (dkeys acc) \/ known area k) /\
    (forall k row, dget k idx = Some row ->
                   dget k acc = Some row \/ (In row area /\ row_of_code row k)).
Proof.
  induction area as [|row0 area IH]; intros acc idx H; cbn [foldM] in H.
  - inversion H; subst. split.
    + intros k. split; [auto|]. intros [H0|[row [[] _]]]; auto.
    + auto.
  - apply bind_Ok in H as [acc' [H1 H2]].
    unfold index_area, dsub in H1.
    destruct (dget "sa2 code" row0) as [c|] eqn:C; [|discriminate].
    cbn [of_option bind] in H1. inversion H1; subst acc'; clear H1.
    destruct (IH _ _ H2) as [K V]. split.
    + intros k. rewrite K, In_dkeys_dset. split.
      * intros [[->|H]|[row [Hin Hr]]]; auto.
        -- right. exists row0. split; [left; reflexivity|]. exists c; auto.
        -- right. exists row. split; [right; exact Hin | exact Hr].
      * intros [H|[row [[<-|Hin] Hr]]]; auto.
        -- destruct Hr as [c' [Hc' <-]]. rewrite C in Hc'. inversion Hc'; auto.
        -- right. exists row. auto.
    + intros k row Hget. destruct (V _ _ Hget) as [H|[Hin Hr]].
      * destruct (String.eqb_spec (lower c) k) as [<-|Hne].
        -- rewrite dget_dset_same in H. inversion H; subst.
           right. split; [left; reflexivity|]. exists c; auto.
        -- rewrite dget_dset_other in H by exact Hne. auto.
      * right. split; [right; exact Hin|exact Hr].
Qed.

Lemma index_spec area idx :
  foldM index_area area [] = Ok idx ->
  (forall k, dget k idx <> None <-> known area k) /\
  (forall k row, dget k idx = Some row -> In row area /\ row_of_code row k).
Proof.
  intros H. destruct (index_from _ _ _ H) as [K V]. split.
  - intros k. split.
    + intros Hn. destruct (dget k idx) eqn:E; [|congruence].
      apply dget_Some_In in E.
      assert (Hin : In k (dkeys idx)) by (apply in_map_iff; exists (k, a); auto).
      apply K in Hin as [[]|Hin]. exact Hin.
    + intros Hkn. assert (Hin : In k (dkeys idx)) by (apply K; right; exact Hkn).
      apply In_dkeys_dget in Hin as [v Hv]. congruence.
  - intros k row Hget. destruct (V _ _ Hget) as [H0|H0]; [discriminate|exact H0].
Qed.

Section Pass.
Variable idx : dict area_row.

Lemma pass_first (pops : list pop_record) :
  forall seen ca cp,
  exists added,
    fold_left (clean_step idx) pops (seen, ca, cp)
    = (rev (map record_key added) ++ seen, ca ++ map (attach idx) added, cp ++ added)
    /\ NoDup (map record_key added)
    /\ (forall r, In r added ->
          dget (sa2_code r) idx <> None /\ ~ In (record_key r) seen /\
          exists before after,
            pops = before ++ r :: after /\
            forall r', In r' before -> record_key r' = record_key r ->
                       dget (sa2_code r') idx = None)
    /\ (forall r, In r pops -> dget (sa2_code r) idx <> None ->
          In (record_key r) seen \/ In (record_key r) (map record_key added)).
Proof.
  induction pops as [|r pops IH]; intros seen ca cp.
  - exists []. simpl. rewrite !app_nil_r. split; [reflexivity|].
    split; [constructor|]. split; intros ? [].
  - cbn [fold_left]. unfold clean_step at 2.
    destruct (dget (sa2_code r) idx) as [row|] eqn:Hrow.
    2:{ destruct (IH seen ca cp) as [added [Hf [Hnd [Hin Hall]]]].
        exists added. split; [exact Hf|]. split; [exact Hnd|]. split.
        - intros r0 Hr0. destruct (Hin r0 Hr0) as [H1 [H2 [before [after [E Hb]]]]].
          split; [exact H1|]. split; [exact H2|].
          exists (r :: before), after. split; [rewrite E; reflexivity|].
          intros r' [<-|Hr'] Hk; [exact Hrow|auto].
        - intros r0 [<-|Hr0] Hk; [congruence|auto]. }
    fold (record_key r).
    destruct (str_in (record_key r) seen) eqn:Hseen.
    { destruct (IH seen ca cp) as [added [Hf [Hnd [Hin Hall]]]].
      apply str_in_In in Hseen.
      exists added. split; [exact Hf|]. split; [exact Hnd|]. split.
      - intros r0 Hr0. destruct (Hin r0 Hr0) as [H1 [H2 [before [after [E Hb]]]]].
        split; [exact H1|]. split; [exact H2|].
        exists (r :: before), after. split; [rewrite E; reflexivity|].
        intros r' [<-|Hr'] Hk; [|auto]. exfalso. apply H2. rewrite <- Hk. exact Hseen.
      - intros r0 [<-|Hr0] Hk; [left; exact Hseen|auto]. }
    destruct (IH (record_key r :: seen)
                 (ca ++ [dset "sa2 name" (sa2_name r) row]) (cp ++ [r]))
      as [added [Hf [Hnd [Hin Hall]]]].
    apply str_in_false in Hseen.
    exists (r :: added). split.
    { rewrite Hf. cbn [map rev]. unfold attach at 2. rewrite Hrow.
      rewrite <- !app_assoc. reflexivity. }
    split.
    { cbn [map]. constructor; [|exact Hnd].
      intros Hk. apply in_map_iff in Hk as [r' [Hk Hr']].
      destruct (Hin r' Hr') as [_ [H2 _]]. apply H2. left. symmetry. exact Hk. }
    split.
    { intros r0 [<-|Hr0].
      - split; [congruence|]. split; [exact Hseen|].
        exists [], pops. split; [reflexivity|]. intros ? [].
      - destruct (Hin r0 Hr0) as [H1 [H2 [before [after [E Hb]]]]].
        split; [exact H1|]. split; [intros H; apply H2; right; exact H|].
        exists (r :: before), after. split; [rewrite E; reflexivity|].
        intros r' [<-|Hr'] Hk; [|auto]. exfalso. apply H2. left. exact Hk. }
    { intros r0 [<-|Hr0] Hk.
      - right. left. reflexivity.
      - destruct (Hall r0 Hr0 Hk) as [[H|H]|H].
        + right. left. exact H.
        + left. exact H.
        + right. right. exact H. }
Qed.

End Pass.

Lemma attach_joined area idx r :
  (forall k row, dget k idx = Some row -> In row area /\ row_of_code row k) ->
  dget (sa2_code r) idx <> None ->
  joined area (attach idx r) r.
Proof.
  intros V Hk. unfold attach.
  destruct (dget (sa2_code r) idx) as [row|] eqn:E; [|congruence].
  destruct (V _ _ E) as [Hin Hr]. split; [apply dget_dset_same|].
  exists row. repeat split; auto.
  intros k Hne. apply dget_dset_other. congruence.
Qed.

Lemma clean_data_spec area pops ca cp :
  clean_data area pops = Ok (ca, cp) ->
  Forall2 (joined area) ca cp /\
  NoDup (map record_key cp) /\
  (forall r, In r cp -> known area (sa2_code r) /\ first_of_key area pops r) /\
  (forall r, In r pops -> known area (sa2_code r) ->
             exists r', In r' cp /\ record_key r' = record_key r).
Proof.
  unfold clean_data. intros H. apply bind_Ok in H as [idx [Hidx H]].
  destruct (index_spec _ _ Hidx) as [K V].
  destruct (pass_first idx pops [] [] []) as [added [Hf [Hnd [Hin Hall]]]].
  rewrite Hf in H. cbn [fst snd app] in H. injection H as <- <-.
  split; [|split; [exact Hnd|split]].
  - assert (Hk : forall r, In r added -> dget (sa2_code r) idx <> None)
      by (intros r Hr; apply (Hin r Hr)).
    clear -V Hk. induction added as [|r added IH]; cbn [map]; constructor.
    + apply attach_joined; auto. apply Hk. left; reflexivity.
    + apply IH. intros r' Hr'. apply Hk. right; exact Hr'.
  - intros r Hr. destruct (Hin r Hr) as [H1 [_ [before [after [E Hb]]]]].
    split; [apply K, H1|]. exists before, after. split; [exact E|].
    intros r' Hr' Hkey Hkn. apply K in Hkn. apply Hkn. auto.
  - intros r Hr Hkn. apply K in Hkn. destruct (Hall r Hr Hkn) as [[]|H].
    apply in_map_iff in H as [r' [Hk Hr']]. eauto.
Qed.

(** X13: what [clean_data] keeps.  When it returns, the two lists pair
    up: each cleaned area row is an area row whose lower-cased SA2 code
    is the code of its record, with the SA2 name replaced by the
    record's.  The kept records have distinct [code + age] keys; each is
    a record of the input with a known code, the first of its key among
    those with a known code; and every input record with a known code
    has its key among the kept ones. *)
Theorem clean_data_reconciles area pops ca cp :
  clean_data area pops = Ok (ca, cp) ->
  Forall2 (joined area) ca cp /\
  List.length ca = List.length cp /\
  NoDup (map record_key cp) /\
  (forall r, In r cp -> known area (sa2_code r) /\ first_of_key area pops r) /\
  (forall r, In r pops -> known area (sa2_code r) ->
             exists r', In r' cp /\ record_key r' = record_key r).
Proof.
  intros H. destruct (clean_data_spec _ _ _ _ H) as [H1 [H2 [H3 H4]]].
  split; [exact H1|]. split; [apply (Forall2_length H1)|].
  split; [exact H2|]. split; [exact H3|exact H4].
Qed.

Lemma clean_data_reconciles_witness :
  exists ca cp,
    clean_data nesting_areas (nesting_pops ++ nesting_pops) = Ok (ca, cp) /\
    cp = nesting_pops /\ List.length ca = 7%nat.
Proof.
  destruct (clean_data nesting_areas (nesting_pops ++ nesting_pops))
    as [[ca cp]|] eqn:E; [|vm_compute in E; discriminate].
  exists ca, cp. split; [reflexivity|].
  destruct (clean_data_reconciles _ _ _ _ E) as [_ [Hlen _]].
  vm_compute in E. injection E as <- <-. split; reflexivity.
Defined.

End Reconcile.

Module Lookup.
Import PyStr Project2 StrFacts.

Lemma lookup_step_spec lookup row lk :
  lookup_step lookup row = Ok lk ->
  exists n info,
    dget "sa2 name" row = Some n /\ described row info /\
    lk = dset (lower n) info lookup.
Proof.
  unfold lookup_step, dsub. intros H. unfold described.
  destruct (dget "sa2 name" row) as [n|]; [|discriminate].
  destruct (dget "state name" row) as [a|]; [|discriminate].
  destruct (dget "sa3 name" row) as [b|]; [|discriminate].
  destruct (dget "state code" row) as [c|]; [|discriminate].
  destruct (dget "sa3 code" row) as [d|]; [|discriminate].
  destruct (dget "sa2 code" row) as [e|]; [|discriminate].
  cbn [of_option bind] in H. inversion H; subst.
  eexists _, _. split; [reflexivity|]. split; [|reflexivity].
  cbn. auto 10.
Qed.

Lemma lookup_step_returns lookup row :
  dget "sa2 name" row <> None -> has_columns row ->
  exists lk, lookup_step lookup row = Ok lk.
Proof.
  unfold lookup_step, dsub, has_columns. intros Hn [H1 [H2 [H3 [H4 H5]]]].
  destruct (dget "sa2 name" row) as [n|]; [|congruence].
  destruct (dget "state name" row) as [a|]; [|congruence].
  destruct (dget "sa3 name" row) as [b|]; [|congruence].
  destruct (dget "state code" row) as [c|]; [|congruence].
  destruct (dget "sa3 code" row) as [d|]; [|congruence].
  destruct (dget "sa2 code" row) as [e|]; [|congruence].
  cbn [of_option bind]. eauto.
Qed.

Lemma lookup_step_raises lookup row e :
  lookup_step lookup row = Raise e -> e = KeyError.
Proof.
  unfold lookup_step, dsub.
  destruct (dget "sa2 name" row) as [n|]; [|intros H; inversion H; reflexivity].
  destruct (dget "state name" row) as [a|]; [|intros H; inversion H; reflexivity].
  destruct (dget "sa3 name" row) as [b|]; [|intros H; inversion H; reflexivity].
  destruct (dget "state code" row) as [c|]; [|intros H; inversion H; reflexivity].
  destruct (dget "sa3 code" row) as [d|]; [|intros H; inversion H; reflexivity].
  destruct (dget "sa2 code" row) as [x|]; [|intros H; inversion H; reflexivity].
  discriminate.
Qed.

Lemma lookup_from rows :
  forall acc lk,
    foldM lookup_step rows acc = Ok lk ->
    (forall k, In k (dkeys lk) <->
               In k (dkeys acc) \/
               exists row n, In row rows /\ dget "sa2 name" row = Some n /\ lower n = k) /\
    (forall k info, dget k lk = Some info ->
                    dget k acc = Some info \/
                    exists row n, In row rows /\ dget "sa2 name" row = Some n /\
                                  lower n = k /\ described row info).
Proof.
  induction rows as [|row rows IH]; intros acc lk H; cbn [foldM] in H.
  - inversion H; subst. split; [|auto].
    intros k; split; [auto|]. intros [H0|[row [n [[] _]]]]; auto.
  - apply bind_Ok in H as [acc' [H1 H2]].
    apply lookup_step_spec in H1 as [n [info [Hn [Hd ->]]]].
    destruct (IH _ _ H2) as [K V]. split.
    + intros k. rewrite K, In_dkeys_dset. split.
      * intros [[->|H]|[row' [n' [Hin Hr]]]]; auto.
        -- right. exists row, n. split; [left; reflexivity|auto].
        -- right. exists row', n'. split; [right; exact Hin|exact Hr].
      * intros [H|[row' [n' [[<-|Hin] [Hr <-]]]]]; auto.
        -- rewrite Hn in Hr. inversion Hr; auto.
        -- right. exists row', n'. auto.
    + intros k info' Hget. destruct (V _ _ Hget) as [H|[row' [n' [Hin Hr]]]].
      * destruct (String.eqb_spec (lower n) k) as [<-|Hne].
        -- rewrite dget_dset_same in H. inversion H; subst.
           right. exists row, n. split; [left; reflexivity|auto].
        -- rewrite dget_dset_other in H by exact Hne. auto.
      * right. exists row', n'. split; [right; exact Hin|exact Hr].
Qed.

Lemma described_lower row info :
  described row info ->
  lower (state_name info) = state_name info /\
  lower (sa3_name info) = sa3_name info /\
  lower (state_code info) = state_code info /\
  lower (sa3_code info) = sa3_code info /\
  lower (area_sa2_code info) = area_sa2_code info.
Proof.
  intros [H1 [H2 [H3 [H4 H5]]]].
  repeat split;
    match goal with
    | H : option_map lower ?x = Some ?y |- lower ?y = ?y =>
        destruct x; inversion H; apply lower_idem
    end.
Qed.

Lemma lookup_returns area pops ca cp :
  (forall row, In row area -> has_columns row) ->
  clean_data area pops = Ok (ca, cp) ->
  exists lk, create_area_lookup ca = Ok lk.
Proof.
  intros Hcols Hc. apply Reconcile.clean_data_spec in Hc as [Hj _].
  unfold create_area_lookup.
  destruct (foldM_Ok (fun _ => True) lookup_step ca) with (a := @nil (string * area_info))
    as [lk [Hlk _]]; [|exact I|eauto].
  intros a row _ Hin.
  destruct (Forall2_In_l _ _ _ _ Hj Hin) as [r [Hr [Hname [row0 [Hin0 [_ Hsame]]]]]].
  destruct (lookup_step_returns a row) as [lk Hlk]; [congruence| |eauto].
  destruct (Hcols row0 Hin0) as [H1 [H2 [H3 [H4 H5]]]].
  repeat split; rewrite Hsame by discriminate; assumption.
Qed.

(** X14: the lookup built from the cleaned rows covers the cleaned
    records.  When [clean_data] and then [create_area_lookup] return,
    the lower-cased SA2 name of every kept record is a key of the
    lookup, so that no output skips a kept record.  Every entry of the
    lookup is that of a kept record of that name: its five strings are
    the lower-cased cells of an area row, and its SA2 code is the code
    of the record.  (Two SA2s with the same name share one entry: the
    later row wins.) *)
Theorem lookup_of_cleaned area pops ca cp lk :
  clean_data area pops = Ok (ca, cp) ->
  create_area_lookup ca = Ok lk ->
  (forall r, In r cp -> dget (lower (sa2_name r)) lk <> None) /\
  (forall k info,
      dget k lk = Some info ->
      exists r row0,
        In r cp /\ lower (sa2_name r) = k /\
        In row0 area /\ described row0 info /\
        area_sa2_code info = sa2_code r /\
        lower (sa2_code r) = sa2_code r).
Proof.
  intros Hc Hl. apply Reconcile.clean_data_spec in Hc as [Hj _].
  apply lookup_from in Hl as [K V]. split.
  - intros r Hr. destruct (Forall2_In_r _ _ _ _ Hj Hr) as [row [Hrow [Hn _]]].
    assert (Hin : In (lower (sa2_name r)) (dkeys lk)).
    { apply K. right. exists row, (sa2_name r). auto. }
    apply In_dkeys_dget in Hin as [v Hv]. congruence.
  - intros k info Hget. destruct (V _ _ Hget) as [H|[row [n [Hin [Hn [Hk Hd]]]]]];
      [discriminate|].
    destruct (Forall2_In_l _ _ _ _ Hj Hin)
      as [r [Hr [Hname [row0 [Hin0 [[c [Hc Hlc]] Hsame]]]]]].
    rewrite Hn in Hname. inversion Hname; subst n.
    exists r, row0.
    split; [exact Hr|]. split; [exact Hk|]. split; [exact Hin0|].
    assert (Hd0 : described row0 info).
    { destruct Hd as [H1 [H2 [H3 [H4 H5]]]].
      repeat split; rewrite <- Hsame by discriminate; assumption. }
    split; [exact Hd0|].
    assert (Hcode : area_sa2_code info = sa2_code r).
    { destruct Hd0 as [_ [_ [_ [_ H5]]]]. rewrite Hc in H5.
      cbn [option_map] in H5. inversion H5. congruence. }
    split; [exact Hcode|].
    rewrite <- Hcode. apply (described_lower _ _ Hd0).
Qed.

Lemma lookup_of_cleaned_witness :
  exists ca cp lk,
    clean_data nesting_areas nesting_pops = Ok (ca, cp) /\
    create_area_lookup ca = Ok lk /\
    dkeys lk = ["p1"; "p2"; "q1"; "q2"; "r1"; "r2"; "t1"]%string /\
    forall r, In r cp -> dget (lower (sa2_name r)) lk <> None.
Proof.
  destruct (clean_data nesting_areas nesting_pops) as [[ca cp]|] eqn:Hc;
    [|vm_compute in Hc; discriminate].
  destruct (create_area_lookup ca) as [lk|] eqn:Hl;
    [|vm_compute in Hc; injection Hc as <- <-; vm_compute in Hl; discriminate].
  exists ca, cp, lk. split; [reflexivity|]. split; [exact Hl|].
  destruct (lookup_of_cleaned _ _ _ _ _ Hc Hl) as [H _].
  split; [|exact H].
  vm_compute in Hc. injection Hc as <- <-. vm_compute in Hl. injection Hl as <-.
  reflexivity.
Defined.

End Lookup.

Module Totals.
Import PyStr Project2.

Lemma level_sum_cons k v d : level_sum ((k, v) :: d) = v + level_sum d.
Proof. unfold level_sum. cbn [dvalues map snd]. apply Zsum_cons. Qed.

Lemma add_pop_sum name pop d :
  level_sum (add_pop name pop d) = level_sum d + pop.
Proof.
  unfold add_pop. induction d as [|[k v] d IH].
  - cbn. unfold level_sum, Zsum. cbn. lia.
  - unfold dget_or in *. cbn [dget dset].
    destruct (String.eqb name k).
    + rewrite !level_sum_cons. lia.
    + rewrite !level_sum_cons, IH. lia.
Qed.

Lemma op1_step_sums lookup results r a :
  let lv' := dget_or no_totals a (op1_step lookup results r) in
  let lv := dget_or no_totals a results in
  let p := if String.eqb (age r) a && dmem (lower (sa2_name r)) lookup
           then population r else 0 in
  level_sum (by_state lv') = level_sum (by_state lv) + p /\
  level_sum (by_sa3 lv') = level_sum (by_sa3 lv) + p /\
  level_sum (by_sa2 lv') = level_sum (by_sa2 lv) + p.
Proof.
  cbv zeta. unfold op1_step, dmem.
  destruct (dget (lower (sa2_name r)) lookup) as [info|].
  2:{ rewrite andb_false_r. repeat split; lia. }
  rewrite andb_true_r.
  destruct (String.eqb_spec (age r) a) as [<-|Hne].
  - rewrite dget_or_dset_same. cbn [by_state by_sa3 by_sa2].
    rewrite !add_pop_sum. repeat split; reflexivity.
  - rewrite dget_or_dset_other by exact Hne. repeat split; lia.
Qed.

Lemma op1_results_sums lookup rows a :
  forall results,
    let lv' := dget_or no_totals a (fold_left (op1_step lookup) rows results) in
    let lv := dget_or no_totals a results in
    level_sum (by_state lv') = level_sum (by_state lv) + counted lookup a rows /\
    level_sum (by_sa3 lv') = level_sum (by_sa3 lv) + counted lookup a rows /\
    level_sum (by_sa2 lv') = level_sum (by_sa2 lv) + counted lookup a rows.
Proof.
  induction rows as [|r rows IH]; intros results; cbv zeta.
  - unfold counted, Zsum. cbn. repeat split; lia.
  - cbn [fold_left].
    destruct (IH (op1_step lookup results r)) as [H1 [H2 H3]].
    destruct (op1_step_sums lookup results r a) as [E1 [E2 E3]].
    rewrite H1, H2, H3, E1, E2, E3.
    unfold counted. cbn [filter].
    destruct (String.eqb (age r) a && dmem (lower (sa2_name r)) lookup);
      cbn [map]; rewrite ?Zsum_cons; repeat split; lia.
Qed.

(** X15: the three levels of [output_OP1] add up to the same population.
    For every age group of the intermediate results, the totals by
    state, the totals by SA3 and the totals by SA2 each sum to the
    population of the records of that age group whose lower-cased SA2
    name is in the lookup: no record is counted at one level and missed
    at another. *)
Theorem op1_levels_add_up pop_rows area_lookup a lv :
  dget a (op1_results pop_rows area_lookup) = Some lv ->
  level_sum (by_state lv) = counted area_lookup a pop_rows /\
  level_sum (by_sa3 lv) = counted area_lookup a pop_rows /\
  level_sum (by_sa2 lv) = counted area_lookup a pop_rows.
Proof.
  intros H. unfold op1_results in H.
  destruct (op1_results_sums area_lookup pop_rows a []) as [H1 [H2 H3]].
  unfold dget_or in H1, H2, H3. rewrite H in H1, H2, H3.
  cbn in H1, H2, H3. repeat split; lia.
Qed.

Lemma op1_levels_add_up_witness :
  exists ca cp lk lv,
    clean_data nesting_areas nesting_pops = Ok (ca, cp) /\
    create_area_lookup ca = Ok lk /\
    dget "0-4" (op1_results cp lk) = Some lv /\
    level_sum (by_state lv) = 35 /\
    level_sum (by_sa3 lv) = 35 /\
    level_sum (by_sa2 lv) = 35.
Proof.
  destruct (clean_data nesting_areas nesting_pops) as [[ca cp]|] eqn:Hc;
    [|vm_compute in Hc; discriminate].
  destruct (create_area_lookup ca) as [lk|] eqn:Hl;
    [|vm_compute in Hc; injection Hc as <- <-; vm_compute in Hl; discriminate].
  destruct (dget "0-4" (op1_results cp lk)) as [lv|] eqn:Hg;
    [|vm_compute in Hc; injection Hc as <- <-; vm_compute in Hl;
      injection Hl as <-; vm_compute in Hg; discriminate].
  exists ca, cp, lk, lv. split; [reflexivity|]. split; [exact Hl|].
  split; [exact Hg|].
  destruct (op1_levels_add_up cp lk "0-4" lv Hg) as [H1 [H2 H3]].
  rewrite H1, H2, H3.
  vm_compute in Hc. injection Hc as <- <-. vm_compute in Hl. injection Hl as <-.
  repeat split; reflexivity.
Defined.

End Totals.

Module OP2.
Import PyStr Project2 MaxSearch.

Lemma In_sa2_totals (group : members) k m :
  In (k, m) (sa2_totals group) <->
  exists ages, In (k, ages) group /\ m = total_population ages.
Proof.
  unfold sa2_totals. rewrite in_map_iff. split.
  - intros [[k' a] [E H]]. cbn in E. inversion E; subst. eauto.
  - intros [a [H ->]]. exists (k, a). auto.
Qed.

Lemma calculate_sample_sd_returns numbers :
  exists sd, calculate_sample_sd numbers = Ok sd.
Proof.
  destruct (Z_lt_le_dec (list_len numbers) 2) as [H|H].
  - rewrite Statistics.calculate_sample_sd_small by exact H. eauto.
  - rewrite Statistics.calculate_sample_sd_large by exact H. eauto.
Qed.

Lemma op2_sa3_spec (group : members) :
  NoDup (dkeys group) ->
  exists r,
    op2_sa3 group = Ok r /\
    (sa3_population group < 150000 -> r = None) /\
    (150000 <= sa3_population group ->
     exists sa2 ages sd,
       r = Some (sa2, total_population ages, sd) /\
       largest_sa2 group sa2 ages /\
       calculate_sample_sd (dvalues ages) = Ok sd).
Proof.
  intros Hnd. unfold op2_sa3.
  destruct (Z.ltb_spec (sa3_population group) 150000) as [Hlt|Hge].
  - exists None. split; [reflexivity|]. split; [auto|lia].
  - assert (Hne : sa2_totals group <> []).
    { destruct group; [cbn in Hge; lia|discriminate]. }
    destruct (winner_smallest_tied _ Hne) as [k [Hw [m [Hin [Hmax Hleast]]]]].
    rewrite Hw. cbn [bind].
    apply In_sa2_totals in Hin as [ages [Hin ->]].
    pose proof (In_dget _ _ _ Hnd Hin) as Hget.
    unfold dsub. rewrite Hget. cbn [of_option bind].
    destruct (calculate_sample_sd_returns (dvalues ages)) as [sd Hsd].
    rewrite Hsd. cbn [bind].
    eexists. split; [reflexivity|]. split; [lia|]. intros _.
    exists k, ages, sd. split; [reflexivity|]. split; [|exact Hsd].
    split; [exact Hget|].
    intros k' ages' Hget'. apply dget_Some_In in Hget'.
    assert (Hin' : In (k', total_population ages') (sa2_totals group))
      by (apply In_sa2_totals; eauto).
    split; [apply (Hmax _ _ Hin')|].
    intros E. apply Hleast. rewrite <- E. exact Hin'.
Qed.

Lemma op2_add_ok lookup structure record :
  structure_ok structure -> structure_ok (op2_add lookup structure record).
Proof.
  intros [Hnd Hin]. unfold op2_add.
  destruct (dget (lower (sa2_name record)) lookup) as [info|]; [|split; assumption].
  split; [apply NoDup_dkeys_dset, Hnd|].
  assert (Hstate : NoDup (dkeys (dget_or [] (state_code info) structure)) /\
                   forall sa3 group,
                     In (sa3, group) (dget_or [] (state_code info) structure) ->
                     NoDup (dkeys group)).
  { apply (dget_or_ind
             (fun s : dict members =>
                NoDup (dkeys s) /\
                forall sa3 group, In (sa3, group) s -> NoDup (dkeys group))).
    - split; [constructor|intros ? ? []].
    - intros v Hv. apply (Hin _ _ Hv). }
  destruct Hstate as [Hs1 Hs2].
  intros state sa3s H. apply In_dset in H as [H|H]; [|apply (Hin _ _ H)].
  injection H as -> ->. split; [apply NoDup_dkeys_dset, Hs1|].
  intros sa3 group H. apply In_dset in H as [H|H]; [|apply (Hs2 _ _ H)].
  injection H as -> ->. apply NoDup_dkeys_dset.
  apply (dget_or_ind (fun g : members => NoDup (dkeys g))).
  - constructor.
  - intros v Hv. apply (Hs2 _ _ Hv).
Qed.

Lemma build_structure_ok pop_rows lookup :
  structure_ok (build_structure pop_rows lookup).
Proof.
  unfold build_structure.
  assert (H0 : structure_ok []) by (split; [constructor|intros ? ? []]).
  revert H0. generalize (@nil (string * dict members)).
  induction pop_rows as [|r rows IH]; intros s Hs; cbn [fold_left]; [exact Hs|].
  apply IH, op2_add_ok, Hs.
Qed.

Lemma op2_state_eq structure op2 state :
  op2_state structure op2 state =
  (v <- (sa3s <- dsub state structure ;; foldM op2_sa3_entry sa3s []) ;;
   Ok (dset state v op2)).
Proof.
  unfold op2_state. destruct (dsub state structure); cbn [bind]; reflexivity.
Qed.

Lemma state_entries (sa3s : dict members) :
  NoDup (dkeys sa3s) ->
  (forall sa3 group, In (sa3, group) sa3s -> NoDup (dkeys group)) ->
  exists inner,
    foldM op2_sa3_entry sa3s [] = Ok inner /\
    forall sa3 t,
      dget sa3 inner = Some t <->
      exists group, dget sa3 sa3s = Some group /\ op2_sa3 group = Ok (Some t).
Proof.
  intros Hnd Hg.
  destruct (foldM_optional op2_sa3 sa3s [] Hnd) as [inner [Hi Hget]].
  { intros k v Hin. destruct (op2_sa3_spec v (Hg _ _ Hin)) as [r [Hr _]]. eauto. }
  exists inner. split; [exact Hi|].
  intros sa3 t. rewrite Hget. destruct (dget sa3 sa3s) as [group|].
  - destruct (op2_sa3 group) as [[t'|]|] eqn:E; cbn [dget].
    + split; [intros H; inversion H; subst; eauto|].
      intros [g [H1 H2]]. inversion H1; subst. congruence.
    + split; [discriminate|]. intros [g [H1 H2]]. inversion H1; subst. congruence.
    + split; [discriminate|]. intros [g [H1 H2]]. inversion H1; subst. congruence.
  - cbn [dget]. split; [discriminate|]. intros [g [H1 _]]. discriminate.
Qed.

Lemma output_OP2_spec pop_rows lookup :
  let structure := build_structure pop_rows lookup in
  exists op2,
    output_OP2 pop_rows lookup = Ok op2 /\
    dkeys op2 = sort_strings (dkeys structure) /\
    forall state,
      In state (dkeys structure) ->
      exists sa3s inner,
        dget state structure = Some sa3s /\
        dget state op2 = Some inner /\
        forall sa3 t,
          dget sa3 inner = Some t <->
          exists group, dget sa3 sa3s = Some group /\ op2_sa3 group = Ok (Some t).
Proof.
  intros structure. unfold output_OP2. fold structure.
  destruct (build_structure_ok pop_rows lookup) as [Hnd Hin]. fold structure in Hnd, Hin.
  set (g := fun state => sa3s <- dsub state structure ;; foldM op2_sa3_entry sa3s []).
  assert (Hg : forall state, In state (dkeys structure) ->
            exists sa3s inner,
              dget state structure = Some sa3s /\ g state = Ok inner /\
              forall sa3 t,
                dget sa3 inner = Some t <->
                exists group, dget sa3 sa3s = Some group /\ op2_sa3 group = Ok (Some t)).
  { intros state Hs. apply In_dkeys_dget in Hs as [sa3s Hs].
    pose proof (dget_Some_In _ _ _ Hs) as Hs'.
    destruct (Hin _ _ Hs') as [H1 H2].
    destruct (state_entries sa3s H1 H2) as [inner [Hi Hget]].
    exists sa3s, inner. split; [exact Hs|]. split; [|exact Hget].
    unfold g, dsub. rewrite Hs. exact Hi. }
  destruct (foldM_keyed g (sort_strings (dkeys structure)) [])
    as [op2 [Ho [Hkeys [Hget _]]]].
  { apply sort_strings_NoDup, Hnd. }
  { intros k _ []. }
  { intros k Hk. apply (proj1 (sort_strings_In _ _)) in Hk.
    destruct (Hg k Hk) as [sa3s [inner [_ [H _]]]]. eauto. }
  exists op2. split.
  { rewrite <- Ho. apply foldM_ext. intros a b. apply op2_state_eq. }
  split; [exact Hkeys|].
  intros state Hs. destruct (Hg state Hs) as [sa3s [inner [H1 [H2 H3]]]].
  exists sa3s, inner. split; [exact H1|]. split; [|exact H3].
  apply Hget; [apply (proj2 (sort_strings_In _ _)), Hs|exact H2].
Qed.

(** X16: the shape of [output_OP2].  It returns when the counts of
    the records convert to a float (they are below 2^1024 - 2^970).
    When it returns, its keys are the state codes of the records whose
    SA2 name is in the lookup, in strictly ascending order; a state is
    present even when none of its SA3s qualifies.  Under a state, an SA3
    code is present exactly when the SA3 belongs to the state and the
    populations of its SA2s, over all SA2s and age groups, add up to
    150,000 or more. *)
Theorem output_OP2_states pop_rows lookup :
  let structure := build_structure pop_rows lookup in
  (records_convert pop_rows ->
   exists op2, output_OP2 pop_rows lookup = Ok op2) /\
  forall op2,
    output_OP2 pop_rows lookup = Ok op2 ->
    dkeys op2 = sort_strings (dkeys structure) /\
    StronglySorted lt_str (dkeys op2) /\
    forall state,
      In state (dkeys structure) ->
      exists sa3s inner,
        dget state structure = Some sa3s /\
        dget state op2 = Some inner /\
        forall sa3,
          dget sa3 inner <> None <->
          exists group, dget sa3 sa3s = Some group /\
                        150000 <= sa3_population group.
Proof.
  intros structure.
  destruct (output_OP2_spec pop_rows lookup) as [op2 [Ho [Hkeys Hst]]].
  fold structure in Hkeys, Hst.
  destruct (build_structure_ok pop_rows lookup) as [Hnd Hin].
  fold structure in Hnd, Hin.
  split; [intros _; exists op2; exact Ho|].
  intros op2' Ho'. rewrite Ho in Ho'. injection Ho' as <-.
  split; [exact Hkeys|]. split.
  { rewrite Hkeys. apply sorted_nodup_strict;
      [apply sort_strings_sorted|apply sort_strings_NoDup, Hnd]. }
  intros state Hs. destruct (Hst state Hs) as [sa3s [inner [H1 [H2 H3]]]].
  exists sa3s, inner. split; [exact H1|]. split; [exact H2|].
  destruct (Hin _ _ (dget_Some_In _ _ _ H1)) as [_ Hgroups].
  intros sa3. split.
  - intros Hne. destruct (dget sa3 inner) as [t|] eqn:E; [|congruence].
    apply H3 in E as [group [Hg Hop]]. exists group. split; [exact Hg|].
    destruct (op2_sa3_spec group (Hgroups _ _ (dget_Some_In _ _ _ Hg)))
      as [r [Hr [Hlow _]]].
    destruct (Z_lt_le_dec (sa3_population group) 150000) as [Hlt|Hge]; [|exact Hge].
    rewrite (Hlow Hlt) in Hr. congruence.
  - intros [group [Hg Hge]].
    destruct (op2_sa3_spec group (Hgroups _ _ (dget_Some_In _ _ _ Hg)))
      as [r [Hr [_ Hbig]]].
    destruct (Hbig Hge) as [sa2 [ages [sd [-> _]]]].
    assert (E : dget sa3 inner = Some (sa2, total_population ages, sd))
      by (apply H3; eauto).
    congruence.
Qed.


End OP2.

Module Cosine.
Import PyStr Project2 Similarity Bounds.

Lemma dot_raises (list1 list2 : list R) (n : nat) :
  forall start acc,
    (start + n <= List.length list1)%nat ->
    (start <= List.length list2 < start + n)%nat ->
    foldM (fun dot i => a <- item list1 i ;; b <- item list2 i ;;
                        Ok (dot + a * b)%R)
          (seq start n) acc = Raise IndexError.
Proof.
  induction n as [|n IH]; intros start acc H1 H2; [lia|].
  cbn [seq foldM]. unfold item at 1 2.
  destruct (nth_error list1 start) as [a|] eqn:E1;
    [|apply nth_error_None in E1; lia].
  cbn [of_option bind].
  destruct (nth_error list2 start) as [b|] eqn:E2.
  - cbn [of_option bind]. apply IH; [lia|].
    assert (start < List.length list2)%nat
      by (apply nth_error_Some; congruence). lia.
  - reflexivity.
Qed.

Lemma dot_value (s1 : list R) :
  forall s2 p1 p2 acc,
    List.length p1 = List.length p2 ->
    (List.length s1 <= List.length s2)%nat ->
    foldM (fun dot i => a <- item (p1 ++ s1) i ;; b <- item (p2 ++ s2) i ;;
                        Ok (dot + a * b)%R)
          (seq (List.length p1) (List.length s1)) acc
    = Ok (acc + dot_product s1 s2)%R.
Proof.
  induction s1 as [|x s1 IH]; intros s2 p1 p2 acc Hp Hs.
  - cbn. f_equal. unfold dot_product. cbn. lra.
  - destruct s2 as [|y s2]; [cbn in Hs; lia|].
    cbn [List.length seq foldM]. unfold item at 1 2.
    assert (E1 : nth_error (p1 ++ x :: s1) (List.length p1) = Some x)
      by (rewrite nth_error_app2, Nat.sub_diag by lia; reflexivity).
    assert (E2 : nth_error (p2 ++ y :: s2) (List.length p1) = Some y)
      by (rewrite Hp, nth_error_app2, Nat.sub_diag by lia; reflexivity).
    rewrite E1, E2. cbn [of_option bind].
    replace (p1 ++ x :: s1) with ((p1 ++ [x]) ++ s1) by (now rewrite <- app_assoc).
    replace (p2 ++ y :: s2) with ((p2 ++ [y]) ++ s2) by (now rewrite <- app_assoc).
    replace (S (List.length p1)) with (List.length (p1 ++ [x]))
      by (rewrite length_app; cbn; lia).
    rewrite IH.
    + f_equal. unfold dot_product. cbn. lra.
    + rewrite !length_app. cbn. lia.
    + cbn in Hs. lia.
Qed.

Lemma squares_value (l : list R) :
  forall acc, fold_left (fun s x => (s + x * x)%R) l acc = (acc + sum_squares l)%R.
Proof.
  induction l as [|x l IH]; intros acc; cbn [fold_left].
  - unfold sum_squares. cbn. lra.
  - rewrite IH. unfold sum_squares. cbn. lra.
Qed.

Lemma sum_squares_cons x l : sum_squares (x :: l) = (x * x + sum_squares l)%R.
Proof. reflexivity. Qed.

Lemma sum_squares_nonneg (l : list R) : (0 <= sum_squares l)%R.
Proof.
  induction l as [|x l IH]; [unfold sum_squares; cbn; lra|].
  rewrite sum_squares_cons.
  pose proof (Rle_0_sqr x) as H. unfold Rsqr in H. lra.
Qed.

Lemma sum_squares_zero (l : list R) :
  sum_squares l = 0%R <-> forall x, In x l -> x = 0%R.
Proof.
  induction l as [|x l IH].
  - split; [intros _ ? []|reflexivity].
  - pose proof (sum_squares_nonneg l) as Hl.
    pose proof (Rle_0_sqr x) as Hx. unfold Rsqr in Hx.
    rewrite sum_squares_cons.
    split.
    + intros H y [<-|Hy].
      * assert (E : (x * x = 0)%R) by lra.
        apply Rmult_integral in E. tauto.
      * apply IH; [lra|exact Hy].
    + intros H. rewrite (H x (or_introl eq_refl)).
      assert (E : sum_squares l = 0%R) by (apply IH; intros y Hy; apply H; right; exact Hy).
      rewrite E. lra.
Qed.

Lemma dot_product_sym (l1 : list R) :
  forall l2, dot_product l1 l2 = dot_product l2 l1.
Proof.
  induction l1 as [|x l1 IH]; intros [|y l2]; try reflexivity.
  unfold dot_product in *. cbn. rewrite IH. lra.
Qed.

Lemma dot_product_self (l : list R) : dot_product l l = sum_squares l.
Proof.
  induction l as [|x l IH]; [reflexivity|].
  unfold dot_product, sum_squares in *. cbn. rewrite IH. reflexivity.
Qed.

Lemma cosine_similarity_eq (list1 list2 : list R) :
  (List.length list1 <= List.length list2)%nat ->
  cosine_similarity list1 list2 =
  if Reqb (sum_squares list1) 0 || Reqb (sum_squares list2) 0 then Ok 0%R
  else Ok (round4 (dot_product list1 list2
                   / (sqrt (sum_squares list1) * sqrt (sum_squares list2)))).
Proof.
  intros Hlen. unfold cosine_similarity.
  pose proof (dot_value list1 list2 [] [] 0%R eq_refl Hlen) as Hdot.
  cbn [app List.length] in Hdot. rewrite Hdot. cbn [bind].
  rewrite !squares_value, !Rplus_0_l.
  assert (Hz : forall l, Reqb (sqrt (sum_squares l)) 0 = Reqb (sum_squares l) 0).
  { intros l. destruct (Reqb (sum_squares l) 0) eqn:E.
    - apply Reqb_true_iff in E. rewrite E, sqrt_0. now apply Reqb_true_iff.
    - apply Reqb_false_iff in E. apply Reqb_false_iff. intros H.
      apply sqrt_eq_0 in H; [auto|apply sum_squares_nonneg]. }
  rewrite !Hz.
  destruct (Reqb (sum_squares list1) 0) eqn:E1; [reflexivity|].
  destruct (Reqb (sum_squares list2) 0) eqn:E2; [reflexivity|].
  cbn [orb]. unfold truediv.
  assert (E : Reqb (sqrt (sum_squares list1) * sqrt (sum_squares list2)) 0 = false).
  { apply Reqb_false_iff. intros H. apply Rmult_integral in H.
    rewrite <- !Hz in *. apply Reqb_false_iff in E1, E2. tauto. }
  rewrite E. cbn [bind]. reflexivity.
Qed.

Lemma cosine_similarity_short (list1 list2 : list R) :
  (List.length list2 < List.length list1)%nat ->
  cosine_similarity list1 list2 = Raise IndexError.
Proof.
  intros H. unfold cosine_similarity.
  rewrite (dot_raises list1 list2 (List.length list1) 0 0%R) by lia.
  reflexivity.
Qed.


(** X19: [cosine_similarity] of a vector with itself, and symmetry.  The
    similarity of a vector with itself is 0.0 when all its entries are
    zero, and 1.0 when some entry is not zero and every entry is zero or
    from 10^-100 to 10^100 in absolute value (no square overflows or
    underflows); on two lists of the same length the similarity does not
    depend on the order of the arguments. *)
Theorem cosine_similarity_self_and_symmetric :
  (forall v, (forall x, In x v -> x = 0%R) -> cosine_similarity v v = Ok 0%R) /\
  (forall v x, (forall y, In y v -> moderate y) -> In x v -> x <> 0%R ->
               cosine_similarity v v = Ok 1%R) /\
  (forall list1 list2,
      List.length list1 = List.length list2 ->
      cosine_similarity list1 list2 = cosine_similarity list2 list1).
Proof.
  assert (Hself : forall v, cosine_similarity v v =
                            if Reqb (sum_squares v) 0 then Ok 0%R else Ok 1%R).
  { intros v. rewrite cosine_similarity_eq by lia. rewrite orb_diag.
    destruct (Reqb (sum_squares v) 0) eqn:E; [reflexivity|].
    apply Reqb_false_iff in E. rewrite dot_product_self.
    rewrite sqrt_sqrt by apply sum_squares_nonneg.
    replace (sum_squares v / sum_squares v)%R with 1%R by (field; exact E).
    now rewrite round4_1. }
  split; [|split].
  - intros v Hz. rewrite Hself.
    apply (proj2 (sum_squares_zero v)) in Hz. apply Reqb_true_iff in Hz.
    now rewrite Hz.
  - intros v x _ Hin Hx. rewrite Hself.
    destruct (Reqb (sum_squares v) 0) eqn:E; [|reflexivity].
    apply Reqb_true_iff in E. exfalso. apply Hx.
    apply (proj1 (sum_squares_zero v) E x Hin).
  - intros list1 list2 H. rewrite !cosine_similarity_eq by lia.
    rewrite orb_comm, dot_product_sym.
    rewrite (Rmult_comm (sqrt (sum_squares list1))). reflexivity.
Qed.

Lemma dot_is_sxy (l1 : list R) : forall l2, dot_product l1 l2 = sxy (combine l1 l2).
Proof. reflexivity. Qed.

Lemma sxx_combine (l1 : list R) :
  forall l2, (sxx (combine l1 l2) <= sum_squares l1)%R.
Proof.
  induction l1 as [|x l1 IH]; intros [|y l2]; cbn [combine].
  - cbn; lra.
  - cbn; lra.
  - apply sum_squares_nonneg.
  - rewrite sxx_cons, sum_squares_cons. specialize (IH l2). lra.
Qed.

Lemma syy_combine (l1 : list R) :
  forall l2, (syy (combine l1 l2) <= sum_squares l2)%R.
Proof.
  induction l1 as [|x l1 IH]; intros [|y l2]; cbn [combine].
  - cbn; lra.
  - apply sum_squares_nonneg.
  - cbn; lra.
  - rewrite syy_cons, sum_squares_cons. specialize (IH l2). lra.
Qed.

Lemma dot_bound (l1 l2 : list R) :
  (dot_product l1 l2 * dot_product l1 l2 <= sum_squares l1 * sum_squares l2)%R.
Proof.
  rewrite dot_is_sxy.
  pose proof (cauchy_schwarz (combine l1 l2)).
  pose proof (sxx_combine l1 l2). pose proof (syy_combine l1 l2).
  pose proof (sxx_nonneg (combine l1 l2)). pose proof (syy_nonneg (combine l1 l2)).
  nra.
Qed.

Lemma dot_nonneg (l1 : list R) :
  forall l2, (forall x, In x l1 -> (0 <= x)%R) -> (forall y, In y l2 -> (0 <= y)%R) ->
             (0 <= dot_product l1 l2)%R.
Proof.
  induction l1 as [|x l1 IH]; intros [|y l2] H1 H2;
    try (unfold dot_product; cbn; lra).
  assert (0 <= x)%R by (apply H1; left; reflexivity).
  assert (0 <= y)%R by (apply H2; left; reflexivity).
  assert (0 <= dot_product l1 l2)%R
    by (apply IH; intros; [apply H1|apply H2]; right; assumption).
  change (dot_product (x :: l1) (y :: l2)) with (x * y + dot_product l1 l2)%R.
  assert (0 <= x * y)%R by (apply Rmult_le_pos; assumption). lra.
Qed.

Lemma cosine_similarity_bounds (list1 list2 : list R) (s : R) :
  cosine_similarity list1 list2 = Ok s ->
  (-1 <= s <= 1)%R /\
  ((forall x, In x list1 -> (0 <= x)%R) -> (forall y, In y list2 -> (0 <= y)%R) ->
   (0 <= s)%R).
Proof.
  intros H.
  destruct (le_lt_dec (List.length list1) (List.length list2)) as [Hlen|Hlen].
  2:{ rewrite cosine_similarity_short in H by exact Hlen. discriminate. }
  rewrite cosine_similarity_eq in H by exact Hlen.
  destruct (Reqb (sum_squares list1) 0) eqn:E1; cbn [orb] in H.
  { inversion H; subst. split; [lra|intros; lra]. }
  destruct (Reqb (sum_squares list2) 0) eqn:E2; cbn [orb] in H.
  { inversion H; subst. split; [lra|intros; lra]. }
  inversion H; subst s; clear H.
  apply Reqb_false_iff in E1, E2.
  pose proof (sum_squares_nonneg list1) as P1.
  pose proof (sum_squares_nonneg list2) as P2.
  assert (Hn : (sqrt (sum_squares list1) * sqrt (sum_squares list2) <> 0)%R).
  { intros E. apply Rmult_integral in E as [E|E]; apply sqrt_eq_0 in E; auto. }
  split.
  - apply round4_unit, ratio_unit; auto. apply dot_bound.
  - intros N1 N2. apply round4_nonneg.
    pose proof (dot_nonneg list1 list2 N1 N2) as D.
    pose proof (sqrt_pos (sum_squares list1)). pose proof (sqrt_pos (sum_squares list2)).
    set (q := (sqrt (sum_squares list1) * sqrt (sum_squares list2))%R) in *.
    assert (Hq : (0 < q)%R) by (unfold q in *; nra).
    assert (E : (dot_product list1 list2 / q * q = dot_product list1 list2)%R)
      by (field; exact Hn).
    apply Rmult_le_reg_r with q; [exact Hq|]. rewrite E. lra.
Qed.

(** X20: the range of [cosine_similarity].  On two vectors whose
    entries are zero or from 10^-100 to 10^100 in absolute value, a
    similarity that the function returns lies between -1 and 1, and
    between 0 and 1 when no entry of either vector is negative. *)
Theorem cosine_similarity_range (list1 list2 : list R) (s : R) :
  (forall x, In x list1 -> moderate x) ->
  (forall y, In y list2 -> moderate y) ->
  cosine_similarity list1 list2 = Ok s ->
  (-1 <= s <= 1)%R /\
  ((forall x, In x list1 -> (0 <= x)%R) -> (forall y, In y list2 -> (0 <= y)%R) ->
   (0 <= s <= 1)%R).
Proof.
  intros _ _ H. destruct (cosine_similarity_bounds _ _ _ H) as [B1 B2].
  split; [exact B1|]. intros N1 N2. split; [apply B2; assumption|apply B1].
Qed.

Lemma moderate_0 : moderate 0.
Proof. left. reflexivity. Qed.

Lemma moderate_1 : moderate 1.
Proof.
  right. rewrite Rabs_R1.
  assert (H : (1 <= 10 ^ 100)%R) by (apply pow_R1_Rle; lra).
  split; [|exact H].
  apply Rle_trans with (/ 1)%R; [|rewrite Rinv_1; lra].
  apply Rinv_le_contravar; [lra|exact H].
Qed.

Lemma cosine_similarity_range_witness :
  exists s, cosine_similarity [1; 0]%R [1; 1]%R = Ok s /\ (0 <= s <= 1)%R.
Proof.
  destruct (cosine_similarity_returns [1; 0]%R [1; 1]%R eq_refl) as [s Hs].
  exists s. split; [exact Hs|].
  assert (M1 : forall x, In x [1; 0]%R -> moderate x)
    by (intros x [<-|[<-|[]]]; [apply moderate_1|apply moderate_0]).
  assert (M2 : forall x, In x [1; 1]%R -> moderate x)
    by (intros x [<-|[<-|[]]]; apply moderate_1).
  apply (proj2 (cosine_similarity_range _ _ _ M1 M2 Hs)).
  - intros x [<-|[<-|[]]]; lra.
  - intros x [<-|[<-|[]]]; lra.
Defined.

End Cosine.

Module Ranking.
Import PyStr Project2 Statistics Similarity Pairs BestPair OP3.

Lemma key_lt_irrefl (k : sort_key) : key_lt k k = false.
Proof.
  destruct k as [[n a] b]. unfold key_lt.
  rewrite Z.ltb_irrefl, Z.eqb_refl, ltb_irrefl, String.eqb_refl. apply ltb_irrefl.
Qed.

Lemma key_lt_trans (k1 k2 k3 : sort_key) :
  key_lt k1 k2 = true -> key_lt k2 k3 = true -> key_lt k1 k3 = true.
Proof.
  destruct k1 as [[n1 a1] b1], k2 as [[n2 a2] b2], k3 as [[n3 a3] b3].
  unfold key_lt.
  destruct (Z.ltb_spec n1 n2), (Z.ltb_spec n2 n3), (Z.ltb_spec n1 n3); try lia; auto;
    destruct (Z.eqb_spec n1 n2), (Z.eqb_spec n2 n3), (Z.eqb_spec n1 n3);
    try lia; try discriminate; auto.
  destruct (String.ltb a1 a2) eqn:L12.
  - intros _. destruct (String.ltb a2 a3) eqn:L23.
    + intros _. now rewrite (ltb_trans _ _ _ L12 L23).
    + destruct (String.eqb_spec a2 a3) as [->|]; [|discriminate].
      intros _. now rewrite L12.
  - destruct (String.eqb_spec a1 a2) as [->|]; [|discriminate].
    intros H12. destruct (String.ltb a2 a3) eqn:L23; [auto|].
    destruct (String.eqb_spec a2 a3) as [->|]; [|discriminate].
    intros H23. apply (ltb_trans _ _ _ H12 H23).
Qed.

Lemma ltb_total (a b : string) :
  String.ltb a b = false -> a = b \/ String.ltb b a = true.
Proof.
  intros H. destruct (string_dec a b) as [->|Hne]; [auto|].
  right. apply leb_neq_ltb; [apply MaxSearch.ltb_false_leb, H|congruence].
Qed.

Lemma key_lt_total (k1 k2 : sort_key) :
  key_lt k1 k2 = false -> k1 = k2 \/ key_lt k2 k1 = true.
Proof.
  destruct k1 as [[n1 a1] b1], k2 as [[n2 a2] b2]. unfold key_lt.
  destruct (Z.ltb_spec n1 n2); [discriminate|].
  destruct (Z.ltb_spec n2 n1); [auto|].
  destruct (Z.eqb_spec n1 n2); [|lia]. subst n2. rewrite Z.eqb_refl.
  destruct (String.ltb a1 a2) eqn:L; [discriminate|].
  destruct (ltb_total _ _ L) as [->|L']; [|rewrite L'; auto].
  rewrite String.eqb_refl, ltb_irrefl. intros M.
  destruct (ltb_total _ _ M) as [->|M']; auto.
Qed.

Lemma max_similarity_upper_from (ps : list scored_pair) :
  forall m0 m,
    fold_left (fun m p =>
                 match m with
                 | None => Some (score p)
                 | Some x => if Rltb x (score p) then Some (score p) else m
                 end) ps (Some m0) = Some m ->
    (m0 <= m)%R /\ forall p, In p ps -> (score p <= m)%R.
Proof.
  induction ps as [|p ps IH]; intros m0 m H; cbn [fold_left] in H.
  - inversion H; subst. split; [lra|intros ? []].
  - destruct (Rltb m0 (score p)) eqn:E.
    + apply Rltb_true_iff in E. destruct (IH _ _ H) as [H1 H2].
      split; [lra|]. intros q [<-|Hq]; [exact H1|auto].
    + apply Rltb_false_iff in E. destruct (IH _ _ H) as [H1 H2].
      split; [exact H1|]. intros q [<-|Hq]; [lra|auto].
Qed.

Lemma max_similarity_upper (ps : list scored_pair) (m : R) :
  max_similarity ps = Some m -> forall p, In p ps -> (score p <= m)%R.
Proof.
  unfold max_similarity. destruct ps as [|p0 ps]; [discriminate|].
  cbn [fold_left]. intros H. destruct (max_similarity_upper_from _ _ _ H) as [H1 H2].
  intros p [<-|Hp]; auto.
Qed.

Lemma top_pairs_spec (ps : list scored_pair) (p : scored_pair) :
  In p (top_pairs_of ps) <->
  In p ps /\ forall q, In q ps -> (score q <= score p)%R.
Proof.
  unfold top_pairs_of. destruct (max_similarity ps) as [m|] eqn:Hm.
  - rewrite filter_In, Reqb_true_iff. split.
    + intros [Hin ->]. split; [exact Hin|]. apply max_similarity_upper, Hm.
    + intros [Hin Hmax]. split; [exact Hin|].
      destruct (max_similarity_attained ps) as [m' [q [Hm' [Hq Hs]]]].
      { intros ->. destruct Hin. }
      rewrite Hm in Hm'. inversion Hm'; subst m'.
      pose proof (Hmax q Hq). pose proof (max_similarity_upper _ _ Hm p Hin). lra.
  - split; [intros []|]. intros [Hin _].
    destruct (max_similarity_attained ps) as [m' [q [Hm' _]]]; [|congruence].
    intros ->. destruct Hin.
Qed.

Lemma best_step_min (group : members) (rest : list scored_pair) :
  forall best b,
    pair_sort_key group (fst best) = Ok (snd best) ->
    foldM (best_step group) rest best = Ok b ->
    pair_sort_key group (fst b) = Ok (snd b) /\
    key_lt (snd best) (snd b) = false /\
    forall q k, In q rest -> pair_sort_key group q = Ok k -> key_lt k (snd b) = false.
Proof.
  induction rest as [|p rest IH]; intros best b Hbest H; cbn [foldM] in H.
  - inversion H; subst. split; [exact Hbest|]. split; [apply key_lt_irrefl|intros ? ? []].
  - apply bind_Ok in H as [best' [Hs H]].
    unfold best_step in Hs. apply bind_Ok in Hs as [key [Hkey Hs]].
    destruct (key_lt key (snd best)) eqn:E; inversion Hs; subst best'; clear Hs.
    + destruct (IH (p, key) b Hkey H) as [H1 [H2 H3]]. cbn [fst snd] in *.
      split; [exact H1|]. split.
      * destruct (key_lt (snd best) (snd b)) eqn:E'; [|reflexivity].
        rewrite (key_lt_trans _ _ _ E E') in H2. discriminate.
      * intros q k [<-|Hq] Hk; [|eauto]. congruence.
    + destruct (IH _ _ Hbest H) as [H1 [H2 H3]].
      split; [exact H1|]. split; [exact H2|].
      intros q k [<-|Hq] Hk; [|eauto].
      rewrite Hkey in Hk. inversion Hk; subst k.
      destruct (key_lt key (snd b)) eqn:E'; [|reflexivity].
      destruct (key_lt_total _ _ E) as [->|E2]; [congruence|].
      rewrite (key_lt_trans _ _ _ E2 E') in H2. discriminate.
Qed.

Lemma top_pair_of_min (group : members) (tps : list scored_pair) (p : scored_pair) :
  top_pair_of group tps = Ok p ->
  In p tps /\
  exists k, pair_sort_key group p = Ok k /\
            forall q kq, In q tps -> pair_sort_key group q = Ok kq ->
                         key_lt kq k = false.
Proof.
  unfold top_pair_of. destruct tps as [|p0 rest]; [discriminate|].
  intros H. apply bind_Ok in H as [k0 [Hk0 H]].
  apply bind_Ok in H as [b [Hb H]]. inversion H; subst p; clear H.
  destruct (best_step_min group rest (p0, k0) b Hk0 Hb) as [H1 [H2 H3]].
  split.
  - assert (G : forall best, foldM (best_step group) rest best = Ok b ->
                             fst b = fst best \/ In (fst b) rest).
    { clear. induction rest as [|q rest IH]; intros best Hf; cbn [foldM] in Hf.
      - inversion Hf; auto.
      - apply bind_Ok in Hf as [best' [Hs Hf]].
        unfold best_step in Hs. apply bind_Ok in Hs as [key [_ Hs]].
        destruct (IH _ Hf) as [E|E]; [|right; right; exact E].
        destruct (key_lt key (snd best)); inversion Hs; subst best'; cbn in E; auto.
        right. left. auto. }
    destruct (G _ Hb) as [E|E]; [left; symmetry; exact E|right; exact E].
  - exists (snd b). split; [exact H1|].
    intros q kq [<-|Hq] Hk; [|eauto].
    cbn [fst snd] in *. rewrite Hk0 in Hk. inversion Hk; subst. exact H2.
Qed.

Lemma scored_pair_score (group : members) (a b : string) (s : R) :
  group_ok group -> scored group a b s ->
  pair_score group a b = Ok (Some (a, b, s)).
Proof.
  intros Hok [ages_a [ages_b [Ha [Hb [Za [Zb Hc]]]]]].
  rewrite (pair_score_eq group a b ages_a ages_b Hok Ha Hb).
  apply Z.eqb_neq in Za, Zb. rewrite Za, Zb. cbn [orb].
  rewrite Hc. reflexivity.
Qed.

Lemma pair_sort_key_sorted (group : members) (a b : string) (s : R) (k : sort_key) :
  lt_str a b ->
  pair_sort_key group (a, b, s) = Ok k ->
  k = (- pair_population group a b, a, b).
Proof.
  intros Hlt. unfold pair_sort_key, dsub. cbn [fst snd]. rewrite Hlt.
  destruct (dget a group) as [da|] eqn:Ea; [|discriminate].
  destruct (dget b group) as [db|] eqn:Eb; [|discriminate].
  cbn [of_option bind]. intros H; inversion H.
  unfold pair_population.
  rewrite (dget_or_Some [] a da group Ea), (dget_or_Some [] b db group Eb).
  reflexivity.
Qed.

Lemma op3_group_best (group : members) (a b : string) (s : R) :
  group_ok group ->
  op3_group group = Ok (Some (a, b, s)) ->
  forall a' b' s',
    lt_str a' b' -> scored group a' b' s' ->
    (s' <= s)%R /\
    (s' = s ->
     pair_population group a' b' <= pair_population group a b /\
     (pair_population group a' b' = pair_population group a b ->
      le_str a a' /\ (a = a' -> le_str b b'))).
Proof.
  intros Hok H a' b' s' Hlt' Hsc'.
  unfold op3_group in H.
  destruct (list_len group <? 15); [discriminate|].
  destruct Hok as [Hnd Hages]. assert (Hok : group_ok group) by (split; assumption).
  assert (Hsorted : StronglySorted lt_str (sort_strings (dkeys group)))
    by (apply sorted_nodup_strict;
        [apply sort_strings_sorted | apply sort_strings_NoDup, Hnd]).
  destruct (all_pairs_spec group (sort_strings (dkeys group)) Hok) as [ps [Hps Pspec]];
    [intros x Hx; apply (proj1 (sort_strings_In x _)), Hx | exact Hsorted|].
  rewrite Hps in H. cbn [bind] in H.
  assert (Hpair : forall p, In p ps ->
            exists x y t, p = (x, y, t) /\ lt_str x y /\ scored group x y t).
  { intros p Hp. apply Pspec in Hp as [x [y [Hx [Hy [Hlt Hsc]]]]].
    apply (proj1 (sort_strings_In _ _)) in Hx.
    apply (proj1 (sort_strings_In _ _)) in Hy.
    destruct (pair_score_scored _ _ _ _ Hok Hx Hy Hsc) as [t [-> Ht]].
    exists x, y, t. auto. }
  assert (Hin' : In (a', b', s') ps).
  { apply Pspec. destruct Hsc' as [ages_a [ages_b [Ha [Hb Hrest]]]].
    exists a', b'.
    split; [apply (proj2 (sort_strings_In _ _)), (proj1 (dmem_true _ _));
            unfold dmem; rewrite Ha; reflexivity|].
    split; [apply (proj2 (sort_strings_In _ _)), (proj1 (dmem_true _ _));
            unfold dmem; rewrite Hb; reflexivity|].
    split; [exact Hlt'|].
    apply scored_pair_score; [exact Hok|].
    exists ages_a, ages_b. tauto. }
  destruct ps as [|p0 ps']; [destruct Hin'|].
  set (ps := p0 :: ps') in *.
  apply bind_Ok in H as [p [Htop H]].
  apply top_pair_of_min in Htop as [Hp [k [Hk Hmin]]].
  pose proof (proj1 (top_pairs_spec ps p) Hp) as [Hpin Hmax].
  destruct (Hpair p Hpin) as [x [y [t [-> [Hlt Hsc]]]]].
  rewrite (ordered_sorted x y t Hlt) in H. inversion H; subst x y t; clear H.
  pose proof (Hmax _ Hin') as Hle. unfold score in Hle. cbn [snd] in Hle.
  split; [exact Hle|]. intros ->.
  assert (Htop' : In (a', b', s) (top_pairs_of ps)).
  { apply top_pairs_spec. split; [exact Hin'|]. intros q Hq.
    apply (Hmax q Hq). }
  destruct (pair_sort_key_returns group (a', b', s)) as [k' Hk'].
  { destruct Hsc' as [ages_a [ages_b [Ha [Hb _]]]]. split; cbn [fst snd];
      apply dmem_true; unfold dmem; [rewrite Ha|rewrite Hb]; reflexivity. }
  pose proof (Hmin _ _ Htop' Hk') as Hnot.
  apply pair_sort_key_sorted in Hk; [|exact Hlt].
  apply pair_sort_key_sorted in Hk'; [|exact Hlt'].
  subst k k'. unfold key_lt in Hnot.
  destruct (Z.ltb_spec (- pair_population group a' b') (- pair_population group a b));
    [discriminate|].
  split; [lia|]. intros E. rewrite E, Z.eqb_refl in Hnot.
  destruct (String.ltb a' a) eqn:L; [discriminate|].
  split; [apply MaxSearch.ltb_false_leb, L|].
  intros ->. rewrite String.eqb_refl in Hnot.
  apply MaxSearch.ltb_false_leb, Hnot.
Qed.

(** X21: [output_OP3] returns its entries in alphabetical order.  It
    always returns, and the keys of the dict it returns are distinct SA3
    names in strictly ascending order; the entry of a name is the one
    computed for the SA2s grouped under that name. *)
Theorem output_OP3_sorted pop_rows lookup :
  exists out,
    output_OP3 pop_rows lookup = Ok out /\
    StronglySorted lt_str (dkeys out) /\
    forall sa3 t,
      dget sa3 out = Some t <->
      exists group,
        dget sa3 (build_sa3_to_sa2 pop_rows lookup) = Some group /\
        op3_group group = Ok (Some t).
Proof.
  unfold output_OP3, op3_results.
  destruct (build_well_built pop_rows lookup) as [Hnd Hgroups].
  destruct (op3_results_from (build_sa3_to_sa2 pop_rows lookup) [] Hnd Hgroups)
    as [results [Hr [Hrnd Hspec]]]; [constructor|intros; reflexivity|].
  rewrite Hr. cbn [bind]. unfold sorted_output.
  destruct (foldM_keyed (fun name => dsub name results)
                        (sort_strings (dkeys results)) [])
    as [out [Ho [Hkeys [Hget Hnot]]]].
  { apply sort_strings_NoDup, Hrnd. }
  { intros k _ []. }
  { intros k Hk. apply (proj1 (sort_strings_In _ _)) in Hk.
    apply In_dkeys_dget in Hk as [v Hv]. exists v. unfold dsub. now rewrite Hv. }
  exists out. split; [exact Ho|]. split.
  - rewrite Hkeys. cbn [dkeys map app].
    apply sorted_nodup_strict; [apply sort_strings_sorted|apply sort_strings_NoDup, Hrnd].
  - intros sa3 t.
    assert (E : dget sa3 out = Some t <-> dget sa3 results = Some t).
    { destruct (in_dec string_dec sa3 (sort_strings (dkeys results))) as [Hin|Hout].
      - rewrite (Hget sa3 t Hin). unfold dsub.
        destruct (dget sa3 results); cbn [of_option];
          split; intros E; inversion E; reflexivity.
      - rewrite (Hnot sa3 Hout). cbn [dget].
        split; [discriminate|]. intros E. exfalso. apply Hout.
        apply (proj2 (sort_strings_In _ _)), dmem_true. unfold dmem. now rewrite E. }
    rewrite E, Hspec. split.
    + intros [H|H]; [exact H|discriminate].
    + auto.
Qed.

(** X22: the pair that [output_OP3] reports is the best one.  For every
    entry [[a, b, s]], [a] is before [b], [s] is their similarity, and
    no pair of populated SA2s of the SA3 has a larger similarity; among
    the pairs with the same similarity none has a larger combined
    population, and among those with the same combined population as
    well, [(a, b)] is the first in the order of the names. *)
Theorem output_OP3_best_pair pop_rows lookup :
  exists out,
    output_OP3 pop_rows lookup = Ok out /\
    forall sa3 a b s group,
      dget sa3 out = Some (a, b, s) ->
      dget sa3 (build_sa3_to_sa2 pop_rows lookup) = Some group ->
      lt_str a b /\ scored group a b s /\
      forall a' b' s',
        lt_str a' b' -> scored group a' b' s' ->
        (s' <= s)%R /\
        (s' = s ->
         pair_population group a' b' <= pair_population group a b /\
         (pair_population group a' b' = pair_population group a b ->
          le_str a a' /\ (a = a' -> le_str b b'))).
Proof.
  destruct (output_OP3_entries pop_rows lookup) as [out [Hout Hspec]].
  exists out. split; [exact Hout|].
  intros sa3 a b s group Hget Hgroup.
  apply Hspec in Hget as [group' [Hg Hop]].
  rewrite Hgroup in Hg. inversion Hg; subst group'; clear Hg.
  destruct (build_well_built pop_rows lookup) as [_ Hgroups].
  pose proof (Hgroups _ _ (dget_Some_In _ _ _ Hgroup)) as Hok.
  destruct (op3_group_spec group Hok) as [r [Hr [_ [Hsc _]]]].
  rewrite Hop in Hr. inversion Hr; subst r; clear Hr.
  destruct (Hsc a b s eq_refl) as [_ [Hlt Hscored]].
  split; [exact Hlt|]. split; [exact Hscored|].
  apply (op3_group_best group a b s Hok Hop).
Qed.

End Ranking.

Module SimilarityRange.
Import PyStr Project2 Bounds Cosine Similarity Pairs BestPair OP3.

Lemma op3_add_counts rows lookup d record :
  In record rows -> counts_from rows d -> counts_from rows (op3_add lookup d record).
Proof.
  intros Hr Hd. unfold op3_add.
  destruct (dget (lower (sa2_name record)) lookup) as [info|]; [|exact Hd].
  intros sa3 group sa2 ages a v H1 H2 H3.
  apply In_dset in H1 as [H1|H1]; [|eapply Hd; eauto].
  injection H1 as -> ->.
  assert (G : forall sa2 ages, In (sa2, ages) (dget_or [] (sa3_name info) d) ->
                forall a v, In (a, v) ages -> exists r, In r rows /\ population r = v).
  { apply (dget_or_ind (fun g : members =>
             forall sa2 ages, In (sa2, ages) g ->
               forall a v, In (a, v) ages -> exists r, In r rows /\ population r = v)).
    - intros ? ? [].
    - intros g Hg s2 ag Hs2 a0 v0 Ha. eapply Hd; eauto. }
  apply In_dset in H2 as [H2|H2]; [|eapply G; eauto].
  injection H2 as -> ->.
  apply In_dset in H3 as [H3|H3].
  - injection H3 as -> ->. eauto.
  - revert H3.
    apply (dget_or_ind (fun ag : dict Z =>
             In (a, v) ag -> exists r, In r rows /\ population r = v)).
    + intros [].
    + intros ag Hag Ha. eapply G; eauto.
Qed.

Lemma build_counts rows lookup :
  counts_from rows (build_sa3_to_sa2 rows lookup).
Proof.
  unfold build_sa3_to_sa2.
  assert (G : forall l d, (forall r, In r l -> In r rows) -> counts_from rows d ->
                          counts_from rows (fold_left (op3_add lookup) l d)).
  { induction l as [|r l IH]; intros d Hl Hd; cbn [fold_left]; [exact Hd|].
    apply IH; [intros; apply Hl; right; assumption|].
    apply op3_add_counts; [apply Hl; left; reflexivity|exact Hd]. }
  apply G; [auto|]. intros ? ? ? ? ? ? [].
Qed.

Lemma pop_vector_nonneg (ages : dict Z) (all_ages : list string) :
  (forall a v, In (a, v) ages -> 0 <= v) ->
  forall x, In x (pop_vector ages all_ages) -> 0 <= x.
Proof.
  intros H x Hx. unfold pop_vector in Hx. apply in_map_iff in Hx as [a [<- _]].
  unfold dget_or. destruct (dget a ages) as [v|] eqn:E; [|lia].
  apply (H a), dget_Some_In, E.
Qed.

Lemma proportions_nonneg (ages : dict Z) (all_ages : list string) :
  (forall a v, In (a, v) ages -> 0 <= v) ->
  forall x, In x (proportions ages all_ages) -> (0 <= x)%R.
Proof.
  intros H x Hx. unfold proportions in Hx. apply in_map_iff in Hx as [z [<- Hz]].
  pose proof (pop_vector_nonneg ages all_ages H) as Hv.
  pose proof (Zsum_nonneg _ Hv) as Ht. specialize (Hv z Hz).
  apply IZR_le in Hv. apply IZR_le in Ht.
  destruct (Req_dec (IZR (Zsum (pop_vector ages all_ages))) 0) as [E|N].
  - rewrite E. unfold Rdiv. rewrite Rinv_0. lra.
  - apply Rmult_le_pos; [exact Hv|]. apply Rlt_le, Rinv_0_lt_compat. lra.
Qed.

(** X23: the range of the similarities that [output_OP3] reports.  Every
    reported similarity lies between -1 and 1, and between 0 and 1 when
    no record has a negative population (as is the case of the records
    that [read_population_file] returns). *)
Theorem output_OP3_similarity_range pop_rows lookup :
  exists out,
    output_OP3 pop_rows lookup = Ok out /\
    forall sa3 a b s,
      dget sa3 out = Some (a, b, s) ->
      (-1 <= s <= 1)%R /\
      ((forall r, In r pop_rows -> 0 <= population r) -> (0 <= s <= 1)%R).
Proof.
  destruct (output_OP3_entries pop_rows lookup) as [out [Hout Hspec]].
  exists out. split; [exact Hout|].
  intros sa3 a b s Hget.
  apply Hspec in Hget as [group [Hg Hop]].
  destruct (build_well_built pop_rows lookup) as [_ Hgroups].
  pose proof (dget_Some_In _ _ _ Hg) as Hin.
  pose proof (Hgroups _ _ Hin) as Hok.
  destruct (op3_group_spec group Hok) as [r [Hr [_ [Hsc _]]]].
  rewrite Hop in Hr. inversion Hr; subst r; clear Hr.
  destruct (Hsc a b s eq_refl) as [_ [_ [ages_a [ages_b [Ha [Hb [_ [_ Hc]]]]]]]].
  destruct (cosine_similarity_bounds _ _ _ Hc) as [B1 B2].
  split; [exact B1|]. intros Hpop. split; [|apply B1]. apply B2.
  - apply proportions_nonneg. intros x v Hx.
    destruct (build_counts pop_rows lookup sa3 group a ages_a x v Hin
                (dget_Some_In _ _ _ Ha) Hx) as [r [Hr <-]]. auto.
  - apply proportions_nonneg. intros x v Hx.
    destruct (build_counts pop_rows lookup sa3 group b ages_b x v Hin
                (dget_Some_In _ _ _ Hb) Hx) as [r [Hr <-]]. auto.
Qed.

End SimilarityRange.

Module Pipeline.
Import PyStr Project2.

Lemma index_area_raises idx row e :
  index_area idx row = Raise e -> e = KeyError.
Proof.
  unfold index_area, dsub. destruct (dget "sa2 code" row); cbn; [discriminate|].
  intros H; inversion H; reflexivity.
Qed.

Lemma index_missing area :
  forall idx row,
    In row area -> dget "sa2 code" row = None ->
    foldM index_area area idx = Raise KeyError.
Proof.
  induction area as [|x area IH]; intros idx row Hin Hrow; [destruct Hin|].
  cbn [foldM]. destruct (index_area idx x) as [idx'|e] eqn:E; cbn [bind].
  - destruct Hin as [->|Hin]; [|eapply IH; eauto].
    unfold index_area, dsub in E. rewrite Hrow in E. discriminate.
  - apply index_area_raises in E. now subst.
Qed.

Lemma has_columns_code row : has_columns row -> dmem "sa2 code" row = true.
Proof.
  intros [_ [_ [_ [_ H]]]]. unfold dmem. destruct (dget "sa2 code" row); congruence.
Qed.

Lemma outputs_return cp lk :
  exists op1 op2 op3,
    output_OP1 cp lk = Ok op1 /\ output_OP2 cp lk = Ok op2 /\
    output_OP3 cp lk = Ok op3.
Proof.
  destruct (OP1.output_OP1_entries cp lk) as [op1 [H1 _]].
  destruct (OP2.output_OP2_spec cp lk) as [op2 [H2 _]].
  destruct (OP3.output_OP3_entries cp lk) as [op3 [H3 _]].
  exists op1, op2, op3. auto.
Qed.

(** X24: the exceptions of [main] of Project 2 once the two files are
    read.  When the counts of the population file convert to a float
    (they are below 2^1024 - 2^970), the only exception that leaves
    [main] is a [KeyError]: no division by zero in the standard
    deviation or the similarity, no index out of range in the maximum
    searches.  A [KeyError] does leave [main] when some row of the area
    file has no ['sa2 code'] cell (the header has no such column, or the
    line is too short), whatever the population file. *)
Theorem pipeline_errors csvfile_1 csvfile_2 :
  (records_convert (read_population_file csvfile_2) ->
   forall e, main csvfile_1 csvfile_2 = Raise e -> e = KeyError) /\
  (forall row,
      In row (read_area_file csvfile_1) -> dget "sa2 code" row = None ->
      main csvfile_1 csvfile_2 = Raise KeyError).
Proof.
  split.
  - intros _ e. unfold main.
    destruct (clean_data _ _) as [[ca cp]|e1] eqn:Hc; cbn [bind fst snd].
    + destruct (create_area_lookup ca) as [lk|e2] eqn:Hl; cbn [bind].
      * destruct (outputs_return cp lk) as [op1 [op2 [op3 [H1 [H2 H3]]]]].
        rewrite H1, H2, H3. cbn [bind]. discriminate.
      * intros H; inversion H; subst e2.
        unfold create_area_lookup in Hl.
        apply Output4.foldM_raises in Hl as [lk [row Hl]].
        apply (Lookup.lookup_step_raises _ _ _ Hl).
    + intros H; inversion H; subst e1.
      unfold clean_data in Hc.
      destruct (foldM index_area _ _) as [idx|e1] eqn:Hi; cbn [bind] in Hc;
        [discriminate|].
      inversion Hc; subst e1.
      apply Output4.foldM_raises in Hi as [idx [row Hi]].
      apply (index_area_raises _ _ _ Hi).
  - intros row Hin Hrow. unfold main, clean_data.
    rewrite (index_missing _ [] row Hin Hrow). reflexivity.
Qed.

Example short_row_raises :
  main short_area_csv population_csv_example = Raise KeyError.
Proof. reflexivity. Qed.

(** X25: [main] of Project 2 returns its three outputs whenever every
    row of the area file has the five columns that the lookup reads (the
    state name and code, under either spelling of the header, the SA3
    name and code and the SA2 code) and the counts of the population
    file convert to a float. *)
Theorem pipeline_returns csvfile_1 csvfile_2 :
  (forall row, In row (read_area_file csvfile_1) -> has_columns row) ->
  records_convert (read_population_file csvfile_2) ->
  exists out, main csvfile_1 csvfile_2 = Ok out.
Proof.
  intros Hcols _. unfold main.
  destruct (CleanData.clean_data_returns (read_area_file csvfile_1)
              (read_population_file csvfile_2)) as [[ca cp] Hc].
  { intros row Hrow. apply has_columns_code, Hcols, Hrow. }
  rewrite Hc. cbn [bind fst snd].
  destruct (Lookup.lookup_returns _ _ _ _ Hcols Hc) as [lk Hlk].
  rewrite Hlk. cbn [bind].
  destruct (outputs_return cp lk) as [op1 [op2 [op3 [H1 [H2 H3]]]]].
  rewrite H1, H2, H3. cbn [bind]. eexists. reflexivity.
Qed.

Lemma pipeline_returns_witness :
  exists out, main area_csv_example population_csv_example = Ok out.
Proof.
  apply (pipeline_returns area_csv_example population_csv_example).
  - intros row H. vm_compute in H.
    destruct H as [<-|[<-|[<-|[]]]]; repeat split; vm_compute; discriminate.
  - apply Forall_forall. intros r Hr. vm_compute in Hr.
    repeat (destruct Hr as [<-|Hr]; [vm_compute; reflexivity|]).
    destruct Hr.
Defined.

End Pipeline.

Module Deviation.
Import PyStr Project2 Statistics Correlation Bounds.

Lemma sum_sq_dev_constant (x : Z) (t : list Z) :
  constant (x :: t) = true -> sum_sq_dev (x :: t) = 0%R.
Proof.
  intros H. unfold sum_sq_dev. rewrite (constant_mean x t H).
  pose proof (proj1 (constant_cons x t) H) as Hall.
  assert (G : forall l, (forall y, In y l -> y = x) ->
            fold_right (fun (y : Z) (acc : R) =>
                          ((IZR y - IZR x) * (IZR y - IZR x) + acc)%R) 0%R l = 0%R).
  { induction l as [|y l IH]; intros Hl; [reflexivity|].
    cbn [fold_right]. rewrite IH by (intros; apply Hl; right; assumption).
    rewrite (Hl y (or_introl eq_refl)). lra. }
  apply G. intros y [<-|Hy]; [reflexivity|apply Hall, Hy].
Qed.

(** X26: the standard deviation of [calculate_sample_sd].  On fewer
    than two counts the function returns 0.0.  On counts that a float
    holds exactly (at most 2^53 in absolute value) it returns a number
    that is not negative, and 0.0 when the counts are all equal and
    their sum is at most 2^53 in absolute value as well, so that the
    running total is exact. *)
Theorem calculate_sample_sd_nonneg (numbers : list Z) :
  (list_len numbers < 2 -> calculate_sample_sd numbers = Ok 0%R) /\
  (Forall float_exact numbers ->
   exists sd,
     calculate_sample_sd numbers = Ok sd /\
     (0 <= sd)%R /\
     (constant numbers = true -> Z.abs (Zsum numbers) <= 2 ^ 53 -> sd = 0%R)).
Proof.
  split; [apply calculate_sample_sd_small|]. intros _.
  destruct (Z_lt_le_dec (list_len numbers) 2) as [H|H].
  - rewrite calculate_sample_sd_small by exact H. exists 0%R.
    split; [reflexivity|]. split; [lra|reflexivity].
  - rewrite calculate_sample_sd_large by exact H. eexists.
    split; [reflexivity|]. split.
    + apply round4_nonneg. unfold sample_sd. apply sqrt_pos.
    + intros C _. destruct numbers as [|x t]; [unfold list_len in H; cbn in H; lia|].
      unfold sample_sd. rewrite (sum_sq_dev_constant x t C).
      unfold Rdiv. rewrite Rmult_0_l, sqrt_0. apply round4_0.
Qed.

End Deviation.
